(* ===== verification/_CoqProject ===== *)
-Q . S2P
Prelude.v
External.v
Index.v
TxPos.v
HashIndex.v
Fmt.v
Headers.v
Batch.v
Store.v
StoreSpec.v
Client.v
Chain.v
ChainSpec.v
ChainSync.v
ChainQuery.v
ChainSecondary.v
LiquidIndex.v
Cache.v
CacheSpec.v
CacheSync.v
History.v
HistorySpec.v
Instances.v
LibTheorems.v
CacheTheorems.v
Merkle.v
Text.v
Daemon.v
Protocol.v
ProtocolSpec.v
Mempool.v
MempoolSpec.v
CoreRest.v
ScriptFold.v
ScriptFoldSpec.v
Adapter.v
AdapterSpec.v
Utf8.v
TorPush.v
TorPushSpec.v
Config.v
Bitcoind.v
Monitor.v
MonitorSnapshot.v
Server.v
ServerSpec.v
Deadline.v
Http.v
HttpSpec.v
HttpResponseSpec.v
RestTypes.v
Tls.v
Tasks.v
RestQuery.v
RestAddress.v
RestHandlers.v
Rest.v
RestServe.v
RestSpec.v
RestHandlersSpec.v
RestQuerySpec.v
LiquidTypes.v
LiquidRest.v
LiquidSpec.v
Web.v
WebSpec.v
Cli.v
CliSpec.v
ElectrumInstances.v
TasksSpec.v
ClientView.v
TaskInstances.v
RestInstances.v
ElectrumTheorems.v
ServerTheorems.v
TaskTheorems.v
RestTheorems.v
WebTheorems.v
LiquidTheorems.v
DriverTheorems.v
