(* ===== verification/Prelude.v ===== *)
(** * Verification of bindex

    Root file of the development, and its shared prelude.

    ** The program

    [bindex-lib] indexes the Bitcoin chain of a node: for every block it stores
    the prefixes of the hashes of all scripts created and spent, of all
    transaction ids, and the position of every transaction within its block.
    [bindex-electrum] serves wallets from such an index: an Electrum server
    (JSON-RPC on lines) and a REST API (HTTP), which share one chain adapter,
    one mempool index and one client of the node. [bindex-lib]'s cache keeps
    the histories of watched addresses in SQLite. The daemon, the command-line
    tool and the web front end put these parts together.

    ** How the parts correspond to the code

    A file models a source file, with its types as records and inductive types
    and one definition per function, under the source's names. Files ending in
    [Spec], and [ChainSync], [ChainQuery], [ChainSecondary], [CacheSync] and
    [ClientView], hold specifications and proofs; files ending in [Theorems] state the properties,
    with the inputs that show their hypotheses hold; [Instances],
    [ElectrumInstances], [TaskInstances] and [RestInstances] give the interfaces
    concrete implementations for those inputs.

    Under [src/bindex-lib/src/]:
    - [Index] (index/mod.rs), [TxPos] (index/txpos.rs), [HashIndex]
      (index/scripthash.rs, index/txid.rs), [Fmt] (fmt.rs), [Headers]
      (index/header.rs, headers.rs, lib.rs) and [Batch] ([Batch::build]): the
      rows of one block and their encodings, and the chain of headers in memory.
    - [Store] (db.rs): the database, an interface with RocksDB's laws. [StoreSpec]
      is its abstract state, a list of batches, which writing and deleting move
      forward and backward and which the scans read.
    - [Client] (client.rs): REST calls to the node, an interface too.
    - [Chain] (chain.rs): synchronization, reorgs, secondaries and lookups, on
      a state of headers and store. [ChainSpec] has the invariant [chain_inv]:
      both describe one list of batches, each built from what the node serves.
    - [Cache] (cache/mod.rs, cache/schema.sql): the tables as finite maps, the
      statements as updates of them with the constraints of the schema checked,
      [sync] inside a transaction.

    Under [src/bindex-electrum/src/]:
    - [Merkle] (merkle.rs), [Protocol] (protocol.rs), [Text] and [Utf8] (what
      the program uses of [str]), [Deadline] (deadline.rs), [Config] (config.rs),
      [Bitcoind] (bitcoind.rs), [CoreRest] (corerest.rs), [Monitor] and [MonitorSnapshot]
      (monitor.rs).
    - [Mempool] (mempool.rs): the index of unconfirmed transactions and its poll.
    - [ScriptFold] and [Adapter] (chain.rs): the fold of a script's history, the
      cache of folds, and the adapter's queries, over an interface ([RawHeaders])
      for the headers that only the Bitcoin build stores. Other threads are an arbitrary
      change of the adapter at each point where a lock is taken.
    - [TorPush] (torpush.rs): pushing a transaction through a SOCKS proxy.
    - [Server] (server.rs, session.rs): the Electrum methods and notifications,
      as functions on the state of one session and the shared state.
    - [Tasks] (the rest of server.rs, zmq.rs, main.rs, opening and refreshing in
      chain.rs, the poll's parsing in mempool.rs): the tasks, listeners and
      sessions of the running server, from [main] on. [step] is one turn of one of them on the state they
      share, an event says which turn and what it depends on from outside, and
      [run] is any sequence of turns. [Tls] (tls.rs) is what the TLS listener
      starts with.
    - [Http] (rest/http.rs), [RestTypes] (rest/types.rs, rest/format.rs and the
      derived serializers), [RestQuery] (rest/query.rs, the errors of
      rest/mod.rs, and the interfaces [Format] and [FormatReads] of what the two
      builds define differently, implemented for Bitcoin), [RestAddress] (rest/address.rs), [RestHandlers]
      (rest/handlers.rs), [Rest] (the connections of rest/mod.rs) and [RestServe]
      (its listener, permits and version probe).

    The [liquid] feature replaces the format of blocks and transactions:
    - [LiquidIndex] (fmt.rs, [Batch::build], the fetched headers of chain.rs),
      [LiquidTypes] (rest/liquid_types.rs, the other half of rest/format.rs) and
      [LiquidRest] (what differs in corerest.rs, bitcoind.rs, rest/query.rs,
      rest/address.rs and rest/handlers.rs, and rest/assets.rs); proofs in
      [LiquidSpec]. The adapter, the Electrum server and the routes of this build
      are those of [Adapter], [Server] and [RestHandlers] with [fetched_headers],
      [liquid_consensus], [liquid_format] and [liquid_reads]; [liquid_route] is
      all of them together.

    The programs on top of the library: [Daemon] (bindex-sync/src/main.rs), its
    loop and what wakes it; [Cli] (bindex-cli/src/bin/bindex-cli.rs), its rounds
    and what they print; [Web] (bindex-web/src/main.rs), its monitor, queries,
    routing and syncer, where the chain is shared under a lock, and poisoned by a
    panic. [History] is the query on the cache's tables that [Cli] and [Web] run,
    with its meaning in [HistorySpec].

    Code that is not in the repository is a type class: hashes, [VarInt], block
    slices and consensus decoding, RocksDB, HTTP agents, JSON, floats. Laws of
    it, where used, are classes of their own that state documented behaviour.

    ** What is proved

    - The index ([LibTheorems]): [sync] keeps headers and database in step
      through reorgs and says what an error leaves; a batch holds exactly the
      rows of its block; deleting undoes writing; lookups find exactly the
      transactions asked for; bytes fetched are those of the transaction; a
      secondary follows its primary; the header loop ends.
    - The address cache ([CacheTheorems]): [sync] is atomic; in every reachable
      state the tables satisfy the schema and describe one chain; a successful
      [sync] leaves exactly the rows of the current chain.
    - The chain side of the servers ([ElectrumTheorems]): histories, spenders and
      Merkle branches are those of the chain, whatever other threads do; the
      cache of folds stays bounded and consistent; the mempool index agrees with
      what the node lists; the parser of spent outputs accepts exactly the
      encodings.
    - The Electrum server ([ServerTheorems]): responses answer requests;
      notifications are exact; with Tor no transaction reaches the local node
      and a push sends nothing before the proxy connected it; subscriptions stay
      within the limit; balances agree with the lists of unspent outputs.
    - The running server ([TaskTheorems]): in every order of turns the sessions
      are answered from an index of one chain and none misses the published tip,
      which is that chain's; a history computed meanwhile is that of the index
      the server has at one moment since the query began, so what the handlers
      are given as interference is what the other tasks do; a client that
      listens ([ClientView]) knows exactly the statuses its session records; no
      announcement is lost; polls keep their distance.
    - The REST API ([RestTheorems]): requests are framed as specified, bounded,
      and read back; responses are read back; connections answer every
      pipelined request once, in order, end, and close after what is no request;
      connections and expensive queries stay within their limits;
      submissions stay private; spenders, unspent outputs, merged histories,
      mempool pages and fee bins are exact.
    - The daemon and the command-line tool ([DriverTheorems]): the daemon keeps
      the index in step in every state it reaches and wakes up for every
      announcement; the tool prints the history of the watched addresses when the
      tip changes, and computing it never overflows or fails an assertion.
    - The web front end ([WebTheorems]): an address's history and a transaction's
      report are those of the chain; requests are counted once; the syncer's
      rounds end with the chain in step.
    - The Liquid build ([LiquidTheorems]): a batch holds exactly the rows of its
      block and positions cut out its transactions; fetched headers are those
      indexed; block times, unspent outputs and the prevouts of a block's
      transactions are read from those headers and from funding transactions;
      requests for assets reach the upstream unaltered.

    ** Results, integers, fuel

    [outcome] has [Ok], [Err] and [Panic]; [stM] threads a state that survives
    errors. Integers are [Z] with the wrap-around or the check of the code
    written out; where a debug and a release build differ, the build is an
    argument. Loops are structural, or take fuel: [fetch_new_headers] one round
    more than there are headers ([fetch_new_headers_terminates]); the loop over
    header lines one round more than the limit on headers; the parser of spent
    outputs one round more than there are bytes; splitting headers the length of
    the data; the optimistic loop of the adapter its number of attempts; the
    eviction of the cache of folds the number of its entries. Each is enough:
    the theorems about these operations would fail on a loop cut short.

    ** Not modelled

    - The Liquid chain as a whole: its blocks, batches, header rows and fetched
      headers are modelled, but synchronization, the invariant [chain_inv] and
      what the servers answer by it are stated for the Bitcoin index. What does
      not rest on it is shown for either build.
    - Sockets, timers and channels themselves: whether a timer fires, a client
      sends or a write succeeds is in the events; [tokio]'s and [rustls]'s parts
      are interfaces. A turn of a session is one step whose handler sees arbitrary
      interference, since nothing else reads the state of a session.
    - Command-line parsing: [main] starts from a configuration.
    - Disk errors of SQLite. *)

From stdpp Require Export base tactics numbers list gmap sorting strings.

#[global] Set Default Goal Selector "!".
#[global] Open Scope Z_scope.
#[global] Set Warnings "-clear-no-such-hyp".

(** ** Results of Rust code

    [Ok]/[Err] are Rust's [Result]; [Panic] is an unwinding panic ([expect],
    [assert!], slice indexing), kept apart from errors: it ends the task or the
    thread it happens in. *)
Inductive outcome (E A : Type) : Type :=
| Ok (a : A)
| Err (e : E)
| Panic (msg : string).

Arguments Ok {E A} a.
Arguments Err {E A} e.
Arguments Panic {E A} msg.

#[export] Instance outcome_ret {E} : MRet (outcome E) := λ A a, Ok a.
#[export] Instance outcome_bind {E} : MBind (outcome E) := λ A B f m,
  match m with Ok a => f a | Err e => Err e | Panic p => Panic p end.
#[export] Instance outcome_fmap {E} : FMap (outcome E) := λ A B f m,
  match m with Ok a => Ok (f a) | Err e => Err e | Panic p => Panic p end.

(** [Result::map_err]: the [From] conversions behind the [?] operator. *)
Definition map_err {E F A} (f : E → F) (m : outcome E A) : outcome F A :=
  match m with Ok a => Ok a | Err e => Err (f e) | Panic p => Panic p end.

(** [Option::expect], [Option::ok_or] and [assert!]. *)
Definition expect {E A} (msg : string) (o : option A) : outcome E A :=
  match o with Some a => Ok a | None => Panic msg end.
Definition ok_or {E A} (e : E) (o : option A) : outcome E A :=
  match o with Some a => Ok a | None => Err e end.
Definition assert_that {E} (msg : string) (b : bool) : outcome E () :=
  if b then Ok () else Panic msg.

Definition is_ok {E A} (m : outcome E A) : bool :=
  match m with Ok _ => true | _ => false end.

(** A loop in the error monad: [for x in xs { s = f(s, x)?; }]. *)
Fixpoint foldM {E S A} (f : S → A → outcome E S) (s : S) (l : list A) : outcome E S :=
  match l with
  | [] => Ok s
  | x :: l => s ← f s x; foldM f s l
  end.

Section outcome.
Context {E A B : Type}.
Implicit Types (m : outcome E A) (f : A → outcome E B).

Lemma bind_ok m f b : (m ≫= f) = Ok b ↔ ∃ a, m = Ok a ∧ f a = Ok b.
Proof.
  destruct m as [a| |]; cbn; split; try (intros (? & [=] & ?); congruence);
    solve [eauto | discriminate].
Qed.

Lemma map_err_ok {F} (g : E → F) m a : map_err g m = Ok a ↔ m = Ok a.
Proof. destruct m; cbn; split; congruence. Qed.

Lemma expect_ok msg (o : option A) a :
  expect (E := E) msg o = Ok a ↔ o = Some a.
Proof. destruct o; cbn; split; congruence. Qed.

Lemma ok_or_ok (e : E) (o : option A) a : ok_or e o = Ok a ↔ o = Some a.
Proof. destruct o; cbn; split; congruence. Qed.

Lemma assert_ok msg b u : assert_that (E := E) msg b = Ok u ↔ b = true.
Proof. destruct b, u; cbn; split; congruence. Qed.
Lemma foldM_app {S} (g : S → A → outcome E S) s l1 l2 :
  foldM g s (l1 ++ l2) = s ← foldM g s l1; foldM g s l2.
Proof.
  revert s. induction l1 as [|x l1 IH]; intros s; [done|]. cbn.
  destruct (g s x); cbn; [apply IH|done..].
Qed.
End outcome.

(** [osimpl] runs the monadic operations whose result is known. *)
Tactic Notation "osimpl" :=
  cbn [expect ok_or map_err assert_that mbind mret fmap outcome_bind outcome_ret outcome_fmap].
Tactic Notation "osimpl" "in" hyp(H) :=
  cbn [expect ok_or map_err assert_that mbind mret fmap outcome_bind outcome_ret outcome_fmap] in H.

(** [inv_ok] decomposes every hypothesis that says a monadic computation
    succeeded into the success of each of its steps. *)
Ltac inv_ok :=
  repeat match goal with
  | H : (_ ≫= _) = Ok _ |- _ => apply bind_ok in H as (? & ? & H)
  | H : map_err _ _ = Ok _ |- _ => apply map_err_ok in H
  | H : expect _ _ = Ok _ |- _ => apply expect_ok in H
  | H : ok_or _ _ = Ok _ |- _ => apply ok_or_ok in H
  | H : assert_that _ _ = Ok _ |- _ => apply assert_ok in H
  | H : mret _ = Ok _ |- _ => injection H as H
  | H : Ok _ = Ok _ |- _ => injection H as H
  | H : Err _ = Ok _ |- _ => discriminate H
  | H : Panic _ = Ok _ |- _ => discriminate H
  end.

(** *** Code that changes a state

    A method on [&mut self] returns its result and the state it leaves, on
    errors too: what was changed before an error stays changed. *)
Definition stM (S E A : Type) : Type := S → outcome E A * S.
#[export] Instance stM_ret {S E} : MRet (stM S E) := λ A a s, (Ok a, s).
#[export] Instance stM_bind {S E} : MBind (stM S E) := λ A B f m s,
  match m s with
  | (Ok a, s) => f a s
  | (Err e, s) => (Err e, s)
  | (Panic p, s) => (Panic p, s)
  end.

Definition st_lift {S E A} (m : outcome E A) : stM S E A := λ s, (m, s).
Definition st_get {S E} : stM S E S := λ s, (Ok s, s).
Definition st_put {S E} (s : S) : stM S E () := λ _, (Ok tt, s).
Definition st_map_err {S E F A} (f : E → F) (m : stM S E A) : stM S F A := λ s,
  let '(r, s) := m s in (map_err f r, s).
(** A [match] on a [Result]: the error becomes a value. *)
Definition st_try {S E F A} (m : stM S E A) : stM S F (E + A) := λ s,
  match m s with
  | (Ok a, s) => (Ok (inr a), s)
  | (Err e, s) => (Ok (inl e), s)
  | (Panic p, s) => (Panic p, s)
  end.
(** Code that works on one part of the state. *)
Definition st_fst {S T E A} (m : stM S E A) : stM (S * T) E A := λ '(s, t),
  let '(r, s) := m s in (r, (s, t)).
Definition st_snd {S T E A} (m : stM T E A) : stM (S * T) E A := λ '(s, t),
  let '(r, t) := m t in (r, (s, t)).
Fixpoint st_foldM {S E A B} (f : B → A → stM S E B) (b : B) (l : list A) : stM S E B :=
  match l with
  | [] => mret b
  | x :: l => b ← f b x; st_foldM f b l
  end.

Section stM.
Context {S T E A B : Type}.

Lemma st_bind_ok (m : stM S E A) (f : A → stM S E B) s b s' :
  (m ≫= f) s = (Ok b, s') ↔ ∃ a s1, m s = (Ok a, s1) ∧ f a s1 = (Ok b, s').
Proof.
  unfold mbind, stM_bind. destruct (m s) as [[a| |] s1]; split; intros; naive_solver.
Qed.
Lemma st_lift_ok (m : outcome E A) (s : S) a s' :
  st_lift m s = (Ok a, s') ↔ m = Ok a ∧ s' = s.
Proof. unfold st_lift. naive_solver. Qed.
Lemma st_ret_ok (a b : A) (s s' : S) :
  (mret a : stM S E A) s = (Ok b, s') ↔ b = a ∧ s' = s.
Proof. unfold mret, stM_ret. naive_solver. Qed.
Lemma st_map_err_ok {F} (f : E → F) (m : stM S E A) s a s' :
  st_map_err f m s = (Ok a, s') ↔ m s = (Ok a, s').
Proof. unfold st_map_err. destruct (m s) as [[]]; cbn; naive_solver. Qed.
Lemma st_snd_ok (m : stM T E A) (s s' : S) t t' a :
  st_snd m (s, t) = (Ok a, (s', t')) ↔ m t = (Ok a, t') ∧ s' = s.
Proof. unfold st_snd. destruct (m t); naive_solver. Qed.
Lemma st_fst_ok (m : stM S E A) (s s' : S) (t t' : T) a :
  st_fst m (s, t) = (Ok a, (s', t')) ↔ m s = (Ok a, s') ∧ t' = t.
Proof. unfold st_fst. destruct (m s); naive_solver. Qed.
Lemma st_try_ok {F} (m : stM S E A) s r s' :
  st_try (F := F) m s = (Ok r, s') ↔
  (∃ a, m s = (Ok a, s') ∧ r = inr a) ∨ (∃ e, m s = (Err e, s') ∧ r = inl e).
Proof. unfold st_try. destruct (m s) as [[]]; naive_solver. Qed.
End stM.

(** ** Machine integers

    A [w]-bit unsigned integer is a [Z] in [0, 2^w). [wrapN] is the arithmetic
    of a release build (no overflow checks); [checked_add32] and [checked_sub]
    are the [checked_*] methods. *)
Definition is_u8 (z : Z) : Prop := 0 ≤ z < 2 ^ 8.
Definition is_u32 (z : Z) : Prop := 0 ≤ z < 2 ^ 32.
Definition is_u64 (z : Z) : Prop := 0 ≤ z < 2 ^ 64.

Definition wrap8 (z : Z) : Z := z mod 2 ^ 8.
Definition wrap32 (z : Z) : Z := z mod 2 ^ 32.
Definition wrap64 (z : Z) : Z := z mod 2 ^ 64.

(** [x as i64] for an unsigned 64-bit [x], and back. *)
Definition as_i64 (z : Z) : Z := (z + 2 ^ 63) mod 2 ^ 64 - 2 ^ 63.

Definition checked_add32 (a b : Z) : option Z :=
  if a + b <? 2 ^ 32 then Some (a + b) else None.
Definition checked_sub (a b : Z) : option Z :=
  if b <=? a then Some (a - b) else None.

(** [u32::try_from] and friends. *)
Definition try_into_u8 (z : Z) : option Z :=
  if bool_decide (0 ≤ z < 2 ^ 8) then Some z else None.
Definition try_into_u32 (z : Z) : option Z :=
  if bool_decide (0 ≤ z < 2 ^ 32) then Some z else None.

Lemma wrap32_small z : is_u32 z → wrap32 z = z.
Proof. apply Z.mod_small. Qed.
Lemma wrap64_small z : is_u64 z → wrap64 z = z.
Proof. apply Z.mod_small. Qed.
Lemma wrap32_u32 z : is_u32 (wrap32 z).
Proof. apply Z.mod_pos_bound. lia. Qed.
Lemma as_i64_small z : - 2 ^ 63 ≤ z < 2 ^ 63 → as_i64 z = z.
Proof. intros. unfold as_i64. rewrite Z.mod_small; lia. Qed.

Lemma checked_add32_Some a b c :
  checked_add32 a b = Some c ↔ c = a + b ∧ a + b < 2 ^ 32.
Proof.
  unfold checked_add32. destruct (Z.ltb_spec (a + b) (2 ^ 32)); naive_solver lia.
Qed.
Lemma checked_sub_Some a b c : checked_sub a b = Some c ↔ c = a - b ∧ b ≤ a.
Proof.
  unfold checked_sub. destruct (Z.leb_spec b a); naive_solver lia.
Qed.
Lemma try_into_u32_Some z c : try_into_u32 z = Some c ↔ c = z ∧ is_u32 z.
Proof. unfold try_into_u32, is_u32. case_bool_decide; naive_solver. Qed.
Lemma try_into_u8_Some z c : try_into_u8 z = Some c ↔ c = z ∧ is_u8 z.
Proof. unfold try_into_u8, is_u8. case_bool_decide; naive_solver. Qed.

Lemma try_into_u32_ok z : is_u32 z → try_into_u32 z = Some z.
Proof. intros. by apply try_into_u32_Some. Qed.
Lemma try_into_u8_ok z : is_u8 z → try_into_u8 z = Some z.
Proof. intros. by apply try_into_u8_Some. Qed.
Lemma checked_sub_ok a b : b ≤ a → checked_sub a b = Some (a - b).
Proof. intros. by apply checked_sub_Some. Qed.
Lemma checked_add32_ok a b : a + b < 2 ^ 32 → checked_add32 a b = Some (a + b).
Proof. intros. by apply checked_add32_Some. Qed.

(** ** Bytes

    A byte is a [Z] in [0, 256); a byte string is a list of them. *)
Abbreviation bytes := (list Z) (only parsing).

Definition bytes_wf (b : bytes) : Prop := Forall is_u8 b.

(** [u32::to_be_bytes] ([n = 4]) and [u32::from_be_bytes]. *)
Fixpoint to_be_bytes (n : nat) (z : Z) : bytes :=
  match n with
  | O => []
  | S n => (z / 256 ^ Z.of_nat n) mod 256 :: to_be_bytes n z
  end.
Definition from_be_bytes (b : bytes) : Z := foldl (λ acc x, acc * 256 + x) 0 b.
#[global] Arguments from_be_bytes : simpl never.

Lemma to_be_bytes_length n z : length (to_be_bytes n z) = n.
Proof. induction n; simpl; congruence. Qed.

Lemma to_be_bytes_wf n z : bytes_wf (to_be_bytes n z).
Proof.
  induction n; simpl; constructor; [|done].
  apply Z.mod_pos_bound. lia.
Qed.

Lemma from_be_bytes_acc b acc :
  foldl (λ acc x, acc * 256 + x) acc b =
  acc * 256 ^ Z.of_nat (length b) + from_be_bytes b.
Proof.
  unfold from_be_bytes. revert acc. induction b as [|x b IH]; intros acc; cbn [foldl length].
  - rewrite Z.pow_0_r. lia.
  - rewrite (IH (acc * 256 + x)), (IH (0 * 256 + x)), Nat2Z.inj_succ, Z.pow_succ_r by lia.
    lia.
Qed.

Lemma from_be_bytes_cons x b :
  from_be_bytes (x :: b) = x * 256 ^ Z.of_nat (length b) + from_be_bytes b.
Proof. unfold from_be_bytes at 1. cbn [foldl]. rewrite from_be_bytes_acc. lia. Qed.

Lemma from_to_be_bytes_mod n z :
  from_be_bytes (to_be_bytes n z) = z mod 256 ^ Z.of_nat n.
Proof.
  induction n as [|n IH].
  - cbn. by rewrite Z.mod_1_r.
  - cbn [to_be_bytes]. rewrite from_be_bytes_cons, to_be_bytes_length, IH.
    rewrite Nat2Z.inj_succ, Z.pow_succ_r by lia.
    rewrite (Z.mul_comm 256), Z.rem_mul_r by lia. lia.
Qed.

Lemma from_to_be_bytes n z :
  0 ≤ z < 256 ^ Z.of_nat n → from_be_bytes (to_be_bytes n z) = z.
Proof. intros. rewrite from_to_be_bytes_mod. by apply Z.mod_small. Qed.

Lemma from_to_be_bytes4 z : is_u32 z → from_be_bytes (to_be_bytes 4 z) = z.
Proof. intros. by apply from_to_be_bytes. Qed.

Lemma from_be_bytes_bound b :
  bytes_wf b → 0 ≤ from_be_bytes b < 256 ^ Z.of_nat (length b).
Proof.
  induction 1 as [|x b Hx Hb IH]; [done|].
  rewrite from_be_bytes_cons. cbn [length].
  rewrite Nat2Z.inj_succ, Z.pow_succ_r by lia. unfold is_u8 in Hx. nia.
Qed.

Lemma from_be_bytes_inj a b :
  bytes_wf a → bytes_wf b → length a = length b →
  from_be_bytes a = from_be_bytes b → a = b.
Proof.
  intros Ha. revert b. induction Ha as [|x a Hx Ha IH]; intros [|y b] Hb; try done.
  apply Forall_cons in Hb as [Hy Hb]. cbn [length]. intros [= Hl].
  rewrite !from_be_bytes_cons, <-Hl. intros Heq.
  pose proof (from_be_bytes_bound a Ha). pose proof (from_be_bytes_bound b Hb) as Hbb.
  rewrite <-Hl in Hbb. unfold is_u8 in *.
  assert (x = y) as -> by nia. f_equal. apply IH; [done..|nia].
Qed.

Lemma to_from_be_bytes b :
  bytes_wf b → to_be_bytes (length b) (from_be_bytes b) = b.
Proof.
  intros Hb. apply from_be_bytes_inj; auto using to_be_bytes_wf, to_be_bytes_length.
  apply from_to_be_bytes, from_be_bytes_bound, Hb.
Qed.

(** *** Lexicographic order of byte strings

    The order of RocksDB's default comparator and of [Ord] on [[u8; N]]. *)
Fixpoint bytes_leb (a b : bytes) : bool :=
  match a, b with
  | [], _ => true
  | _ :: _, [] => false
  | x :: a, y :: b => if x <? y then true else if y <? x then false else bytes_leb a b
  end.
Definition bytes_le (a b : bytes) : Prop := bytes_leb a b = true.
Definition bytes_lt (a b : bytes) : Prop := bytes_le a b ∧ a ≠ b.

#[export] Instance bytes_le_dec : RelDecision bytes_le.
Proof. intros a b. unfold bytes_le. apply _. Defined.
#[export] Instance bytes_lt_dec : RelDecision bytes_lt.
Proof. intros a b. unfold bytes_lt. apply _. Defined.

Lemma bytes_le_cons x y a b :
  bytes_le (x :: a) (y :: b) ↔ x < y ∨ (x = y ∧ bytes_le a b).
Proof.
  unfold bytes_le. cbn.
  destruct (Z.ltb_spec x y), (Z.ltb_spec y x); intuition (lia || congruence).
Qed.

#[export] Instance bytes_le_refl : Reflexive bytes_le.
Proof. intros a. induction a; [done|]. apply bytes_le_cons. auto. Qed.
#[export] Instance bytes_le_trans : Transitive bytes_le.
Proof.
  intros a. induction a as [|x a IH]; intros [|y b] [|z c]; try done.
  rewrite !bytes_le_cons. intros [?|[-> ?]] [?|[-> ?]]; [left; lia..|].
  right. eauto.
Qed.
#[export] Instance bytes_le_antisymm : AntiSymm (=) bytes_le.
Proof.
  intros a. induction a as [|x a IH]; intros [|y b]; try done.
  rewrite !bytes_le_cons. intros [?|[-> ?]] [?|[? ?]]; try lia. f_equal; auto.
Qed.
#[export] Instance bytes_le_total : Total bytes_le.
Proof.
  intros a. induction a as [|x a IH]; intros [|y b]; [by left|by left|by right|].
  rewrite !bytes_le_cons. destruct (IH b), (Z.lt_trichotomy x y) as [?|[?|?]]; auto.
Qed.
#[export] Instance bytes_le_preorder : PreOrder bytes_le := {}.

Lemma bytes_lt_nle a b : bytes_lt a b ↔ ¬ bytes_le b a.
Proof.
  split.
  - intros [Hab Hne] Hba. by apply Hne, (anti_symm bytes_le).
  - intros Hn. destruct (total bytes_le a b) as [H|H]; [|done].
    split; [done|]. by intros ->.
Qed.

(** Big-endian encoding makes the lexicographic and the numeric order agree
    (the reason [TxNum] is serialized big-endian). *)
Lemma to_be_bytes_le n x y :
  0 ≤ x < 256 ^ Z.of_nat n → 0 ≤ y < 256 ^ Z.of_nat n →
  bytes_le (to_be_bytes n x) (to_be_bytes n y) ↔ x ≤ y.
Proof.
  intros Hx Hy.
  assert (∀ a b, length a = length b → bytes_wf a → bytes_wf b →
    bytes_le a b ↔ from_be_bytes a ≤ from_be_bytes b) as Hgen.
  { clear. intros a. induction a as [|x a IH]; intros [|y b]; try done.
    cbn [length]. intros [= Hl] [Hx Ha]%Forall_cons [Hy Hb]%Forall_cons.
    rewrite bytes_le_cons, (IH b), !from_be_bytes_cons, <-Hl by done.
    pose proof (from_be_bytes_bound a Ha). pose proof (from_be_bytes_bound b Hb) as Hbb.
    rewrite <-Hl in Hbb. unfold is_u8 in *. split.
    - intros [?|[-> ?]]; nia.
    - intros ?. destruct (Z.lt_trichotomy x y) as [?|[?|?]]; [by left|by right; nia|nia]. }
  rewrite Hgen by (rewrite ?to_be_bytes_length; auto using to_be_bytes_wf).
  by rewrite !from_to_be_bytes.
Qed.

Lemma bytes_le_app_l p a b : bytes_le (p ++ a) (p ++ b) ↔ bytes_le a b.
Proof. induction p; [done|]. cbn. rewrite bytes_le_cons, IHp. naive_solver lia. Qed.

(** [slice::starts_with]. *)
Definition starts_with (b p : bytes) : bool := bool_decide (take (length p) b = p).

Lemma starts_with_spec b p : starts_with b p = true ↔ ∃ t, b = p ++ t.
Proof.
  unfold starts_with. rewrite bool_decide_eq_true. split.
  - intros H. exists (drop (length p) b). by rewrite <-H at 1; rewrite take_drop.
  - intros [t ->]. apply take_app_length.
Qed.

(** ** Slices *)

(** [slice::windows(2)]. *)
Definition windows2 {A} (l : list A) : list (A * A) := zip l (tail l).

(** [slice::chunks(n)], with the length as fuel: every chunk of a non-empty
    slice takes at least one element when [n] is positive. *)
Fixpoint chunks_fuel {A} (fuel n : nat) (l : list A) : list (list A) :=
  match fuel, l with
  | S fuel, _ :: _ => take n l :: chunks_fuel fuel n (drop n l)
  | _, _ => []
  end.
Definition chunks {A} (n : nat) (l : list A) : list (list A) :=
  chunks_fuel (length l) n l.

(** [slice::partition_point], on a slice the predicate partitions: the number
    of leading elements that satisfy it. *)
Fixpoint partition_point {A} (p : A → bool) (l : list A) : nat :=
  match l with
  | [] => O
  | x :: l => if p x then S (partition_point p l) else O
  end.

(** [iter().position(p)]. *)
Fixpoint position {A} (p : A → bool) (l : list A) : option nat :=
  match l with
  | [] => None
  | x :: l => if p x then Some O else S <$> position p l
  end.

Section slices.
Context {A : Type}.
Implicit Types (l : list A) (n : nat).

Lemma chunks_fuel_enough f n l :
  (0 < n)%nat → (length l ≤ f)%nat → chunks_fuel f n l = chunks n l.
Proof.
  intros Hn. revert l. unfold chunks.
  induction f as [f IH] using lt_wf_ind. intros [|x l] Hl; [by destruct f|].
  destruct f as [|f]; [simpl in Hl; lia|].
  cbn [chunks_fuel length]. f_equal.
  assert (length (drop n (x :: l)) ≤ length l)%nat
    by (rewrite length_drop; cbn [length]; lia).
  cbn [length] in Hl. rewrite (IH f) by lia. symmetry.
  destruct (decide (length l = f)) as [->|]; apply IH; lia.
Qed.

Lemma chunks_nil n : chunks n [] = ([] : list (list A)).
Proof. done. Qed.

Lemma chunks_unfold n l :
  (0 < n)%nat → l ≠ [] → chunks n l = take n l :: chunks n (drop n l).
Proof.
  intros Hn Hl. destruct l as [|x l]; [done|].
  unfold chunks at 1. cbn [length chunks_fuel]. f_equal.
  apply chunks_fuel_enough; [done|]. rewrite length_drop. simpl. lia.
Qed.

(** Induction along the chunks of a slice. *)
Lemma chunks_ind n (P : list A → list (list A) → Prop) :
  (0 < n)%nat →
  P [] [] →
  (∀ l, l ≠ [] → P (drop n l) (chunks n (drop n l)) →
        P l (take n l :: chunks n (drop n l))) →
  ∀ l, P l (chunks n l).
Proof.
  intros Hn H0 HS l. induction l as [l IH] using (induction_ltof1 _ length).
  destruct (decide (l = [])) as [->|Hl]; [done|].
  rewrite chunks_unfold by done. apply HS; [done|]. apply IH.
  unfold ltof. rewrite length_drop. destruct l; [done|simpl; lia].
Qed.

Lemma chunks_concat n l : (0 < n)%nat → concat (chunks n l) = l.
Proof.
  intros Hn. apply (chunks_ind n (λ l cs, concat cs = l)); [done..|].
  intros l' _ IH. cbn. by rewrite IH, take_drop.
Qed.

Lemma chunks_sizes n l :
  (0 < n)%nat → Forall (λ c, c ≠ [] ∧ (length c ≤ n)%nat) (chunks n l).
Proof.
  intros Hn. apply (chunks_ind n (λ _, Forall _)); [done|constructor|].
  intros l' Hl' IH. constructor; [|done]. rewrite length_take. split; [|lia].
  destruct l', n; done || lia.
Qed.

Lemma length_windows2 l : length (windows2 l) = (length l - 1)%nat.
Proof. unfold windows2. rewrite length_zip_with. destruct l; cbn [tail length]; lia. Qed.

Lemma windows2_lookup l i x y :
  windows2 l !! i = Some (x, y) ↔ l !! i = Some x ∧ l !! S i = Some y.
Proof.
  unfold windows2. rewrite lookup_zip_with, bind_Some. rewrite lookup_tail. split.
  - intros (a & ? & (b & ? & [= <- <-])%bind_Some). done.
  - intros [Hx Hy]. exists x. by rewrite Hy.
Qed.

Lemma partition_point_le p l : (partition_point p l ≤ length l)%nat.
Proof. induction l; simpl; [lia|]. case_match; lia. Qed.

Lemma partition_point_lt p l i x :
  (i < partition_point p l)%nat → l !! i = Some x → p x = true.
Proof.
  revert i. induction l as [|y l IH]; intros i; simpl; [lia|].
  case_match; [|lia]. destruct i as [|i]; simpl; [naive_solver|].
  intros ?. apply IH. lia.
Qed.

Lemma partition_point_eq p l x :
  l !! partition_point p l = Some x → p x = false.
Proof. induction l as [|y l IH]; simpl; [done|]. case_match; naive_solver. Qed.

Lemma position_Some p l i :
  position p l = Some i ↔
  ∃ x, l !! i = Some x ∧ p x = true ∧
       ∀ j y, (j < i)%nat → l !! j = Some y → p y = false.
Proof.
  revert i. induction l as [|x l IH]; intros i; cbn; [naive_solver|].
  case_match eqn:Hp; [|rewrite fmap_Some; setoid_rewrite IH].
  - split; [intros [= <-]; exists x; naive_solver lia|].
    intros (y & Hy & Hpy & Hmin). destruct i; [done|].
    specialize (Hmin O x ltac:(lia) eq_refl). congruence.
  - split.
    + intros (j & (y & Hy & Hpy & Hmin) & ->). exists y. split_and!; [done..|].
      intros [|k] z ?; simpl; [congruence|]. intros. eapply Hmin; [|done]. lia.
    + intros (y & Hy & Hpy & Hmin). destruct i as [|i]; cbn in Hy; [congruence|].
      exists i. split; [|done]. exists y. split_and!; [done..|].
      intros j z ? ?. apply (Hmin (S j)); [lia|done].
Qed.
End slices.

#[global] Arguments chunks : simpl never.
#[global] Arguments windows2 : simpl never.

(** Sum of a list of integers ([iter().sum()] where no overflow occurs). *)
Fixpoint sumZ (l : list Z) : Z :=
  match l with [] => 0 | x :: l => x + sumZ l end.

Lemma sumZ_app a b : sumZ (a ++ b) = sumZ a + sumZ b.
Proof. induction a; cbn; [lia|]. rewrite IHa. lia. Qed.
Lemma sumZ_perm a b : a ≡ₚ b → sumZ a = sumZ b.
Proof. induction 1; cbn; lia. Qed.
Lemma sumZ_nonneg l : Forall (λ z, 0 ≤ z) l → 0 ≤ sumZ l.
Proof. induction 1; cbn; lia. Qed.

(** ** Sorted lists *)

Lemma StronglySorted_lookup_lt {A} (R : relation A) l i j a b :
  StronglySorted R l → (i < j)%nat → l !! i = Some a → l !! j = Some b → R a b.
Proof.
  intros Hs Hij Ha Hb. rewrite <-(take_drop j l) in Hs.
  eapply (StronglySorted_app_1_elem_of _ _ _ _ _ Hs); apply list_elem_of_lookup.
  - exists i. rewrite lookup_take_lt; done.
  - exists O. by rewrite lookup_drop, Nat.add_0_r.
Qed.

(** A list sorted by a strict key order is determined by its elements. *)
Lemma sorted_by_key_unique {A B} (R : relation B) (f : A → B) l1 l2 :
  Irreflexive R → Transitive R →
  StronglySorted R (f <$> l1) → StronglySorted R (f <$> l2) →
  (∀ x, x ∈ l1 ↔ x ∈ l2) → l1 = l2.
Proof.
  intros Hirr Htr. revert l2. induction l1 as [|x l1 IH]; intros l2 Hs1 Hs2 Heq.
  { destruct l2 as [|y l2]; [done|]. specialize (Heq y). set_solver. }
  destruct l2 as [|y l2]; [specialize (Heq x); set_solver|].
  cbn [fmap list_fmap] in *.
  apply StronglySorted_inv in Hs1 as [Hs1 Hx], Hs2 as [Hs2 Hy].
  rewrite Forall_forall in Hx, Hy.
  assert (x = y) as ->.
  { pose proof (proj1 (Heq x) ltac:(set_solver)) as [?|Hxy]%elem_of_cons; [done|].
    pose proof (proj2 (Heq y) ltac:(set_solver)) as [?|Hyx]%elem_of_cons; [done|].
    exfalso. apply (Hirr (f x)). transitivity (f y).
    - apply Hx, list_elem_of_fmap. eauto.
    - apply Hy, list_elem_of_fmap. eauto. }
  f_equal. apply IH; [done..|]. intros z. specialize (Heq z).
  rewrite !elem_of_cons in Heq. split; intros Hz.
  - destruct (proj1 Heq (or_intror Hz)) as [->|]; [|done]. exfalso.
    apply (Hirr (f y)), Hx, list_elem_of_fmap. eauto.
  - destruct (proj2 Heq (or_intror Hz)) as [->|]; [|done]. exfalso.
    apply (Hirr (f y)), Hy, list_elem_of_fmap. eauto.
Qed.

#[export] Instance bytes_lt_irrefl : Irreflexive bytes_lt.
Proof. by intros a [_ ?]. Qed.
#[export] Instance bytes_lt_trans : Transitive bytes_lt.
Proof.
  intros a b c [Hab Hne] [Hbc Hne']. split; [by etrans|]. intros ->.
  by apply Hne, (anti_symm bytes_le).
Qed.

(** Keys past the first one without a prefix lie beyond all keys with it. *)
Lemma bytes_lt_prefix p a b k :
  bytes_le (p ++ a) k → starts_with k p = false → bytes_lt (p ++ b) k.
Proof.
  revert k. induction p as [|x p IH]; intros k.
  { intros _. unfold starts_with. cbn. by rewrite take_0. }
  cbn [app]. destruct k as [|y k]; [done|].
  intros [?|[-> Hle]]%bytes_le_cons Hk.
  - apply bytes_lt_nle. rewrite bytes_le_cons. lia.
  - assert (bytes_lt (p ++ b) k) as [Hlt Hne].
    { apply IH; [done|]. apply not_true_iff_false. intros [t ->]%starts_with_spec.
      apply not_true_iff_false in Hk. apply Hk, starts_with_spec. by exists t. }
    split; [apply bytes_le_cons; by right|congruence].
Qed.

(** *** [sort_by_key]: a stable sort on a key *)
Definition key_rel {A B} (R : relation B) (f : A → B) : relation A := λ a b, R (f a) (f b).
#[export] Instance key_rel_dec {A B} (R : relation B) (f : A → B) `{!RelDecision R} :
  RelDecision (key_rel R f).
Proof. intros a b. unfold key_rel. apply _. Defined.
#[export] Instance key_rel_trans {A B} (R : relation B) (f : A → B) :
  Transitive R → Transitive (key_rel R f).
Proof. intros HT a b c. unfold key_rel. apply HT. Qed.
#[export] Instance key_rel_total {A B} (R : relation B) (f : A → B) :
  Total R → Total (key_rel R f).
Proof. intros HT a b. apply HT. Qed.
Definition sort_by {A B} (R : relation B) (f : A → B) `{!RelDecision R} (l : list A) : list A :=
  merge_sort (key_rel R f) l.

Lemma sort_by_perm {A B} (R : relation B) (f : A → B) `{!RelDecision R} l :
  sort_by R f l ≡ₚ l.
Proof. apply merge_sort_Permutation. Qed.

Lemma sort_by_sorted {A B} (R : relation B) (f : A → B) `{!RelDecision R} l :
  Transitive R → Total R → StronglySorted R (f <$> sort_by R f l).
Proof.
  intros HT HTo. unfold sort_by.
  pose proof (StronglySorted_merge_sort (key_rel R f) l) as Hs.
  induction Hs as [|x k Hs IH Hx]; [constructor|]. cbn. constructor; [done|].
  by apply Forall_fmap.
Qed.

(** Lexicographic order on pairs. *)
Definition lex_le {A B} (lt : relation A) (le : relation B) (a b : A * B) : Prop :=
  lt a.1 b.1 ∨ (a.1 = b.1 ∧ le a.2 b.2).
#[export] Instance lex_le_dec {A B} (lt : relation A) (le : relation B)
    `{!EqDecision A, !RelDecision lt, !RelDecision le} : RelDecision (lex_le lt le).
Proof. intros a b. unfold lex_le. apply _. Defined.

#[export] Instance lex_Z_trans : Transitive (lex_le Z.lt Z.le).
Proof. intros [a b] [c d] [e f]. unfold lex_le. cbn. lia. Qed.
#[export] Instance lex_Z_total : Total (lex_le Z.lt Z.le).
Proof. intros [a b] [c d]. unfold lex_le. cbn. lia. Qed.

(** ** Monadic maps *)

Lemma mapM_outcome_ok {E A B} (f : A → outcome E B) l k :
  mapM f l = Ok k ↔ Forall2 (λ x y, f x = Ok y) l k.
Proof.
  split.
  - revert k. induction l as [|x l IH]; intros k; cbn [mapM].
    + intros [= <-]. constructor.
    + intros (y & Hy & (k' & Hk & [= <-])%bind_ok)%bind_ok. constructor; auto.
  - induction 1 as [|x y l k Hx Hl IH]; [done|]. cbn [mapM].
    rewrite Hx. osimpl. rewrite IH. done.
Qed.

(** ** Filters *)

Lemma filter_all {A} (P : A → Prop) `{!∀ x, Decision (P x)} l : Forall P l → filter P l = l.
Proof. induction 1 as [|x l Hx _ IH]; [done|]. by rewrite filter_cons, decide_True, IH. Qed.
Lemma filter_none {A} (P : A → Prop) `{!∀ x, Decision (P x)} l :
  Forall (λ x, ¬ P x) l → filter P l = [].
Proof. induction 1 as [|x l Hx _ IH]; [done|]. by rewrite filter_cons, decide_False, IH. Qed.

(** ** Automation

    [bx_arith] solves arithmetic side conditions after unfolding the width
    predicates; the [bx] database holds the facts about encodings used
    everywhere. *)
Ltac bx_arith := unfold is_u8, is_u32, is_u64 in *; lia.

Create HintDb bx.
#[export] Hint Resolve to_be_bytes_wf to_be_bytes_length wrap32_u32 : bx.
Create Rewrite HintDb bxr.
#[export] Hint Rewrite @length_app @length_take @length_drop @length_fmap
  to_be_bytes_length : bxr.
