(* ===== verification/External.v ===== *)
(** * Code outside the repository

    Interfaces of the crates and services the program calls: hash functions,
    [bitcoin::VarInt], the [bitcoin_slices] block visitor, script predicates and
    RocksDB. Each interface is a class of operations and, apart from it, a class
    of the documented laws that the development relies on. [Instances] gives a
    concrete implementation of each, used to evaluate concrete inputs. *)

From S2P Require Import Prelude.

(** ** Hashes ([bitcoin_hashes]) *)

(** Hash values ([BlockHash], [Txid], [sha256::Hash]) are their 32 bytes. *)
Abbreviation hash32 := (list Z) (only parsing).
Definition HASH_LEN : nat := 32.
Definition hash_wf (h : hash32) : Prop := bytes_wf h ∧ length h = HASH_LEN.
Definition all_zeros : hash32 := replicate HASH_LEN 0.

Class Hashes := {
  sha256 : bytes → hash32;
  sha256d : bytes → hash32;
}.
Class HashLaws `{Hashes} := {
  sha256_wf b : hash_wf (sha256 b);
  sha256d_wf b : hash_wf (sha256d b);
}.

(** ** [bitcoin::VarInt] *)

Class VarInt := {
  varint_encode : Z → bytes;
  varint_decode : bytes → option (Z * bytes);  (* value, rest of the reader *)
  varint_size : Z → Z;
}.
Class VarIntLaws `{VarInt} := {
  varint_roundtrip x rest :
    is_u64 x → varint_decode (varint_encode x ++ rest) = Some (x, rest);
  varint_decode_u64 b x rest : varint_decode b = Some (x, rest) → is_u64 x;
  varint_size_length x : is_u64 x → varint_size x = Z.of_nat (length (varint_encode x));
}.

(** ** [bitcoin::Script] *)

Class ScriptOps := { is_op_return : bytes → bool }.

(** ** [bitcoin_slices]

    [bsl::Block::visit] parses a block and reports what it meets to a visitor:
    the number of transactions first, then for each transaction its outputs in
    order and the transaction itself. [bsl::scan_len] reads a compact size and
    returns it with the number of bytes read; [bsl::TxOut::parse] reads one
    output and returns its script with the number of bytes read. *)

Inductive visit_event :=
| visit_block_begin (total_transactions : Z)
| visit_tx_out (vout : Z) (script_pubkey : bytes)
| visit_transaction (raw : bytes) (txid : hash32).

Class Slices := {
  slices_error : Type;
  block_visit : bytes → list visit_event * (slices_error + bytes);
  scan_len : bytes → slices_error + (Z * nat);
  txout_parse : bytes → slices_error + (bytes * nat);
}.

(** What a well-formed block holds, for stating the laws. *)
Record slice_tx := SliceTx {
  stx_raw : bytes;
  stx_txid : hash32;
  stx_scripts : list bytes;
}.

Definition tx_events (tx : slice_tx) : list visit_event :=
  imap (λ vout script, visit_tx_out (Z.of_nat vout) script) (stx_scripts tx)
  ++ [visit_transaction (stx_raw tx) (stx_txid tx)].

Definition block_events (txs : list slice_tx) : list visit_event :=
  visit_block_begin (Z.of_nat (length txs)) :: (txs ≫= tx_events).

(** Layout of a Bitcoin block: an 80-byte header, the transaction count, the
    transactions. *)
Definition HEADER_SIZE : Z := 80.

Definition block_layout `{VarInt} (raw rest : bytes) (txs : list slice_tx) : Prop :=
  ∃ header, Z.of_nat (length header) = HEADER_SIZE ∧
    raw = header ++ varint_encode (Z.of_nat (length txs)) ++
          concat (stx_raw <$> txs) ++ rest.

Class SlicesLaws `{Slices, VarInt} := {
  block_visit_ok raw evs rest :
    block_visit raw = (evs, inr rest) →
    ∃ txs, evs = block_events txs ∧ block_layout raw rest txs ∧
           Forall (λ tx, stx_raw tx ≠ [] ∧ hash_wf (stx_txid tx)) txs;
  scan_len_ok raw n used :
    scan_len raw = inr (n, used) →
    is_u64 n ∧ (used ≤ length raw)%nat ∧ take used raw = varint_encode n;
  scan_len_encode n rest :
    is_u64 n → scan_len (varint_encode n ++ rest) = inr (n, length (varint_encode n));
}.

(** ** RocksDB *)

(** The column families of [db.rs]. *)
Inductive cf_name :=
| CONFIG_CF | HEADERS_CF | TXPOS_CF | TXID_CF | SCRIPT_HASH_CF | SPENDING_CF | FUNDING_CF.
#[export] Instance cf_name_eq_dec : EqDecision cf_name.
Proof. solve_decision. Defined.
#[export] Instance cf_name_countable : Countable cf_name.
Proof.
  refine (inj_countable'
    (λ c, match c with CONFIG_CF => 0 | HEADERS_CF => 1 | TXPOS_CF => 2 | TXID_CF => 3
                     | SCRIPT_HASH_CF => 4 | SPENDING_CF => 5 | FUNDING_CF => 6 end)
    (λ n, match n with 0 => CONFIG_CF | 1 => HEADERS_CF | 2 => TXPOS_CF | 3 => TXID_CF
                     | 4 => SCRIPT_HASH_CF | 5 => SPENDING_CF | _ => FUNDING_CF end) _).
  by intros [].
Defined.

(** Operations queued in a [WriteBatch]. *)
Inductive write_op :=
| put_cf (cf : cf_name) (k v : bytes)
| delete_cf (cf : cf_name) (k : bytes).

(** What a database holds, as seen by point lookups. *)
Abbreviation db_view := (cf_name → bytes → option bytes).

Definition view_op (v : db_view) (op : write_op) : db_view := λ cf k,
  match op with
  | put_cf cf' k' x => if decide ((cf, k) = (cf', k')) then Some x else v cf k
  | delete_cf cf' k' => if decide ((cf, k) = (cf', k')) then None else v cf k
  end.
Definition view_ops (v : db_view) (ops : list write_op) : db_view := foldl view_op v ops.

(** [write] applies a batch atomically, or fails ([None]) and applies nothing;
    [iterator_cf] with [IteratorMode::From(key, Forward)] yields the entries at
    or after [key] in key order. [flush_cf_opt] and [set_options_cf] may fail and
    change no entry; [try_catch_up_with_primary] may change all of them. Read
    errors are not modelled. *)
Class RocksDB (S : Type) := {
  rocks_get : S → db_view;
  rocks_iter_from : S → cf_name → bytes → list (bytes * bytes);
  rocks_write : S → list write_op → option S;
  rocks_flush : S → cf_name → option S;
  rocks_enable_compactions : S → cf_name → option S;
  rocks_catch_up : S → option S;
  rocks_open : string → option S;
  rocks_open_secondary : string → string → option S;
}.
Class RocksDBLaws (S : Type) `{RocksDB S} := {
  rocks_write_get s ops s' cf k :
    rocks_write s ops = Some s' → rocks_get s' cf k = view_ops (rocks_get s) ops cf k;
  rocks_iter_sorted s cf from :
    StronglySorted bytes_lt (rocks_iter_from s cf from).*1;
  rocks_iter_elem s cf from k v :
    (k, v) ∈ rocks_iter_from s cf from ↔ rocks_get s cf k = Some v ∧ bytes_le from k;
  rocks_flush_get s cf s' cf' k :
    rocks_flush s cf = Some s' → rocks_get s' cf' k = rocks_get s cf' k;
  rocks_enable_compactions_get s cf s' cf' k :
    rocks_enable_compactions s cf = Some s' → rocks_get s' cf' k = rocks_get s cf' k;
}.

(** [serde_json::from_slice] for the one-field [Config] of [db.rs]. *)
Class ConfigJson := { config_from_json : bytes → option Z }.

(** ** The node's REST interface ([ureq] over HTTP)

    One constructor per URL the program formats; a call may change the state of
    the world, so two calls may be answered differently. *)
Inductive rest_request :=
| rest_blockhashbyheight (height : Z)
| rest_headers (count : Z) (hash : hash32)
| rest_block (hash : hash32)
| rest_spenttxouts (hash : hash32)
| rest_blockpart (hash : hash32) (offset size : Z)
| rest_block_json (hash : hash32)
| rest_tx (txid : hash32)
| rest_mempool_contents.

(** [ureq::Error], and the [io::ErrorKind]s the client distinguishes. *)
Inductive http_error :=
| StatusCode (code : Z)
| IoConnectionRefused
| IoAddrNotAvailable
| BodyExceedsLimit
| HttpOther.

(** [call()] fails, or returns a response whose body can be read (in full) or
    not. *)
Class HttpAgent (W : Type) := {
  http_call : W → rest_request → (http_error + (http_error + bytes)) * W;
}.
