(* ===== verification/Index.v ===== *)
(** * Index rows: prefixes, transaction numbers and hash-prefix rows

    [bindex-lib/src/index/mod.rs]: the types of the rows the index stores, with
    their byte encodings, and the containers of fetched block data. *)

From S2P Require Import Prelude External.

(** ** Errors *)

(** [index::Error]; [Fmt] carries [fmt::Error]. *)
Inductive fmt_error :=
| FmtBitcoin
| FmtElements
| FmtMalformed (what : string).

Inductive index_error {P : Type} :=
| Decode
| Parse (e : P)
| Leftover (n : nat)
| Fmt (e : fmt_error).
Arguments index_error : clear implicits.

(** ** [Prefix] *)

Definition PREFIX_LEN : nat := 8.

(** [Prefix::new]: [hash[..8]]; hashes are 32 bytes, so the slice is in range. *)
Definition prefix_new (hash : hash32) : bytes := take PREFIX_LEN hash.

Lemma prefix_new_length h : hash_wf h → length (prefix_new h) = PREFIX_LEN.
Proof. intros [_ Hl]. unfold prefix_new. rewrite length_take, Hl. done. Qed.
Lemma prefix_new_wf h : hash_wf h → bytes_wf (prefix_new h).
Proof. intros [Hw _]. by apply Forall_take. Qed.

(** ** [TxNum] *)

(** The position of a confirmed transaction in the chain, a [u32]. *)
Abbreviation TxNum := Z (only parsing).
Definition TXNUM_LEN : nat := 4.
Definition txnum_default : TxNum := 0.

Definition offset_from (self base : TxNum) : option Z := checked_sub self base.

Definition increment_by {E} (self : TxNum) (delta : Z) : outcome E TxNum :=
  expect "txnum overflow" (checked_add32 self delta).

Definition txnum_serialize (t : TxNum) : bytes := to_be_bytes TXNUM_LEN t.
Definition txnum_deserialize (b : bytes) : TxNum := from_be_bytes b.

Lemma txnum_roundtrip t : is_u32 t → txnum_deserialize (txnum_serialize t) = t.
Proof. apply from_to_be_bytes4. Qed.

Lemma txnum_serialize_length t : length (txnum_serialize t) = TXNUM_LEN.
Proof. apply to_be_bytes_length. Qed.

(** The lexicographic order of serialized numbers is the chronological order. *)
Lemma txnum_serialize_le t u :
  is_u32 t → is_u32 u → bytes_le (txnum_serialize t) (txnum_serialize u) ↔ t ≤ u.
Proof. apply (to_be_bytes_le 4). Qed.

Lemma txnum_serialize_inj t u :
  is_u32 t → is_u32 u → txnum_serialize t = txnum_serialize u → t = u.
Proof. intros Ht Hu Heq. by rewrite <-(txnum_roundtrip t), Heq, txnum_roundtrip. Qed.

Lemma increment_by_ok {E} t d t' :
  increment_by (E := E) t d = Ok t' ↔ t' = t + d ∧ t + d < 2 ^ 32.
Proof. unfold increment_by. by rewrite expect_ok, checked_add32_Some. Qed.

(** ** [TxNumRange] *)

Record TxNumRange := { range_first : TxNum; range_next : TxNum; range_len : Z }.

Definition txnum_range_new {E} (first next : TxNum) : outcome E TxNumRange :=
  len ← expect "invalid range" (offset_from next first);
  mret {| range_first := first; range_next := next; range_len := len |}.

Definition adjacent (prev next : TxNumRange) : bool :=
  bool_decide (range_next prev = range_first next).

Lemma txnum_range_new_ok {E} a b r :
  txnum_range_new (E := E) a b = Ok r ↔ a ≤ b ∧ r = Build_TxNumRange a b (b - a).
Proof.
  unfold txnum_range_new, offset_from. rewrite bind_ok. split.
  - intros (l & Hl & Hr). apply expect_ok, checked_sub_Some in Hl as [-> ?].
    by injection Hr as <-.
  - intros [Hle ->]. exists (b - a). split; [|done]. by apply expect_ok, checked_sub_Some.
Qed.

(** ** [HashPrefixRow] *)

Record HashPrefixRow := { row_key : bytes }.
#[export] Instance HashPrefixRow_eq_dec : EqDecision HashPrefixRow.
Proof. solve_decision. Defined.

Definition ROW_LEN : nat := PREFIX_LEN + TXNUM_LEN.

Definition hash_prefix_row_new (prefix : bytes) (txnum : TxNum) : HashPrefixRow :=
  {| row_key := prefix ++ txnum_serialize txnum |}.

Definition from_bytes (key : bytes) : HashPrefixRow := {| row_key := key |}.

Definition row_txnum (r : HashPrefixRow) : TxNum :=
  txnum_deserialize (drop PREFIX_LEN (row_key r)).

Lemma row_txnum_new p t :
  length p = PREFIX_LEN → is_u32 t → row_txnum (hash_prefix_row_new p t) = t.
Proof.
  intros Hp Ht. unfold row_txnum. cbn [row_key hash_prefix_row_new].
  rewrite drop_app_length' by done. by apply txnum_roundtrip.
Qed.

Lemma row_key_inj p q t u :
  length p = PREFIX_LEN → length q = PREFIX_LEN → is_u32 t → is_u32 u →
  p ++ txnum_serialize t = q ++ txnum_serialize u → p = q ∧ t = u.
Proof.
  intros Hp Hq Ht Hu [Hpq Htu]%app_inj_1; [|congruence].
  split; [done|]. by apply txnum_serialize_inj.
Qed.

(** ** [BlockBytes] and [SpentBytes] *)

Record BlockBytes := { block_data : bytes; block_header_len : nat }.
Record SpentBytes := { spent_data : bytes }.

Section slices.
Context `{SL : !Slices}.

(** [fmt::header_len] of the Bitcoin format. *)
Definition header_len (_block : bytes) : outcome fmt_error nat :=
  Ok (Z.to_nat HEADER_SIZE).

Definition block_bytes_new {E} (data : bytes) : outcome E BlockBytes :=
  match header_len data with
  | Ok len => Ok {| block_data := data; block_header_len := len |}
  | Err _ => Panic "cannot parse block header"
  | Panic p => Panic p
  end.

(** [&self.0[..self.1]] panics when the block is shorter than its header. *)
Definition block_header {E} (b : BlockBytes) : outcome E bytes :=
  if bool_decide (block_header_len b ≤ length (block_data b))%nat
  then Ok (take (block_header_len b) (block_data b))
  else Panic "slice index out of range".

Definition parse_txs_count {E} (slice : bytes) : outcome E Z :=
  match scan_len slice with
  | inl _ => Panic "cannot parse txs count"
  | inr (n, _) => expect "txs count too large" (try_into_u32 n)
  end.

Definition block_txs_count {E} (b : BlockBytes) : outcome E Z :=
  if bool_decide (block_header_len b ≤ length (block_data b))%nat
  then parse_txs_count (drop (block_header_len b) (block_data b))
  else Panic "slice index out of range".

Definition spent_txs_count {E} (s : SpentBytes) : outcome E Z :=
  parse_txs_count (spent_data s).

Lemma block_bytes_new_ok {E} data b :
  block_bytes_new (E := E) data = Ok b ↔ b = Build_BlockBytes data 80.
Proof. cbn. split; [by intros [= <-]|by intros ->]. Qed.

Lemma parse_txs_count_u32 {E} b n : parse_txs_count (E := E) b = Ok n → is_u32 n.
Proof.
  unfold parse_txs_count. destruct (scan_len b) as [|[m u]]; [done|].
  rewrite expect_ok, try_into_u32_Some. by intros [-> ?].
Qed.
End slices.

#[export] Hint Resolve prefix_new_length prefix_new_wf txnum_serialize_length : bx.
#[export] Hint Rewrite txnum_serialize_length : bxr.
