(* ===== verification/TxPos.v ===== *)
(** * Transaction positions within a block

    [bindex-lib/src/index/txpos.rs]: the delta encoding of ascending offsets,
    the rows that hold up to 64 consecutive positions, and the block visitor
    that computes them. *)

From S2P Require Import Prelude External Index.

(** [Decodable] failures ([consensus::encode::Error]). *)
Inductive encode_error := UnexpectedEof.

Record TxBlockPos := { offset : Z; size : Z }.
#[export] Instance TxBlockPos_eq_dec : EqDecision TxBlockPos.
Proof. solve_decision. Defined.

(** ** [Offsets] *)

Abbreviation Offsets := (list Z) (only parsing).

Definition offsets_get_tx_block_pos {E} (self : Offsets) (i : Z) : outcome E TxBlockPos :=
  b ← expect "index out of bounds" (self !! Z.to_nat i);
  e ← expect "index out of bounds" (self !! S (Z.to_nat i));
  mret {| offset := b; size := wrap32 (e - b) |}.

(** The transactions' sizes: [windows(2).map(|pair| pair[1] - pair[0])]. *)
Definition iter_sizes (self : Offsets) : list Z :=
  (λ pair, wrap32 (pair.2 - pair.1)) <$> windows2 self.

(** [Iterator::min]. *)
Definition iter_min (l : list Z) : option Z :=
  match l with [] => None | x :: l => Some (foldl Z.min x l) end.

Section codec.
Context `{VI : !VarInt}.

Definition offsets_consensus_encode {E} (self : Offsets) : outcome E bytes :=
  txs_count ← expect "no offsets" (checked_sub (Z.of_nat (length self)) 1);
  sizes_count ← expect "too many transactions" (try_into_u8 txs_count);
  min_tx_size ← expect "no transactions" (iter_min (iter_sizes self));
  first ← expect "no offsets" (head self);
  mret (sizes_count :: varint_encode min_tx_size ++ varint_encode first ++
        concat ((λ tx_size, varint_encode (wrap32 (tx_size - min_tx_size)))
                <$> iter_sizes self)).

Definition read_varint (r : bytes) : outcome encode_error (Z * bytes) :=
  ok_or UnexpectedEof (varint_decode r).

Definition read_u32 (msg : string) (r : bytes) : outcome encode_error (Z * bytes) :=
  '(v, r) ← read_varint r;
  v ← expect msg (try_into_u32 v);
  mret (v, r).

(** The decoding loop: [n] more sizes, the running offset, the reader. *)
Fixpoint decode_offsets (n : nat) (min_tx_size offset : Z) (r : bytes)
    : outcome encode_error (list Z) :=
  match n with
  | O => mret []
  | S n =>
      '(delta_from_min, r) ← read_u32 "too large delta_from_min" r;
      let offset := wrap32 (offset + wrap32 (min_tx_size + delta_from_min)) in
      offsets ← decode_offsets n min_tx_size offset r;
      mret (offset :: offsets)
  end.

Definition offsets_consensus_decode (r : bytes) : outcome encode_error Offsets :=
  match r with
  | [] => Err UnexpectedEof
  | sizes_count :: r =>
      '(min_tx_size, r) ← read_u32 "too large min_tx_size" r;
      '(offset, r) ← read_u32 "too large first offset" r;
      offsets ← decode_offsets (Z.to_nat sizes_count) min_tx_size offset r;
      mret (offset :: offsets)
  end.
End codec.

(** ** [TxBlockPosRow] *)

Record TxBlockPosRow := { last_txnum : TxNum; offsets : Offsets }.
#[export] Instance TxBlockPosRow_eq_dec : EqDecision TxBlockPosRow.
Proof. solve_decision. Defined.

Definition CHUNK_SIZE : nat := 64.

Abbreviation Positions := (list (TxNum * TxBlockPos)).

(** The consistency checks of [chunkify] on two consecutive positions. *)
Definition consecutive (pair : (TxNum * TxBlockPos) * (TxNum * TxBlockPos)) : bool :=
  let '((prev_num, prev_pos), (next_num, next_pos)) := pair in
  bool_decide (offset_from next_num prev_num = Some 1)
  && bool_decide (wrap32 (offset prev_pos + size prev_pos) = offset next_pos).

Definition chunk_row (chunk : Positions) : option TxBlockPosRow :=
  '(last_num, last_pos) ← last chunk;
  Some {| last_txnum := last_num;
          offsets := (offset ∘ snd <$> chunk) ++ [wrap32 (offset last_pos + size last_pos)] |}.

Definition chunkify {E} (positions : Positions) : outcome E (list TxBlockPosRow) :=
  _ ← assert_that "positions must be consecutive" (forallb consecutive (windows2 positions));
  mapM (λ chunk, expect "empty chunk" (chunk_row chunk)) (chunks CHUNK_SIZE positions).

Definition row_get_tx_block_pos {E} (self : TxBlockPosRow) (txnum : TxNum)
    : outcome E TxBlockPos :=
  last_index ← expect "empty Offsets" (checked_sub (Z.of_nat (length (offsets self))) 1);
  delta_from_last ← expect "TxNum too large" (offset_from (last_txnum self) txnum);
  i ← expect "TxNum too small" (checked_sub last_index (delta_from_last + 1));
  offsets_get_tx_block_pos (offsets self) i.

Section rows.
Context `{VI : !VarInt}.

Definition row_serialize {E} (self : TxBlockPosRow) : outcome E (bytes * bytes) :=
  value ← offsets_consensus_encode (offsets self);
  mret (txnum_serialize (last_txnum self), value).

(** [deserialize] unwraps both the key length and the decoding. *)
Definition row_deserialize {E} (key value : bytes) : outcome E TxBlockPosRow :=
  if bool_decide (length key = TXNUM_LEN) then
    match offsets_consensus_decode value with
    | Ok o => Ok {| last_txnum := txnum_deserialize key; offsets := o |}
    | Err _ => Panic "invalid Offsets"
    | Panic p => Panic p
    end
  else Panic "invalid TxNum".
End rows.

(** ** [TxPosVisitor] *)

Record TxPosVisitor := { positions : Positions; tx_num : TxNum; tx_offset : Z }.

Record IndexedBlock (R : Type) := { ib_next_txnum : TxNum; ib_rows : list R }.
Arguments Build_IndexedBlock {R} _ _.
Arguments ib_next_txnum {R} _.
Arguments ib_rows {R} _.

Section visitor.
Context `{VI : !VarInt, SL : !Slices}.

Definition txpos_visitor_new (txnum : TxNum) : TxPosVisitor :=
  {| positions := []; tx_num := txnum; tx_offset := HEADER_SIZE |}.

Definition txpos_visit {E} (self : TxPosVisitor) (ev : visit_event)
    : outcome E TxPosVisitor :=
  match ev with
  | visit_block_begin n =>
      mret {| positions := positions self; tx_num := tx_num self;
              tx_offset := wrap32 (tx_offset self + wrap32 (varint_size n)) |}
  | visit_tx_out _ _ => mret self
  | visit_transaction raw _ =>
      let tx_size := wrap32 (Z.of_nat (length raw)) in
      let tx_pos := {| offset := tx_offset self; size := tx_size |} in
      next ← increment_by (tx_num self) 1;
      mret {| positions := positions self ++ [(tx_num self, tx_pos)];
              tx_num := next;
              tx_offset := wrap32 (tx_offset self + tx_size) |}
  end.

(** [bsl::Block::visit] with a visitor: a parse error aborts, trailing bytes
    are an error. A panic in the visitor happens before either. *)
Definition visit_block {St} (handler : St → visit_event → outcome (index_error slices_error) St)
    (st : St) (block : bytes) : outcome (index_error slices_error) St :=
  let '(evs, res) := block_visit block in
  st ← foldM handler st evs;
  match res with
  | inl e => Err (Parse e)
  | inr [] => Ok st
  | inr rest => Err (Leftover (length rest))
  end.

Definition txpos_index (block : BlockBytes) (txnum : TxNum)
    : outcome (index_error slices_error) (IndexedBlock TxBlockPosRow) :=
  visitor ← visit_block txpos_visit (txpos_visitor_new txnum) (block_data block);
  rows ← chunkify (positions visitor);
  mret {| ib_next_txnum := tx_num visitor; ib_rows := rows |}.
End visitor.

(** * Properties *)

Lemma windows2_cons2 {A} (a b : A) l : windows2 (a :: b :: l) = (a, b) :: windows2 (b :: l).
Proof. done. Qed.
#[global] Hint Rewrite @windows2_cons2 : bxr.

(** ** The offsets' delta encoding *)

Lemma foldl_min_le l x : foldl Z.min x l ≤ x ∧ Forall (λ y, foldl Z.min x l ≤ y) l.
Proof.
  revert x. induction l as [|y l IH]; intros x; cbn; [split; [lia|constructor]|].
  destruct (IH (x `min` y)) as [H1 H2]. split; [lia|]. constructor; [lia|done].
Qed.

Lemma iter_min_le l m : iter_min l = Some m → Forall (λ y, m ≤ y) l.
Proof.
  destruct l as [|x l]; [done|]. intros [= <-].
  destruct (foldl_min_le l x). by constructor.
Qed.

Lemma iter_min_in l m : iter_min l = Some m → m ∈ l.
Proof.
  destruct l as [|x l]; [done|]. intros [= <-]. revert x.
  induction l as [|y l IH]; intros x; cbn; [set_solver|].
  specialize (IH (x `min` y)). destruct (Z.min_spec x y) as [[_ E]|[_ E]];
    rewrite E in *; set_solver.
Qed.

Section codec_properties.
Context `{VI : !VarInt, VIL : !VarIntLaws}.

(** A chunk's offsets: ascending 32-bit integers, between 1 and 255 sizes. *)
Definition offsets_wf (o : Offsets) : Prop :=
  Sorted Z.le o ∧ Forall is_u32 o ∧ (2 ≤ length o ≤ 256)%nat.

Lemma sizes_exact o :
  Sorted Z.le o → Forall is_u32 o → Forall is_u32 (iter_sizes o).
Proof.
  intros _ _. unfold iter_sizes. apply Forall_fmap, Forall_true. intros p. apply wrap32_u32.
Qed.

Lemma decode_offsets_encode m o l rest :
  Sorted Z.le (o :: l) → Forall is_u32 (o :: l) → is_u32 m →
  Forall (λ s, m ≤ s) (iter_sizes (o :: l)) →
  decode_offsets (length l) m o
    (concat ((λ s, varint_encode (wrap32 (s - m))) <$> iter_sizes (o :: l)) ++ rest) = Ok l.
Proof.
  revert o. induction l as [|b l IH]; intros a Hs Hu Hm Hmin; [done|].
  unfold iter_sizes in *. rewrite windows2_cons2 in *. cbn [fmap list_fmap concat fst snd] in *.
  apply Sorted_inv in Hs as [Hs Hab]. apply HdRel_inv in Hab.
  apply Forall_cons in Hu as [Ha Hu]. pose proof Hu as [Hb _]%Forall_cons.
  apply Forall_cons in Hmin as [Hm1 Hmin].
  rewrite (wrap32_small (b - a)) in * by bx_arith.
  rewrite (wrap32_small (b - a - m)) by bx_arith.
  cbn [decode_offsets length]. unfold read_u32, read_varint.
  rewrite <-app_assoc, varint_roundtrip by bx_arith. osimpl.
  rewrite try_into_u32_ok by bx_arith. osimpl.
  rewrite (wrap32_small (m + _)), wrap32_small by bx_arith.
  replace (a + (m + (b - a - m))) with b by lia. by rewrite IH.
Qed.

Lemma offsets_roundtrip o :
  offsets_wf o →
  ∃ b, (∀ E, offsets_consensus_encode (E := E) o = Ok b) ∧
    ∀ rest, offsets_consensus_decode (b ++ rest) = Ok o.
Proof.
  intros (Hs & Hu & Hl). destruct o as [|o [|o2 l]]; [simpl in Hl; lia..|].
  unfold offsets_consensus_encode.
  remember (o2 :: l) as xs eqn:Exs. cbn [length] in Hl.
  rewrite checked_sub_ok by (cbn [length]; lia).
  osimpl.
  rewrite try_into_u8_ok by (cbn [length]; unfold is_u8; lia).
  osimpl.
  destruct (iter_min (iter_sizes (o :: xs))) as [m|] eqn:Em; [|by subst].
  assert (is_u32 m) as Hm.
  { eapply Forall_forall; [by apply sizes_exact|]. by apply iter_min_in. }
  cbn [expect mbind outcome_bind head mret outcome_ret]. eexists; split; [done|].
  intros rest. rewrite <-app_comm_cons, <-!app_assoc.
  unfold offsets_consensus_decode, read_u32, read_varint.
  pose proof Hu as [Ho _]%Forall_cons.
  rewrite varint_roundtrip by bx_arith. osimpl.
  rewrite try_into_u32_ok by done.
  osimpl.
  rewrite varint_roundtrip by bx_arith. osimpl.
  rewrite try_into_u32_ok by done.
  osimpl.
  replace (Z.to_nat _) with (length xs) by (cbn [length]; lia).
  rewrite (decode_offsets_encode m o xs rest) by eauto using iter_min_le. done.
Qed.
End codec_properties.

(** ** Positions that tile a block

    [tiled t off ps t' off']: the positions [ps] number the transactions from
    [t] up to [t'] and cover the bytes from [off] up to [off'] without gaps. *)
Fixpoint tiled (t off : Z) (ps : Positions) (t' off' : Z) : Prop :=
  match ps with
  | [] => t' = t ∧ off' = off
  | (n, p) :: ps =>
      n = t ∧ offset p = off ∧ 0 ≤ size p ∧ tiled (t + 1) (off + size p) ps t' off'
  end.

Lemma tiled_app t off ps qs t2 off2 :
  tiled t off (ps ++ qs) t2 off2 ↔
  ∃ t1 off1, tiled t off ps t1 off1 ∧ tiled t1 off1 qs t2 off2.
Proof.
  revert t off. induction ps as [|[n p] ps IH]; intros t off; cbn.
  - split; [eauto|]. by intros (? & ? & [-> ->] & ?).
  - rewrite IH. split; intros; naive_solver.
Qed.

Lemma tiled_bounds t off ps t' off' :
  tiled t off ps t' off' → t' = t + Z.of_nat (length ps) ∧ off ≤ off'.
Proof.
  revert t off. induction ps as [|[n p] ps IH]; intros t off; cbn [tiled length].
  - intros [-> ->]. simpl. lia.
  - intros (-> & <- & ? & [-> ?]%IH). lia.
Qed.

Lemma tiled_elem t off ps t' off' n p :
  tiled t off ps t' off' → (n, p) ∈ ps →
  t ≤ n < t' ∧ off ≤ offset p ∧ 0 ≤ size p ∧ offset p + size p ≤ off'.
Proof.
  intros Ht (xs & ys & ->)%list_elem_of_split.
  apply tiled_app in Ht as (t1 & off1 & H1 & H2). cbn in H2.
  destruct H2 as (-> & <- & ? & H2).
  apply tiled_bounds in H1 as [-> ?], H2 as [-> ?]. lia.
Qed.

(** The offsets stored for a chunk. *)
Definition chunk_offsets (c : Positions) (end_off : Z) : Offsets :=
  (offset ∘ snd <$> c) ++ [end_off].

Lemma chunk_offsets_lookup t off c t' off' i n p :
  tiled t off c t' off' → c !! i = Some (n, p) →
  n = t + Z.of_nat i ∧
  chunk_offsets c off' !! i = Some (offset p) ∧
  chunk_offsets c off' !! S i = Some (offset p + size p).
Proof.
  revert t off i. induction c as [|[m q] c IH]; intros t off i; [done|].
  cbn [tiled]. intros (-> & <- & Hs & Ht) Hi. destruct i as [|i].
  - cbn in Hi. injection Hi as <- <-. split_and!; [lia|done|].
    destruct c as [|[m r] c]; cbn in *; [by destruct Ht as [_ ->]|].
    by destruct Ht as (_ & -> & _).
  - destruct (IH _ _ _ Ht Hi) as (-> & ? & ?). split_and!; [lia|done..].
Qed.

Lemma chunk_offsets_wf t off c t' off' :
  tiled t off c t' off' → 0 ≤ off → off' < 2 ^ 32 → c ≠ [] → (length c ≤ 255)%nat →
  offsets_wf (chunk_offsets c off').
Proof.
  intros Ht Hoff Hend Hne Hl. unfold offsets_wf, chunk_offsets. split_and!.
  - clear -Ht. revert t off Ht. induction c as [|[m q] c IH]; intros t off; cbn; [by repeat constructor|].
    intros (-> & <- & Hs & Ht). constructor; [by eapply IH|].
    destruct c as [|[m r] c]; cbn in *; constructor; [destruct Ht as [_ ->]|destruct Ht as (_ & -> & _)]; lia.
  - apply Forall_app. split; [|constructor; [|done]].
    + apply Forall_fmap, Forall_forall. intros [n p] Hin. cbn.
      pose proof (tiled_elem _ _ _ _ _ _ _ Ht Hin). unfold is_u32. lia.
    + apply tiled_bounds in Ht. unfold is_u32. lia.
  - rewrite length_app, length_fmap. destruct c; [done|]. simpl. lia.
  - rewrite length_app, length_fmap. simpl. lia.
Qed.

Lemma chunk_row_tiled t off c t' off' :
  tiled t off c t' off' → 0 ≤ off → off' < 2 ^ 32 → c ≠ [] →
  chunk_row c = Some {| last_txnum := t' - 1; offsets := chunk_offsets c off' |}.
Proof.
  intros Ht Hoff Hend Hne. destruct c as [|x c _] using rev_ind; [done|].
  destruct x as [n p]. unfold chunk_row. rewrite last_snoc. cbn [mbind option_bind].
  apply tiled_app in Ht as (t1 & off1 & H1 & (-> & <- & ? & -> & ->)).
  apply tiled_bounds in H1 as [_ ?].
  rewrite wrap32_small by (unfold is_u32; lia).
  unfold chunk_offsets. do 2 f_equal. lia.
Qed.

Lemma chunk_row_lookup {E} t off c t' off' n p :
  tiled t off c t' off' → 0 ≤ off → off' < 2 ^ 32 → (n, p) ∈ c →
  row_get_tx_block_pos (E := E)
    {| last_txnum := t' - 1; offsets := chunk_offsets c off' |} n = Ok p.
Proof.
  intros Ht Hoff Hend [i Hi]%list_elem_of_lookup.
  pose proof (tiled_bounds _ _ _ _ _ Ht) as [-> _].
  pose proof (tiled_elem _ _ _ _ _ _ _ Ht (list_elem_of_lookup_2 _ _ _ Hi)) as (? & ? & ? & ?).
  destruct (chunk_offsets_lookup _ _ _ _ _ _ _ _ Ht Hi) as (-> & Hb & He).
  apply lookup_lt_Some in Hi.
  unfold row_get_tx_block_pos. cbn [offsets last_txnum].
  replace (length (chunk_offsets c off')) with (S (length c))
    by (unfold chunk_offsets; rewrite length_app, length_fmap; simpl; lia).
  unfold offset_from. rewrite !checked_sub_ok by lia. osimpl.
  rewrite checked_sub_ok by lia. osimpl. unfold offsets_get_tx_block_pos.
  replace (Z.to_nat _) with i by lia. rewrite Hb, He. osimpl.
  rewrite wrap32_small by (unfold is_u32; lia).
  destruct p; cbn in *. do 2 f_equal. lia.
Qed.

(** What the rows of a block guarantee to the database: the first row at or
    after a transaction's number holds its position. *)
Definition rows_locate (rows : list TxBlockPosRow) (n : TxNum) (p : TxBlockPos) : Prop :=
  ∃ r, r ∈ rows ∧ n ≤ last_txnum r ∧
    (∀ r', r' ∈ rows → n ≤ last_txnum r' → last_txnum r ≤ last_txnum r') ∧
    ∀ E, row_get_tx_block_pos (E := E) r n = Ok p.

Definition rows_in (rows : list TxBlockPosRow) (t t' : TxNum) : Prop :=
  Forall (λ r, t ≤ last_txnum r < t' ∧ offsets_wf (offsets r)) rows ∧
  NoDup (last_txnum <$> rows).

Lemma consecutive_tiled t off ps t' off' :
  tiled t off ps t' off' → 0 ≤ off → off' < 2 ^ 32 →
  forallb consecutive (windows2 ps) = true.
Proof.
  intros Ht Hoff Hend. revert t off Ht Hoff.
  induction ps as [|[n p] [|[m q] ps] IH]; intros t off Ht Hoff; [done..|].
  rewrite windows2_cons2. destruct Ht as (-> & <- & Hs & Ht).
  pose proof (tiled_bounds _ _ _ _ _ Ht) as [_ Hle].
  cbn [forallb]. rewrite (IH _ _ Ht) by lia. rewrite andb_true_r.
  destruct Ht as (-> & Hq & _ & _). cbn.
  rewrite wrap32_small by (unfold is_u32; lia).
  unfold offset_from. rewrite checked_sub_ok by lia.
  rewrite !bool_decide_eq_true_2; [done|lia|f_equal; lia].
Qed.

Lemma chunkify_tiled {E} t off ps t' off' :
  tiled t off ps t' off' → 0 ≤ off → off' < 2 ^ 32 →
  ∃ rows, chunkify (E := E) ps = Ok rows ∧ rows_in rows t t' ∧
    ∀ n p, (n, p) ∈ ps → rows_locate rows n p.
Proof.
  intros Ht Hoff Hend. unfold chunkify.
  rewrite (consecutive_tiled _ _ _ _ _ Ht) by done. osimpl.
  revert t off Ht Hoff. apply (chunks_ind CHUNK_SIZE (λ ps cs, ∀ t off,
    tiled t off ps t' off' → 0 ≤ off →
    ∃ rows, mapM (λ chunk, expect "empty chunk" (chunk_row chunk)) cs = Ok rows ∧
      rows_in rows t t' ∧ ∀ n p, (n, p) ∈ ps → rows_locate rows n p)); [unfold CHUNK_SIZE; lia| |].
  { intros t off _ _. exists []. split_and!; [done|split; constructor|set_solver]. }
  clear ps. intros ps Hne IH t off Ht Hoff.
  rewrite <-(take_drop CHUNK_SIZE ps) in Ht.
  apply tiled_app in Ht as (t1 & off1 & Ht1 & Ht2).
  pose proof (tiled_bounds _ _ _ _ _ Ht1) as [Et1 Hoff1].
  pose proof (tiled_bounds _ _ _ _ _ Ht2) as [Et2 Hoff2].
  assert (take CHUNK_SIZE ps ≠ []) as Hne1 by (by destruct ps).
  assert (length (take CHUNK_SIZE ps) ≤ 64)%nat as Hl1
    by (rewrite length_take; unfold CHUNK_SIZE; lia).
  assert (0 < length (take CHUNK_SIZE ps))%nat by (destruct (take _ _); simpl; done || lia).
  destruct (IH t1 off1 Ht2) as (rows & Hrows & [Hin Hnd] & Hloc); [lia|].
  set (r := {| last_txnum := t1 - 1; offsets := chunk_offsets (take CHUNK_SIZE ps) off1 |}).
  exists (r :: rows). split_and!.
  - cbn [mapM]. rewrite (chunk_row_tiled _ _ _ _ _ Ht1) by (done || lia).
    osimpl. by rewrite Hrows.
  - rewrite Forall_forall in Hin. split.
    + constructor.
      * cbn [last_txnum offsets r]. split; [lia|].
        apply (chunk_offsets_wf _ _ _ _ _ Ht1); [done|lia|done|lia].
      * apply Forall_forall. intros r' Hr'. destruct (Hin _ Hr'). split; [lia|done].
    + rewrite fmap_cons. constructor; [|done]. cbn [last_txnum r]. intros (r' & Heq & Hr')%list_elem_of_fmap.
      destruct (Hin _ Hr'). lia.
  - rewrite Forall_forall in Hin. intros n p Hnp.
    rewrite <-(take_drop CHUNK_SIZE ps) in Hnp. apply elem_of_app in Hnp as [Hnp|Hnp].
    + exists r. split_and!; [set_solver|cbn [last_txnum r]| |].
      * pose proof (tiled_elem _ _ _ _ _ _ _ Ht1 Hnp). lia.
      * intros r' [->|Hr']%elem_of_cons _; [done|]. destruct (Hin _ Hr'). cbn [last_txnum r]. lia.
      * intros E'. by eapply chunk_row_lookup; [done|lia..|].
    + destruct (Hloc n p Hnp) as (r' & Hr' & Hle & Hmin & Hget).
      exists r'. split_and!; [set_solver|done| |done].
      intros r'' [->|Hr'']%elem_of_cons Hle''; [|by apply Hmin].
      pose proof (tiled_elem _ _ _ _ _ _ _ Ht2 Hnp). cbn [last_txnum r] in Hle''. lia.
Qed.

(** ** The visitor *)

Section visitor_properties.
Context `{VI : !VarInt, VIL : !VarIntLaws, SL : !Slices, SLL : !SlicesLaws}.

Lemma txpos_visit_scripts {E} v (scripts : list bytes) k :
  foldM (txpos_visit (E := E)) v (imap (λ i s, visit_tx_out (Z.of_nat (k + i)) s) scripts) = Ok v.
Proof.
  revert k. induction scripts as [|s l IH]; intros k; [done|].
  rewrite imap_cons. cbn [foldM txpos_visit]. osimpl.
  rewrite <-(IH (S k)). f_equal. apply imap_ext. intros i x _. unfold compose. f_equal. lia.
Qed.

Lemma txpos_visit_tx {E} v tx :
  foldM (txpos_visit (E := E)) v (tx_events tx)
  = txpos_visit v (visit_transaction (stx_raw tx) (stx_txid tx)).
Proof.
  unfold tx_events. rewrite foldM_app.
  pose proof (txpos_visit_scripts (E := E) v (stx_scripts tx) 0) as Hs.
  cbn [Nat.add] in Hs. rewrite Hs. osimpl.
  cbn [foldM]. destruct (txpos_visit _ _); done.
Qed.

(** Where the transactions of a block of known layout sit. *)
Fixpoint positions_of (t off : Z) (txs : list slice_tx) : Positions :=
  match txs with
  | [] => []
  | tx :: txs =>
      let sz := Z.of_nat (length (stx_raw tx)) in
      (t, {| offset := off; size := sz |}) :: positions_of (t + 1) (off + sz) txs
  end.

Definition txs_size (txs : list slice_tx) : Z :=
  Z.of_nat (length (concat (stx_raw <$> txs))).

Lemma positions_of_tiled t off txs :
  tiled t off (positions_of t off txs) (t + Z.of_nat (length txs)) (off + txs_size txs).
Proof.
  revert t off. induction txs as [|tx txs IH]; intros t off; cbn [positions_of tiled].
  - unfold txs_size. cbn. lia.
  - split_and!; [done..|cbn; lia|]. cbn [size].
    replace (t + Z.of_nat (length (tx :: txs))) with ((t + 1) + Z.of_nat (length txs))
      by (cbn [length]; lia).
    replace (off + txs_size (tx :: txs))
      with ((off + Z.of_nat (length (stx_raw tx))) + txs_size txs).
    { apply IH. }
    unfold txs_size. cbn. rewrite length_app. lia.
Qed.

Lemma txpos_visit_txs {E} txs ps t off :
  0 ≤ off → off + txs_size txs < 2 ^ 32 → 0 ≤ t < 2 ^ 32 →
  foldM (txpos_visit (E := E)) {| positions := ps; tx_num := t; tx_offset := off |}
    (txs ≫= tx_events) =
  if t + Z.of_nat (length txs) <? 2 ^ 32 then
    Ok {| positions := ps ++ positions_of t off txs;
          tx_num := t + Z.of_nat (length txs); tx_offset := off + txs_size txs |}
  else Panic "txnum overflow".
Proof.
  revert ps t off. induction txs as [|tx txs IH]; intros ps t off Hoff Hend Ht.
  - cbn -[Z.ltb]. rewrite (proj2 (Z.ltb_lt _ _)) by lia.
    by rewrite app_nil_r, !Z.add_0_r.
  - cbn [mbind list_bind]. change (list_bind _ _ tx_events txs) with (txs ≫= tx_events).
    rewrite foldM_app, txpos_visit_tx. cbn [txpos_visit tx_num tx_offset positions].
    unfold txs_size in Hend. cbn [fmap list_fmap concat] in Hend. rewrite length_app in Hend.
    pose proof (Nat2Z.is_nonneg (length (concat (stx_raw <$> txs)))).
    unfold increment_by, checked_add32. destruct (Z.ltb_spec (t + 1) (2 ^ 32)); osimpl.
    + rewrite (wrap32_small (Z.of_nat _)), wrap32_small by (unfold is_u32; lia).
      rewrite IH by (unfold txs_size; lia). cbn [length].
      replace (t + 1 + Z.of_nat (length txs)) with (t + Z.of_nat (S (length txs))) by lia.
      case_match; [|done]. f_equal. f_equal.
      * by rewrite <-app_assoc.
      * unfold txs_size. cbn. rewrite length_app. lia.
    + rewrite (proj2 (Z.ltb_ge _ _)) by (cbn [length]; lia). done.
Qed.
End visitor_properties.
