(* ===== verification/HashIndex.v ===== *)
(** * Hash-prefix rows of a block

    [bindex-lib/src/index/scripthash.rs] and [txid.rs]: one row per transaction
    for its txid, and one per output script the transaction creates or spends. *)

From S2P Require Import Prelude External Index TxPos.

(** The cargo feature that selects the chain format. *)
Inductive chain_format := Bitcoin | Liquid.
#[export] Instance chain_format_eq_dec : EqDecision chain_format.
Proof. solve_decision. Defined.
(** [fmt::NAME] *)
Definition FORMAT_NAME (fmt : chain_format) : string :=
  match fmt with Bitcoin => "bitcoin" | Liquid => "liquid" end.

Section index.
Context `{HS : !Hashes, SO : !ScriptOps, VI : !VarInt, SL : !Slices}.
Abbreviation error := (index_error slices_error) (only parsing).

(** ** [scripthash.rs] *)

(** [ScriptHash::new]. *)
Definition scripthash_new (script : bytes) : hash32 := sha256 script.

Record ScriptVisitor := { sv_rows : list HashPrefixRow; sv_txnum : TxNum }.

Definition script_visitor_new (txnum : TxNum) (rows : list HashPrefixRow) : ScriptVisitor :=
  {| sv_rows := rows; sv_txnum := txnum |}.

Definition add_script (fmt : chain_format) (rows : list HashPrefixRow) (txnum : TxNum)
    (script : bytes) : list HashPrefixRow :=
  if is_op_return script then rows
  else if bool_decide (fmt = Liquid) && bool_decide (script = []) then rows
  else rows ++ [hash_prefix_row_new (prefix_new (scripthash_new script)) txnum].

Definition visitor_add (fmt : chain_format) (self : ScriptVisitor) (script : bytes)
    : ScriptVisitor :=
  {| sv_rows := add_script fmt (sv_rows self) (sv_txnum self) script;
     sv_txnum := sv_txnum self |}.

Definition finish_tx {E} (self : ScriptVisitor) : outcome E ScriptVisitor :=
  txnum ← increment_by (sv_txnum self) 1;
  mret {| sv_rows := sv_rows self; sv_txnum := txnum |}.

Definition script_visit (self : ScriptVisitor) (ev : visit_event)
    : outcome error ScriptVisitor :=
  match ev with
  | visit_block_begin _ => mret self
  | visit_tx_out _ script => mret (visitor_add Bitcoin self script)
  | visit_transaction _ _ => finish_tx self
  end.

(** The stream of spent outputs: [outs] outputs of one transaction, then
    [txs] transactions. [&slice[consumed..]] is the rest of the stream. *)
Fixpoint visit_spent_outputs (fmt : chain_format) (outs : nat) (slice : bytes)
    (visit : ScriptVisitor) : outcome error (bytes * ScriptVisitor) :=
  match outs with
  | O => mret (slice, visit)
  | S outs =>
      match txout_parse slice with
      | inl e => Err (Parse e)
      | inr (script_pubkey, consumed) =>
          visit_spent_outputs fmt outs (drop consumed slice) (visitor_add fmt visit script_pubkey)
      end
  end.

Fixpoint visit_spent_txs (fmt : chain_format) (txs : nat) (slice : bytes)
    (visit : ScriptVisitor) : outcome error (bytes * ScriptVisitor) :=
  match txs with
  | O => mret (slice, visit)
  | S txs =>
      match scan_len slice with
      | inl e => Err (Parse e)
      | inr (outputs_count, consumed) =>
          '(slice, visit) ← visit_spent_outputs fmt (Z.to_nat outputs_count)
                              (drop consumed slice) visit;
          visit ← finish_tx visit;
          visit_spent_txs fmt txs slice visit
      end
  end.

Definition visit_spent (fmt : chain_format) (slice : bytes) (visit : ScriptVisitor)
    : outcome error (bytes * ScriptVisitor) :=
  match scan_len slice with
  | inl e => Err (Parse e)
  | inr (txs_count, consumed) =>
      visit_spent_txs fmt (Z.to_nat txs_count) (drop consumed slice) visit
  end.

Definition add_block_rows (block : BlockBytes) (txnum : TxNum) (rows : list HashPrefixRow)
    : outcome error ScriptVisitor :=
  visit_block script_visit (script_visitor_new txnum rows) (block_data block).

Definition add_spent_rows (fmt : chain_format) (spent : SpentBytes) (txnum : TxNum)
    (rows : list HashPrefixRow) : outcome error ScriptVisitor :=
  '(rest, visitor) ← visit_spent fmt (spent_data spent) (script_visitor_new txnum rows);
  match rest with
  | [] => Ok visitor
  | _ => Err (Leftover (length rest))
  end.

Definition scripthash_index (block : BlockBytes) (spent : SpentBytes) (txnum : TxNum)
    : outcome error (IndexedBlock HashPrefixRow) :=
  visitor1 ← add_block_rows block txnum [];
  visitor2 ← add_spent_rows Bitcoin spent txnum (sv_rows visitor1);
  _ ← assert_that "txnum1 != txnum2" (bool_decide (sv_txnum visitor1 = sv_txnum visitor2));
  mret {| ib_next_txnum := sv_txnum visitor1; ib_rows := sv_rows visitor2 |}.

(** ** [txid.rs] *)

Definition txid_visit (result : IndexedBlock HashPrefixRow) (ev : visit_event)
    : outcome error (IndexedBlock HashPrefixRow) :=
  match ev with
  | visit_transaction _ txid =>
      let row := hash_prefix_row_new (prefix_new txid) (ib_next_txnum result) in
      next ← increment_by (ib_next_txnum result) 1;
      mret {| ib_next_txnum := next; ib_rows := ib_rows result ++ [row] |}
  | _ => mret result
  end.

Definition txid_index (block : BlockBytes) (txnum : TxNum)
    : outcome error (IndexedBlock HashPrefixRow) :=
  visit_block txid_visit {| ib_next_txnum := txnum; ib_rows := [] |} (block_data block).
End index.

(** * Properties *)

Section properties.
Context `{HS : !Hashes, HSL : !HashLaws, SO : !ScriptOps, VI : !VarInt, VIL : !VarIntLaws,
         SL : !Slices, SLL : !SlicesLaws}.

(** ** What the rows of a block are, transaction by transaction *)

Definition indexed_scripts (fmt : chain_format) (scripts : list bytes) : list bytes :=
  filter (λ s, is_op_return s = false ∧ (fmt = Liquid → s ≠ [])) scripts.

Definition script_rows (fmt : chain_format) (txnum : TxNum) (scripts : list bytes)
    : list HashPrefixRow :=
  (λ s, hash_prefix_row_new (prefix_new (scripthash_new s)) txnum)
    <$> indexed_scripts fmt scripts.

Fixpoint block_script_rows (fmt : chain_format) (txnum : TxNum) (txs : list (list bytes))
    : list HashPrefixRow :=
  match txs with
  | [] => []
  | scripts :: txs => script_rows fmt txnum scripts ++ block_script_rows fmt (txnum + 1) txs
  end.

Fixpoint block_txid_rows (txnum : TxNum) (txids : list hash32) : list HashPrefixRow :=
  match txids with
  | [] => []
  | txid :: txids =>
      hash_prefix_row_new (prefix_new txid) txnum :: block_txid_rows (txnum + 1) txids
  end.

Lemma add_script_rows fmt rows t s : add_script fmt rows t s = rows ++ script_rows fmt t [s].
Proof.
  unfold add_script, script_rows, indexed_scripts. rewrite filter_cons, filter_nil.
  destruct (is_op_return s) eqn:E; [rewrite decide_False by naive_solver; by rewrite app_nil_r|].
  destruct (decide (fmt = Liquid)) as [->|Hne].
  - rewrite (bool_decide_eq_true_2 (Liquid = Liquid)) by done. cbn.
    destruct (decide (s = [])) as [->|Hs].
    + rewrite bool_decide_eq_true_2, decide_False by naive_solver. by rewrite app_nil_r.
    + by rewrite bool_decide_eq_false_2, decide_True by naive_solver.
  - rewrite (bool_decide_eq_false_2 (fmt = Liquid)) by done. cbn.
    by rewrite decide_True by naive_solver.
Qed.

Lemma script_rows_app fmt t a b :
  script_rows fmt t (a ++ b) = script_rows fmt t a ++ script_rows fmt t b.
Proof. unfold script_rows, indexed_scripts. by rewrite filter_app, fmap_app. Qed.

Lemma script_visit_scripts v scripts k :
  foldM script_visit v (imap (λ i s, visit_tx_out (Z.of_nat (k + i)) s) scripts)
  = Ok {| sv_rows := sv_rows v ++ script_rows Bitcoin (sv_txnum v) scripts;
          sv_txnum := sv_txnum v |}.
Proof.
  revert v k. induction scripts as [|s l IH]; intros v k.
  { destruct v. cbn. by rewrite app_nil_r. }
  rewrite imap_cons. cbn [foldM script_visit]. osimpl.
  rewrite (imap_ext _ (λ i s, visit_tx_out (Z.of_nat (S k + i)) s)) by
    (intros i x _; unfold compose; f_equal; lia).
  rewrite IH. cbn [sv_rows sv_txnum visitor_add].
  rewrite add_script_rows. change (s :: l) with ([s] ++ l).
  by rewrite script_rows_app, app_assoc.
Qed.

Lemma script_visit_tx v tx :
  foldM script_visit v (tx_events tx) =
  finish_tx {| sv_rows := sv_rows v ++ script_rows Bitcoin (sv_txnum v) (stx_scripts tx);
               sv_txnum := sv_txnum v |}.
Proof.
  unfold tx_events. rewrite foldM_app.
  pose proof (script_visit_scripts v (stx_scripts tx) 0) as Hs.
  cbn [Nat.add] in Hs. rewrite Hs. cbn [foldM script_visit mbind outcome_bind]. by destruct (finish_tx _).
Qed.

Lemma script_visit_txs v txs :
  0 ≤ sv_txnum v < 2 ^ 32 →
  foldM script_visit v (txs ≫= tx_events) =
  if sv_txnum v + Z.of_nat (length txs) <? 2 ^ 32 then
    Ok {| sv_rows := sv_rows v ++ block_script_rows Bitcoin (sv_txnum v) (stx_scripts <$> txs);
          sv_txnum := sv_txnum v + Z.of_nat (length txs) |}
  else Panic "txnum overflow".
Proof.
  revert v. induction txs as [|tx txs IH]; intros v Hv.
  - cbn -[Z.ltb]. rewrite (proj2 (Z.ltb_lt _ _)) by lia.
    destruct v. cbn. by rewrite app_nil_r, Z.add_0_r.
  - cbn [mbind list_bind]. change (list_bind _ _ tx_events txs) with (txs ≫= tx_events).
    rewrite foldM_app, script_visit_tx.
    unfold finish_tx, increment_by, checked_add32. cbn [sv_txnum sv_rows].
    destruct (Z.ltb_spec (sv_txnum v + 1) (2 ^ 32)); osimpl.
    + rewrite IH by (cbn; lia). cbn [sv_txnum sv_rows length fmap list_fmap block_script_rows].
      replace (sv_txnum v + 1 + Z.of_nat (length txs))
        with (sv_txnum v + Z.of_nat (S (length txs))) by lia.
      case_match; [|done]. by rewrite <-app_assoc.
    + rewrite (proj2 (Z.ltb_ge _ _)) by (cbn [length]; lia). done.
Qed.

Lemma txid_visit_scripts v scripts k :
  foldM txid_visit v (imap (λ i s, visit_tx_out (Z.of_nat (k + i)) s) scripts) = Ok v.
Proof.
  revert k. induction scripts as [|s l IH]; intros k; [done|].
  rewrite imap_cons. cbn [foldM txid_visit]. osimpl.
  rewrite <-(IH (S k)). f_equal. apply imap_ext. intros i x _. unfold compose. f_equal. lia.
Qed.

Lemma txid_visit_txs v txs :
  0 ≤ ib_next_txnum v < 2 ^ 32 →
  foldM txid_visit v (txs ≫= tx_events) =
  if ib_next_txnum v + Z.of_nat (length txs) <? 2 ^ 32 then
    Ok {| ib_next_txnum := ib_next_txnum v + Z.of_nat (length txs);
          ib_rows := ib_rows v ++ block_txid_rows (ib_next_txnum v) (stx_txid <$> txs) |}
  else Panic "txnum overflow".
Proof.
  revert v. induction txs as [|tx txs IH]; intros v Hv.
  - cbn -[Z.ltb]. rewrite (proj2 (Z.ltb_lt _ _)) by lia.
    destruct v. cbn. by rewrite app_nil_r, Z.add_0_r.
  - cbn [mbind list_bind]. change (list_bind _ _ tx_events txs) with (txs ≫= tx_events).
    unfold tx_events at 1. rewrite !foldM_app.
    pose proof (txid_visit_scripts v (stx_scripts tx) 0) as Hs.
    cbn [Nat.add] in Hs. rewrite Hs. osimpl. cbn [foldM txid_visit].
    unfold increment_by, checked_add32.
    destruct (Z.ltb_spec (ib_next_txnum v + 1) (2 ^ 32)); osimpl.
    + rewrite IH by (cbn; lia).
      cbn [ib_next_txnum ib_rows length fmap list_fmap block_txid_rows].
      replace (ib_next_txnum v + 1 + Z.of_nat (length txs))
        with (ib_next_txnum v + Z.of_nat (S (length txs))) by lia.
      case_match; [|done]. by rewrite <-app_assoc.
    + rewrite (proj2 (Z.ltb_ge _ _)) by (cbn [length]; lia). done.
Qed.

(** ** The spent-output stream, relationally *)

Inductive spent_outputs : bytes → list bytes → bytes → Prop :=
| spent_outputs_nil r : spent_outputs r [] r
| spent_outputs_cons r s n ss r' :
    txout_parse r = inr (s, n) → spent_outputs (drop n r) ss r' →
    spent_outputs r (s :: ss) r'.

Inductive spent_txs : bytes → list (list bytes) → bytes → Prop :=
| spent_txs_nil r : spent_txs r [] r
| spent_txs_cons r n ss r' sss r'' :
    scan_len r = inr (Z.of_nat (length ss), n) → spent_outputs (drop n r) ss r' →
    spent_txs r' sss r'' → spent_txs r (ss :: sss) r''.

(** A whole stream: the number of transactions, then their spent outputs. *)
Definition spent_stream (r : bytes) (sss : list (list bytes)) : Prop :=
  ∃ n, scan_len r = inr (Z.of_nat (length sss), n) ∧ spent_txs (drop n r) sss [].

Lemma visit_spent_outputs_ok fmt n r v r' v' :
  visit_spent_outputs fmt n r v = Ok (r', v') →
  ∃ ss, length ss = n ∧ spent_outputs r ss r' ∧
    v' = {| sv_rows := sv_rows v ++ script_rows fmt (sv_txnum v) ss; sv_txnum := sv_txnum v |}.
Proof.
  revert r v. induction n as [|n IH]; intros r v; cbn.
  - intros [= <- <-]. exists []. split_and!; [done|constructor|].
    destruct v. cbn. by rewrite app_nil_r.
  - destruct (txout_parse r) as [|[s u]] eqn:E; [done|].
    intros (ss & <- & Hss & ->)%IH. exists (s :: ss).
    split_and!; [done|by econstructor|].
    cbn [sv_rows sv_txnum visitor_add]. rewrite add_script_rows.
    change (s :: ss) with ([s] ++ ss). by rewrite script_rows_app, app_assoc.
Qed.

Lemma visit_spent_txs_ok fmt n r v r' v' :
  visit_spent_txs fmt n r v = Ok (r', v') →
  ∃ sss, length sss = n ∧ spent_txs r sss r' ∧ (n = O ∨ sv_txnum v + Z.of_nat n < 2 ^ 32) ∧
    v' = {| sv_rows := sv_rows v ++ block_script_rows fmt (sv_txnum v) sss;
            sv_txnum := sv_txnum v + Z.of_nat n |}.
Proof.
  revert r v. induction n as [|n IH]; intros r v; cbn [visit_spent_txs].
  - intros [= <- <-]. exists []. split_and!; [done|constructor|by left|].
    destruct v. cbn. by rewrite app_nil_r, Z.add_0_r.
  - destruct (scan_len r) as [|[m u]] eqn:E; [done|]. intros Hv.
    apply bind_ok in Hv as ([r1 v1] & H1 & Hv).
    apply bind_ok in Hv as (v2 & H2 & Hv).
    apply visit_spent_outputs_ok in H1 as (ss & Hss & Hr & ->).
    unfold finish_tx in H2. apply bind_ok in H2 as (t & Ht & [= <-]).
    apply increment_by_ok in Ht as [-> Ht]. cbn [sv_txnum sv_rows] in *.
    apply IH in Hv as (sss & <- & Hrs & Hlt & ->). cbn [sv_txnum sv_rows] in *.
    exists (ss :: sss). split_and!; [done| |right; lia|].
    + econstructor; [|done..]. rewrite Hss, Z2Nat.id; [done|].
      apply scan_len_ok in E as ([? _] & _). lia.
    + cbn [block_script_rows length]. f_equal; [by rewrite app_assoc|lia].
Qed.

Lemma add_spent_rows_ok fmt sp t rows v :
  add_spent_rows fmt sp t rows = Ok v → is_u32 t →
  ∃ sss, spent_stream (spent_data sp) sss ∧ t + Z.of_nat (length sss) < 2 ^ 32 ∧
    v = {| sv_rows := rows ++ block_script_rows fmt t sss;
           sv_txnum := t + Z.of_nat (length sss) |}.
Proof.
  unfold add_spent_rows, visit_spent. intros Hv Ht.
  apply bind_ok in Hv as ([rest v1] & H1 & Hv).
  destruct (scan_len _) as [|[m u]] eqn:E; [done|].
  apply visit_spent_txs_ok in H1 as (sss & Hl & Hs & Hlt & ->).
  destruct rest; [|done]. injection Hv as <-. cbn [sv_rows sv_txnum script_visitor_new] in *.
  exists sss. rewrite Hl. split_and!; [|unfold is_u32 in *; destruct Hlt; subst; lia|done].
  exists u. split; [|done]. rewrite Hl, Z2Nat.id; [done|].
  apply scan_len_ok in E as ([? _] & _). lia.
Qed.
End properties.
