(* ===== verification/Fmt.v ===== *)
(** * The chain-format boundary

    [bindex-lib/src/fmt.rs] for the default (Bitcoin) format: header splitting,
    and what the index and the servers read from a transaction. The consensus
    decoders of [rust-bitcoin] are parameters. *)

From S2P Require Import Prelude External Index.

(** [bitcoin::OutPoint]; its derived order is the transaction id, then the
    output index. *)
Record OutPoint := { op_txid : hash32; op_vout : Z }.
#[export] Instance OutPoint_eq_dec : EqDecision OutPoint.
Proof. solve_decision. Defined.
#[export] Instance OutPoint_countable : Countable OutPoint.
Proof.
  refine (inj_countable' (λ o, (op_txid o, op_vout o)) (λ p, Build_OutPoint p.1 p.2) _).
  by intros [].
Defined.

(** What [rust-bitcoin] decodes a transaction to. *)
Record bitcoin_txout := { btxout_script : bytes; btxout_value : Z }.
Record bitcoin_tx := {
  btx_txid : hash32;
  btx_inputs : list OutPoint;        (* [previous_output] of every input *)
  btx_outputs : list bitcoin_txout;
  btx_weight : Z;
}.

(** [consensus::deserialize] and [deserialize_partial] for headers and
    transactions, and [OutPoint::is_null]. *)
Class Consensus := {
  blockhash_deserialize : bytes → option hash32;
  header_deserialize : bytes → option hash32;    (* then [block_hash()] *)
  tx_deserialize : bytes → option bitcoin_tx;
  tx_deserialize_partial : bytes → option (bitcoin_tx * nat);
  outpoint_is_null : OutPoint → bool;
}.
Class ConsensusLaws `{Consensus} := {
  blockhash_deserialize_wf b h : blockhash_deserialize b = Some h → hash_wf h;
  header_deserialize_wf b h : header_deserialize b = Some h → hash_wf h;
}.

Record RawHeader := { rh_hash : hash32; rh_prev_blockhash : hash32; rh_raw : bytes }.

Record TxSummary := {
  ts_txid : hash32; ts_offset : Z; ts_size : Z; ts_scripts : list bytes
}.

Record TxOutView := { tov_script_pubkey : bytes; tov_value : Z }.
Record ParsedTx := {
  pt_txid : hash32; pt_inputs : list OutPoint; pt_outputs : list TxOutView; pt_weight : Z
}.

(** [slice.get(a..b)]. *)
Definition slice_get (b : bytes) (from to : nat) : option bytes :=
  if bool_decide (from ≤ to ∧ to ≤ length b)%nat then Some (take (to - from) (drop from b))
  else None.

Definition prev_blockhash (raw_header : bytes) : outcome fmt_error hash32 :=
  ok_or (FmtMalformed "header shorter than 36 bytes") (slice_get raw_header 4 36).

Section fmt.
Context `{VI : !VarInt, CS : !Consensus}.

Definition header_hash (raw : bytes) : outcome fmt_error hash32 :=
  ok_or FmtBitcoin (header_deserialize raw).

(** The loop of [split_headers] on the bytes from [pos] on; each round takes
    a positive header length, so the length of the data is enough fuel. *)
Fixpoint split_headers_loop (fuel : nat) (data : bytes) : outcome fmt_error (list RawHeader) :=
  match data with
  | [] => mret []
  | _ =>
      match fuel with
      | O => Panic "out of fuel"
      | S fuel =>
          len ← header_len data;
          raw ← ok_or (FmtMalformed "truncated header") (slice_get data 0 len);
          hash ← header_hash raw;
          prev ← prev_blockhash raw;
          rest ← split_headers_loop fuel (drop len data);
          mret ({| rh_hash := hash; rh_prev_blockhash := prev; rh_raw := raw |} :: rest)
      end
  end.
Definition split_headers (data : bytes) : outcome fmt_error (list RawHeader) :=
  split_headers_loop (length data) data.

Definition txid (raw : bytes) : outcome fmt_error hash32 :=
  tx ← ok_or FmtBitcoin (tx_deserialize raw);
  mret (btx_txid tx).

Definition parse_tx (raw : bytes) : outcome fmt_error ParsedTx :=
  tx ← ok_or FmtBitcoin (tx_deserialize raw);
  mret {| pt_txid := btx_txid tx;
          pt_inputs := filter (λ o, outpoint_is_null o = false) (btx_inputs tx);
          pt_outputs := (λ o, {| tov_script_pubkey := btxout_script o;
                                 tov_value := btxout_value o |}) <$> btx_outputs tx;
          pt_weight := btx_weight tx |}.

(** The transaction loop of [walk_block]: [n] more, at byte [pos]. *)
Fixpoint walk_txs (n : nat) (pos : Z) (rest : bytes) : outcome fmt_error (Z * list TxSummary) :=
  match n with
  | O => mret (pos, [])
  | S n =>
      '(tx, used) ← ok_or FmtBitcoin (tx_deserialize_partial rest);
      '(end_pos, txs) ← walk_txs n (pos + Z.of_nat used) (drop used rest);
      mret (end_pos, {| ts_txid := btx_txid tx; ts_offset := wrap32 pos;
                        ts_size := wrap32 (Z.of_nat used);
                        ts_scripts := btxout_script <$> btx_outputs tx |} :: txs)
  end.

Definition walk_block (block : bytes) : outcome fmt_error (nat * list TxSummary) :=
  header_len ← header_len block;
  if bool_decide (header_len ≤ length block)%nat then
    '(count, rest) ← ok_or FmtBitcoin (varint_decode (drop header_len block));
    let pos := Z.of_nat (length block) - Z.of_nat (length rest) in
    '(pos, txs) ← walk_txs (Z.to_nat count) pos rest;
    if bool_decide (pos = Z.of_nat (length block)) then mret (header_len, txs)
    else Err (FmtMalformed "trailing bytes after last transaction")
  else Panic "slice index out of range".
End fmt.

(** * Properties *)

Lemma slice_get_Some b i j s :
  slice_get b i j = Some s ↔ (i ≤ j ∧ j ≤ length b)%nat ∧ s = take (j - i) (drop i b).
Proof. unfold slice_get. case_bool_decide; naive_solver. Qed.

Lemma slice_get_length b i j s : slice_get b i j = Some s → length s = (j - i)%nat.
Proof. intros [? ->]%slice_get_Some. rewrite length_take, length_drop. lia. Qed.

Lemma prev_blockhash_ok raw h :
  prev_blockhash raw = Ok h ↔ (36 ≤ length raw)%nat ∧ h = take 32 (drop 4 raw).
Proof.
  unfold prev_blockhash. rewrite ok_or_ok, slice_get_Some.
  change (36 - 4)%nat with 32%nat. naive_solver lia.
Qed.

Section fmt_properties.
Context `{VI : !VarInt, CS : !Consensus}.

Definition raw_header_ok (h : RawHeader) : Prop :=
  length (rh_raw h) = 80%nat ∧ header_deserialize (rh_raw h) = Some (rh_hash h) ∧
  rh_prev_blockhash h = take 32 (drop 4 (rh_raw h)).

Lemma split_headers_concat_gen hs fuel :
  Forall raw_header_ok hs → (length (concat (rh_raw <$> hs)) ≤ fuel)%nat →
  split_headers_loop fuel (concat (rh_raw <$> hs)) = Ok hs.
Proof.
  intros Hhs. revert fuel. induction Hhs as [|[hash prev raw] hs (Hl & Hd & Hp) _ IH]; intros fuel Hf;
    [by destruct fuel|].
  cbn [fmap list_fmap concat rh_raw rh_hash rh_prev_blockhash] in *.
  rewrite length_app in Hf. destruct fuel as [|fuel]; [lia|].
  destruct raw as [|b raw]; [done|].
  remember (b :: raw) as r eqn:Er. rewrite Er at 1. cbn [app].
  unfold split_headers_loop; fold split_headers_loop. rewrite app_comm_cons, <-Er.
  cbn [header_len]. osimpl. unfold header_len. osimpl. change (Z.to_nat HEADER_SIZE) with 80%nat.
  rewrite (proj2 (slice_get_Some _ 0 80 r)).
  2:{ rewrite length_app. split; [lia|]. by rewrite drop_0, take_app_length'. }
  osimpl. unfold header_hash. rewrite Hd. osimpl.
  rewrite (proj2 (prev_blockhash_ok r prev)) by (split; [lia|done]). osimpl.
  rewrite drop_app_length' by done. rewrite IH by lia. done.
Qed.

(** What [split_headers] accepts is exactly a concatenation of headers. *)
Lemma split_headers_ok_gen fuel data hs :
  split_headers_loop fuel data = Ok hs →
  data = concat (rh_raw <$> hs) ∧ Forall raw_header_ok hs.
Proof.
  revert data hs. induction fuel as [|fuel IH]; intros data hs.
  { destruct data; [by intros [= <-]|done]. }
  destruct data as [|b data]; [by intros [= <-]|].
  remember (b :: data) as d eqn:Ed. cbn [split_headers_loop]. rewrite Ed at 1.
  unfold header_len. osimpl. change (Z.to_nat HEADER_SIZE) with 80%nat. intros Hv.
  apply bind_ok in Hv as (raw & Hraw & Hv). apply ok_or_ok, slice_get_Some in Hraw as [[_ Hl] ->].
  apply bind_ok in Hv as (hash & Hhash & Hv). apply ok_or_ok in Hhash.
  apply bind_ok in Hv as (prev & Hprev & Hv). apply prev_blockhash_ok in Hprev as [_ ->].
  apply bind_ok in Hv as (rest & [Hrest Hok]%IH & [= <-]).
  change (80 - 0)%nat with 80%nat in *. rewrite drop_0 in *.
  cbn [fmap list_fmap concat rh_raw]. split.
  - by rewrite <-Hrest, take_drop.
  - constructor; [|done]. split_and!; [|done..]. cbn [rh_raw]. rewrite length_take. lia.
Qed.

(** The fuel is enough: the loop never stops for lack of it. *)
Lemma split_headers_fuel fuel data :
  (length data ≤ fuel)%nat → split_headers_loop fuel data ≠ Panic "out of fuel".
Proof.
  revert data. induction fuel as [|fuel IH]; intros data Hf.
  { by destruct data; [|simpl in Hf; lia]. }
  destruct data as [|b data]; [done|]. remember (b :: data) as d eqn:Ed.
  cbn [split_headers_loop]. rewrite Ed at 1.
  unfold header_len. osimpl. change (Z.to_nat HEADER_SIZE) with 80%nat.
  destruct (slice_get d 0 80) as [raw|] eqn:Hs; [|done]. osimpl.
  apply slice_get_Some in Hs as [[_ Hl] ->].
  unfold header_hash. destruct (header_deserialize _); [|done]. osimpl.
  unfold prev_blockhash. destruct (slice_get _ 4 36); [|done]. osimpl.
  specialize (IH (drop 80 d)). rewrite length_drop in IH.
  specialize (IH ltac:(lia)). destruct (split_headers_loop fuel _); [done|done|].
  osimpl. congruence.
Qed.
End fmt_properties.
