(* ===== verification/Headers.v ===== *)
(** * Indexed headers and the in-memory header chain

    [bindex-lib/src/index/header.rs], [headers.rs] and the [Location] type of
    [lib.rs]. *)

From S2P Require Import Prelude External Index HashIndex Fmt.

(** ** [IndexedHeader] *)

Record IndexedHeader := {
  ih_height : Z;
  ih_next_txnum : TxNum;
  ih_hash : hash32;
  ih_prev_blockhash : hash32;
}.
#[export] Instance IndexedHeader_eq_dec : EqDecision IndexedHeader.
Proof. solve_decision. Defined.

Definition from_block {E} (height : Z) (next_txnum : TxNum) (hash : hash32)
    (block : BlockBytes) : outcome E IndexedHeader :=
  raw ← block_header block;
  match prev_blockhash raw with
  | Ok prev => Ok {| ih_height := height; ih_next_txnum := next_txnum; ih_hash := hash;
                     ih_prev_blockhash := prev |}
  | _ => Panic "invalid header bytes"
  end.

Section rows.
Context (fmt : chain_format).

(** RocksDB key of the row. *)
Definition header_key (self : IndexedHeader) : bytes :=
  match fmt with
  | Liquid => to_be_bytes 4 (ih_height self)
  | Bitcoin => txnum_serialize (ih_next_txnum self)
  end.

Definition header_serialize (self : IndexedHeader) (raw_header : bytes) : bytes * bytes :=
  (header_key self,
   match fmt with
   | Bitcoin => ih_hash self ++ raw_header
   | Liquid => txnum_serialize (ih_next_txnum self) ++ ih_hash self ++ ih_prev_blockhash self
   end).

(** A range of the value, panicking when it is too short. *)
Definition slice_at {E} (value : bytes) (from to : nat) : outcome E bytes :=
  expect "range end index out of range" (slice_get value from to).

Definition header_deserialize_row {E} (key value : bytes) (position : Z)
    : outcome E IndexedHeader :=
  _ ← assert_that "invalid header key" (bool_decide (length key = 4)%nat);
  match fmt with
  | Bitcoin =>
      hash ← slice_at value 0 HASH_LEN;
      rest ← slice_at value HASH_LEN (length value);
      match prev_blockhash rest with
      | Ok prev =>
          height ← expect "height overflow" (try_into_u32 position);
          mret {| ih_height := height; ih_next_txnum := txnum_deserialize key;
                  ih_hash := hash; ih_prev_blockhash := prev |}
      | _ => Panic "invalid header bytes"
      end
  | Liquid =>
      let height := from_be_bytes key in
      _ ← assert_that "header rows must be contiguous by height"
            (bool_decide (height = position));
      next_txnum ← slice_at value 0 TXNUM_LEN;
      hash ← slice_at value TXNUM_LEN (TXNUM_LEN + HASH_LEN);
      prev ← slice_at value (TXNUM_LEN + HASH_LEN) (TXNUM_LEN + 2 * HASH_LEN);
      mret {| ih_height := height; ih_next_txnum := txnum_deserialize next_txnum;
              ih_hash := hash; ih_prev_blockhash := prev |}
  end.

(** Raw header bytes stored in a Bitcoin row. *)
Definition raw_from_value {E} (value : bytes) : outcome E bytes :=
  slice_at value HASH_LEN (length value).
End rows.

(** ** [Headers] *)

Inductive Reorg :=
| Missing (hash : hash32) (height : Z)
| Stale (hash : hash32) (height : Z).

(** The rows, by height. *)
Abbreviation Headers := (list IndexedHeader) (only parsing).

Definition tip_hash (rows : Headers) : hash32 :=
  match last rows with Some h => ih_hash h | None => all_zeros end.

(** The checks of [Headers::new]: every row extends the one before it. *)
Fixpoint check_rows {E} (block_hash : hash32) (height : Z) (rows : Headers) : outcome E () :=
  match rows with
  | [] => mret tt
  | row :: rows =>
      _ ← assert_that "prev_blockhash mismatch" (bool_decide (ih_prev_blockhash row = block_hash));
      _ ← assert_that "height mismatch" (bool_decide (ih_height row = height));
      check_rows (ih_hash row) (height + 1) rows
  end.

Definition headers_new {E} (rows : Headers) : outcome E Headers :=
  _ ← check_rows all_zeros 0 rows; mret rows.

Definition tip_height (rows : Headers) : option Z := checked_sub (Z.of_nat (length rows)) 1.

Definition headers_add {E} (rows : Headers) (tip : IndexedHeader) : outcome E Headers :=
  _ ← assert_that "prev_blockhash mismatch" (bool_decide (ih_prev_blockhash tip = tip_hash rows));
  _ ← assert_that "height mismatch" (bool_decide (ih_height tip = Z.of_nat (length rows)));
  mret (rows ++ [tip]).

Definition headers_pop (rows : Headers) : option IndexedHeader * Headers :=
  (last rows, removelast rows).

Definition headers_tip (rows : Headers) : option IndexedHeader := last rows.
Definition headers_genesis (rows : Headers) : option IndexedHeader := head rows.

(** [rows.get(height)] for a [usize] index. *)
Definition header_at_height (rows : Headers) (height : Z) : option IndexedHeader :=
  if bool_decide (0 ≤ height < Z.of_nat (length rows)) then rows !! Z.to_nat height else None.

Definition block_hash_at_height (rows : Headers) (height : Z) : option hash32 :=
  ih_hash <$> header_at_height rows height.

Definition get_header (rows : Headers) (hash : hash32) (height : Z) : IndexedHeader + Reorg :=
  match header_at_height rows height with
  | None => inr (Missing hash height)
  | Some header => if decide (ih_hash header = hash) then inl header else inr (Stale hash height)
  end.

(** [lib.rs]: where a transaction sits. *)
Record Location := {
  loc_txnum : TxNum;
  loc_block_height : Z;
  loc_block_offset : Z;
  loc_indexed_header : IndexedHeader;
}.

(** [usize] subtraction: a debug build checks for overflow, a release build wraps. *)
Inductive build_profile := Debug | Release.
Definition usize_sub {E} (profile : build_profile) (a b : Z) : outcome E Z :=
  if b <=? a then Ok (a - b)
  else match profile with
       | Debug => Panic "attempt to subtract with overflow"
       | Release => Ok (wrap64 (a - b))
       end.

Definition find_by_txnum {E} (profile : build_profile) (rows : Headers) (txnum : TxNum)
    : outcome E Location :=
  let block_height :=
    Z.of_nat (partition_point (λ header, ih_next_txnum header <=? txnum) rows) in
  indexed_header ← expect "missing height" (header_at_height rows block_height);
  _ ← assert_that "binary search failed to find the correct position"
        (txnum <? ih_next_txnum indexed_header);
  prev_height ← usize_sub profile block_height 1;
  let prev_txnum := match header_at_height rows prev_height with
                    | Some h => ih_next_txnum h
                    | None => txnum_default
                    end in
  block_offset ← expect "binary search failed to find the correct position"
                   (offset_from txnum prev_txnum);
  mret {| loc_txnum := txnum; loc_block_height := block_height;
          loc_block_offset := block_offset; loc_indexed_header := indexed_header |}.

(** * Properties *)

Definition indexed_header_wf (h : IndexedHeader) : Prop :=
  is_u32 (ih_height h) ∧ is_u32 (ih_next_txnum h) ∧ hash_wf (ih_hash h) ∧
  hash_wf (ih_prev_blockhash h).

(** A raw header as the row stores it: 80 bytes naming its parent. *)
Definition raw_header_of (h : IndexedHeader) (raw : bytes) : Prop :=
  (36 ≤ length raw)%nat ∧ take 32 (drop 4 raw) = ih_prev_blockhash h.

Lemma header_at_height_Some rows i h :
  header_at_height rows i = Some h ↔ 0 ≤ i ∧ rows !! Z.to_nat i = Some h.
Proof.
  unfold header_at_height. case_bool_decide as Hi; [naive_solver lia|].
  split; [done|]. intros [? Hl%lookup_lt_Some]. lia.
Qed.

Lemma header_at_height_nat (rows : Headers) (i : nat) :
  header_at_height rows (Z.of_nat i) = rows !! i.
Proof.
  unfold header_at_height. rewrite Nat2Z.id. case_bool_decide; [done|].
  symmetry. apply lookup_ge_None. lia.
Qed.

(** ** Row encoding *)

Lemma header_row_roundtrip_bitcoin {E} h raw :
  indexed_header_wf h → raw_header_of h raw →
  header_deserialize_row (E := E) Bitcoin (header_serialize Bitcoin h raw).1
    (header_serialize Bitcoin h raw).2 (ih_height h) = Ok h.
Proof.
  intros (Hh & Ht & [_ Hl] & _) [Hr Hp]. cbn [header_serialize fst snd header_key].
  unfold header_deserialize_row. rewrite txnum_serialize_length. cbn [TXNUM_LEN].
  rewrite bool_decide_eq_true_2 by done. osimpl.
  unfold slice_at. rewrite (proj2 (slice_get_Some _ 0 HASH_LEN (ih_hash h))).
  2:{ rewrite length_app, Hl. split; [lia|]. by rewrite drop_0, Nat.sub_0_r, take_app_length'. }
  osimpl. rewrite (proj2 (slice_get_Some _ HASH_LEN _ raw)).
  2:{ rewrite length_app, Hl. split; [lia|]. rewrite drop_app_length' by done.
      rewrite take_ge by lia. done. }
  osimpl. rewrite (proj2 (prev_blockhash_ok raw (ih_prev_blockhash h))) by done.
  rewrite try_into_u32_ok by done. osimpl. rewrite txnum_roundtrip by done. by destruct h.
Qed.

Lemma header_row_roundtrip_liquid {E} h raw :
  indexed_header_wf h →
  header_deserialize_row (E := E) Liquid (header_serialize Liquid h raw).1
    (header_serialize Liquid h raw).2 (ih_height h) = Ok h.
Proof.
  intros (Hh & Ht & [_ Hl] & [_ Hp]). cbn [header_serialize fst snd header_key].
  unfold header_deserialize_row. rewrite to_be_bytes_length.
  rewrite (bool_decide_eq_true_2 (4 = 4)%nat) by done. osimpl.
  rewrite from_to_be_bytes4 by done.
  rewrite bool_decide_eq_true_2 by done. osimpl. unfold slice_at.
  pose proof (txnum_serialize_length (ih_next_txnum h)) as Hts.
  rewrite (proj2 (slice_get_Some _ 0 TXNUM_LEN (txnum_serialize (ih_next_txnum h)))).
  2:{ rewrite !length_app, Hts, Hl, Hp. split; [unfold TXNUM_LEN, HASH_LEN; lia|].
      by rewrite drop_0, Nat.sub_0_r, take_app_length'. }
  osimpl. rewrite (proj2 (slice_get_Some _ TXNUM_LEN _ (ih_hash h))).
  2:{ rewrite !length_app, Hts, Hl, Hp. split; [unfold TXNUM_LEN, HASH_LEN; lia|].
      rewrite drop_app_length' by done. by rewrite take_app_length'. }
  osimpl. rewrite (proj2 (slice_get_Some _ (TXNUM_LEN + HASH_LEN) _ (ih_prev_blockhash h))).
  2:{ rewrite !length_app, Hts, Hl, Hp. split; [unfold TXNUM_LEN, HASH_LEN; lia|].
      rewrite app_assoc, drop_app_length' by (by rewrite length_app, Hts, Hl).
      by rewrite take_ge by (rewrite Hp; unfold TXNUM_LEN, HASH_LEN; lia). }
  osimpl. rewrite txnum_roundtrip by done. by destruct h.
Qed.

(** ** The chain invariant *)

(** [linked prev height rows]: the rows continue a chain whose tip is [prev],
    from [height] on. *)
Fixpoint linked (prev : hash32) (height : Z) (rows : Headers) : Prop :=
  match rows with
  | [] => True
  | row :: rows =>
      ih_prev_blockhash row = prev ∧ ih_height row = height ∧
      linked (ih_hash row) (height + 1) rows
  end.

Definition headers_linked (rows : Headers) : Prop := linked all_zeros 0 rows.

(** The hash the next row must name. *)
Definition tip_hash_from (prev : hash32) (rows : Headers) : hash32 :=
  match last rows with Some h => ih_hash h | None => prev end.

Lemma tip_hash_from_cons prev r rows :
  tip_hash_from prev (r :: rows) = tip_hash_from (ih_hash r) rows.
Proof. unfold tip_hash_from. destruct rows as [|x rows]; [done|]. by rewrite last_cons_cons, !last_cons; destruct (last rows). Qed.

Lemma linked_app prev height a b :
  linked prev height (a ++ b) ↔
  linked prev height a ∧ linked (tip_hash_from prev a) (height + Z.of_nat (length a)) b.
Proof.
  revert prev height. induction a as [|r a IH]; intros prev height; cbn [linked app length].
  - cbn. rewrite Z.add_0_r. tauto.
  - rewrite IH, tip_hash_from_cons.
    replace (height + Z.of_nat (S (length a))) with (height + 1 + Z.of_nat (length a)) by lia.
    tauto.
Qed.

Lemma check_rows_ok {E} prev height rows u :
  check_rows (E := E) prev height rows = Ok u ↔ linked prev height rows.
Proof.
  revert prev height. induction rows as [|r rows IH]; intros prev height; cbn [check_rows linked].
  - destruct u. done.
  - rewrite bind_ok. split.
    + intros (? & Hp%assert_ok%bool_decide_eq_true & Hv).
      apply bind_ok in Hv as (? & Hh%assert_ok%bool_decide_eq_true & Hv%IH). done.
    + intros (-> & -> & Hl). exists tt. rewrite !bool_decide_eq_true_2 by done. osimpl.
      split; [done|]. by apply IH.
Qed.

Lemma headers_new_ok {E} rows rows' :
  headers_new (E := E) rows = Ok rows' ↔ rows' = rows ∧ headers_linked rows.
Proof.
  unfold headers_new. rewrite bind_ok. split.
  - by intros (? & Hl%check_rows_ok & [= <-]).
  - intros [-> Hl]. exists tt. split; [|done]. by apply check_rows_ok.
Qed.

Lemma headers_add_ok {E} rows tip rows' :
  headers_add (E := E) rows tip = Ok rows' ↔
  rows' = rows ++ [tip] ∧ ih_prev_blockhash tip = tip_hash rows ∧
  ih_height tip = Z.of_nat (length rows).
Proof.
  unfold headers_add. rewrite bind_ok. split.
  - intros (? & Hp%assert_ok%bool_decide_eq_true & Hv).
    by apply bind_ok in Hv as (? & Hh%assert_ok%bool_decide_eq_true & [= <-]).
  - intros (-> & Hp & Hh). exists tt. rewrite !bool_decide_eq_true_2 by done. by osimpl.
Qed.

Lemma headers_add_linked rows tip :
  headers_linked rows →
  headers_linked (rows ++ [tip]) ↔
  ih_prev_blockhash tip = tip_hash rows ∧ ih_height tip = Z.of_nat (length rows).
Proof.
  intros Hl. unfold headers_linked. rewrite linked_app. cbn [linked]. rewrite Z.add_0_l.
  change (tip_hash_from all_zeros rows) with (tip_hash rows). tauto.
Qed.

Lemma headers_pop_snoc rows tip : headers_pop (rows ++ [tip]) = (Some tip, rows).
Proof. unfold headers_pop. by rewrite last_snoc, removelast_last. Qed.

Lemma linked_lookup prev height rows i h :
  linked prev height rows → rows !! i = Some h → ih_height h = height + Z.of_nat i.
Proof.
  revert prev height i. induction rows as [|r rows IH]; intros prev height i; [done|].
  intros (_ & <- & Hl) Hi. destruct i as [|i]; [cbn in Hi; simplify_eq; lia|].
  rewrite (IH _ _ _ Hl Hi). lia.
Qed.

(** ** Looking a transaction number up *)

(** First transaction number of the block at a height. *)
Definition first_txnum (rows : Headers) (i : nat) : TxNum :=
  match i with
  | O => txnum_default
  | S j => match rows !! j with Some h => ih_next_txnum h | None => txnum_default end
  end.

Definition txnums_ascending (rows : Headers) : Prop :=
  Sorted Z.le (ih_next_txnum <$> rows) ∧ Forall (λ h, is_u32 (ih_next_txnum h)) rows.

Lemma txnums_ascending_le rows i j a b :
  txnums_ascending rows → (i ≤ j)%nat → rows !! i = Some a → rows !! j = Some b →
  ih_next_txnum a ≤ ih_next_txnum b.
Proof.
  intros [Hs _] Hij Ha Hb. apply Sorted_StronglySorted in Hs; [|intros ???; lia].
  destruct (decide (i = j)) as [->|]; [simplify_eq; lia|].
  eapply (StronglySorted_lookup_lt Z.le _ i j); [done|lia| |].
  - by rewrite list_lookup_fmap, Ha.
  - by rewrite list_lookup_fmap, Hb.
Qed.

Lemma first_txnum_le rows i h :
  txnums_ascending rows → rows !! i = Some h → 0 ≤ first_txnum rows i ≤ ih_next_txnum h.
Proof.
  intros Ha Hi. destruct i as [|j]; cbn [first_txnum].
  - destruct Ha as [_ Hu]. eapply Forall_lookup_1 in Hu; [|done].
    unfold txnum_default, is_u32 in *. lia.
  - destruct (lookup_lt_is_Some_2 rows j) as [g Hg]; [apply lookup_lt_Some in Hi; lia|].
    rewrite Hg. pose proof (txnums_ascending_le rows j (S j) g h Ha ltac:(lia) Hg Hi).
    destruct Ha as [_ Hu]. eapply Forall_lookup_1 in Hu; [|done]. unfold is_u32 in *. lia.
Qed.

(** The only block a transaction number can lie in. *)
Definition txnum_in_block (rows : Headers) (i : nat) (h : IndexedHeader) (t : TxNum) : Prop :=
  rows !! i = Some h ∧ first_txnum rows i ≤ t < ih_next_txnum h.

Lemma txnum_in_block_unique rows i j h g t :
  txnums_ascending rows → txnum_in_block rows i h t → txnum_in_block rows j g t → i = j.
Proof.
  intros Ha. revert i j h g.
  assert (∀ i j h g, txnum_in_block rows i h t → txnum_in_block rows j g t → ¬ (i < j)%nat) as Hlt.
  { intros i j h g [Hi ?] [Hj Hf] Hij. destruct j as [|j]; [lia|]. cbn [first_txnum] in Hf.
    destruct (lookup_lt_is_Some_2 rows j) as [k Hk]; [apply lookup_lt_Some in Hj; lia|].
    rewrite Hk in Hf.
    pose proof (txnums_ascending_le rows i j h k Ha ltac:(lia) Hi Hk). lia. }
  intros i j h g Hi Hj. pose proof (Hlt _ _ _ _ Hi Hj). pose proof (Hlt _ _ _ _ Hj Hi). lia.
Qed.

(** The invariant of the in-memory chain. *)
Definition headers_wf (rows : Headers) : Prop :=
  headers_linked rows ∧ txnums_ascending rows ∧ Forall indexed_header_wf rows.

Lemma headers_wf_length rows : headers_wf rows → Z.of_nat (length rows) ≤ 2 ^ 32.
Proof.
  intros (Hl & _ & Hw). destruct rows as [|x rows _] using rev_ind; [done|].
  apply Forall_app in Hw as [_ [(Hh & _) _]%Forall_cons].
  apply headers_add_linked in Hl as [_ Hx].
  - rewrite length_app. cbn [length]. unfold is_u32 in Hh. lia.
  - unfold headers_linked in *. by apply linked_app in Hl as [? _].
Qed.

Lemma find_by_txnum_in_block {E} rows i h t :
  Z.of_nat (length rows) ≤ 2 ^ 32 → txnums_ascending rows → txnum_in_block rows i h t →
  find_by_txnum (E := E) Release rows t =
  Ok {| loc_txnum := t; loc_block_height := Z.of_nat i;
        loc_block_offset := t - first_txnum rows i; loc_indexed_header := h |}.
Proof.
  intros Hlen Ha [Hi [Hlo Hhi]]. unfold find_by_txnum.
  set (p := λ header, ih_next_txnum header <=? t).
  assert (partition_point p rows = i) as ->.
  { destruct (Nat.lt_trichotomy (partition_point p rows) i) as [Hlt|[?|Hgt]]; [exfalso|done|exfalso].
    - destruct (lookup_lt_is_Some_2 rows (partition_point p rows)) as [g Hg];
        [apply lookup_lt_Some in Hi; lia|].
      pose proof (partition_point_eq _ _ _ Hg) as Hp%Z.leb_gt.
      destruct i as [|j]; [lia|]. cbn [first_txnum] in Hlo.
      destruct (lookup_lt_is_Some_2 rows j) as [k Hk]; [apply lookup_lt_Some in Hi; lia|].
      rewrite Hk in Hlo.
      pose proof (txnums_ascending_le rows (partition_point p rows) j g k Ha ltac:(lia) Hg Hk). lia.
    - pose proof (partition_point_lt p rows i h Hgt Hi) as Hp%Z.leb_le. lia. }
  rewrite header_at_height_nat, Hi. osimpl.
  rewrite (proj2 (Z.ltb_lt _ _)) by done. osimpl. unfold usize_sub, offset_from.
  destruct i as [|j]; cbn [first_txnum] in *.
  - rewrite (proj2 (Z.leb_gt _ _)) by lia. osimpl.
    unfold header_at_height. rewrite bool_decide_eq_false_2.
    { rewrite checked_sub_ok by done. by osimpl. }
    change (wrap64 (Z.of_nat 0 - 1)) with (2 ^ 64 - 1).
    clear -Hlen. lia.
  - rewrite (proj2 (Z.leb_le _ _)) by lia. osimpl.
    replace (Z.of_nat (S j) - 1) with (Z.of_nat j) by lia.
    rewrite header_at_height_nat, checked_sub_ok by done. by osimpl.
Qed.

(** Every number below the chain's next one lies in some block. *)
Lemma txnum_in_some_block rows tip t :
  last rows = Some tip → 0 ≤ t < ih_next_txnum tip →
  ∃ i h, txnum_in_block rows i h t.
Proof.
  intros Hlast Ht. set (p := λ header, ih_next_txnum header <=? t).
  assert (partition_point p rows < length rows)%nat as Hlt.
  { destruct (decide (partition_point p rows = length rows)) as [He|].
    2:{ pose proof (partition_point_le p rows). lia. }
    rewrite last_lookup in Hlast.
    pose proof (partition_point_lt p rows (pred (length rows)) tip) as Hp.
    destruct rows; [done|]. rewrite He in Hp. cbn [length] in *.
    specialize (Hp ltac:(lia) Hlast). apply Z.leb_le in Hp. lia. }
  destruct (lookup_lt_is_Some_2 rows _ Hlt) as [h Hh].
  exists (partition_point p rows), h. split; [done|].
  pose proof (partition_point_eq _ _ _ Hh) as Hp%Z.leb_gt. split; [|done].
  destruct (partition_point p rows) as [|j] eqn:Ej; cbn [first_txnum]; [unfold txnum_default; lia|].
  destruct (lookup_lt_is_Some_2 rows j) as [k Hk]; [lia|]. rewrite Hk.
  pose proof (partition_point_lt p rows j k ltac:(lia) Hk) as Hq%Z.leb_le. lia.
Qed.
