(* ===== verification/Batch.v ===== *)
(** * Index batches

    [Batch::build] of [bindex-lib/src/index/mod.rs]: everything the index stores
    for one block. *)

From S2P Require Import Prelude External Index TxPos HashIndex Fmt Headers.

Record Batch := {
  scripthash_rows : list HashPrefixRow;
  txid_rows : list HashPrefixRow;
  txpos_rows : list TxBlockPosRow;
  batch_header : IndexedHeader;
  raw_header : bytes;
}.

Section build.
Context `{HS : !Hashes, SO : !ScriptOps, VI : !VarInt, SL : !Slices}.

Definition batch_build (height : Z) (txnum_range : TxNumRange) (blockhash : hash32)
    (block : BlockBytes) (spent : SpentBytes) : outcome (index_error slices_error) Batch :=
  let first_txnum := range_first txnum_range in
  scripthash ← scripthash_index block spent first_txnum;
  txpos ← txpos_index block first_txnum;
  txid ← txid_index block first_txnum;
  _ ← assert_that "scripthash count" (bool_decide (range_next txnum_range = ib_next_txnum scripthash));
  _ ← assert_that "txpos count" (bool_decide (range_next txnum_range = ib_next_txnum txpos));
  _ ← assert_that "txid count" (bool_decide (range_next txnum_range = ib_next_txnum txid));
  header ← from_block height (range_next txnum_range) blockhash block;
  raw ← block_header block;
  mret {| scripthash_rows := ib_rows scripthash; txid_rows := ib_rows txid;
          txpos_rows := ib_rows txpos; batch_header := header; raw_header := raw |}.
End build.

(** * Properties *)

Section properties.
Context `{HS : !Hashes, HSL : !HashLaws, SO : !ScriptOps, VI : !VarInt, VIL : !VarIntLaws,
         SL : !Slices, SLL : !SlicesLaws}.

(** The batch of a block, given what its raw bytes and spent outputs hold. *)
Record batch_spec (height first : Z) (hash : hash32) (block : BlockBytes) (spent : SpentBytes)
    (txs : list slice_tx) (sss : list (list bytes)) (b : Batch) : Prop := {
  bs_visit : block_visit (block_data block) = (block_events txs, inr []);
  bs_layout : block_layout (block_data block) [] txs;
  bs_txids : Forall (λ tx, hash_wf (stx_txid tx)) txs;
  bs_spent : spent_stream (spent_data spent) sss;
  bs_counts : length sss = length txs;
  bs_bound : first + Z.of_nat (length txs) < 2 ^ 32;
  bs_scripts : scripthash_rows b =
    block_script_rows Bitcoin first (stx_scripts <$> txs) ++ block_script_rows Bitcoin first sss;
  bs_txid_rows : txid_rows b = block_txid_rows first (stx_txid <$> txs);
  bs_txpos_in : rows_in (txpos_rows b) first (first + Z.of_nat (length txs));
  bs_txpos : ∀ n p,
    (n, p) ∈ positions_of first
      (HEADER_SIZE + Z.of_nat (length (varint_encode (Z.of_nat (length txs))))) txs →
    rows_locate (txpos_rows b) n p;
  bs_raw : raw_header b = take (block_header_len block) (block_data block);
  bs_prev : prev_blockhash (raw_header b) = Ok (ih_prev_blockhash (batch_header b));
  bs_header : batch_header b = {|
    ih_height := height; ih_next_txnum := first + Z.of_nat (length txs); ih_hash := hash;
    ih_prev_blockhash := ih_prev_blockhash (batch_header b) |};
}.

Lemma visit_block_ok {St} (f : St → visit_event → outcome (index_error slices_error) St) st raw st' :
  visit_block f st raw = Ok st' →
  ∃ txs, block_visit raw = (block_events txs, inr []) ∧ block_layout raw [] txs ∧
         Forall (λ tx, stx_raw tx ≠ [] ∧ hash_wf (stx_txid tx)) txs ∧
         foldM f st (block_events txs) = Ok st'.
Proof.
  unfold visit_block. destruct (block_visit raw) as [evs [e|rest]] eqn:Ev; intros Hv;
    apply bind_ok in Hv as (st1 & Hst & Hv); [done|].
  destruct rest as [|? ?]; [|done]. injection Hv as <-.
  pose proof (block_visit_ok _ _ _ Ev) as (txs & -> & Hl & Htx). eauto 10.
Qed.

Lemma block_events_inj txs txs' raw :
  block_visit raw = (block_events txs, inr []) →
  block_visit raw = (block_events txs', inr []) → block_events txs = block_events txs'.
Proof. congruence. Qed.

(** The three visitors see the same transactions: the events determine them. *)
Lemma tx_events_inj tx1 l1 tx2 l2 :
  tx_events tx1 ++ l1 = tx_events tx2 ++ l2 → tx1 = tx2 ∧ l1 = l2.
Proof.
  destruct tx1 as [r1 i1 s1], tx2 as [r2 i2 s2]. unfold tx_events. cbn [stx_raw stx_txid stx_scripts].
  rewrite <-!app_assoc. cbn [app].
  assert (∀ k, imap (λ i s, visit_tx_out (Z.of_nat (k + i)) s) s1 ++ visit_transaction r1 i1 :: l1 =
               imap (λ i s, visit_tx_out (Z.of_nat (k + i)) s) s2 ++ visit_transaction r2 i2 :: l2 →
               s1 = s2 ∧ r1 = r2 ∧ i1 = i2 ∧ l1 = l2) as Hgen.
  { revert s2. induction s1 as [|a s1 IH]; intros [|b s2] k; rewrite ?imap_cons; cbn [imap app];
      [by intros [= -> -> ->]|done|done|].
    intros [= -> Hrest].
    rewrite !(imap_ext (_ ∘ S) (λ i s, visit_tx_out (Z.of_nat (S k + i)) s)) in Hrest
      by (intros i x _; unfold compose; f_equal; lia).
    apply IH in Hrest. naive_solver. }
  intros Heq. specialize (Hgen 0%nat). cbn [Nat.add] in Hgen.
  apply Hgen in Heq as (-> & -> & -> & ->). done.
Qed.

Lemma bind_tx_events_inj txs1 txs2 :
  txs1 ≫= tx_events = txs2 ≫= tx_events → txs1 = txs2.
Proof.
  revert txs2. induction txs1 as [|t1 txs1 IH]; intros [|t2 txs2]; cbn [mbind list_bind];
    [done|destruct t2 as [? ? [|? ?]]; done|destruct t1 as [? ? [|? ?]]; done|].
  intros [-> Hr]%tx_events_inj. f_equal. by apply IH.
Qed.

Lemma block_events_txs_inj txs1 txs2 : block_events txs1 = block_events txs2 → txs1 = txs2.
Proof. intros [= _ Heq]. by apply bind_tx_events_inj. Qed.

Lemma txs_count_le txs :
  Forall (λ tx, stx_raw tx ≠ [] ∧ hash_wf (stx_txid tx)) txs →
  Z.of_nat (length txs) ≤ txs_size txs.
Proof.
  unfold txs_size. induction 1 as [|tx txs [Hne _] _ IH]; [done|].
  cbn [fmap list_fmap concat length] in *. rewrite length_app.
  destruct (stx_raw tx); [done|]. cbn [length]. lia.
Qed.

Lemma scripthash_index_ok block spent t ib :
  scripthash_index block spent t = Ok ib → is_u32 t →
  ∃ txs sss, block_visit (block_data block) = (block_events txs, inr []) ∧
    spent_stream (spent_data spent) sss ∧ length sss = length txs ∧
    t + Z.of_nat (length txs) < 2 ^ 32 ∧
    ib = {| ib_next_txnum := t + Z.of_nat (length txs);
            ib_rows := block_script_rows Bitcoin t (stx_scripts <$> txs) ++
                       block_script_rows Bitcoin t sss |}.
Proof.
  intros Hv Ht. unfold scripthash_index in Hv.
  apply bind_ok in Hv as (v1 & Hv1 & Hv). apply bind_ok in Hv as (v2 & Hv2 & Hv).
  apply bind_ok in Hv as (? & Heq%assert_ok%bool_decide_eq_true & [= <-]).
  unfold add_block_rows in Hv1.
  apply visit_block_ok in Hv1 as (txs & Hvis & _ & _ & Hf).
  unfold block_events in Hf. cbn [foldM script_visit] in Hf. osimpl in Hf.
  rewrite script_visit_txs in Hf by done. cbn [sv_txnum sv_rows script_visitor_new app] in Hf.
  case_match eqn:Hlt; [|done]. injection Hf as <-. apply Z.ltb_lt in Hlt.
  cbn [sv_rows sv_txnum] in *.
  apply add_spent_rows_ok in Hv2 as (sss & Hs & Hlt2 & ->); [|done]. cbn [sv_rows sv_txnum] in *.
  exists txs, sss. split_and!; [done..|lia|done|done].
Qed.

Lemma txid_index_ok block t ib :
  txid_index block t = Ok ib → is_u32 t →
  ∃ txs, block_visit (block_data block) = (block_events txs, inr []) ∧
    Forall (λ tx, stx_raw tx ≠ [] ∧ hash_wf (stx_txid tx)) txs ∧
    ib = {| ib_next_txnum := t + Z.of_nat (length txs);
            ib_rows := block_txid_rows t (stx_txid <$> txs) |}.
Proof.
  intros Hv Ht. unfold txid_index in Hv.
  apply visit_block_ok in Hv as (txs & Hvis & _ & Hwf & Hf).
  unfold block_events in Hf. cbn [foldM txid_visit] in Hf. osimpl in Hf.
  rewrite txid_visit_txs in Hf by done. cbn [ib_next_txnum ib_rows app] in Hf.
  case_match; [|done]. injection Hf as <-. eauto.
Qed.

(** Byte offset of the first transaction. *)
Definition first_offset (txs : list slice_tx) : Z :=
  HEADER_SIZE + Z.of_nat (length (varint_encode (Z.of_nat (length txs)))).

Lemma layout_size raw txs :
  block_layout raw [] txs → Z.of_nat (length raw) = first_offset txs + txs_size txs.
Proof.
  intros (hdr & Hl & ->). unfold first_offset, txs_size.
  rewrite !length_app. cbn [length]. lia.
Qed.

Lemma txpos_index_ok block t ib :
  txpos_index block t = Ok ib → is_u32 t → Z.of_nat (length (block_data block)) < 2 ^ 32 →
  ∃ txs, block_visit (block_data block) = (block_events txs, inr []) ∧
    block_layout (block_data block) [] txs ∧
    ib_next_txnum ib = t + Z.of_nat (length txs) ∧
    rows_in (ib_rows ib) t (t + Z.of_nat (length txs)) ∧
    ∀ n p, (n, p) ∈ positions_of t (first_offset txs) txs → rows_locate (ib_rows ib) n p.
Proof.
  intros Hv Ht Hsize. unfold txpos_index in Hv.
  apply bind_ok in Hv as (v & Hvis & Hv). apply bind_ok in Hv as (rows & Hrows & [= <-]).
  apply visit_block_ok in Hvis as (txs & Hvis & Hlay & Hwf & Hf).
  pose proof (layout_size _ _ Hlay) as Hl. pose proof (txs_count_le _ Hwf) as Hc.
  assert (is_u64 (Z.of_nat (length txs))) as Hn
    by (unfold first_offset, HEADER_SIZE in Hl; bx_arith).
  unfold block_events in Hf. cbn [foldM txpos_visit] in Hf. osimpl in Hf.
  cbn [positions tx_num tx_offset txpos_visitor_new] in Hf.
  rewrite (varint_size_length _ Hn) in Hf. fold (first_offset txs) in Hf.
  rewrite (wrap32_small (Z.of_nat (length (varint_encode _)))) in Hf
    by (unfold first_offset, HEADER_SIZE, txs_size in *; bx_arith).
  fold (first_offset txs) in Hf.
  rewrite wrap32_small in Hf by (unfold txs_size, first_offset, HEADER_SIZE in *; bx_arith).
  rewrite txpos_visit_txs in Hf by (done || unfold first_offset, HEADER_SIZE in *; lia).
  case_match; [|done]. injection Hf as <-. cbn [positions tx_num app] in *.
  destruct (chunkify_tiled (E := index_error slices_error) _ _ _ _ _
              (positions_of_tiled t (first_offset txs) txs)) as (rows' & Hrows' & Hin & Hloc);
    [unfold first_offset, HEADER_SIZE; lia|lia|].
  rewrite Hrows' in Hrows. injection Hrows as <-. exists txs. cbn [ib_next_txnum ib_rows]. done.
Qed.

Lemma from_block_ok {E} height next hash block h :
  from_block (E := E) height next hash block = Ok h →
  ∃ raw, block_header (E := E) block = Ok raw ∧ prev_blockhash raw = Ok (ih_prev_blockhash h) ∧
    h = {| ih_height := height; ih_next_txnum := next; ih_hash := hash;
           ih_prev_blockhash := ih_prev_blockhash h |}.
Proof.
  unfold from_block. intros Hv. apply bind_ok in Hv as (raw & Hraw & Hv). exists raw.
  destruct (prev_blockhash raw) eqn:Ep; [|done..]. by injection Hv as <-.
Qed.

Lemma block_header_ok {E} block raw :
  block_header (E := E) block = Ok raw → raw = take (block_header_len block) (block_data block).
Proof. unfold block_header. case_bool_decide; [by intros [= <-]|done]. Qed.

Lemma batch_build_ok height r hash block spent b :
  batch_build height r hash block spent = Ok b → is_u32 (range_first r) →
  Z.of_nat (length (block_data block)) < 2 ^ 32 →
  ∃ txs sss, batch_spec height (range_first r) hash block spent txs sss b ∧
    range_next r = range_first r + Z.of_nat (length txs).
Proof.
  intros Hv Ht Hsize. unfold batch_build in Hv.
  apply bind_ok in Hv as (sh & Hsh & Hv). apply bind_ok in Hv as (tp & Htp & Hv).
  apply bind_ok in Hv as (ti & Hti & Hv).
  apply bind_ok in Hv as (? & Hn1%assert_ok%bool_decide_eq_true & Hv).
  apply bind_ok in Hv as (? & _ & Hv). apply bind_ok in Hv as (? & _ & Hv).
  apply bind_ok in Hv as (h & Hh & Hv). apply bind_ok in Hv as (raw & Hraw & [= <-]).
  apply scripthash_index_ok in Hsh as (txs & sss & Hvis & Hs & Hc & Hb & ->); [|done].
  apply txid_index_ok in Hti as (txs2 & Hvis2 & Hwf & ->); [|done].
  assert (txs2 = txs) as -> by (apply block_events_txs_inj; congruence).
  apply txpos_index_ok in Htp as (txs3 & Hvis3 & Hlay & Hnext & Hin & Hloc); [|done..].
  assert (txs3 = txs) as -> by (apply block_events_txs_inj; congruence).
  apply from_block_ok in Hh as (raw' & Hraw' & Hprev & Hh).
  assert (raw' = raw) as -> by congruence.
  apply block_header_ok in Hraw. cbn [ib_next_txnum] in Hn1.
  exists txs, sss. split; [|done].
  split; cbn [scripthash_rows txid_rows txpos_rows batch_header raw_header ib_rows];
    [try done..|by rewrite <-Hn1].
  eapply Forall_impl; [done|]. naive_solver.
Qed.
End properties.
