(* ===== verification/Store.v ===== *)
(** * The key-value store of the index

    [bindex-lib/src/db.rs]: how batches are written to and deleted from RocksDB,
    and the scans that read them back. *)

From S2P Require Import Prelude External Index TxPos HashIndex Fmt Headers Batch.

Inductive rocksdb_error := RocksdbError.

Record DB (S : Type) := { db : S; compacting : bool; secondary : bool }.
Arguments Build_DB {S} _ _ _.
Arguments db {S} _.
Arguments compacting {S} _.
Arguments secondary {S} _.

(** The bytes of ["C"]. *)
Definition CONFIG_KEY : bytes := [67].

Definition COLUMN_FAMILIES : list cf_name :=
  [CONFIG_CF; HEADERS_CF; TXPOS_CF; TXID_CF; SCRIPT_HASH_CF; SPENDING_CF; FUNDING_CF].

Record Config := { format : Z }.

Section db.
Context {S : Type} `{RD : !RocksDB S, VI : !VarInt, CJ : !ConfigJson}.
Abbreviation result := (outcome rocksdb_error).

Definition with_db (self : DB S) (s : S) : DB S :=
  {| db := s; compacting := compacting self; secondary := secondary self |}.

Definition get_config {E} (self : DB S) : outcome E (option Config) :=
  match rocks_get (db self) CONFIG_CF CONFIG_KEY with
  | None => mret None
  | Some value =>
      format ← expect "invalid config" (config_from_json value);
      mret (Some {| format := format |})
  end.

Definition validate_config {E} (self : DB S) : outcome E () :=
  config ← get_config self;
  match config with
  | Some config =>
      if format config <? 1 then Panic "Unsupported DB format - please reindex!" else mret tt
  | None => mret tt
  end.

Definition catch_up_with_primary (self : DB S) : result (DB S) :=
  if secondary self
  then s ← ok_or RocksdbError (rocks_catch_up (db self)); mret (with_db self s)
  else mret self.

Definition open (path : string) : result (DB S) :=
  s ← ok_or RocksdbError (rocks_open path);
  let store := {| db := s; compacting := false; secondary := false |} in
  _ ← validate_config store;
  mret store.

Definition open_as_secondary (primary_path secondary_path : string) : result (DB S) :=
  s ← ok_or RocksdbError (rocks_open_secondary primary_path secondary_path);
  let store := {| db := s; compacting := false; secondary := true |} in
  store ← catch_up_with_primary store;
  _ ← validate_config store;
  mret store.

(** The write batch of [apply_batch]: script and txid rows sorted by key,
    position rows and header rows in batch order. *)
Definition batch_ops {E} (f : cf_name → bytes → bytes → write_op) (batches : list Batch)
    : outcome E (list write_op) :=
  let scripthash_rows :=
    merge_sort bytes_le (batches ≫= λ batch, row_key <$> scripthash_rows batch) in
  let txid_rows := merge_sort bytes_le (batches ≫= λ batch, row_key <$> txid_rows batch) in
  txpos ← mapM row_serialize (batches ≫= txpos_rows);
  let headers := (λ batch, header_serialize Bitcoin (batch_header batch) (raw_header batch))
                   <$> batches in
  mret (((λ row, f SCRIPT_HASH_CF row []) <$> scripthash_rows) ++
        ((λ row, f TXID_CF row []) <$> txid_rows) ++
        ((λ kv, f TXPOS_CF kv.1 kv.2) <$> txpos) ++
        ((λ kv, f HEADERS_CF kv.1 kv.2) <$> headers)).

Definition apply_batch (f : cf_name → bytes → bytes → write_op) (batches : list Batch)
    (self : DB S) : result (DB S) :=
  match batches with
  | [] => mret self
  | _ =>
      write_batch ← batch_ops f batches;
      s ← ok_or RocksdbError (rocks_write (db self) write_batch);
      mret (with_db self s)
  end.

Definition write (batches : list Batch) : DB S → result (DB S) :=
  apply_batch put_cf batches.
Definition delete (batches : list Batch) : DB S → result (DB S) :=
  apply_batch (λ cf k _v, delete_cf cf k) batches.

Definition flush (self : DB S) : result (DB S) :=
  s ← foldM (λ s cf, ok_or RocksdbError (rocks_flush s cf)) (db self) COLUMN_FAMILIES;
  mret (with_db self s).

Definition start_compactions (self : DB S) : result (DB S) :=
  if compacting self then mret self
  else
    s ← foldM (λ s cf, ok_or RocksdbError (rocks_enable_compactions s cf)) (db self)
          COLUMN_FAMILIES;
    mret {| db := s; compacting := true; secondary := secondary self |}.

(** [key[..].try_into().unwrap()] *)
Definition row_of_key {E} (key : bytes) : outcome E HashPrefixRow :=
  if bool_decide (length key = ROW_LEN) then Ok (from_bytes key)
  else Panic "called `Result::unwrap()` on an `Err` value".

Fixpoint scan_from {E} (hash_prefix : bytes) (from : TxNum) (kvs : list (bytes * bytes))
    : outcome E (list TxNum) :=
  match kvs with
  | [] => mret []
  | (key, _) :: kvs =>
      if negb (starts_with key hash_prefix) then mret []
      else
        row ← row_of_key key;
        _ ← assert_that "row.txnum() >= from" (from <=? row_txnum row);
        txnums ← scan_from hash_prefix from kvs;
        mret (row_txnum row :: txnums)
  end.

Definition scan_by_script_hash {E} (self : DB S) (script_hash : hash32) (from : TxNum)
    : outcome E (list TxNum) :=
  let hash_prefix := prefix_new script_hash in
  let start := hash_prefix_row_new hash_prefix from in
  scan_from hash_prefix from (rocks_iter_from (db self) SCRIPT_HASH_CF (row_key start)).

Fixpoint scan_all {E} (hash_prefix : bytes) (kvs : list (bytes * bytes))
    : outcome E (list TxNum) :=
  match kvs with
  | [] => mret []
  | (key, _) :: kvs =>
      if negb (starts_with key hash_prefix) then mret []
      else
        row ← row_of_key key;
        txnums ← scan_all hash_prefix kvs;
        mret (row_txnum row :: txnums)
  end.

Definition scan_by_txid {E} (self : DB S) (txid : hash32) : outcome E (list TxNum) :=
  let hash_prefix := prefix_new txid in
  let start := hash_prefix_row_new hash_prefix txnum_default in
  scan_all hash_prefix (rocks_iter_from (db self) TXID_CF (row_key start)).

Definition get_tx_block_pos {E} (self : DB S) (txnum : TxNum) : outcome E TxBlockPos :=
  let from_key := txnum_serialize txnum in
  match rocks_iter_from (db self) TXPOS_CF from_key with
  | (key, value) :: _ =>
      _ ← assert_that "from_key[..] <= key[..]" (bytes_leb from_key key);
      row ← row_deserialize key value;
      row_get_tx_block_pos row txnum
  | [] => Panic "Missing txnum"
  end.

Definition get_header_value (self : DB S) (key : bytes) : option bytes :=
  rocks_get (db self) HEADERS_CF key.

(** [enumerate] from a position on, deserializing each row. *)
Fixpoint headers_rows {E} (kvs : list (bytes * bytes)) (position : Z)
    : outcome E (list IndexedHeader) :=
  match kvs with
  | [] => mret []
  | (key, value) :: kvs =>
      row ← header_deserialize_row Bitcoin key value position;
      rows ← headers_rows kvs (position + 1);
      mret (row :: rows)
  end.

Definition headers_from {E} (self : DB S) (key : bytes) (first_height : Z)
    : outcome E (list IndexedHeader) :=
  headers_rows (rocks_iter_from (db self) HEADERS_CF key) first_height.

(** [IteratorMode::Start]: the empty key is before every key. *)
Definition headers {E} (self : DB S) : outcome E (list IndexedHeader) :=
  headers_rows (rocks_iter_from (db self) HEADERS_CF []) 0.
End db.
