(* ===== verification/StoreSpec.v ===== *)
(** * What the store promises

    The abstract specification of [Store]: a database [indexes] a list of
    batches when its index column families hold exactly the rows of those
    batches. [write] and [delete] move the list forward and backward, and the
    scans return what the list says. *)

From S2P Require Import Prelude External Index TxPos HashIndex Fmt Headers Batch Store.

(** ** Entries of a batch *)

Section entries.
Context `{VI : !VarInt}.

Inductive batch_entry (b : Batch) : cf_name → bytes → bytes → Prop :=
| be_script r : r ∈ scripthash_rows b → batch_entry b SCRIPT_HASH_CF (row_key r) []
| be_txid r : r ∈ txid_rows b → batch_entry b TXID_CF (row_key r) []
| be_txpos r k v :
    r ∈ txpos_rows b → row_serialize (E := ()) r = Ok (k, v) → batch_entry b TXPOS_CF k v
| be_header :
    batch_entry b HEADERS_CF (txnum_serialize (ih_next_txnum (batch_header b)))
      (ih_hash (batch_header b) ++ raw_header b).

Definition index_cf (cf : cf_name) : Prop :=
  cf = SCRIPT_HASH_CF ∨ cf = TXID_CF ∨ cf = TXPOS_CF ∨ cf = HEADERS_CF.

(** The abstraction relation between a database and the indexed batches. *)
Definition indexes (v : db_view) (bs : list Batch) : Prop :=
  ∀ cf k x, index_cf cf → v cf k = Some x ↔ ∃ b, b ∈ bs ∧ batch_entry b cf k x.

(** Every key carries a transaction number: the slot it belongs to. *)
Definition key_slot (cf : cf_name) (k : bytes) : Z :=
  match cf with
  | SCRIPT_HASH_CF | TXID_CF => txnum_deserialize (drop PREFIX_LEN k)
  | HEADERS_CF => txnum_deserialize k - 1
  | _ => txnum_deserialize k
  end.

Definition hash_rows_in (rows : list HashPrefixRow) (lo hi : TxNum) : Prop :=
  Forall (λ r, ∃ p t, length p = PREFIX_LEN ∧ lo ≤ t < hi ∧ r = hash_prefix_row_new p t) rows.

(** A batch that holds the transactions numbered [lo] up to [hi]. *)
Record batch_wf (lo hi : TxNum) (b : Batch) : Prop := {
  bw_range : 0 ≤ lo < hi ∧ hi < 2 ^ 32;
  bw_script : hash_rows_in (scripthash_rows b) lo hi;
  bw_txid : hash_rows_in (txid_rows b) lo hi;
  bw_txpos : rows_in (txpos_rows b) lo hi;
  bw_locate t : lo ≤ t < hi → ∃ p, rows_locate (txpos_rows b) t p;
  bw_next : ih_next_txnum (batch_header b) = hi;
  bw_header : indexed_header_wf (batch_header b);
  bw_raw : raw_header_of (batch_header b) (raw_header b);
}.

Definition batch_next (b : Batch) : TxNum := ih_next_txnum (batch_header b).

(** Batches that number their transactions consecutively from [lo] on. *)
Fixpoint batches_wf (lo : TxNum) (bs : list Batch) : Prop :=
  match bs with
  | [] => True
  | b :: bs => batch_wf lo (batch_next b) b ∧ batches_wf (batch_next b) bs
  end.

Definition next_from (lo : TxNum) (bs : list Batch) : TxNum :=
  match last bs with Some b => batch_next b | None => lo end.

Lemma next_from_cons lo b bs : next_from lo (b :: bs) = next_from (batch_next b) bs.
Proof. unfold next_from. rewrite last_cons. by destruct (last bs). Qed.

Lemma batches_wf_app lo a b :
  batches_wf lo (a ++ b) ↔ batches_wf lo a ∧ batches_wf (next_from lo a) b.
Proof.
  revert lo. induction a as [|x a IH]; intros lo; cbn [batches_wf app]; [tauto|].
  rewrite IH, next_from_cons. tauto.
Qed.

Lemma batches_wf_le lo bs : batches_wf lo bs → lo ≤ next_from lo bs.
Proof.
  revert lo. induction bs as [|b bs IH]; intros lo; [done|].
  rewrite next_from_cons. intros [Hb Hr%IH]. apply bw_range in Hb. lia.
Qed.

(** Each batch of a list has its own range of numbers. *)
Lemma batches_wf_elem lo bs b :
  batches_wf lo bs → b ∈ bs →
  ∃ t, batch_wf t (batch_next b) b ∧ lo ≤ t ∧ batch_next b ≤ next_from lo bs.
Proof.
  revert lo. induction bs as [|x bs IH]; intros lo; [set_solver|].
  intros [Hx Hr]. rewrite next_from_cons. pose proof (batches_wf_le _ _ Hr) as Hle.
  intros [->|Hb]%elem_of_cons; [exists lo; split_and!; done || lia|].
  destruct (IH _ Hr Hb) as (t & Ht & ? & ?). exists t. apply bw_range in Hx.
  split_and!; done || lia.
Qed.

Lemma hash_rows_slot rows lo hi r :
  hash_rows_in rows lo hi → 0 ≤ lo → hi < 2 ^ 32 → r ∈ rows →
  lo ≤ txnum_deserialize (drop PREFIX_LEN (row_key r)) < hi ∧ length (row_key r) = ROW_LEN.
Proof.
  unfold hash_rows_in. rewrite Forall_forall. intros Hr Hlo Hhi (p & t & Hp & Ht & ->)%Hr.
  change (txnum_deserialize _) with (row_txnum (hash_prefix_row_new p t)).
  rewrite row_txnum_new by (done || bx_arith). split; [lia|].
  cbn [row_key hash_prefix_row_new]. by rewrite length_app, Hp, txnum_serialize_length.
Qed.

Lemma row_serialize_key {E} r k v :
  row_serialize (E := E) r = Ok (k, v) → k = txnum_serialize (last_txnum r).
Proof. unfold row_serialize. intros (o & _ & [= <- <-])%bind_ok. done. Qed.

Lemma entry_slot lo hi b cf k x :
  batch_wf lo hi b → batch_entry b cf k x → lo ≤ key_slot cf k < hi.
Proof.
  intros [[? ?] Hs Hi [Hp _] _ Hn Hh _]. destruct 1 as [r Hr|r Hr|r k v Hr Hk|]; cbn [key_slot].
  - eapply hash_rows_slot in Hs as [? _]; [done|lia|lia|done].
  - eapply hash_rows_slot in Hi as [? _]; [done|lia|lia|done].
  - apply row_serialize_key in Hk as ->. rewrite Forall_forall in Hp.
    destruct (Hp r Hr) as [? _]. rewrite txnum_roundtrip by bx_arith. done.
  - rewrite Hn, txnum_roundtrip by bx_arith. lia.
Qed.

Lemma entry_functional lo hi b cf k x y :
  batch_wf lo hi b → batch_entry b cf k x → batch_entry b cf k y → x = y.
Proof.
  intros [[? ?] _ _ [Hp Hnd] _ _ _ _].
  intros E1 E2. destruct E1 as [r Hr|r Hr|r k v Hr Hk|]; inversion E2; subst; try done.
  rename select (row_serialize _ = Ok (k, y)) into Hk2. rename select (_ ∈ txpos_rows b) into Hr2.
  rename r0 into r2. assert (r2 = r) as ->; [|congruence].
  apply row_serialize_key in Hk as ->. apply row_serialize_key in Hk2.
  rewrite Forall_forall in Hp. pose proof (Hp r Hr) as [? _]. pose proof (Hp r2 Hr2) as [? _].
  apply txnum_serialize_inj in Hk2; [|bx_arith..].
  apply list_elem_of_lookup in Hr as [i Hi], Hr2 as [j Hj].
  assert (j = i); [|congruence].
  eapply (NoDup_lookup (last_txnum <$> txpos_rows b)); [done|..]; rewrite list_lookup_fmap.
  - by rewrite Hj.
  - rewrite Hi. cbn. by f_equal.
Qed.

Lemma entry_index_cf b cf k x : batch_entry b cf k x → index_cf cf.
Proof. unfold index_cf. destruct 1; auto. Qed.

(** Rows with one key come from one batch, with one value. *)
Lemma entries_same_batch lo bs a b cf k x y :
  batches_wf lo bs → a ∈ bs → b ∈ bs → batch_entry a cf k x → batch_entry b cf k y → a = b.
Proof.
  intros Hwf Ha Hb Ea Eb. revert lo Hwf Ha Hb.
  induction bs as [|c bs IH]; intros lo; [set_solver|]. intros [Hc Hr].
  rewrite !elem_of_cons. intros [->|Ha] [->|Hb]; [done|..|by eapply IH].
  - destruct (batches_wf_elem _ _ _ Hr Hb) as (t & Ht & ? & _).
    pose proof (entry_slot _ _ _ _ _ _ Hc Ea). pose proof (entry_slot _ _ _ _ _ _ Ht Eb). lia.
  - destruct (batches_wf_elem _ _ _ Hr Ha) as (t & Ht & ? & _).
    pose proof (entry_slot _ _ _ _ _ _ Hc Eb). pose proof (entry_slot _ _ _ _ _ _ Ht Ea). lia.
Qed.

Lemma entries_functional lo bs a b cf k x y :
  batches_wf lo bs → a ∈ bs → b ∈ bs → batch_entry a cf k x → batch_entry b cf k y → x = y.
Proof.
  intros Hwf Ha Hb Ea Eb. assert (a = b) as -> by by eapply entries_same_batch.
  destruct (batches_wf_elem _ _ _ Hwf Hb) as (t & Ht & _). by eapply entry_functional.
Qed.
End entries.

(** ** Write batches *)

Section view.
Implicit Types (v : db_view) (l : list (cf_name * bytes * bytes)).

Definition put_ops l : list write_op := (λ e, put_cf e.1.1 e.1.2 e.2) <$> l.
Definition delete_ops l : list write_op := (λ e, delete_cf e.1.1 e.1.2) <$> l.

Lemma view_ops_app v a b : view_ops v (a ++ b) = view_ops (view_ops v a) b.
Proof. apply foldl_app. Qed.

Lemma view_put_ops v l cf k x :
  (∀ y z, (cf, k, y) ∈ l → (cf, k, z) ∈ l → y = z) →
  view_ops v (put_ops l) cf k = Some x ↔
  (cf, k, x) ∈ l ∨ ((∀ y, (cf, k, y) ∉ l) ∧ v cf k = Some x).
Proof.
  induction l as [|[[cf' k'] x'] l IH] using rev_ind; intros Hf; [set_solver|].
  unfold put_ops. rewrite fmap_app, view_ops_app. cbn [fmap list_fmap fst snd].
  cbn [view_ops foldl view_op]. case_decide as Heq.
  - simplify_eq. split; [intros [= ->]; left; set_solver|].
    intros [Hx|[Hn _]]; [f_equal; apply Hf; set_solver|]. exfalso. apply (Hn x'). set_solver.
  - fold (put_ops l). rewrite IH by (intros y z ??; apply Hf; set_solver).
    rewrite elem_of_app, list_elem_of_singleton. setoid_rewrite elem_of_app.
    setoid_rewrite list_elem_of_singleton. split; intros; naive_solver.
Qed.

Lemma view_delete_ops v l cf k x :
  view_ops v (delete_ops l) cf k = Some x ↔ (∀ y, (cf, k, y) ∉ l) ∧ v cf k = Some x.
Proof.
  induction l as [|[[cf' k'] x'] l IH] using rev_ind; [set_solver|].
  unfold delete_ops. rewrite fmap_app, view_ops_app. cbn [fmap list_fmap fst snd].
  cbn [view_ops foldl view_op]. case_decide as Heq.
  - simplify_eq. split; [done|]. intros [Hn _]. exfalso. apply (Hn x'). set_solver.
  - fold (delete_ops l). rewrite IH. setoid_rewrite elem_of_app.
    setoid_rewrite list_elem_of_singleton. split; intros; naive_solver.
Qed.
End view.

Section write.
Context {S : Type} `{RD : !RocksDB S, RL : !RocksDBLaws S, VI : !VarInt, VIL : !VarIntLaws}.

(** The entries a write batch is made of, in the order of [batch_ops]. *)
Definition entries_of (bs : list Batch) (txpos : list (bytes * bytes))
    : list (cf_name * bytes * bytes) :=
  ((λ k, (SCRIPT_HASH_CF, k, [])) <$>
     merge_sort bytes_le (bs ≫= λ b, row_key <$> scripthash_rows b)) ++
  ((λ k, (TXID_CF, k, [])) <$> merge_sort bytes_le (bs ≫= λ b, row_key <$> txid_rows b)) ++
  ((λ kv, (TXPOS_CF, kv.1, kv.2)) <$> txpos) ++
  ((λ kv, (HEADERS_CF, kv.1, kv.2)) <$>
     ((λ b, header_serialize Bitcoin (batch_header b) (raw_header b)) <$> bs)).

Lemma batch_ops_entries {E} f bs ops :
  batch_ops (E := E) f bs = Ok ops ↔
  ∃ txpos, mapM row_serialize (bs ≫= txpos_rows) = Ok (E := E) txpos ∧
    ops = (λ e, f e.1.1 e.1.2 e.2) <$> entries_of bs txpos.
Proof.
  unfold batch_ops. rewrite bind_ok. apply exist_proper. intros txpos.
  split; intros [? Ho]; (split; [done|]).
  - injection Ho as <-. unfold entries_of. by rewrite !fmap_app, <-!list_fmap_compose.
  - subst ops. unfold entries_of. by rewrite !fmap_app, <-!list_fmap_compose.
Qed.

Lemma row_serialize_total r :
  offsets_wf (offsets r) → ∃ kv, ∀ E, row_serialize (E := E) r = Ok kv.
Proof.
  intros Hwf. unfold row_serialize.
  destruct (offsets_roundtrip (offsets r) Hwf) as (v & Hv & _).
  exists (txnum_serialize (last_txnum r), v). intros E. by rewrite Hv.
Qed.

Lemma serialize_rows_total rows :
  Forall (λ r, offsets_wf (offsets r)) rows →
  ∃ kvs, (∀ E, mapM row_serialize rows = Ok (E := E) kvs) ∧
    ∀ k v, (k, v) ∈ kvs ↔ ∃ r, r ∈ rows ∧ row_serialize (E := ()) r = Ok (k, v).
Proof.
  induction 1 as [|r rows Hr _ (kvs & Hk & He)].
  { exists []. split; [done|]. set_solver. }
  destruct (row_serialize_total r Hr) as [kv Hkv]. exists (kv :: kvs). split.
  - intros E. cbn [mapM]. rewrite Hkv. osimpl. by rewrite Hk.
  - intros k v. rewrite elem_of_cons, He. split.
    + intros [<-|(r' & ? & ?)]; [|set_solver]. exists r. by split; [left|].
    + intros (r' & [->|?]%elem_of_cons & Hs); [|eauto]. left. rewrite Hkv in Hs. congruence.
Qed.

Lemma elem_entries_of bs txpos cf k x :
  (∀ k v, (k, v) ∈ txpos ↔
     ∃ r, r ∈ (bs ≫= txpos_rows) ∧ row_serialize (E := ()) r = Ok (k, v)) →
  (cf, k, x) ∈ entries_of bs txpos ↔ ∃ b, b ∈ bs ∧ batch_entry b cf k x.
Proof.
  intros Htp. unfold entries_of. rewrite !elem_of_app. split.
  - intros [(k' & [= -> -> ->] & Hk)%list_elem_of_fmap|
      [(k' & [= -> -> ->] & Hk)%list_elem_of_fmap|
      [([k' v] & [= -> -> ->] & Hk)%list_elem_of_fmap|
       (kv & [= -> -> ->] & (b & -> & Hb)%list_elem_of_fmap)%list_elem_of_fmap]]].
    + rewrite merge_sort_Permutation in Hk.
      apply list_elem_of_bind in Hk as (b & (r & -> & Hr)%list_elem_of_fmap & Hb).
      exists b. split; [done|by constructor].
    + rewrite merge_sort_Permutation in Hk.
      apply list_elem_of_bind in Hk as (b & (r & -> & Hr)%list_elem_of_fmap & Hb).
      exists b. split; [done|by constructor].
    + apply Htp in Hk as (r & (b & Hr & Hb)%list_elem_of_bind & Hs).
      exists b. split; [done|by econstructor].
    + exists b. split; [done|constructor].
  - intros (b & Hb & He). destruct He as [r Hr|r Hr|r k v Hr Hk|].
    + left. apply list_elem_of_fmap. exists (row_key r). split; [done|].
      rewrite merge_sort_Permutation. apply list_elem_of_bind. exists b.
      split; [|done]. apply list_elem_of_fmap. eauto.
    + right; left. apply list_elem_of_fmap. exists (row_key r). split; [done|].
      rewrite merge_sort_Permutation. apply list_elem_of_bind. exists b.
      split; [|done]. apply list_elem_of_fmap. eauto.
    + do 2 right; left. apply list_elem_of_fmap. exists (k, v). split; [done|].
      apply Htp. exists r. split; [|done]. apply list_elem_of_bind. eauto.
    + do 3 right. apply list_elem_of_fmap. eexists. split; [|by apply list_elem_of_fmap; eauto].
      done.
Qed.

Lemma batches_offsets_wf lo bs :
  batches_wf lo bs → Forall (λ r, offsets_wf (offsets r)) (bs ≫= txpos_rows).
Proof.
  intros Hwf. apply Forall_forall. intros r (b & Hr & Hb)%list_elem_of_bind.
  destruct (batches_wf_elem _ _ _ Hwf Hb) as (t & Ht & _).
  apply bw_txpos in Ht as [Ht _]. rewrite Forall_forall in Ht. by apply Ht.
Qed.

(** [apply_batch] writes exactly the entries of its batches; it fails only
    when RocksDB does. *)
Lemma apply_batch_ok f lo bs self :
  batches_wf lo bs →
  (∃ l, (∀ cf k x, (cf, k, x) ∈ l ↔ ∃ b, b ∈ bs ∧ batch_entry b cf k x) ∧
     apply_batch f bs self =
       match bs with
       | [] => Ok self
       | _ => match rocks_write (db self) ((λ e, f e.1.1 e.1.2 e.2) <$> l) with
              | Some s => Ok (with_db self s)
              | None => Err RocksdbError
              end
       end).
Proof.
  intros Hwf. destruct (serialize_rows_total _ (batches_offsets_wf _ _ Hwf)) as (kvs & Hk & He).
  exists (entries_of bs kvs). split; [intros; by apply elem_entries_of|].
  destruct bs as [|b bs]; [done|]. unfold apply_batch.
  rewrite (proj2 (batch_ops_entries f (b :: bs) _)) by eauto. osimpl.
  by destruct (rocks_write _ _).
Qed.

Lemma write_indexes bs new self self' :
  indexes (rocks_get (db self)) bs → batches_wf 0 (bs ++ new) → write new self = Ok self' →
  indexes (rocks_get (db self')) (bs ++ new) ∧
  compacting self' = compacting self ∧ secondary self' = secondary self ∧
  ∀ cf k, ¬ index_cf cf → rocks_get (db self') cf k = rocks_get (db self) cf k.
Proof.
  intros Hi Hwf Hw. pose proof Hwf as [Hwf1 Hwf2]%batches_wf_app.
  destruct (apply_batch_ok put_cf _ _ self Hwf2) as (l & Hl & Heq).
  unfold write in Hw. rewrite Heq in Hw.
  destruct new as [|b new]; [injection Hw as <-; by rewrite app_nil_r|].
  destruct (rocks_write _ _) as [s|] eqn:Es; [|done]. injection Hw as <-. cbn [with_db db].
  assert (∀ cf k y z, (cf, k, y) ∈ l → (cf, k, z) ∈ l → y = z) as Hf.
  { intros cf k y z (b1 & Hb1 & E1)%Hl (b2 & Hb2 & E2)%Hl.
    by apply (entries_functional _ _ b1 b2 cf k y z Hwf2). }
  assert (∀ cf k x, rocks_get s cf k = Some x ↔
    (cf, k, x) ∈ l ∨ ((∀ y, (cf, k, y) ∉ l) ∧ rocks_get (db self) cf k = Some x)) as Hv.
  { intros cf k x. rewrite (rocks_write_get _ _ _ _ _ Es). apply view_put_ops. eauto. }
  split_and!; [|done|done|].
  - intros cf k x Hcf. rewrite Hv, Hl, (Hi cf k x Hcf). setoid_rewrite elem_of_app.
    split; [intros [(c & ? & ?)|(_ & c & ? & ?)]; eauto|].
    intros (c & [Hc|Hc] & E); [|by left; eauto].
    right. split; [|eauto]. intros y (d & Hd & E2)%Hl.
    destruct (batches_wf_elem _ _ _ Hwf1 Hc) as (t1 & Ht1 & _ & Hle).
    destruct (batches_wf_elem _ _ _ Hwf2 Hd) as (t2 & Ht2 & Hge & _).
    pose proof (entry_slot _ _ _ _ _ _ Ht1 E). pose proof (entry_slot _ _ _ _ _ _ Ht2 E2). lia.
  - intros cf k Hcf. apply option_eq. intros x. rewrite Hv. split.
    + intros [(c & _ & E)%Hl|[_ ?]]; [|done]. by apply entry_index_cf in E.
    + intros ?. right. split; [|done]. intros y (c & _ & E)%Hl. by apply entry_index_cf in E.
Qed.

Lemma delete_indexes bs old self self' :
  indexes (rocks_get (db self)) (bs ++ old) → batches_wf 0 (bs ++ old) →
  delete old self = Ok self' →
  indexes (rocks_get (db self')) bs ∧
  compacting self' = compacting self ∧ secondary self' = secondary self ∧
  ∀ cf k, ¬ index_cf cf → rocks_get (db self') cf k = rocks_get (db self) cf k.
Proof.
  intros Hi Hwf Hw. pose proof Hwf as [Hwf1 Hwf2]%batches_wf_app.
  destruct (apply_batch_ok (λ cf k _, delete_cf cf k) _ _ self Hwf2) as (l & Hl & Heq).
  unfold delete in Hw. rewrite Heq in Hw.
  destruct old as [|b old]; [injection Hw as <-; by rewrite app_nil_r in Hi|].
  destruct (rocks_write _ _) as [s|] eqn:Es; [|done]. injection Hw as <-. cbn [with_db db].
  assert (∀ cf k x, rocks_get s cf k = Some x ↔
    (∀ y, (cf, k, y) ∉ l) ∧ rocks_get (db self) cf k = Some x) as Hv.
  { intros cf k x. rewrite (rocks_write_get _ _ _ _ _ Es). apply view_delete_ops. }
  split_and!; [|done|done|].
  - intros cf k x Hcf. rewrite Hv, (Hi cf k x Hcf). setoid_rewrite elem_of_app. split.
    + intros (Hn & c & [Hc|Hc] & E); [eauto|]. exfalso. apply (Hn x), Hl. eauto.
    + intros (c & Hc & E). split; [|eauto]. intros y (d & Hd & E2)%Hl.
      destruct (batches_wf_elem _ _ _ Hwf1 Hc) as (t1 & Ht1 & _ & Hle).
      destruct (batches_wf_elem _ _ _ Hwf2 Hd) as (t2 & Ht2 & Hge & _).
      pose proof (entry_slot _ _ _ _ _ _ Ht1 E). pose proof (entry_slot _ _ _ _ _ _ Ht2 E2). lia.
  - intros cf k Hcf. apply option_eq. intros x. rewrite Hv. split; [naive_solver|].
    intros ?. split; [|done]. intros y (c & _ & E)%Hl. by apply entry_index_cf in E.
Qed.

Lemma apply_batch_no_panic f lo bs self msg :
  batches_wf lo bs → apply_batch f bs self ≠ Panic msg.
Proof.
  intros Hwf. destruct (apply_batch_ok f lo bs self Hwf) as (l & _ & ->).
  destruct bs; [done|]. by destruct (rocks_write _ _).
Qed.
End write.

(** ** Scans *)

Section scan_rows.
(** A key of the hash-prefix column families. *)
Definition hash_key (k : bytes) : Prop :=
  ∃ q t, length q = PREFIX_LEN ∧ is_u32 t ∧ k = q ++ txnum_serialize t.

Lemma hash_key_row {E} q t :
  length q = PREFIX_LEN →
  row_of_key (E := E) (q ++ txnum_serialize t) = Ok (hash_prefix_row_new q t).
Proof.
  intros Hq. unfold row_of_key.
  by rewrite bool_decide_eq_true_2 by (by rewrite length_app, Hq, txnum_serialize_length).
Qed.

Lemma hash_key_prefix p q t :
  length p = PREFIX_LEN → length q = PREFIX_LEN →
  starts_with (q ++ txnum_serialize t) p = bool_decide (q = p).
Proof.
  intros Hp Hq. unfold starts_with. apply bool_decide_ext. by rewrite take_app_length' by congruence.
Qed.

Lemma txnum_key_lt p t u :
  is_u32 t → is_u32 u →
  bytes_lt (p ++ txnum_serialize t) (p ++ txnum_serialize u) → t < u.
Proof.
  intros Ht Hu [Hle Hne]. rewrite bytes_le_app_l, txnum_serialize_le in Hle by done.
  destruct (decide (t = u)) as [->|]; [done|lia].
Qed.

Lemma scan_from_spec {E} p from kvs :
  length p = PREFIX_LEN → is_u32 from → StronglySorted bytes_lt kvs.*1 →
  Forall (λ kv, bytes_le (p ++ txnum_serialize from) kv.1 ∧ hash_key kv.1) kvs →
  ∃ ts, scan_from (E := E) p from kvs = Ok ts ∧ StronglySorted Z.lt ts ∧
    ∀ t, t ∈ ts ↔ is_u32 t ∧ ∃ v, (p ++ txnum_serialize t, v) ∈ kvs.
Proof.
  intros Hp Hfrom Hs Hk. revert Hs. induction Hk as [|[k v] kvs [Hle Hkey] _ IH]; intros Hs.
  { exists []. split_and!; [done|constructor|set_solver]. }
  cbn [fst fmap list_fmap] in *. apply StronglySorted_inv in Hs as [Hs Hlt].
  destruct Hkey as (q & t & Hq & Ht & ->). cbn [scan_from].
  rewrite hash_key_prefix by done. case_bool_decide as Eq; cbn [negb].
  - subst q. rewrite hash_key_row by done. osimpl. rewrite row_txnum_new by done.
    rewrite bytes_le_app_l, txnum_serialize_le in Hle by done.
    rewrite (proj2 (Z.leb_le _ _)) by done. osimpl.
    destruct (IH Hs) as (ts & -> & Hts & Hin). osimpl. exists (t :: ts).
    split_and!; [done| |].
    + constructor; [done|]. apply Forall_forall. intros u (Hu & w & Hw)%Hin.
      eapply txnum_key_lt; [done..|]. rewrite Forall_forall in Hlt. apply Hlt.
      apply list_elem_of_fmap. by exists (p ++ txnum_serialize u, w).
    + intros u. rewrite elem_of_cons, Hin. setoid_rewrite elem_of_cons. split.
      * intros [->|(? & w & ?)]; [|eauto 10]. split; [done|]. exists v. by left.
      * intros (Hu & w & [Heq|?]); [|eauto]. left. injection Heq as Heq _.
        apply app_inj_1 in Heq as [_ Heq]; [|done]. by apply txnum_serialize_inj in Heq.
  - exists []. split_and!; [done|constructor|]. intros u. split; [set_solver|].
    intros (Hu & w & Hw). exfalso.
    assert (bytes_lt (p ++ txnum_serialize u) (q ++ txnum_serialize t)) as Hpq.
    { eapply bytes_lt_prefix; [done|]. rewrite hash_key_prefix by done.
      by apply bool_decide_eq_false. }
    apply elem_of_cons in Hw as [[= Heq _]|Hw].
    + rewrite Heq in Hpq. by apply (irreflexivity bytes_lt) in Hpq.
    + rewrite Forall_forall in Hlt.
      assert (bytes_lt (q ++ txnum_serialize t) (p ++ txnum_serialize u)) as Hqp.
      { apply Hlt, list_elem_of_fmap. by exists (p ++ txnum_serialize u, w). }
      apply (irreflexivity bytes_lt (p ++ txnum_serialize u)). by etrans.
Qed.

(** Scanning from the start needs no check on the numbers. *)
Lemma scan_all_from {E} p kvs :
  Forall (λ kv, hash_key kv.1) kvs → scan_all (E := E) p kvs = scan_from p txnum_default kvs.
Proof.
  induction 1 as [|[k v] kvs (q & t & Hq & Ht & Hk) _ IH]; [done|]. cbn [fst] in Hk. subst k.
  cbn [scan_all scan_from]. case_match; [done|]. rewrite hash_key_row by done. osimpl.
  rewrite row_txnum_new by done. rewrite (proj2 (Z.leb_le _ _)) by (unfold txnum_default; bx_arith).
  osimpl. by rewrite IH.
Qed.
End scan_rows.

Section read.
Context {S : Type} `{RD : !RocksDB S, RL : !RocksDBLaws S, VI : !VarInt, VIL : !VarIntLaws}.

Lemma entry_hash_key bs lo b cf k x :
  batches_wf lo bs → b ∈ bs → cf = SCRIPT_HASH_CF ∨ cf = TXID_CF → batch_entry b cf k x →
  hash_key k.
Proof.
  intros Hwf Hb Hcf He. destruct (batches_wf_elem _ _ _ Hwf Hb) as (lo' & Hbw & _).
  pose proof (bw_range _ _ _ Hbw) as [Hlo Hhi].
  pose proof (bw_script _ _ _ Hbw) as Hs. pose proof (bw_txid _ _ _ Hbw) as Hi.
  unfold hash_rows_in in *. rewrite Forall_forall in Hs, Hi.
  destruct He as [r Hr|r Hr| |]; [| |by destruct Hcf..].
  - destruct (Hs r Hr) as (p & t & Hp & Ht & ->). exists p, t. split_and!; [done|bx_arith|done].
  - destruct (Hi r Hr) as (p & t & Hp & Ht & ->). exists p, t. split_and!; [done|bx_arith|done].
Qed.

(** What an iterator over a hash-prefix column family yields. *)
Lemma hash_iter_keys bs self cf from :
  indexes (rocks_get (db self)) bs → batches_wf 0 bs → cf = SCRIPT_HASH_CF ∨ cf = TXID_CF →
  Forall (λ kv, bytes_le from kv.1 ∧ hash_key kv.1) (rocks_iter_from (db self) cf from).
Proof.
  intros Hi Hwf Hcf. apply Forall_forall. intros [k v] [Hk Hle]%rocks_iter_elem. split; [done|].
  apply Hi in Hk as (b & Hb & He); [|unfold index_cf; tauto]. by eapply entry_hash_key.
Qed.

(** The rows with a given prefix, as the scans report them. *)
Definition scan_result (rows : Batch → list HashPrefixRow) (bs : list Batch) (h : hash32)
    (from : TxNum) (ts : list TxNum) : Prop :=
  StronglySorted Z.lt ts ∧
  ∀ t, t ∈ ts ↔ (is_u32 t ∧ from ≤ t) ∧
    ∃ b, b ∈ bs ∧ hash_prefix_row_new (prefix_new h) t ∈ rows b.

Lemma hash_iter_elem bs self h from t v cf rows :
  indexes (rocks_get (db self)) bs → is_u32 from → is_u32 t →
  cf = SCRIPT_HASH_CF ∧ rows = scripthash_rows ∨ cf = TXID_CF ∧ rows = txid_rows →
  (prefix_new h ++ txnum_serialize t, v) ∈
    rocks_iter_from (db self) cf (row_key (hash_prefix_row_new (prefix_new h) from)) ↔
  v = [] ∧ from ≤ t ∧ ∃ b, b ∈ bs ∧ hash_prefix_row_new (prefix_new h) t ∈ rows b.
Proof.
  intros Hi Hf Ht Hcf. rewrite rocks_iter_elem. cbn [row_key hash_prefix_row_new].
  rewrite bytes_le_app_l, txnum_serialize_le by done.
  rewrite (Hi cf) by (unfold index_cf; naive_solver). split.
  - intros [(b & Hb & He) ?].
    assert (v = [] ∧ {| row_key := prefix_new h ++ txnum_serialize t |} ∈ rows b) as [-> Hr].
    { destruct Hcf as [[-> ->]|[-> ->]]; inversion He as [r Hr Hk|r Hr Hk| |];
        (split; [done|]); by destruct r; cbn in *; subst. }
    eauto.
  - intros (-> & ? & b & Hb & Hr). split; [|done]. exists b. split; [done|].
    destruct Hcf as [[-> ->]|[-> ->]].
    + by apply (be_script b) in Hr.
    + by apply (be_txid b) in Hr.
Qed.

Lemma scan_by_script_hash_spec {E} bs self h from :
  indexes (rocks_get (db self)) bs → batches_wf 0 bs → hash_wf h → is_u32 from →
  ∃ ts, scan_by_script_hash (E := E) self h from = Ok ts ∧
    scan_result scripthash_rows bs h from ts.
Proof.
  intros Hi Hwf Hh Hf. unfold scan_by_script_hash.
  destruct (scan_from_spec (E := E) (prefix_new h) from
    (rocks_iter_from (db self) SCRIPT_HASH_CF (row_key (hash_prefix_row_new (prefix_new h) from))))
    as (ts & Hts & Hs & Hin); [by apply prefix_new_length|done|apply rocks_iter_sorted| |].
  { eapply hash_iter_keys; eauto. }
  exists ts. split; [done|]. split; [done|]. intros t. rewrite Hin. split.
  - intros (Ht & v & Hv). eapply hash_iter_elem in Hv; [|done..|by left]. tauto.
  - intros ([Ht ?] & Hb). split; [done|]. exists []. eapply hash_iter_elem; [done..|by left|tauto].
Qed.

Lemma scan_by_txid_spec {E} bs self h :
  indexes (rocks_get (db self)) bs → batches_wf 0 bs → hash_wf h →
  ∃ ts, scan_by_txid (E := E) self h = Ok ts ∧ scan_result txid_rows bs h 0 ts.
Proof.
  intros Hi Hwf Hh. unfold scan_by_txid.
  assert (is_u32 txnum_default) as Hf by done.
  set (kvs := rocks_iter_from _ _ _).
  assert (Forall (λ kv, bytes_le (prefix_new h ++ txnum_serialize txnum_default) kv.1 ∧
                        hash_key kv.1) kvs) as Hk by (eapply hash_iter_keys; eauto).
  rewrite scan_all_from by (eapply Forall_impl; [done|naive_solver]).
  destruct (scan_from_spec (E := E) (prefix_new h) txnum_default kvs)
    as (ts & Hts & Hs & Hin); [by apply prefix_new_length|done|apply rocks_iter_sorted|done|].
  exists ts. split; [done|]. split; [done|]. intros t. rewrite Hin. split.
  - intros (Ht & v & Hv). eapply hash_iter_elem in Hv; [|done..|by right].
    unfold txnum_default in *. tauto.
  - intros ([Ht ?] & Hb). split; [done|]. exists [].
    eapply hash_iter_elem; [done..|by right|unfold txnum_default; tauto].
Qed.

(** *** Positions *)

Lemma batches_split_slot pre b post c cf k x :
  batches_wf 0 (pre ++ b :: post) → c ∈ pre ++ b :: post → batch_entry c cf k x →
  next_from 0 pre ≤ key_slot cf k < batch_next b → c = b.
Proof.
  intros [Hw1 [Hw2 Hw3]]%batches_wf_app Hc He Hk.
  apply elem_of_app in Hc as [Hc|[->|Hc]%elem_of_cons]; [|done|].
  - destruct (batches_wf_elem _ _ _ Hw1 Hc) as (t & Ht & _ & ?).
    pose proof (entry_slot _ _ _ _ _ _ Ht He). lia.
  - destruct (batches_wf_elem _ _ _ Hw3 Hc) as (t & Ht & ? & _).
    pose proof (entry_slot _ _ _ _ _ _ Ht He). lia.
Qed.

Lemma row_codec_ok {E} r k v :
  offsets_wf (offsets r) → is_u32 (last_txnum r) → row_serialize (E := ()) r = Ok (k, v) →
  row_deserialize (E := E) k v = Ok r.
Proof.
  intros Hwf Hr Hs. pose proof (row_serialize_key _ _ _ Hs) as ->.
  unfold row_serialize in Hs. apply bind_ok in Hs as (o & Ho & [= <-]).
  destruct (offsets_roundtrip _ Hwf) as (o' & He & Hd).
  rewrite He in Ho. injection Ho as <-. unfold row_deserialize.
  rewrite bool_decide_eq_true_2 by apply txnum_serialize_length.
  specialize (Hd []). rewrite app_nil_r in Hd. rewrite Hd, txnum_roundtrip by done.
  by destruct r.
Qed.

Lemma get_tx_block_pos_ok {E} pre b post self t p :
  indexes (rocks_get (db self)) (pre ++ b :: post) → batches_wf 0 (pre ++ b :: post) →
  next_from 0 pre ≤ t < batch_next b → rows_locate (txpos_rows b) t p →
  get_tx_block_pos (E := E) self t = Ok p.
Proof.
  intros Hi Hwf Ht (r & Hr & Hle & Hmin & Hpos).
  pose proof Hwf as [Hwf0 [Hbw _]]%batches_wf_app.
  pose proof (bw_range _ _ _ Hbw) as [Hlo Hhi].
  pose proof (bw_txpos _ _ _ Hbw) as [Hin _]. rewrite Forall_forall in Hin.
  destruct (Hin r Hr) as [Hlast Hoff].
  assert (is_u32 t) as Htu by bx_arith.
  destruct (row_serialize_total r Hoff) as [[k v] Hkv].
  unfold get_tx_block_pos.
  set (l := rocks_iter_from _ _ _).
  assert (∀ k v, (k, v) ∈ l ↔ (∃ c, c ∈ pre ++ b :: post ∧ batch_entry c TXPOS_CF k v) ∧
                  bytes_le (txnum_serialize t) k) as Hl.
  { intros k' v'. unfold l. rewrite rocks_iter_elem, (Hi TXPOS_CF k' v') by (unfold index_cf; tauto). done. }
  assert ((k, v) ∈ l) as Hkl.
  { apply Hl. split; [exists b; split; [set_solver|by econstructor]|].
    rewrite (row_serialize_key _ _ _ (Hkv unit)). apply txnum_serialize_le; [done|bx_arith|done]. }
  assert (StronglySorted bytes_lt l.*1) as Hs by apply rocks_iter_sorted.
  destruct l as [|[k0 v0] l]; [set_solver|].
  assert (bytes_le k0 k) as Hk0.
  { apply elem_of_cons in Hkl as [[= -> ->]|Hkl]; [done|].
    cbn in Hs. apply StronglySorted_inv in Hs as [_ Hs]. rewrite Forall_forall in Hs.
    apply Hs, list_elem_of_fmap. by exists (k, v). }
  destruct (proj1 (Hl k0 v0) ltac:(set_solver)) as [(c & Hc & He) Hge].
  assert (∃ n, k0 = txnum_serialize n ∧ is_u32 n) as (n & -> & Hn).
  { inversion He as [| |r0 k1 v1 Hr0 Hk1|]. subst.
    destruct (batches_wf_elem _ _ _ Hwf Hc) as (lo & Hcw & ? & _).
    pose proof (bw_range _ _ _ Hcw). pose proof (bw_txpos _ _ _ Hcw) as [Hcin _].
    rewrite Forall_forall in Hcin. destruct (Hcin r0 Hr0) as [? _].
    exists (last_txnum r0). split; [by eapply row_serialize_key|bx_arith]. }
  apply txnum_serialize_le in Hge; [|done..].
  rewrite (row_serialize_key _ _ _ (Hkv unit)) in Hk0. apply txnum_serialize_le in Hk0; [|done|bx_arith].
  assert (c = b) as ->.
  { eapply batches_split_slot; [done..|]. cbn [key_slot]. rewrite txnum_roundtrip by done. lia. }
  inversion He as [| |r0 k1 v1 Hr0 Hk1|]. subst.
  pose proof (row_serialize_key _ _ _ Hk1) as Hn0. destruct (Hin r0 Hr0) as [? Hoff0].
  apply txnum_serialize_inj in Hn0 as ->; [|done|bx_arith].
  assert (r0 = r) as ->.
  { specialize (Hmin r0 Hr0 Hge). pose proof (bw_txpos _ _ _ Hbw) as [_ Hnd].
    apply list_elem_of_lookup in Hr as [i Hri], Hr0 as [j Hrj].
    assert (j = i); [|congruence]. eapply (NoDup_lookup _ _ _ (last_txnum r) Hnd);
      rewrite list_lookup_fmap, ?Hrj, ?Hri; cbn; f_equal; lia. }
  rewrite (proj2 (txnum_serialize_le t (last_txnum r) Htu Hn) Hle). osimpl.
  rewrite (row_codec_ok r _ _ Hoff Hn Hk1). osimpl. apply Hpos.
Qed.

(** *** Headers *)

Definition header_kv (b : Batch) : bytes * bytes :=
  header_serialize Bitcoin (batch_header b) (raw_header b).

Lemma header_kvs_above lo bs kv :
  batches_wf lo bs → 0 ≤ lo → kv ∈ header_kv <$> bs →
  ∃ n, kv.1 = txnum_serialize n ∧ lo < n < 2 ^ 32.
Proof.
  intros Hwf Hlo (b & -> & Hb)%list_elem_of_fmap. exists (batch_next b). split; [done|].
  destruct (batches_wf_elem _ _ _ Hwf Hb) as (t & Ht & ? & _). pose proof (bw_range _ _ _ Ht). lia.
Qed.

Lemma header_kvs_sorted lo bs :
  batches_wf lo bs → 0 ≤ lo → StronglySorted bytes_lt (header_kv <$> bs).*1.
Proof.
  revert lo. induction bs as [|b bs IH]; intros lo; [constructor|].
  intros [Hb Hr] Hlo. pose proof (bw_range _ _ _ Hb). cbn [fmap list_fmap].
  constructor; [apply (IH _ Hr); lia|].
  apply Forall_forall. intros k (kv & -> & Hkv)%list_elem_of_fmap.
  destruct (header_kvs_above _ _ _ Hr ltac:(lia) Hkv) as (n & -> & ?).
  cbn [header_kv header_serialize fst header_key]. unfold batch_next in *. split.
  - apply txnum_serialize_le; bx_arith.
  - intros Heq%txnum_serialize_inj; [lia|bx_arith..].
Qed.

Lemma header_entry b k x : batch_entry b HEADERS_CF k x ↔ (k, x) = header_kv b.
Proof.
  split; [by inversion 1|]. intros [= -> ->]. constructor.
Qed.

(** An iterator over the headers yields the rows of a suffix of the chain. *)
Lemma header_iter pre post self key :
  indexes (rocks_get (db self)) (pre ++ post) → batches_wf 0 (pre ++ post) →
  Forall (λ b, bytes_lt (header_kv b).1 key) pre →
  Forall (λ b, bytes_le key (header_kv b).1) post →
  rocks_iter_from (db self) HEADERS_CF key = header_kv <$> post.
Proof.
  intros Hi Hwf Hpre Hpost. rewrite Forall_forall in Hpre, Hpost.
  pose proof Hwf as [Hw1 Hw2]%batches_wf_app.
  apply (sorted_by_key_unique bytes_lt fst); [apply _..|apply rocks_iter_sorted| |].
  { apply (header_kvs_sorted _ _ Hw2). by pose proof (batches_wf_le _ _ Hw1). }
  intros [k v]. rewrite rocks_iter_elem, (Hi HEADERS_CF k v), list_elem_of_fmap
    by (unfold index_cf; tauto). split.
  - intros [(b & [Hb|Hb]%elem_of_app & Heq%header_entry) Hle]; [exfalso|by exists b].
    specialize (Hpre b Hb). rewrite <-Heq in Hpre. cbn in Hpre.
    by apply bytes_lt_nle in Hpre.
  - intros (b & Heq & Hb). split; [exists b; split; [set_solver|by apply header_entry]|].
    specialize (Hpost b Hb). by rewrite <-Heq in Hpost.
Qed.

Lemma headers_rows_ok {E} lo bs prev position :
  batches_wf lo bs → linked prev position (batch_header <$> bs) →
  headers_rows (E := E) (header_kv <$> bs) position = Ok (batch_header <$> bs).
Proof.
  revert lo prev position. induction bs as [|b bs IH]; intros lo prev position; [done|].
  intros [Hb Hr] (_ & <- & Hl). cbn [fmap list_fmap headers_rows].
  destruct (header_kv b) as [k v] eqn:Ekv.
  pose proof (header_row_roundtrip_bitcoin (E := E) _ _ (bw_header _ _ _ Hb) (bw_raw _ _ _ Hb)) as Hrt.
  fold (header_kv b) in Hrt. rewrite Ekv in Hrt. cbn [fst snd] in Hrt. rewrite Hrt. osimpl.
  change (list_fmap _ _ header_kv bs) with (header_kv <$> bs).
  rewrite (IH _ _ _ Hr Hl). done.
Qed.

Lemma headers_ok {E} bs self :
  indexes (rocks_get (db self)) bs → batches_wf 0 bs → headers_linked (batch_header <$> bs) →
  headers (E := E) self = Ok (batch_header <$> bs).
Proof.
  intros Hi Hwf Hl. unfold headers. rewrite (header_iter [] bs) by (done || by apply Forall_true).
  by eapply headers_rows_ok.
Qed.

(** Reading from the row of a stored header on gives the rest of the chain. *)
Lemma headers_from_ok {E} pre b post self :
  indexes (rocks_get (db self)) (pre ++ b :: post) → batches_wf 0 (pre ++ b :: post) →
  headers_linked (batch_header <$> (pre ++ b :: post)) →
  headers_from (E := E) self (header_key Bitcoin (batch_header b)) (Z.of_nat (length pre)) =
  Ok (batch_header <$> (b :: post)).
Proof.
  intros Hi Hwf Hl. unfold headers_from.
  pose proof Hwf as [Hw1 Hw2]%batches_wf_app. pose proof Hw2 as [Hb Hw3].
  pose proof (bw_range _ _ _ Hb). pose proof (batches_wf_le _ _ Hw1).
  rewrite (header_iter pre (b :: post)); [|done..| |].
  - unfold headers_linked in Hl. rewrite fmap_app, linked_app, length_fmap in Hl.
    destruct Hl as [_ Hl]. eapply headers_rows_ok; [done|]. by rewrite Z.add_0_l in Hl.
  - apply Forall_forall. intros c Hc.
    destruct (batches_wf_elem _ _ _ Hw1 Hc) as (t & Ht & ? & ?). pose proof (bw_range _ _ _ Ht).
    cbn [header_kv header_serialize fst header_key]. unfold batch_next in *. split.
    + apply txnum_serialize_le; bx_arith.
    + intros Heq%txnum_serialize_inj; [lia|bx_arith..].
  - constructor; [done|]. apply Forall_forall. intros c Hc.
    destruct (header_kvs_above _ _ (header_kv c) Hw3) as (n & -> & ?); [lia|by apply list_elem_of_fmap_2|].
    cbn [header_key]. apply txnum_serialize_le; unfold batch_next in *; bx_arith.
Qed.
End read.
