(* ===== verification/Client.v ===== *)
(** * The node client

    [bindex-lib/src/client.rs]: the REST calls to [bitcoind], retried while the
    node is unavailable. *)

From S2P Require Import Prelude External Index TxPos Fmt.

Inductive client_error :=
| Http (e : http_error)
| Decoding
| ClientFmt (e : fmt_error).

(** The body limit of [get_bytes], and its number of retries. *)
Definition BODY_LIMIT : Z := Z.shiftl 1 30.
Definition MAX_RETRIES : nat := 100.

Section client.
Context {W : Type} `{HA : !HttpAgent W, CS : !Consensus}.
Abbreviation M := (stM W client_error).

Definition retriable (e : http_error) : bool :=
  match e with
  | StatusCode code => code =? 503
  | IoConnectionRefused | IoAddrNotAvailable => true
  | _ => false
  end.

(** [with_config().limit(1 << 30).read_to_vec()?] *)
Definition read_to_vec (body : http_error + bytes) : outcome client_error bytes :=
  match body with
  | inl e => Err (Http e)
  | inr data =>
      if Z.of_nat (length data) <=? BODY_LIMIT then Ok data else Err (Http BodyExceedsLimit)
  end.

(** The loop of [get_bytes], with [retries] attempts left after this one. *)
Fixpoint get_bytes_loop (retries : nat) (url : rest_request) : M bytes := λ w,
  match http_call w url with
  | (inr resp, w) => (read_to_vec resp, w)
  | (inl err, w) =>
      match retries with
      | O => (Err (Http err), w)
      | S retries => if retriable err then get_bytes_loop retries url w else (Err (Http err), w)
      end
  end.
Definition get_bytes : rest_request → M bytes := get_bytes_loop MAX_RETRIES.

Definition get_blockhash_by_height (height : Z) : M hash32 :=
  data ← get_bytes (rest_blockhashbyheight height);
  st_lift (ok_or Decoding (blockhash_deserialize data)).

Definition get_headers (hash : hash32) (limit : Z) : M (list RawHeader) :=
  data ← get_bytes (rest_headers (wrap64 (limit + 1)) hash);
  st_lift (map_err ClientFmt (split_headers data)).

Definition get_block_bytes (hash : hash32) : M BlockBytes :=
  data ← get_bytes (rest_block hash);
  st_lift (block_bytes_new data).

Definition get_spent_bytes (hash : hash32) : M SpentBytes :=
  data ← get_bytes (rest_spenttxouts hash);
  mret {| spent_data := data |}.

Definition get_block_part (hash : hash32) (txpos : TxBlockPos) : M bytes :=
  get_bytes (rest_blockpart hash (offset txpos) (size txpos)).
End client.

(** * Properties *)

Section properties.
Context {W : Type} `{HA : !HttpAgent W}.

(** Where the agent answers a request successfully, and with what. *)
Definition served (url : rest_request) (data : bytes) : Prop :=
  ∃ w w', http_call w url = (inr (inr data), w').

Lemma get_bytes_loop_served n url w data w' :
  get_bytes_loop n url w = (Ok data, w') →
  served url data ∧ Z.of_nat (length data) ≤ 2 ^ 30.
Proof.
  revert w. induction n as [|n IH]; intros w; cbn [get_bytes_loop];
    destruct (http_call w url) as [[e|[e|d]] w1] eqn:Ec; try done; cbn [read_to_vec].
  1,3: destruct (Z.leb_spec (Z.of_nat (length d)) BODY_LIMIT) as [Hle|]; [|done];
    intros [= <- <-]; split; [by exists w, w1|done].
  case_match; [apply IH|done].
Qed.

Lemma get_bytes_served url w data w' :
  get_bytes url w = (Ok data, w') → served url data ∧ Z.of_nat (length data) ≤ 2 ^ 30.
Proof. apply get_bytes_loop_served. Qed.

Lemma get_bytes_no_panic url w msg w' : get_bytes url w ≠ (Panic msg, w').
Proof.
  unfold get_bytes. revert w. induction MAX_RETRIES as [|n IH]; intros w; cbn [get_bytes_loop];
    destruct (http_call w url) as [[e|[e|d]] w1]; try done; cbn [read_to_vec];
    try (by case_match).
Qed.
End properties.
