(* ===== verification/Chain.v ===== *)
(** * The indexed chain

    [bindex-lib/src/chain.rs] (Bitcoin format): fetching blocks, building their
    batches, following the node's chain through reorgs, and the lookups served
    from the index. *)

From S2P Require Import Prelude External Index TxPos HashIndex Fmt Headers Batch Store Client.

Inductive chain_error {P : Type} :=
| ChainClient (e : client_error)
| NotSupported
| ChainIndex (e : index_error P)
| ChainDecode
| ChainRocksDB (e : rocksdb_error)
| ChainMismatch (indexed fetched : hash32)
| BlockNotFound (e : Reorg)
| ChainFmt (e : fmt_error).
Arguments chain_error : clear implicits.

(** [Stats], less the elapsed time. *)
Record Stats := { st_tip : hash32; indexed_blocks : Z; size_read : Z }.
Definition stats_new (tip : hash32) : Stats :=
  {| st_tip := tip; indexed_blocks := 0; size_read := 0 |}.

(** [IndexedChain]; its client is the [HttpAgent]. *)
Record IndexedChain (S : Type) := {
  genesis_hash : hash32; ic_headers : list IndexedHeader; store : DB S
}.
Arguments Build_IndexedChain {S} _ _ _.
Arguments genesis_hash {S} _.
Arguments ic_headers {S} _.
Arguments store {S} _.

Record HeaderChunk := { hashes : list hash32; to_skip : nat }.
(** [&self.hashes[self.to_skip..]] *)
Definition chunk_get {E} (self : HeaderChunk) : outcome E (list hash32) :=
  if bool_decide (to_skip self ≤ length (hashes self))%nat
  then Ok (drop (to_skip self) (hashes self)) else Panic "range start index out of range".

Record PerBlockData := {
  blockhash : hash32; block_bytes : BlockBytes; spent_bytes : SpentBytes; txs_count : Z
}.

Record Builder := {
  items : list (Z * TxNumRange * PerBlockData);
  builder_tip : hash32;
}.

(** [Location::block_position] resolved to the bytes of its transaction. *)
Record TxBytesRef := {
  tbr_block_hash : hash32; tbr_block_height : Z; tbr_block_position : Z;
  tbr_offset : Z; tbr_size : Z;
}.

Record ChainConfig := { db_path : string; secondary_path : option string }.

Section chain.
Context {S W : Type} `{HS : !Hashes, SO : !ScriptOps, VI : !VarInt, SL : !Slices,
  CS : !Consensus, RD : !RocksDB S, CJ : !ConfigJson, HA : !HttpAgent W}.
Abbreviation error := (chain_error slices_error).
Abbreviation client := (stM W error).
Abbreviation M := (stM (IndexedChain S * W) error).

(** ** [Builder] *)

(** The closure of [Builder::new], mapped over the items. *)
Fixpoint builder_items {E} (next_txnum height : Z) (data : list PerBlockData)
    : outcome E (list (Z * TxNumRange * PerBlockData)) :=
  match data with
  | [] => mret []
  | d :: data =>
      next ← increment_by next_txnum (txs_count d);
      range ← txnum_range_new next_txnum next;
      items ← builder_items next (wrap32 (height + 1)) data;
      mret ((height, range, d) :: items)
  end.

Definition builder_new {E} (tip : option IndexedHeader) (data : list PerBlockData)
    : outcome E Builder :=
  let next_txnum := from_option ih_next_txnum txnum_default tip in
  let height := from_option (λ h, wrap32 (ih_height h + 1)) 0 tip in
  let tip := from_option ih_hash all_zeros tip in
  items ← builder_items next_txnum height data;
  mret {| items := items; builder_tip := tip |}.

(** The final loop of [build]: every batch extends the one before it. *)
Fixpoint check_linked {E} (tip : hash32) (batches : list Batch) : outcome E () :=
  match batches with
  | [] => mret tt
  | batch :: batches =>
      _ ← assert_that "tip != prev_blockhash"
            (bool_decide (tip = ih_prev_blockhash (batch_header batch)));
      check_linked (ih_hash (batch_header batch)) batches
  end.

Definition build_item (item : Z * TxNumRange * PerBlockData)
    : outcome (index_error slices_error) Batch :=
  let '(height, txnum_range, d) := item in
  _ ← assert_that "txnum_range.len() != txs_count"
        (bool_decide (range_len txnum_range = txs_count d));
  batch_build height txnum_range (blockhash d) (block_bytes d) (spent_bytes d).

(** The batches are built in parallel; with no shared state, in any order. *)
Definition builder_build (self : Builder) : outcome error (list Batch) :=
  _ ← assert_that "blocks must be adjacent"
        (forallb (λ pair : (Z * TxNumRange * PerBlockData) * (Z * TxNumRange * PerBlockData),
                    adjacent pair.1.1.2 pair.2.1.2
                    && bool_decide (wrap32 (pair.1.1.1 + 1) = pair.2.1.1))
           (windows2 (items self)));
  batches ← map_err ChainIndex (mapM build_item (items self));
  _ ← check_linked (builder_tip self) batches;
  mret batches.

(** ** Fetching and indexing *)

Definition fetch_data (blockhash : hash32) : client PerBlockData :=
  block_bytes ← st_map_err ChainClient (get_block_bytes blockhash);
  spent_bytes ← st_map_err ChainClient (get_spent_bytes blockhash);
  txs_count ← st_lift (block_txs_count block_bytes);
  spent_count ← st_lift (spent_txs_count spent_bytes);
  _ ← st_lift (assert_that "txs_count" (bool_decide (txs_count = spent_count)));
  mret {| blockhash := blockhash; block_bytes := block_bytes; spent_bytes := spent_bytes;
          txs_count := txs_count |}.

Definition stats_add (s : Stats) (item : PerBlockData) : Stats :=
  {| st_tip := blockhash item;
     size_read := wrap64 (size_read s + wrap64 (Z.of_nat (length (block_data (block_bytes item)))
                            + Z.of_nat (length (spent_data (spent_bytes item)))));
     indexed_blocks := wrap64 (indexed_blocks s + 1) |}.

Definition index_chunk (rows : list IndexedHeader)
    (acc : list Batch * option Stats) (chunk : list hash32)
    : client (list Batch * option Stats) :=
  let '(batches, stats) := acc in
  data ← mapM fetch_data chunk;
  let tip := match last batches with Some b => Some (batch_header b) | None => headers_tip rows end in
  builder ← st_lift (builder_new tip data);
  new ← st_lift (builder_build builder);
  mret (batches ++ new, (λ s, foldl stats_add s data) <$> stats).

Definition index (rows : list IndexedHeader) (hashes : list hash32) (stats : option Stats)
    : client (list Batch * option Stats) :=
  st_foldM (index_chunk rows) ([], stats) (chunks 10 hashes).

(** ** Synchronization *)

Definition with_headers (c : IndexedChain S) (rows : list IndexedHeader) : IndexedChain S :=
  {| genesis_hash := genesis_hash c; ic_headers := rows; store := store c |}.
Definition with_store (c : IndexedChain S) (s : DB S) : IndexedChain S :=
  {| genesis_hash := genesis_hash c; ic_headers := ic_headers c; store := s |}.

Definition get_chain {E} : stM (IndexedChain S * W) E (IndexedChain S) := st_fst st_get.
Definition put_chain {E} (c : IndexedChain S) : stM (IndexedChain S * W) E () :=
  st_fst (st_put c).

(** A fallible operation of the store. *)
Definition on_store (f : DB S → outcome rocksdb_error (DB S)) : M () :=
  c ← get_chain;
  s ← st_lift (map_err ChainRocksDB (f (store c)));
  put_chain (with_store c s).

(** The header is popped first: a failed re-index leaves it popped. *)
Definition drop_tip : M hash32 :=
  c ← get_chain;
  let '(popped, rows) := headers_pop (ic_headers c) in
  stale ← st_lift (expect "cannot drop tip of an empty chain" popped);
  _ ← put_chain (with_headers c rows);
  '(batches, _) ← st_snd (index rows [ih_hash stale] None);
  _ ← on_store (delete batches);
  mret (ih_hash stale).

(** Each round of the loop drops one header, so one more round than there are
    headers is enough fuel. *)
Fixpoint fetch_new_headers (fuel : nat) (limit : Z) : M HeaderChunk :=
  match fuel with
  | O => st_lift (Panic "out of fuel")
  | Datatypes.S fuel =>
      c ← get_chain;
      let tip := tip_hash (ic_headers c) in
      let '(blockhash, to_skip) :=
        if decide (tip = all_zeros) then (genesis_hash c, 0%nat) else (tip, 1%nat) in
      fetched ← st_snd (st_map_err ChainClient (get_headers blockhash limit));
      match fetched with
      | _ :: _ => mret {| hashes := rh_hash <$> fetched; to_skip := to_skip |}
      | [] =>
          dropped ← drop_tip;
          _ ← st_lift (assert_that "blockhash != dropped tip" (bool_decide (blockhash = dropped)));
          fetch_new_headers fuel limit
      end
  end.

Definition add_headers {E} (rows : list IndexedHeader) (new : list IndexedHeader)
    : outcome E (list IndexedHeader) := foldM headers_add rows new.

Definition sync (limit : Z) : M Stats :=
  c ← get_chain;
  chunk ← fetch_new_headers (Datatypes.S (length (ic_headers c))) limit;
  c ← get_chain;
  let stats := stats_new (tip_hash (ic_headers c)) in
  new ← st_lift (chunk_get chunk);
  '(batches, stats) ← st_snd (index (ic_headers c) new (Some stats));
  let stats := default (stats_new []) stats in
  _ ← on_store (write batches);
  c ← get_chain;
  rows ← st_lift (add_headers (ic_headers c) (batch_header <$> batches));
  _ ← put_chain (with_headers c rows);
  _ ← (if 0 <? indexed_blocks stats then on_store flush else on_store start_compactions);
  mret stats.

(** ** Following a primary *)

Definition refresh_secondary : M () :=
  _ ← on_store catch_up_with_primary;
  c ← get_chain;
  let reload : M () :=
    rows ← st_lift (headers (store c));
    rows ← st_lift (headers_new rows);
    put_chain (with_headers c rows) in
  match headers_tip (ic_headers c) with
  | Some tip =>
      rows ← st_lift (headers_from (store c) (header_key Bitcoin tip) (ih_height tip));
      let extends_tip :=
        bool_decide (ih_hash <$> head rows = Some (ih_hash tip)) &&
        forallb (λ pair, bool_decide (ih_prev_blockhash pair.2 = ih_hash pair.1)) (windows2 rows) in
      if extends_tip then
        rows ← st_lift (add_headers (ic_headers c) (drop 1 rows));
        put_chain (with_headers c rows)
      else reload
  | None => reload
  end.

(** ** Opening *)

Definition from_config (config : ChainConfig) : stM W error (IndexedChain S) :=
  genesis_hash ← st_map_err ChainClient (get_blockhash_by_height 0);
  genesis_block ← st_map_err ChainClient (get_block_bytes genesis_hash);
  res ← st_try (get_spent_bytes genesis_hash);
  _ ← st_lift (match res with
               | inl (Http (StatusCode 404)) => Err NotSupported
               | inl e => Err (ChainClient e)
               | inr spent => Ok spent
               end);
  size ← st_lift (expect "too large genesis block"
                    (try_into_u32 (Z.of_nat (length (block_data genesis_block)))));
  res ← st_try (get_block_part genesis_hash {| offset := 0; size := size |});
  _ ← st_lift (match res with
               | inl (Http (StatusCode 404)) => Err NotSupported
               | inl e => Err (ChainClient e)
               | inr data =>
                   block ← block_bytes_new data;
                   assert_that "genesis block part" (bool_decide (block_data block = block_data genesis_block))
               end);
  store ← st_lift (map_err ChainRocksDB
            (match secondary_path config with
             | Some path => open_as_secondary (db_path config) path
             | None => open (db_path config)
             end));
  rows ← st_lift (headers store);
  rows ← st_lift (headers_new rows);
  _ ← st_lift (match headers_genesis rows with
               | Some g =>
                   if decide (ih_hash g = genesis_hash) then mret tt
                   else Err (ChainMismatch (ih_hash g) genesis_hash)
               | None => mret tt
               end);
  mret {| genesis_hash := genesis_hash; ic_headers := rows; store := store |}.

(** ** Lookups *)

Definition locations_by_scripthash {E} (profile : build_profile) (self : IndexedChain S)
    (script_hash : hash32) (latest_header : option IndexedHeader) : outcome E (list Location) :=
  let from := from_option ih_next_txnum txnum_default latest_header in
  txnums ← scan_by_script_hash (store self) script_hash from;
  mapM (find_by_txnum profile (ic_headers self)) txnums.

Definition locations_by_txid {E} (profile : build_profile) (self : IndexedChain S)
    (txid : hash32) : outcome E (list Location) :=
  txnums ← scan_by_txid (store self) txid;
  mapM (find_by_txnum profile (ic_headers self)) txnums.

Definition get_tx_bytes (self : IndexedChain S) (location : Location) : client bytes :=
  pos ← st_lift (get_tx_block_pos (store self) (loc_txnum location));
  st_map_err ChainClient (get_block_part (ih_hash (loc_indexed_header location)) pos).

Definition tx_bytes_ref {E} (self : IndexedChain S) (location : Location) : outcome E TxBytesRef :=
  pos ← get_tx_block_pos (store self) (loc_txnum location);
  mret {| tbr_block_hash := ih_hash (loc_indexed_header location);
          tbr_block_height := loc_block_height location;
          tbr_block_position := loc_block_offset location;
          tbr_offset := offset pos; tbr_size := size pos |}.

(** The loop of [block_txids_at_height]: [n] transactions from [txnum] on. *)
Fixpoint txids_from (profile : build_profile) (self : IndexedChain S) (n : nat) (txnum : TxNum)
    : client (list hash32) :=
  match n with
  | O => mret []
  | Datatypes.S n =>
      location ← st_lift (find_by_txnum profile (ic_headers self) txnum);
      raw ← get_tx_bytes self location;
      id ← st_lift (map_err ChainFmt (txid raw));
      next ← st_lift (increment_by txnum 1);
      rest ← txids_from profile self n next;
      mret (id :: rest)
  end.

Definition block_txids_at_height (profile : build_profile) (self : IndexedChain S) (height : Z)
    : client (option (list hash32)) :=
  match header_at_height (ic_headers self) height with
  | None => mret None
  | Some header =>
      let txnum :=
        match header_at_height (ic_headers self) (Z.max 0 (height - 1)) with
        | Some h => if 0 <? height then ih_next_txnum h else txnum_default
        | None => txnum_default
        end in
      txs_count ← st_lift (expect "invalid indexed header txnum range"
                             (offset_from (ih_next_txnum header) txnum));
      txids ← txids_from profile self (Z.to_nat txs_count) txnum;
      mret (Some txids)
  end.

(** Raw headers of [count] heights from [start] on, read from the rows. *)
Fixpoint raw_headers_from (self : IndexedChain S) (start : Z) (n : nat)
    : outcome error (list bytes) :=
  match n with
  | O => mret []
  | Datatypes.S n =>
      header ← expect "height in range" (header_at_height (ic_headers self) start);
      value ← ok_or (BlockNotFound (Missing (ih_hash header) start))
                (get_header_value (store self) (header_key Bitcoin header));
      raw ← raw_from_value value;
      rest ← raw_headers_from self (start + 1) n;
      mret (raw :: rest)
  end.

Definition block_headers_raw (self : IndexedChain S) (start count : Z)
    : outcome error (list bytes) :=
  match header_at_height (ic_headers self) start with
  | None => mret []
  | Some _ =>
      let available := from_option (λ tip, tip + 1 - start) 0 (tip_height (ic_headers self)) in
      let count := Z.min count available in
      raw_headers_from self start (Z.to_nat count)
  end.

Definition block_header_raw_at_height (self : IndexedChain S) (height : Z)
    : outcome error (option bytes) :=
  raws ← block_headers_raw self height 1;
  mret (head raws).
End chain.

(** [db_name] (Bitcoin format) and [default_rpc_port]. *)
Inductive network := NetBitcoin | NetTestnet | NetTestnet4 | NetSignet | NetRegtest.
Definition network_to_string (n : network) : string :=
  match n with
  | NetBitcoin => "bitcoin" | NetTestnet => "testnet" | NetTestnet4 => "testnet4"
  | NetSignet => "signet" | NetRegtest => "regtest"
  end.
Definition db_name (n : network) : string := network_to_string n.
Definition default_rpc_port (n : network) : Z :=
  match n with
  | NetBitcoin => 8332 | NetTestnet => 18332 | NetTestnet4 => 48332
  | NetSignet => 38332 | NetRegtest => 18443
  end.

(** ** Where an index lies

    [open] and its variants: a directory of the network's or of a given name. The
    node's URL is that of the agent. *)
Section opening.
Context {S W : Type} `{HS : !Hashes, SO : !ScriptOps, VI : !VarInt, SL : !Slices,
  CS : !Consensus, RD : !RocksDB S, CJ : !ConfigJson, HA : !HttpAgent W}.
Abbreviation M := (stM W (chain_error slices_error)).

(** [Path::join] with a relative name. *)
Definition dir_join (dir name : string) : string := String.append dir (String.append "/" name).
Definition open_named (db_dir name : string) : M (IndexedChain S) :=
  from_config {| db_path := dir_join db_dir name; secondary_path := None |}.
Definition open_secondary_named (db_dir name secondary : string) : M (IndexedChain S) :=
  from_config {| db_path := dir_join db_dir name; secondary_path := Some secondary |}.
Definition open_with_rest_url (db_dir : string) (network : network) : M (IndexedChain S) :=
  open_named db_dir (db_name network).
Definition open_secondary_with_rest_url (db_dir : string) (network : network) (secondary : string)
    : M (IndexedChain S) :=
  open_secondary_named db_dir (db_name network) secondary.
End opening.
