(* ===== verification/ChainSpec.v ===== *)
(** * Invariants of the indexed chain

    [chain_inv]: the in-memory headers and the database describe one list of
    batches, each built from the block and spent outputs the node serves for
    its hash. Every operation of [Chain] keeps it. *)

From S2P Require Import Prelude External Index TxPos HashIndex Fmt Headers Batch Store StoreSpec.
From S2P Require Import Client Chain.

(** ** What the node promises

    A block hash commits to its block, so whatever the node's best chain is,
    the data served for one hash does not change; a block has a coinbase. *)
Class NodeLaws (W : Type) `{HttpAgent W, Slices} := {
  served_block_unique h d d' :
    served (rest_block h) d → served (rest_block h) d' → d = d';
  served_spent_unique h d d' :
    served (rest_spenttxouts h) d → served (rest_spenttxouts h) d' → d = d';
  served_block_wf h d : served (rest_block h) d → bytes_wf d;
  served_block_coinbase h d txs :
    served (rest_block h) d → block_visit d = (block_events txs, inr []) → txs ≠ [];
  served_block_hash h d : served (rest_block h) d → hash_wf h ∧ h ≠ all_zeros;
  served_part h o s d d' :
    served (rest_block h) d → served (rest_blockpart h o s) d' →
    d' = take (Z.to_nat s) (drop (Z.to_nat o) d);
}.

Section rows.
Context `{HS : !Hashes, HSL : !HashLaws, SO : !ScriptOps, VI : !VarInt, VIL : !VarIntLaws,
         SL : !Slices, SLL : !SlicesLaws}.

Lemma hash_rows_in_weaken rows lo hi lo' hi' :
  hash_rows_in rows lo hi → lo' ≤ lo → hi ≤ hi' → hash_rows_in rows lo' hi'.
Proof.
  intros Hr ??. eapply Forall_impl; [done|]. cbn. intros r (p & t & ? & ? & ->).
  exists p, t. split_and!; [done|lia..|done].
Qed.

Lemma script_rows_in fmt t scripts lo hi :
  lo ≤ t < hi → hash_rows_in (script_rows fmt t scripts) lo hi.
Proof.
  intros Ht. apply Forall_forall. intros r (s & -> & _)%list_elem_of_fmap.
  exists (prefix_new (scripthash_new s)), t. split_and!; [|lia..|done].
  apply prefix_new_length, sha256_wf.
Qed.

Lemma block_script_rows_in fmt t sss :
  hash_rows_in (block_script_rows fmt t sss) t (t + Z.of_nat (length sss)).
Proof.
  revert t. induction sss as [|ss sss IH]; intros t; [constructor|].
  cbn [block_script_rows length]. apply Forall_app. split; [apply script_rows_in; lia|].
  eapply hash_rows_in_weaken; [apply IH|lia..].
Qed.

Lemma block_txid_rows_in t txids :
  Forall hash_wf txids → hash_rows_in (block_txid_rows t txids) t (t + Z.of_nat (length txids)).
Proof.
  intros Hw. revert t. induction Hw as [|x txids Hx _ IH]; intros t; [constructor|].
  cbn [block_txid_rows length]. constructor.
  - exists (prefix_new x), t. split_and!; [by apply prefix_new_length|lia..|done].
  - eapply hash_rows_in_weaken; [apply IH|lia..].
Qed.

Lemma positions_of_some t off txs n :
  t ≤ n < t + Z.of_nat (length txs) → ∃ p, (n, p) ∈ positions_of t off txs.
Proof.
  revert t off. induction txs as [|tx txs IH]; intros t off; cbn [length positions_of]; [lia|].
  intros Hn. destruct (decide (n = t)) as [->|]; [eexists; left|].
  destruct (IH (t + 1) (off + Z.of_nat (length (stx_raw tx)))) as [p Hp]; [lia|].
  exists p. by right.
Qed.
End rows.

Section chain.
Context {S W : Type} `{HS : !Hashes, HSL : !HashLaws, SO : !ScriptOps, VI : !VarInt,
  VIL : !VarIntLaws, SL : !Slices, SLL : !SlicesLaws, CS : !Consensus, RD : !RocksDB S,
  RL : !RocksDBLaws S, CJ : !ConfigJson, HA : !HttpAgent W, NL : !NodeLaws W}.

(** ** Batches built from served blocks *)

(** [b] is the batch of the served block with its hash, at [height], with its
    transactions numbered from [lo] on. *)
Record built_block (lo height : Z) (b : Batch) (d sd : bytes) : Prop := {
  bb_block : served (rest_block (ih_hash (batch_header b))) d;
  bb_spent : served (rest_spenttxouts (ih_hash (batch_header b))) sd;
  bb_size : Z.of_nat (length d) ≤ 2 ^ 30;
  bb_build :
    batch_build height {| range_first := lo; range_next := batch_next b;
                          range_len := batch_next b - lo |} (ih_hash (batch_header b))
      {| block_data := d; block_header_len := 80 |} {| spent_data := sd |} = Ok b;
}.

Fixpoint built (lo height : Z) (bs : list Batch) : Prop :=
  match bs with
  | [] => True
  | b :: bs => (∃ d sd, built_block lo height b d sd) ∧ built (batch_next b) (height + 1) bs
  end.

Lemma built_block_spec lo height b d sd :
  built_block lo height b d sd → is_u32 lo →
  ∃ txs sss, txs ≠ [] ∧ block_visit d = (block_events txs, inr []) ∧
    batch_spec height lo (ih_hash (batch_header b)) {| block_data := d; block_header_len := 80 |}
      {| spent_data := sd |} txs sss b ∧
    batch_next b = lo + Z.of_nat (length txs).
Proof.
  intros [Hd Hsd Hs Hb] Hlo.
  pose proof Hb as Hb0. apply batch_build_ok in Hb0 as (txs & sss & Hspec & Hn); [|done|cbn; lia].
  cbn [range_first range_next] in *. exists txs, sss.
  pose proof (bs_visit _ _ _ _ _ _ _ _ Hspec) as Hv.
  split_and!; [by eapply served_block_coinbase|done..].
Qed.

Lemma built_block_wf lo height b d sd :
  built_block lo height b d sd → is_u32 lo → 0 ≤ height ≤ lo →
  batch_wf lo (batch_next b) b ∧ ih_height (batch_header b) = height ∧
  height + 1 ≤ batch_next b.
Proof.
  intros Hb Hlo Hh. destruct (built_block_spec _ _ _ _ _ Hb Hlo) as (txs & sss & Hne & _ & Hs & Hn).
  destruct Hb as [Hd _ _ _]. pose proof (served_block_hash _ _ Hd) as [Hhash _].
  pose proof (served_block_wf _ _ Hd) as Hdwf.
  assert (0 < Z.of_nat (length txs)) by (destruct txs; [done|cbn [length]; lia]).
  destruct Hs as [_ _ Htx _ Hcnt Hbound Hsr Htr Hpin Hloc Hraw Hprev Hhdr].
  cbn [block_data block_header_len] in *. split_and!; [|by rewrite Hhdr|lia].
  pose proof (proj1 (prev_blockhash_ok _ _) Hprev) as [Hl36 Hp].
  split.
  - bx_arith.
  - rewrite Hsr. apply Forall_app. split.
    + rewrite Hn, <-(length_fmap stx_scripts). apply block_script_rows_in.
    + rewrite Hn, <-Hcnt. apply block_script_rows_in.
  - rewrite Htr, Hn, <-(length_fmap stx_txid). apply block_txid_rows_in.
    by apply Forall_fmap.
  - by rewrite Hn.
  - intros t Ht. rewrite Hn in Ht. destruct (positions_of_some lo
      (HEADER_SIZE + Z.of_nat (length (varint_encode (Z.of_nat (length txs))))) txs t Ht) as [p Hp'].
    exists p. by apply Hloc.
  - done.
  - rewrite Hhdr. split_and!; cbn [ih_height ih_next_txnum ih_hash ih_prev_blockhash];
      [bx_arith..|done|].
    rewrite Hp. split.
    + apply Forall_take, Forall_drop. rewrite Hraw. by apply Forall_take.
    + rewrite length_take, length_drop. unfold HASH_LEN. lia.
  - by split.
Qed.

Lemma built_wf lo height bs :
  built lo height bs → is_u32 lo → 0 ≤ height ≤ lo → batches_wf lo bs.
Proof.
  revert lo height. induction bs as [|b bs IH]; intros lo height; [done|].
  intros [(d & sd & Hb) Hr] Hlo Hh.
  destruct (built_block_wf _ _ _ _ _ Hb Hlo Hh) as (Hw & _ & Hle).
  split; [done|]. apply (IH _ (height + 1)); [done| |lia]. pose proof (bw_range _ _ _ Hw). bx_arith.
Qed.

Lemma built_wf0 bs : built 0 0 bs → batches_wf 0 bs.
Proof. intros Hb. by eapply built_wf. Qed.

Lemma built_app lo height a b :
  built lo height (a ++ b) ↔
  built lo height a ∧ built (next_from lo a) (height + Z.of_nat (length a)) b.
Proof.
  revert lo height. induction a as [|x a IH]; intros lo height; cbn [built app length].
  - rewrite Z.add_0_r. tauto.
  - rewrite IH, next_from_cons.
    replace (height + 1 + Z.of_nat (length a)) with (height + Z.of_nat (Datatypes.S (length a))) by lia.
    tauto.
Qed.

(** The block after a built chain has a number for every block before it. *)
Lemma built_next lo height bs :
  built lo height bs → is_u32 lo → 0 ≤ height ≤ lo →
  is_u32 (next_from lo bs) ∧ height + Z.of_nat (length bs) ≤ next_from lo bs.
Proof.
  revert lo height. induction bs as [|b bs IH]; intros lo height.
  { cbn. intros _ ??. split; [done|lia]. }
  intros [(d & sd & Hb) Hr] Hlo Hh. rewrite next_from_cons.
  destruct (built_block_wf _ _ _ _ _ Hb Hlo Hh) as (Hw & _ & Hle).
  pose proof (bw_range _ _ _ Hw).
  destruct (IH _ _ Hr) as [? ?]; [bx_arith|lia|]. split; [done|]. cbn [length]. lia.
Qed.

(** A hash determines the batch at a place in the chain. *)
Lemma built_block_unique lo height b b' d d' sd sd' :
  built_block lo height b d sd → built_block lo height b' d' sd' → is_u32 lo →
  ih_hash (batch_header b) = ih_hash (batch_header b') → b = b'.
Proof.
  intros Hb Hb' Hlo Heq.
  destruct (built_block_spec _ _ _ _ _ Hb Hlo) as (txs & sss & _ & Hv & _ & Hn).
  destruct (built_block_spec _ _ _ _ _ Hb' Hlo) as (txs' & sss' & _ & Hv' & _ & Hn').
  destruct Hb as [Hd Hs _ Hbu], Hb' as [Hd' Hs' _ Hbu'].
  rewrite <-Heq in Hd', Hs', Hbu'.
  assert (d' = d) as -> by by eapply served_block_unique.
  assert (sd' = sd) as -> by by eapply served_spent_unique.
  assert (txs = txs') as -> by (apply block_events_txs_inj; congruence).
  assert (batch_next b' = batch_next b) as Hnn by lia. rewrite Hnn in Hbu'. congruence.
Qed.

(** ** Fetching and building *)

(** Data that [fetch_data] returns. *)
Record fetched (d : PerBlockData) : Prop := {
  fe_block : served (rest_block (blockhash d)) (block_data (block_bytes d));
  fe_spent : served (rest_spenttxouts (blockhash d)) (spent_data (spent_bytes d));
  fe_size : Z.of_nat (length (block_data (block_bytes d))) ≤ 2 ^ 30;
  fe_header : block_header_len (block_bytes d) = 80%nat;
  fe_count : is_u32 (txs_count d);
}.

Lemma fetch_data_ok h w d w' : fetch_data h w = (Ok d, w') → fetched d ∧ blockhash d = h.
Proof.
  unfold fetch_data. intros (bb & w1 & Hbb%st_map_err_ok & Hv)%st_bind_ok.
  apply st_bind_ok in Hv as (sb & w2 & Hsb%st_map_err_ok & Hv).
  apply st_bind_ok in Hv as (n & w3 & [Hn ->]%st_lift_ok & Hv).
  apply st_bind_ok in Hv as (m & w3 & [Hm ->]%st_lift_ok & Hv).
  apply st_bind_ok in Hv as (? & w3 & _ & Hv). apply st_ret_ok in Hv as [-> _].
  unfold get_block_bytes in Hbb. apply st_bind_ok in Hbb as (d & w4 & Hd & Hbb).
  apply st_lift_ok in Hbb as [Hbb _]. apply block_bytes_new_ok in Hbb as ->.
  unfold get_spent_bytes in Hsb. apply st_bind_ok in Hsb as (sd & w5 & Hsd & Hsb).
  apply st_ret_ok in Hsb as [-> _].
  apply get_bytes_served in Hd as [? ?], Hsd as [? _].
  split; [|done]. split; cbn [blockhash block_bytes spent_bytes block_data spent_data txs_count
    block_header_len]; [done..|].
  unfold block_txs_count in Hn. case_match; [|done]. by eapply parse_txs_count_u32.
Qed.

Lemma mapM_fetch_data hashes w ds w' :
  mapM fetch_data hashes w = (Ok ds, w') → Forall fetched ds ∧ blockhash <$> ds = hashes.
Proof.
  revert w ds w'. induction hashes as [|h hashes IH]; intros w ds w'; cbn [mapM].
  - intros [-> _]%st_ret_ok. done.
  - intros (d & w1 & [Hd <-]%fetch_data_ok & Hv)%st_bind_ok.
    apply st_bind_ok in Hv as (ds' & w2 & [Hds <-]%IH & Hv). apply st_ret_ok in Hv as [-> _].
    split; [by constructor|done].
Qed.

(** One block: its data makes the batch that extends the chain. *)
Lemma build_item_built lo next height d b :
  fetched d → is_u32 lo →
  build_item (height, {| range_first := lo; range_next := next; range_len := next - lo |}, d) = Ok b →
  built_block lo height b (block_data (block_bytes d)) (spent_data (spent_bytes d)) ∧
  batch_next b = next ∧ ih_hash (batch_header b) = blockhash d.
Proof.
  intros [Hd Hs Hsz Hl Hc] Hlo. unfold build_item. intros Hb.
  apply bind_ok in Hb as (? & _ & Hb).
  pose proof Hb as Hspec. apply batch_build_ok in Hspec as (txs & sss & Hspec & Hn); [|done|lia].
  cbn [range_first range_next] in *. pose proof (bs_header _ _ _ _ _ _ _ _ Hspec) as Hh.
  assert (ih_hash (batch_header b) = blockhash d) as Hhash by (rewrite Hh; done).
  assert (batch_next b = next) as Hnext by (unfold batch_next; rewrite Hh; cbn; lia).
  split_and!; [|done..]. split; rewrite ?Hhash; [done..|].
  rewrite Hnext. destruct d as [h [dd hl] [sd] c]. cbn in *. by subst hl.
Qed.

(** Assigning numbers never fails with an error, only by panicking. *)
Lemma builder_items_any {E F} next height data its :
  builder_items (E := E) next height data = Ok its →
  builder_items (E := F) next height data = Ok its.
Proof.
  revert next height its. induction data as [|d data IH]; intros next height its;
    cbn [builder_items]; [by intros [= <-]|].
  intros Hi. apply bind_ok in Hi as (next' & Hinc & Hi).
  apply bind_ok in Hi as (range & Hr & Hi). apply bind_ok in Hi as (its' & Hits%IH & [= <-]).
  apply increment_by_ok in Hinc. apply txnum_range_new_ok in Hr.
  rewrite (proj2 (increment_by_ok _ _ _) Hinc). osimpl.
  rewrite (proj2 (txnum_range_new_ok _ _ _) Hr). osimpl. by rewrite Hits.
Qed.

Lemma build_items_built data next height its batches :
  Forall fetched data → is_u32 next → 0 ≤ height ≤ next →
  builder_items (E := index_error slices_error) next height data = Ok its →
  mapM build_item its = Ok batches →
  built next height batches ∧ (λ b, ih_hash (batch_header b)) <$> batches = blockhash <$> data.
Proof.
  intros Hf. revert next height its batches.
  induction Hf as [|d data Hd _ IH]; intros next height its batches Hn Hh; cbn [builder_items].
  { intros [= <-] [= <-]. done. }
  intros Hi. apply bind_ok in Hi as (next' & Hinc & Hi).
  apply bind_ok in Hi as (range & Hr & Hi). apply bind_ok in Hi as (its' & Hits & [= <-]).
  apply txnum_range_new_ok in Hr as [_ ->]. apply increment_by_ok in Hinc as [-> Hlt].
  cbn [mapM]. intros Hm. apply bind_ok in Hm as (b & Hb & Hm).
  apply bind_ok in Hm as (bs & Hbs & [= <-]).
  apply build_item_built in Hb as (Hbb & Hbn & Hbh); [|done..].
  destruct (built_block_wf _ _ _ _ _ Hbb Hn Hh) as (_ & _ & Hle).
  pose proof (fe_count _ Hd) as Hc. rewrite Hbn in Hle.
  rewrite wrap32_small in Hits by bx_arith.
  destruct (IH (next + txs_count d) (height + 1) its' bs) as [Hbu Hha]; [bx_arith|lia|done..|].
  cbn [built fmap list_fmap]. rewrite Hbn. split; [eauto|]. rewrite Hbh. f_equal. done.
Qed.

Lemma check_linked_ok {E} tip height bs lo u :
  check_linked (E := E) tip bs = Ok u → built lo height bs → is_u32 lo → 0 ≤ height ≤ lo →
  linked tip height (batch_header <$> bs).
Proof.
  revert tip height lo u. induction bs as [|b bs IH]; intros tip height lo u; [done|].
  cbn [check_linked]. intros Hv [(d & sd & Hb) Hr] Hlo Hh.
  apply bind_ok in Hv as (? & ->%assert_ok%bool_decide_eq_true & Hv).
  destruct (built_block_wf _ _ _ _ _ Hb Hlo Hh) as (Hw & Hht & Hle).
  pose proof (bw_range _ _ _ Hw). cbn [fmap list_fmap linked].
  split_and!; [done..|]. eapply IH; [done..|bx_arith|lia].
Qed.
End chain.
