(* ===== verification/ChainSync.v ===== *)
(** * Synchronization keeps the index and the headers in step

    Each operation of [Chain] that changes state, against [chain_inv]. *)

From S2P Require Import Prelude External Index TxPos HashIndex Fmt Headers Batch Store StoreSpec.
From S2P Require Import Client Chain ChainSpec.

Section sync.
Context {S W : Type} `{HS : !Hashes, HSL : !HashLaws, SO : !ScriptOps, VI : !VarInt,
  VIL : !VarIntLaws, SL : !Slices, SLL : !SlicesLaws, CS : !Consensus, RD : !RocksDB S,
  RL : !RocksDBLaws S, CJ : !ConfigJson, HA : !HttpAgent W, NL : !NodeLaws W}.
Implicit Types (c : IndexedChain S) (bs : list Batch) (w : W).

(** A list of batches that a run of the indexer can have built. *)
Definition chain_batches bs : Prop :=
  built 0 0 bs ∧ headers_linked (batch_header <$> bs).

(** The in-memory headers and the store both describe the batches [bs]. *)
Record chain_inv c bs : Prop := {
  ci_batches : chain_batches bs;
  ci_headers : ic_headers c = batch_header <$> bs;
  ci_store : indexes (rocks_get (db (store c))) bs;
}.

Lemma chain_batches_app a b : chain_batches (a ++ b) → chain_batches a.
Proof.
  intros [Hb Hl]. split; [by apply built_app in Hb as [? _]|].
  unfold headers_linked in *. rewrite fmap_app in Hl. by apply linked_app in Hl as [? _].
Qed.

Lemma last_header bs : last (batch_header <$> bs) = batch_header <$> last bs.
Proof. apply fmap_last. Qed.

(** *** Indexing a list of hashes *)

Lemma builder_ok bs ds bld new :
  chain_batches bs → Forall fetched ds →
  builder_new (E := chain_error slices_error) (headers_tip (batch_header <$> bs)) ds = Ok bld →
  builder_build bld = Ok new →
  chain_batches (bs ++ new) ∧ (λ b, ih_hash (batch_header b)) <$> new = blockhash <$> ds.
Proof.
  intros [Hbu Hl] Hds Hn Hb. unfold builder_new in Hn.
  apply bind_ok in Hn as (its & Hits & [= <-]).
  unfold builder_build in Hb. cbn [items builder_tip] in Hb.
  apply bind_ok in Hb as (? & _ & Hb). apply bind_ok in Hb as (bs' & Hm%map_err_ok & Hb).
  apply bind_ok in Hb as (? & Hc & [= ->]).
  destruct (built_next _ _ _ Hbu) as [Hu Hlen]; [done|done|]. rewrite Z.add_0_l in Hlen.
  assert (from_option ih_next_txnum txnum_default (headers_tip (batch_header <$> bs)) = next_from 0 bs)
    as Enext by (unfold headers_tip, next_from; rewrite last_header; by destruct (last bs)).
  assert (from_option (λ h, wrap32 (ih_height h + 1)) 0 (headers_tip (batch_header <$> bs)) =
          Z.of_nat (length bs)) as Eheight.
  { unfold headers_tip. destruct bs as [|b bs _] using rev_ind; [done|].
    rewrite fmap_app, last_app. cbn [fmap list_fmap last from_option].
    unfold headers_linked in Hl. rewrite fmap_app, linked_app in Hl. cbn [linked fmap list_fmap] in Hl.
    destruct Hl as (_ & _ & -> & _). rewrite length_fmap, length_app in *. cbn [length] in *.
    rewrite wrap32_small by bx_arith. lia. }
  assert (from_option ih_hash all_zeros (headers_tip (batch_header <$> bs)) =
          tip_hash_from all_zeros (batch_header <$> bs)) as Etip
    by (unfold headers_tip, tip_hash_from; by destruct (last _)).
  rewrite Enext, Eheight in Hits. rewrite Etip in Hc.
  assert (builder_items (E := index_error slices_error) (next_from 0 bs) (Z.of_nat (length bs)) ds
          = Ok its) as Hits' by (by eapply builder_items_any).
  destruct (build_items_built ds (next_from 0 bs) (Z.of_nat (length bs)) its new)
    as [Hbn Hha]; [done|done|lia|done..|].
  split; [|done]. split.
  - apply built_app. rewrite Z.add_0_l. done.
  - unfold headers_linked. rewrite fmap_app, linked_app. split; [done|].
    rewrite Z.add_0_l, length_fmap. eapply check_linked_ok; [done..|lia].
Qed.

Lemma index_chunk_ok bs acc stats hs w new stats' w' :
  chain_batches (bs ++ acc) →
  index_chunk (batch_header <$> bs) (acc, stats) hs w = (Ok (new, stats'), w') →
  ∃ add, new = acc ++ add ∧ chain_batches (bs ++ new) ∧
    (λ b, ih_hash (batch_header b)) <$> add = hs ∧
    (∃ ds, blockhash <$> ds = hs ∧ stats' = (λ s, foldl stats_add s ds) <$> stats).
Proof.
  intros Hcb. unfold index_chunk.
  intros (ds & w1 & [Hds <-]%mapM_fetch_data & Hv)%st_bind_ok.
  apply st_bind_ok in Hv as (bld & w2 & [Hbld ->]%st_lift_ok & Hv).
  apply st_bind_ok in Hv as (add & w2 & [Hadd ->]%st_lift_ok & Hv).
  apply st_ret_ok in Hv as [[= -> ->] _].
  assert ((match last acc with Some b => Some (batch_header b)
           | None => headers_tip (batch_header <$> bs) end) =
          headers_tip (batch_header <$> (bs ++ acc))) as Htip.
  { unfold headers_tip. rewrite fmap_app, last_app, !last_header. by destruct (last acc). }
  rewrite Htip in Hbld. destruct (builder_ok _ _ _ _ Hcb Hds Hbld Hadd) as [Hn Hh].
  exists add. rewrite app_assoc. split_and!; [done..|].
  by exists ds.
Qed.

Lemma index_ok bs hs stats w new stats' w' :
  chain_batches bs →
  index (batch_header <$> bs) hs stats w = (Ok (new, stats'), w') →
  chain_batches (bs ++ new) ∧ (λ b, ih_hash (batch_header b)) <$> new = hs ∧
  ∃ ds, blockhash <$> ds = hs ∧ stats' = (λ s, foldl stats_add s ds) <$> stats.
Proof.
  intros Hcb. unfold index.
  assert (∀ hs acc stats w, chain_batches (bs ++ acc) →
    st_foldM (index_chunk (batch_header <$> bs)) (acc, stats) (chunks 10 hs) w = (Ok (new, stats'), w') →
    ∃ add, new = acc ++ add ∧ chain_batches (bs ++ new) ∧
      (λ b, ih_hash (batch_header b)) <$> add = hs ∧
      ∃ ds, blockhash <$> ds = hs ∧ stats' = (λ s, foldl stats_add s ds) <$> stats) as Hgen.
  { clear hs stats w Hcb. intros hs. apply (chunks_ind 10 (λ hs cs, ∀ acc stats w, chain_batches (bs ++ acc) →
      st_foldM (index_chunk (batch_header <$> bs)) (acc, stats) cs w = (Ok (new, stats'), w') →
      ∃ add, new = acc ++ add ∧ chain_batches (bs ++ new) ∧
        (λ b, ih_hash (batch_header b)) <$> add = hs ∧
        ∃ ds, blockhash <$> ds = hs ∧ stats' = (λ s, foldl stats_add s ds) <$> stats)); [lia| |].
    - intros acc stats w Hcb [[= -> ->] _]%st_ret_ok. exists []. rewrite app_nil_r.
      split_and!; [done..|]. exists []. split; [done|]. by destruct stats.
    - intros l _ IH acc stats w Hcb. cbn [st_foldM].
      intros ([acc1 stats1] & w1 & H1 & Hv)%st_bind_ok.
      apply index_chunk_ok in H1 as (a1 & -> & Hcb1 & Ha1 & ds1 & Hl1 & ->); [|done].
      apply IH in Hv as (a2 & -> & Hcb2 & Ha2 & ds2 & Hl2 & ->); [|done].
      exists (a1 ++ a2). rewrite app_assoc, fmap_app, Ha1, Ha2, take_drop.
      split_and!; [done..|]. exists (ds1 ++ ds2).
      rewrite fmap_app, Hl1, Hl2, take_drop. split; [done|].
      destruct stats; [|done]. cbn. by rewrite foldl_app. }
  intros Hv. destruct (Hgen hs [] stats w) as (add & -> & ? & ? & ?); [by rewrite app_nil_r|done|].
  done.
Qed.

(** *** Operations on the chain *)

Lemma on_store_spec f c w r c' w' :
  on_store (W := W) f (c, w) = (r, (c', w')) →
  w' = w ∧
  match r with
  | Ok _ => ∃ s, f (store c) = Ok s ∧ c' = with_store c s
  | Err _ => ∃ e, f (store c) = Err e ∧ c' = c
  | Panic msg => f (store c) = Panic msg ∧ c' = c
  end.
Proof.
  unfold on_store, get_chain, put_chain, st_fst, st_get, st_put, st_lift, mbind, stM_bind.
  destruct (f (store c)) as [s|e|m] eqn:Ef; cbn [map_err];
    intros [= <- <- <-]; eauto.
Qed.

Lemma with_store_inv c s bs :
  chain_inv c bs → (∀ cf k, rocks_get (db s) cf k = rocks_get (db (store c)) cf k) →
  chain_inv (with_store c s) bs.
Proof.
  intros [Hb Hh Hs] Heq. split; [done..|]. intros cf k x Hcf. cbn. rewrite Heq. by apply Hs.
Qed.

(** A failed re-index leaves the header popped and the rows in the store:
    [out_of_step] is the state [drop_tip] leaves behind on an error. *)
Definition out_of_step c bs : Prop :=
  ∃ b, chain_batches (bs ++ [b]) ∧ ic_headers c = batch_header <$> bs ∧
    indexes (rocks_get (db (store c))) (bs ++ [b]).

Lemma drop_tip_spec c bs w r c' w' :
  chain_inv c bs → drop_tip (c, w) = (r, (c', w')) →
  genesis_hash c' = genesis_hash c ∧
  match r with
  | Ok h => ∃ bs0 b, bs = bs0 ++ [b] ∧ h = ih_hash (batch_header b) ∧ chain_inv c' bs0
  | Err _ => ∃ bs0 b, bs = bs0 ++ [b] ∧ out_of_step c' bs0
  | Panic _ => True
  end.
Proof.
  intros [Hb Hh Hs]. unfold drop_tip.
  unfold get_chain, put_chain, st_fst, st_snd, st_get, st_put, st_lift, mbind, stM_bind.
  destruct bs as [|b bs0 _] using rev_ind.
  { rewrite Hh. cbn. by intros [= <- <- <-]. }
  rewrite Hh, fmap_app. cbn [fmap list_fmap]. rewrite headers_pop_snoc.
  cbn [expect with_headers]. fold (batch_header <$> bs0).
  pose proof (chain_batches_app _ _ Hb) as Hb0.
  destruct (index _ _ _ w) as [[[batches st]|e|m] w1] eqn:Ei.
  - apply index_ok in Ei as (Hb' & Hhash & _); [|done].
    destruct batches as [|b' [|? ?]]; [done| |done]. injection Hhash as Hhash.
    assert (b' = b) as ->.
    { destruct Hb as [Hb _], Hb' as [Hb' _]. apply built_app in Hb as [Hb Hb1], Hb' as [_ Hb2].
      destruct (built_next _ _ _ Hb) as [Hu _]; [done..|].
      destruct Hb1 as [(d & sd & H1) _], Hb2 as [(d' & sd' & H2) _].
      by eapply built_block_unique. }
    destruct (on_store _ _) as [[[]|e|m] [c2 w2]] eqn:Eo; apply on_store_spec in Eo as [-> Ho];
      intros [= <- <- <-].
    + destruct Ho as (s & Hd & ->). split; [done|]. exists bs0, b. split_and!; [done..|].
      cbn [store with_headers] in Hd.
      destruct (delete_indexes bs0 [b] _ _ Hs (built_wf0 _ (proj1 Hb)) Hd) as (Hi & _). done.
    + destruct Ho as (e' & _ & ->). split; [done|]. exists bs0, b. split; [done|]. by exists b.
    + destruct Ho as [Hd ->]. split; [done|]. exfalso. eapply (apply_batch_no_panic _ _ [b]); [|done].
      destruct Hb as [Hb _]. apply built_wf0, batches_wf_app in Hb as [_ Hb]. exact Hb.
  - intros [= <- <- <-]. split; [done|]. exists bs0, b. split; [done|]. by exists b.
  - by intros [= <- <- <-].
Qed.

Lemma fetch_new_headers_spec fuel limit c bs w r c' w' :
  chain_inv c bs → fetch_new_headers fuel limit (c, w) = (r, (c', w')) →
  genesis_hash c' = genesis_hash c ∧
  match r with
  | Ok _ => ∃ bs', bs' `prefix_of` bs ∧ chain_inv c' bs'
  | Err _ => ∃ bs', bs' `prefix_of` bs ∧ (chain_inv c' bs' ∨ out_of_step c' bs')
  | Panic _ => True
  end.
Proof.
  revert c bs w. induction fuel as [|fuel IH]; intros c bs w Hi; cbn [fetch_new_headers].
  { by intros [= <- <- <-]. }
  unfold get_chain, st_fst, st_snd, st_get, st_lift, mbind, stM_bind.
  destruct (if decide _ then _ else _) as [hash skip].
  destruct (st_map_err _ _ w) as [[[|h hs]|er|m] w1]; [|intros [= <- <- <-]; eauto 6..].
  destruct (drop_tip (c, w1)) as [dr [c2 w2]] eqn:Ed.
  apply (drop_tip_spec _ _ _ _ _ _ Hi) in Ed as [Hg Hd]. destruct dr as [h|er|m].
  - destruct Hd as (bs0 & b & -> & -> & Hi0).
    destruct (bool_decide _); cbn [assert_that]; [|intros [= <- <- <-]; done].
    intros Hf. apply (IH _ _ _ Hi0) in Hf as [Hg' Hf]. split; [congruence|].
    destruct r; try done; destruct Hf as (bs' & Hp & Hi'); exists bs';
      (split; [by apply prefix_app_r|done]).
  - intros [= <- <- <-]. split; [done|]. destruct Hd as (bs0 & b & -> & Ho).
    exists bs0. split; [by eexists|by right].
  - by intros [= <- <- <-].
Qed.

(** Enough fuel: one round more than there are headers; more changes nothing. *)
Lemma fetch_new_headers_fuel fuel limit c bs w :
  chain_inv c bs → (length bs < fuel)%nat →
  fetch_new_headers fuel limit (c, w) =
  fetch_new_headers (Datatypes.S (length bs)) limit (c, w).
Proof.
  revert c bs w. induction fuel as [|fuel IH]; intros c bs w Hi Hf; [lia|].
  cbn [fetch_new_headers].
  unfold get_chain, st_fst, st_snd, st_get, st_lift, mbind, stM_bind.
  destruct (if decide _ then _ else _) as [hash skip].
  destruct (st_map_err _ _ w) as [[[|h hs]|er|m] w1]; [|done..].
  destruct (drop_tip (c, w1)) as [dr [c2 w2]] eqn:Ed.
  apply (drop_tip_spec _ _ _ _ _ _ Hi) in Ed as [Hg Hd]. destruct dr as [h|er|m]; [|done..].
  destruct Hd as (bs0 & b & -> & -> & Hi0).
  destruct (bool_decide _); cbn [assert_that]; [|done].
  rewrite length_app in *. cbn [length] in *.
  replace (length bs0 + 1)%nat with (Datatypes.S (length bs0)) by lia.
  apply (IH _ _ _ Hi0). lia.
Qed.

Lemma add_headers_ok {E} rows new rows' :
  add_headers (E := E) rows new = Ok rows' → rows' = rows ++ new.
Proof.
  unfold add_headers. revert rows. induction new as [|h new IH]; intros rows; cbn [foldM].
  - intros [= <-]. by rewrite app_nil_r.
  - intros Hv. apply bind_ok in Hv as (rows1 & Ha & Hv). apply headers_add_ok in Ha as [-> _].
    apply IH in Hv as ->. by rewrite <-app_assoc.
Qed.

Lemma add_headers_linked {E} rows new :
  headers_linked (rows ++ new) → add_headers (E := E) rows new = Ok (rows ++ new).
Proof.
  unfold add_headers. revert rows. induction new as [|h new IH]; intros rows; cbn [foldM].
  - by rewrite app_nil_r.
  - intros Hl. assert (headers_linked (rows ++ [h])) as Hl1.
    { rewrite (app_assoc rows [h] new) in Hl || change (h :: new) with ([h] ++ new) in Hl.
      rewrite app_assoc in Hl. unfold headers_linked in *. by apply linked_app in Hl as [? _]. }
    assert (headers_linked rows) as Hl0 by (unfold headers_linked in *; by apply linked_app in Hl1 as [? _]).
    apply (headers_add_linked _ _ Hl0) in Hl1 as [Hp Hh].
    rewrite (proj2 (headers_add_ok _ _ _)) by eauto. osimpl.
    rewrite IH; rewrite <-app_assoc; done.
Qed.

(** Housekeeping of the store changes no entry. *)
Lemma foldM_get (f : S → cf_name → option S) cfs s s' cf k :
  (∀ s cf0 s', f s cf0 = Some s' → rocks_get s' cf k = rocks_get s cf k) →
  foldM (λ s cf, ok_or RocksdbError (f s cf)) s cfs = Ok s' →
  rocks_get s' cf k = rocks_get s cf k.
Proof.
  intros Hf. revert s. induction cfs as [|cf0 cfs IH]; intros s; cbn [foldM].
  - by intros [= <-].
  - intros Hv. apply bind_ok in Hv as (s1 & H1%ok_or_ok & Hv%IH). rewrite Hv. by eapply Hf.
Qed.

Lemma flush_get s s' cf k : flush s = Ok s' → rocks_get (db s') cf k = rocks_get (db s) cf k.
Proof.
  unfold flush. intros Hv. apply bind_ok in Hv as (r & Hr & [= <-]). cbn.
  eapply foldM_get; [|done]. intros ???. apply rocks_flush_get.
Qed.

Lemma start_compactions_get s s' cf k :
  start_compactions s = Ok s' → rocks_get (db s') cf k = rocks_get (db s) cf k.
Proof.
  unfold start_compactions. destruct (compacting s); [by intros [= <-]|].
  intros Hv. apply bind_ok in Hv as (r & Hr & [= <-]). cbn.
  eapply foldM_get; [|done]. intros ???. apply rocks_enable_compactions_get.
Qed.

Lemma stats_add_all ds s :
  0 ≤ indexed_blocks s < 2 ^ 64 →
  indexed_blocks (foldl stats_add s ds) = wrap64 (indexed_blocks s + Z.of_nat (length ds)) ∧
  st_tip (foldl stats_add s ds) = default (st_tip s) (last (blockhash <$> ds)).
Proof.
  revert s. induction ds as [|d ds IH]; intros s Hs; cbn [foldl length].
  - rewrite Z.add_0_r, wrap64_small by done. done.
  - destruct (IH (stats_add s d)) as [-> ->]; [by apply Z.mod_pos_bound|].
    cbn [stats_add indexed_blocks st_tip fmap list_fmap]. split.
    + unfold wrap64. rewrite Zplus_mod_idemp_l. f_equal. lia.
    + rewrite last_cons. by destruct (last _).
Qed.

(** What [sync] does, on success and on an error. *)
Lemma sync_spec limit c bs w r c' w' :
  chain_inv c bs → sync limit (c, w) = (r, (c', w')) →
  match r with
  | Ok stats => ∃ kept new, kept `prefix_of` bs ∧ chain_inv c' (kept ++ new) ∧
      st_tip stats = tip_hash (ic_headers c') ∧
      indexed_blocks stats = wrap64 (Z.of_nat (length new))
  | Err _ => ∃ bs', chain_inv c' bs' ∨ out_of_step c' bs'
  | Panic _ => True
  end.
Proof.
  intros Hi. unfold sync.
  unfold get_chain, put_chain, st_fst, st_snd, st_get, st_put, st_lift, mbind, stM_bind.
  destruct (fetch_new_headers _ _ _) as [[chunk|er|m] [c1 w1]] eqn:Ef;
    apply (fetch_new_headers_spec _ _ _ _ _ _ _ _ Hi) in Ef as [_ Hf];
    [|intros [= <- <- <-]; naive_solver|by intros [= <- <- <-]].
  destruct Hf as (kept & Hk & Hi1). destruct Hi1 as [Hb1 Hh1 Hs1] eqn:Ei1. clear Ei1.
  pose proof (Build_chain_inv _ _ Hb1 Hh1 Hs1) as Hi1'.
  destruct (chunk_get chunk) as [hs|er|m]; [|intros [= <- <- <-]; eauto|by intros [= <- <- <-]].
  rewrite Hh1.
  destruct (index _ _ _ w1) as [[[new stats]|er|m] w2] eqn:Ei;
    [|intros [= <- <- <-]; eauto|by intros [= <- <- <-]].
  apply index_ok in Ei as (Hb2 & Hnh & ds & Hds & ->); [|done]. cbn [fmap option_fmap option_map default].
  destruct (on_store (write new) (c1, w2)) as [wr [c2 w3]] eqn:Ew.
  apply on_store_spec in Ew as [-> Hw].
  destruct wr as [[]|er|m]; [|destruct Hw as (? & _ & ->); intros [= <- <- <-]; eauto
    |by intros [= <- <- <-]].
  destruct Hw as (s & Hw & ->).
  destruct (write_indexes kept new _ _ Hs1 (built_wf0 _ (proj1 Hb2)) Hw) as (Hs2 & _).
  cbn [ic_headers with_store]. rewrite Hh1.
  destruct Hb2 as [Hbu2 Hl2]. rewrite fmap_app in Hl2.
  rewrite (add_headers_linked _ _ Hl2).
  set (c3 := with_headers (with_store c1 s) ((batch_header <$> kept) ++ (batch_header <$> new))).
  assert (chain_inv c3 (kept ++ new)) as Hi3.
  { split; [split; [done|by rewrite fmap_app]|by rewrite fmap_app|done]. }
  set (stats := foldl stats_add _ ds).
  assert (st_tip stats = tip_hash (ic_headers c3) ∧
          indexed_blocks stats = wrap64 (Z.of_nat (length new))) as [Htip Hcnt].
  { destruct (stats_add_all ds (stats_new (tip_hash (batch_header <$> kept)))) as [H1 H2]; [done|].
    unfold stats. rewrite H1, H2. cbn [stats_new indexed_blocks st_tip].
    rewrite Z.add_0_l, Hds, <-Hnh. split.
    - unfold tip_hash. cbn [c3 ic_headers with_headers].
      rewrite last_app, !fmap_last. by destruct (last new).
    - do 2 f_equal. rewrite <-(length_fmap blockhash ds), Hds, <-Hnh. apply length_fmap. }
  change (id stats) with stats. unfold mret, stM_ret.
  destruct (0 <? indexed_blocks stats).
  - destruct (on_store flush (c3, w2)) as [fr [c4 w4]] eqn:Eo; apply on_store_spec in Eo as [-> Ho].
    destruct fr as [[]|er|m]; [|destruct Ho as (? & _ & ->); intros [= <- <- <-]; eauto
      |by intros [= <- <- <-]].
    destruct Ho as (s' & Hfl & ->). intros [= <- <- <-]. exists kept, new.
    split_and!; [done| |done..]. apply with_store_inv; [done|]. intros cf k. by apply flush_get.
  - destruct (on_store start_compactions (c3, w2)) as [fr [c4 w4]] eqn:Eo;
      apply on_store_spec in Eo as [-> Ho].
    destruct fr as [[]|er|m]; [|destruct Ho as (? & _ & ->); intros [= <- <- <-]; eauto
      |by intros [= <- <- <-]].
    destruct Ho as (s' & Hfl & ->). intros [= <- <- <-]. exists kept, new.
    split_and!; [done| |done..]. apply with_store_inv; [done|]. intros cf k.
    by apply start_compactions_get.
Qed.
End sync.
