(* ===== verification/ChainQuery.v ===== *)
(** * Lookups in a synchronized chain

    What [locations_by_scripthash], [locations_by_txid], [get_tx_bytes] and the
    header lookups return, in terms of the transactions of the served blocks. *)

From S2P Require Import Prelude External Index TxPos HashIndex Fmt Headers Batch Store StoreSpec.
From S2P Require Import Client Chain ChainSpec ChainSync.

(** ** Rows and transactions *)

Section rows.
Context `{HS : !Hashes, HSL : !HashLaws, SO : !ScriptOps}.

(** A transaction's scripts that hash to the prefix of [h]. *)
Definition touches (h : hash32) (scripts : list bytes) : Prop :=
  ∃ s, s ∈ scripts ∧ is_op_return s = false ∧ prefix_new (scripthash_new s) = prefix_new h.

Lemma row_new_inj p q t u :
  length p = PREFIX_LEN → length q = PREFIX_LEN → is_u32 t → is_u32 u →
  hash_prefix_row_new p t = hash_prefix_row_new q u ↔ p = q ∧ t = u.
Proof.
  intros. split; [|by intros [-> ->]]. intros [= Heq]. by apply row_key_inj.
Qed.

Lemma elem_script_rows h t u scripts :
  hash_wf h → is_u32 t → is_u32 u →
  hash_prefix_row_new (prefix_new h) t ∈ script_rows Bitcoin u scripts ↔
  t = u ∧ touches h scripts.
Proof.
  intros Hh Ht Hu. unfold script_rows, indexed_scripts, touches. rewrite list_elem_of_fmap.
  split.
  - intros (s & Heq & [[Hop _] Hs]%list_elem_of_filter).
    apply row_new_inj in Heq as [Hp ->]; [|by apply prefix_new_length|apply prefix_new_length, sha256_wf|done..].
    eauto 6.
  - intros (-> & s & Hs & Hop & <-). exists s. split; [done|]. by apply list_elem_of_filter.
Qed.

Lemma elem_block_script_rows h t first sss :
  hash_wf h → is_u32 t → 0 ≤ first → first + Z.of_nat (length sss) < 2 ^ 32 →
  hash_prefix_row_new (prefix_new h) t ∈ block_script_rows Bitcoin first sss ↔
  ∃ j ss, sss !! j = Some ss ∧ t = first + Z.of_nat j ∧ touches h ss.
Proof.
  intros Hh Ht Hf Hb. revert first Hf Hb. induction sss as [|ss sss IH]; intros first Hf Hb;
    cbn [block_script_rows length] in *.
  { split; [set_solver|]. intros (j & ss & ? & _). by destruct j. }
  rewrite elem_of_app, elem_script_rows, IH by (done || bx_arith). split.
  - intros [[-> Ht']|(j & s & Hj & -> & Ht')].
    + exists 0%nat, ss. split_and!; [done|lia|done].
    + exists (S j), s. split_and!; [done|lia|done].
  - intros ([|j] & s & Hj & -> & Ht').
    + injection Hj as ->. left. split; [lia|done].
    + right. exists j, s. split_and!; [done|lia|done].
Qed.

Lemma elem_block_txid_rows h t first txids :
  hash_wf h → Forall hash_wf txids → is_u32 t → 0 ≤ first →
  first + Z.of_nat (length txids) < 2 ^ 32 →
  hash_prefix_row_new (prefix_new h) t ∈ block_txid_rows first txids ↔
  ∃ j x, txids !! j = Some x ∧ t = first + Z.of_nat j ∧ prefix_new x = prefix_new h.
Proof.
  intros Hh Hw Ht. revert first. induction Hw as [|x txids Hx _ IH]; intros first Hf Hb;
    cbn [block_txid_rows length] in *.
  { split; [set_solver|]. intros (j & ss & ? & _). by destruct j. }
  rewrite elem_of_cons, row_new_inj, IH
    by (done || bx_arith || by apply prefix_new_length). split.
  - intros [[Hpx ->]|(j & s & Hj & -> & Ht')].
    + exists 0%nat, x. split_and!; [done|lia|done].
    + exists (S j), s. split_and!; [done|lia|done].
  - intros ([|j] & s & Hj & -> & Ht').
    + injection Hj as ->. left. split; [done|lia].
    + right. exists j, s. split_and!; [done|lia|done].
Qed.
End rows.

Section query.
Context {S W : Type} `{HS : !Hashes, HSL : !HashLaws, SO : !ScriptOps, VI : !VarInt,
  VIL : !VarIntLaws, SL : !Slices, SLL : !SlicesLaws, CS : !Consensus, RD : !RocksDB S,
  RL : !RocksDBLaws S, CJ : !ConfigJson, HA : !HttpAgent W, NL : !NodeLaws W}.
Implicit Types (c : IndexedChain S) (bs : list Batch) (w : W).

(** Transaction [n] of the chain is number [j] of block [i]: [tx], spending
    outputs with the scripts [spent]. *)
Record chain_tx bs (n : TxNum) (i j : nat) (h : IndexedHeader) (d : bytes) (tx : slice_tx)
    (spent : list bytes) : Prop := {
  ct_batch : (batch_header <$> bs) !! i = Some h;
  ct_block : served (rest_block (ih_hash h)) d;
  ct_num : n = first_txnum (batch_header <$> bs) i + Z.of_nat j;
  ct_txs : ∃ txs, block_visit d = (block_events txs, inr []) ∧ txs !! j = Some tx;
  ct_spent : ∃ sd sss, served (rest_spenttxouts (ih_hash h)) sd ∧ spent_stream sd sss ∧
               sss !! j = Some spent;
}.

Lemma first_txnum_next bs i :
  (i ≤ length bs)%nat → first_txnum (batch_header <$> bs) i = next_from 0 (take i bs).
Proof.
  intros Hi. destruct i as [|i]; [done|]. cbn [first_txnum].
  destruct (lookup_lt_is_Some_2 bs i) as [b Hb]; [lia|].
  rewrite list_lookup_fmap, Hb. cbn [fmap option_fmap option_map].
  unfold next_from. by rewrite (take_S_r _ _ _ Hb), last_snoc.
Qed.

(** The batch at a height, and what is known of it. *)
Lemma built_lookup bs i b :
  built 0 0 bs → bs !! i = Some b →
  ∃ d sd txs sss, let lo := first_txnum (batch_header <$> bs) i in
    is_u32 lo ∧ built_block lo (Z.of_nat i) b d sd ∧ batch_wf lo (batch_next b) b ∧
    batch_spec (Z.of_nat i) lo (ih_hash (batch_header b))
      {| block_data := d; block_header_len := 80 |} {| spent_data := sd |} txs sss b ∧
    batch_next b = lo + Z.of_nat (length txs) ∧
    bs = take i bs ++ b :: drop (Datatypes.S i) bs ∧ lo = next_from 0 (take i bs).
Proof.
  intros Hb Hi. pose proof (lookup_lt_Some _ _ _ Hi) as Hlt.
  assert (bs = take i bs ++ b :: drop (Datatypes.S i) bs) as Hsplit by (by rewrite take_drop_middle).
  rewrite first_txnum_next by lia. rewrite Hsplit in Hb.
  apply built_app in Hb as [Hb0 [(d & sd & Hbb) _]].
  destruct (built_next _ _ _ Hb0) as [Hu Hle]; [done..|].
  rewrite length_take in *. replace (0 + Z.of_nat (i `min` length bs)) with (Z.of_nat i) in * by lia.
  destruct (built_block_spec _ _ _ _ _ Hbb Hu) as (txs & sss & _ & Hv & Hspec & Hn).
  destruct (built_block_wf _ _ _ _ _ Hbb Hu) as (Hw & _ & _); [lia|].
  exists d, sd, txs, sss. cbv zeta. split_and!; done.
Qed.

Lemma built_headers_wf bs :
  chain_batches bs →
  Z.of_nat (length (batch_header <$> bs)) ≤ 2 ^ 32 ∧ txnums_ascending (batch_header <$> bs).
Proof.
  intros [Hb _]. destruct (built_next _ _ _ Hb) as [Hu Hle]; [done..|].
  rewrite length_fmap. split; [bx_arith|].
  assert (∀ lo height bs, built lo height bs → is_u32 lo → 0 ≤ height ≤ lo →
    Sorted Z.le (ih_next_txnum <$> (batch_header <$> bs)) ∧
    Forall (λ h, is_u32 (ih_next_txnum h)) (batch_header <$> bs)) as Hgen.
  { clear -NL HSL VIL SLL. intros lo height bs. revert lo height.
    induction bs as [|b bs IH]; intros lo height; [repeat constructor|].
    intros [(d & sd & Hb) Hr] Hlo Hh.
    destruct (built_block_wf _ _ _ _ _ Hb Hlo Hh) as (Hw & _ & Hle).
    pose proof (bw_range _ _ _ Hw) as [? ?].
    assert (is_u32 (batch_next b)) by bx_arith.
    destruct (IH _ _ Hr) as [Hs Hf]; [done|lia|]. cbn [fmap list_fmap]. split; [|by constructor].
    constructor; [done|]. destruct bs as [|b' bs]; [constructor|]. constructor.
    destruct Hr as [(d' & sd' & Hb') _].
    destruct (built_block_wf _ _ _ _ _ Hb') as (Hw' & _ & _); [done|lia|].
    pose proof (bw_range _ _ _ Hw'). unfold batch_next in *. lia. }
  by apply (Hgen 0 0).
Qed.

Lemma chain_tx_find {E} bs n i j h d tx spent :
  chain_batches bs → chain_tx bs n i j h d tx spent →
  find_by_txnum (E := E) Release (batch_header <$> bs) n =
  Ok {| loc_txnum := n; loc_block_height := Z.of_nat i; loc_block_offset := Z.of_nat j;
        loc_indexed_header := h |}.
Proof.
  intros Hcb [Hi Hd Hn (txs & Hv & Hj) _]. pose proof Hcb as [Hbu _].
  destruct (built_headers_wf _ Hcb) as [Hlen Ha].
  rewrite list_lookup_fmap in Hi. destruct (bs !! i) as [b|] eqn:Eb; [|done]. injection Hi as <-.
  destruct (built_lookup _ _ _ Hbu Eb) as (d' & sd & txs' & sss & Hu & Hbb & Hw & Hspec & Hnx & _).
  assert (d' = d) as -> by (eapply served_block_unique; [|done]; apply Hbb).
  pose proof (bs_visit _ _ _ _ _ _ _ _ Hspec) as Hv'. cbn [block_data] in Hv'.
  assert (txs' = txs) as -> by (apply block_events_txs_inj; congruence).
  apply lookup_lt_Some in Hj.
  rewrite (find_by_txnum_in_block _ i (batch_header b)); [|done..|].
  - do 2 f_equal. lia.
  - split; [by rewrite list_lookup_fmap, Eb|]. unfold batch_next in *. lia.
Qed.

(** The batch and the transactions of the block a [chain_tx] lies in. *)
Lemma chain_tx_batch bs i b d sd txs sss :
  let lo := first_txnum (batch_header <$> bs) i in
  bs !! i = Some b → is_u32 lo → built_block lo (Z.of_nat i) b d sd →
  batch_spec (Z.of_nat i) lo (ih_hash (batch_header b))
    {| block_data := d; block_header_len := 80 |} {| spent_data := sd |} txs sss b →
  ∀ j tx spent, txs !! j = Some tx → sss !! j = Some spent →
  chain_tx bs (lo + Z.of_nat j) i j (batch_header b) d tx spent.
Proof.
  intros lo Hi Hlo [Hd Hsd _ _] Hspec j tx spent Htx Hsp. split.
  - by rewrite list_lookup_fmap, Hi.
  - done.
  - done.
  - exists txs. split; [|done]. apply (bs_visit _ _ _ _ _ _ _ _ Hspec).
  - exists sd, sss. split_and!; [done| |done]. apply (bs_spent _ _ _ _ _ _ _ _ Hspec).
Qed.

Lemma spent_stream_unique r sss sss' : spent_stream r sss → spent_stream r sss' → sss = sss'.
Proof.
  assert (∀ r ss r1, spent_outputs r ss r1 → ∀ ss' r2, length ss' = length ss →
    spent_outputs r ss' r2 → ss' = ss ∧ r2 = r1) as Ho.
  { clear. induction 1 as [r|r s n ss r1 Hp _ IH]; intros ss' r2 Hl Hs.
    - destruct ss'; [|done]. by inversion Hs.
    - destruct ss' as [|s' ss']; [done|]. inversion Hs as [|? ? n' ? ? Hp' Hs']; subst.
      rewrite Hp in Hp'. injection Hp' as <- <-. cbn in Hl.
      by destruct (IH ss' r2 ltac:(lia) Hs') as [-> ->]. }
  assert (∀ r ss r1, spent_txs r ss r1 → ∀ ss' r2, length ss' = length ss →
    spent_txs r ss' r2 → ss' = ss ∧ r2 = r1) as Ht.
  { clear -Ho. induction 1 as [r|r n ss r1 sss r2 Hp Hss _ IH]; intros ss' r3 Hl Hs.
    - destruct ss'; [|done]. by inversion Hs.
    - destruct ss' as [|s' ss']; [done|]. inversion Hs as [|? n' ? r1' ? ? Hp' Hs' Hr']; subst.
      rewrite Hp in Hp'. injection Hp' as Hn <-.
      destruct (Ho _ _ _ Hss s' r1' ltac:(lia) Hs') as [-> ->].
      cbn in Hl. by destruct (IH ss' r3 ltac:(lia) Hr') as [-> ->]. }
  intros (n & Hn & Hs) (n' & Hn' & Hs'). rewrite Hn in Hn'. injection Hn' as Hl <-.
  symmetry. by apply (Ht _ _ _ Hs) in Hs' as [? _]; [|lia].
Qed.

(** The data of a [chain_tx] is the data its batch was built from. *)
Lemma chain_tx_inv bs n i j h d tx spent :
  built 0 0 bs → chain_tx bs n i j h d tx spent →
  ∃ b sd txs sss, let lo := first_txnum (batch_header <$> bs) i in
    bs !! i = Some b ∧ h = batch_header b ∧ is_u32 lo ∧ batch_wf lo (batch_next b) b ∧
    batch_spec (Z.of_nat i) lo (ih_hash (batch_header b))
      {| block_data := d; block_header_len := 80 |} {| spent_data := sd |} txs sss b ∧
    batch_next b = lo + Z.of_nat (length txs) ∧ txs !! j = Some tx ∧ sss !! j = Some spent ∧
    n = lo + Z.of_nat j ∧
    bs = take i bs ++ b :: drop (Datatypes.S i) bs ∧ lo = next_from 0 (take i bs).
Proof.
  intros Hbu [Hi Hd Hn (txs & Hv & Hj) (sd & sss & Hsd & Hs & Hsj)].
  rewrite list_lookup_fmap in Hi. destruct (bs !! i) as [b|] eqn:Eb; [|done]. injection Hi as <-.
  destruct (built_lookup _ _ _ Hbu Eb) as (d' & sd' & txs' & sss' & Hu & Hbb & Hw & Hspec & Hnx & Hsp).
  pose proof Hbb as [Hd' Hsd' _ _].
  assert (d' = d) as -> by by eapply served_block_unique.
  assert (sd' = sd) as -> by by eapply served_spent_unique.
  pose proof (bs_visit _ _ _ _ _ _ _ _ Hspec) as Hv'. cbn [block_data] in Hv'.
  pose proof (bs_spent _ _ _ _ _ _ _ _ Hspec) as Hs'. cbn [spent_data] in Hs'.
  assert (txs' = txs) as -> by (apply block_events_txs_inj; congruence).
  assert (sss' = sss) as -> by by eapply spent_stream_unique.
  exists b, sd, txs, sss. destruct Hsp. split_and!; done.
Qed.

Lemma script_row_tx bs h t :
  built 0 0 bs → hash_wf h → is_u32 t →
  (∃ b, b ∈ bs ∧ hash_prefix_row_new (prefix_new h) t ∈ scripthash_rows b) ↔
  ∃ i j hdr d tx spent, chain_tx bs t i j hdr d tx spent ∧
    touches h (stx_scripts tx ++ spent).
Proof.
  intros Hbu Hh Ht.
  assert (∀ a b, touches h (a ++ b) ↔ touches h a ∨ touches h b) as Happ.
  { intros a b. unfold touches. setoid_rewrite elem_of_app. naive_solver. }
  split.
  - intros (b & [i Hi]%list_elem_of_lookup & Hr).
    destruct (built_lookup _ _ _ Hbu Hi) as (d & sd & txs & sss & Hu & Hbb & Hw & Hspec & Hnx & _).
    pose proof (bw_range _ _ _ Hw) as [Hlo Hhi].
    rewrite (bs_scripts _ _ _ _ _ _ _ _ Hspec) in Hr.
    pose proof (bs_counts _ _ _ _ _ _ _ _ Hspec) as Hc.
    apply elem_of_app in Hr as [Hr|Hr]; apply elem_block_script_rows in Hr
      as (j & ss & Hj & -> & Htc); try done || (rewrite ?length_fmap; lia).
    + rewrite list_lookup_fmap in Hj. destruct (txs !! j) as [tx|] eqn:Ej; [|done].
      injection Hj as <-. destruct (lookup_lt_is_Some_2 sss j) as [sp Hsp];
        [apply lookup_lt_Some in Ej; lia|].
      do 6 eexists. split; [by eapply chain_tx_batch|]. apply Happ. by left.
    + destruct (lookup_lt_is_Some_2 txs j) as [tx Htx]; [apply lookup_lt_Some in Hj; lia|].
      do 6 eexists. split; [by eapply chain_tx_batch|]. apply Happ. by right.
  - intros (i & j & hdr & d & tx & spent & Hct & Htc).
    destruct (chain_tx_inv _ _ _ _ _ _ _ _ Hbu Hct)
      as (b & sd & txs & sss & Hi & -> & Hu & Hw & Hspec & Hnx & Hj & Hsj & -> & _).
    pose proof (bw_range _ _ _ Hw) as [Hlo Hhi].
    pose proof (bs_counts _ _ _ _ _ _ _ _ Hspec) as Hc.
    exists b. split; [by eapply list_elem_of_lookup_2|].
    rewrite (bs_scripts _ _ _ _ _ _ _ _ Hspec), elem_of_app.
    apply Happ in Htc as [Htc|Htc]; [left|right]; apply elem_block_script_rows; try done;
      rewrite ?length_fmap; try lia.
    + exists j, (stx_scripts tx). by rewrite list_lookup_fmap, Hj.
    + exists j, spent. done.
Qed.

Lemma txid_row_tx bs h t :
  built 0 0 bs → hash_wf h → is_u32 t →
  (∃ b, b ∈ bs ∧ hash_prefix_row_new (prefix_new h) t ∈ txid_rows b) ↔
  ∃ i j hdr d tx spent, chain_tx bs t i j hdr d tx spent ∧
    prefix_new (stx_txid tx) = prefix_new h.
Proof.
  intros Hbu Hh Ht. split.
  - intros (b & [i Hi]%list_elem_of_lookup & Hr).
    destruct (built_lookup _ _ _ Hbu Hi) as (d & sd & txs & sss & Hu & Hbb & Hw & Hspec & Hnx & _).
    pose proof (bw_range _ _ _ Hw) as [Hlo Hhi].
    pose proof (bs_counts _ _ _ _ _ _ _ _ Hspec) as Hc.
    rewrite (bs_txid_rows _ _ _ _ _ _ _ _ Hspec) in Hr.
    apply elem_block_txid_rows in Hr as (j & x & Hj & -> & Hx);
      [|done|apply Forall_fmap, (bs_txids _ _ _ _ _ _ _ _ Hspec)|done|lia|rewrite length_fmap; lia].
    rewrite list_lookup_fmap in Hj. destruct (txs !! j) as [tx|] eqn:Ej; [|done].
    injection Hj as <-. destruct (lookup_lt_is_Some_2 sss j) as [sp Hsp];
      [apply lookup_lt_Some in Ej; lia|].
    do 6 eexists. split; [by eapply chain_tx_batch|done].
  - intros (i & j & hdr & d & tx & spent & Hct & Htc).
    destruct (chain_tx_inv _ _ _ _ _ _ _ _ Hbu Hct)
      as (b & sd & txs & sss & Hi & -> & Hu & Hw & Hspec & Hnx & Hj & Hsj & -> & _).
    pose proof (bw_range _ _ _ Hw) as [Hlo Hhi].
    exists b. split; [by eapply list_elem_of_lookup_2|].
    rewrite (bs_txid_rows _ _ _ _ _ _ _ _ Hspec). apply elem_block_txid_rows;
      [done|apply Forall_fmap, (bs_txids _ _ _ _ _ _ _ _ Hspec)|done|lia|rewrite length_fmap; lia|].
    exists j, (stx_txid tx). by rewrite list_lookup_fmap, Hj.
Qed.

(** The location of a transaction. *)
Definition tx_location (n : TxNum) (i j : nat) (h : IndexedHeader) : Location :=
  {| loc_txnum := n; loc_block_height := Z.of_nat i; loc_block_offset := Z.of_nat j;
     loc_indexed_header := h |}.

(** The locations of all transactions that satisfy [P], in chain order. *)
Definition located bs (P : TxNum → slice_tx → list bytes → Prop) (locs : list Location) : Prop :=
  StronglySorted Z.lt (loc_txnum <$> locs) ∧
  ∀ loc, loc ∈ locs ↔ ∃ n i j h d tx spent,
    chain_tx bs n i j h d tx spent ∧ P n tx spent ∧ loc = tx_location n i j h.

Lemma locate_all {E} bs ts (P : TxNum → slice_tx → list bytes → Prop) :
  chain_batches bs → StronglySorted Z.lt ts →
  (∀ t, t ∈ ts ↔ ∃ i j h d tx spent, chain_tx bs t i j h d tx spent ∧ P t tx spent) →
  ∃ locs, mapM (find_by_txnum (E := E) Release (batch_header <$> bs)) ts = Ok locs ∧
    located bs P locs.
Proof.
  intros Hcb Hs Hin.
  assert (∀ l, (∀ t, t ∈ l → t ∈ ts) → ∃ locs,
    mapM (find_by_txnum (E := E) Release (batch_header <$> bs)) l = Ok locs ∧
    loc_txnum <$> locs = l) as Hgen.
  { induction l as [|t l IH]; intros Hsub; [by exists []|].
    destruct IH as (locs & Hl & Hn); [set_solver|].
    destruct (proj1 (Hin t) (Hsub t ltac:(set_solver))) as (i & j & h & d & tx & spent & Hct & _).
    pose proof (chain_tx_find (E := E) _ _ _ _ _ _ _ _ Hcb Hct) as Hf.
    eexists (_ :: locs). cbn [mapM]. rewrite Hf. osimpl. rewrite Hl. split; [done|].
    rewrite fmap_cons, Hn. done. }
  destruct (Hgen ts) as (locs & Hl & Hn); [done|]. exists locs. split; [done|].
  unfold located. rewrite Hn. split; [done|]. apply mapM_outcome_ok in Hl. intros loc. split.
  - intros [k Hk]%list_elem_of_lookup. destruct (Forall2_lookup_r _ _ _ _ _ Hl Hk) as (t & Ht & Hf).
    apply list_elem_of_lookup_2, Hin in Ht as (i & j & h & d & tx & spent & Hct & HP).
    pose proof (chain_tx_find (E := E) _ _ _ _ _ _ _ _ Hcb Hct) as Hf'.
    exists t, i, j, h, d, tx, spent. split_and!; [done..|]. rewrite Hf in Hf'. by injection Hf' as ->.
  - intros (n & i & j & h & d & tx & spent & Hct & HP & ->).
    assert (n ∈ ts) as [k Hk]%list_elem_of_lookup by (apply Hin; eauto 10).
    destruct (Forall2_lookup_l _ _ _ _ _ Hl Hk) as (loc & Hloc & Hf).
    pose proof (chain_tx_find (E := E) _ _ _ _ _ _ _ _ Hcb Hct) as Hf'.
    rewrite Hf in Hf'. injection Hf' as ->. by eapply list_elem_of_lookup_2.
Qed.

Lemma chain_tx_u32 bs n i j h d tx spent :
  built 0 0 bs → chain_tx bs n i j h d tx spent → is_u32 n.
Proof.
  intros Hbu Hct. destruct (chain_tx_inv _ _ _ _ _ _ _ _ Hbu Hct)
    as (b & sd & txs & sss & Hi & -> & Hu & Hw & Hspec & Hnx & Hj & Hsj & -> & _).
  pose proof (bw_range _ _ _ Hw). apply lookup_lt_Some in Hj. bx_arith.
Qed.

Lemma locations_by_scripthash_spec {E} c bs h latest :
  chain_inv c bs → hash_wf h → is_u32 (from_option ih_next_txnum txnum_default latest) →
  ∃ locs, locations_by_scripthash (E := E) Release c h latest = Ok locs ∧
    located bs (λ n tx spent, from_option ih_next_txnum txnum_default latest ≤ n ∧
                              touches h (stx_scripts tx ++ spent)) locs.
Proof.
  intros [Hcb Hh Hs] Hw Hu. pose proof Hcb as [Hbu _]. unfold locations_by_scripthash.
  destruct (scan_by_script_hash_spec (E := E) bs (store c) h _ Hs (built_wf0 _ Hbu) Hw Hu)
    as (ts & -> & Hsort & Hin). osimpl. rewrite Hh. apply locate_all; [done..|].
  intros t. rewrite Hin. split.
  - intros ([Ht ?] & (i & j & hdr & d & tx & spent & ? & ?)%script_row_tx); [|done..]. eauto 12.
  - intros (i & j & hdr & d & tx & spent & Hct & Hle & Htc).
    pose proof (chain_tx_u32 _ _ _ _ _ _ _ _ Hbu Hct) as Ht. split; [done|].
    apply script_row_tx; eauto 10.
Qed.

Lemma locations_by_txid_spec {E} c bs h :
  chain_inv c bs → hash_wf h →
  ∃ locs, locations_by_txid (E := E) Release c h = Ok locs ∧
    located bs (λ n tx spent, prefix_new (stx_txid tx) = prefix_new h) locs.
Proof.
  intros [Hcb Hh Hs] Hw. pose proof Hcb as [Hbu _]. unfold locations_by_txid.
  destruct (scan_by_txid_spec (E := E) bs (store c) h Hs (built_wf0 _ Hbu) Hw)
    as (ts & -> & Hsort & Hin). osimpl. rewrite Hh. apply locate_all; [done..|].
  intros t. rewrite Hin. split.
  - intros ([Ht ?] & (i & j & hdr & d & tx & spent & ? & ?)%txid_row_tx); [|done..]. eauto 12.
  - intros (i & j & hdr & d & tx & spent & Hct & Htc).
    pose proof (chain_tx_u32 _ _ _ _ _ _ _ _ Hbu Hct) as Ht. split; [bx_arith|].
    apply txid_row_tx; eauto 10.
Qed.

(** *** Transaction bytes *)

Lemma positions_of_lookup t off txs j tx :
  txs !! j = Some tx →
  (t + Z.of_nat j, {| offset := off + txs_size (take j txs);
                      size := Z.of_nat (length (stx_raw tx)) |}) ∈ positions_of t off txs.
Proof.
  revert t off j. induction txs as [|x txs IH]; intros t off j; [done|].
  cbn [positions_of]. destruct j as [|j]; cbn [lookup list_lookup take].
  - intros [= ->]. apply elem_of_cons. left. unfold txs_size. cbn [fmap list_fmap concat length].
    by rewrite !Z.add_0_r.
  - intros Hj. apply elem_of_cons. right.
    specialize (IH (t + 1) (off + Z.of_nat (length (stx_raw x))) j Hj).
    replace (t + Z.of_nat (Datatypes.S j)) with (t + 1 + Z.of_nat j) by lia.
    replace (off + txs_size (x :: take j txs))
      with (off + Z.of_nat (length (stx_raw x)) + txs_size (take j txs)); [done|].
    unfold txs_size. cbn [fmap list_fmap concat]. rewrite length_app. lia.
Qed.

(** The bytes at a transaction's position are the transaction. *)
Lemma layout_slice d txs j tx :
  block_layout d [] txs → txs !! j = Some tx →
  take (length (stx_raw tx)) (drop (Z.to_nat (first_offset txs + txs_size (take j txs))) d)
  = stx_raw tx.
Proof.
  intros (hdr & Hl & ->) Hj. rewrite app_nil_r.
  assert (concat (stx_raw <$> txs) = concat (stx_raw <$> take j txs) ++ stx_raw tx ++
            concat (stx_raw <$> drop (Datatypes.S j) txs)) as ->.
  { rewrite <-(take_drop_middle _ _ _ Hj) at 1. rewrite fmap_app, concat_app. done. }
  rewrite app_assoc, (app_assoc _ (concat _)), drop_app_length'.
  { by rewrite take_app_length. }
  rewrite !length_app. unfold first_offset, txs_size. lia.
Qed.

Definition tx_offset_in (txs : list slice_tx) (j : nat) : Z :=
  first_offset txs + txs_size (take j txs).

Lemma get_tx_block_pos_chain {E} c bs n i j h d tx spent txs :
  chain_inv c bs → chain_tx bs n i j h d tx spent → block_visit d = (block_events txs, inr []) →
  get_tx_block_pos (E := E) (store c) n =
    Ok {| offset := tx_offset_in txs j; size := Z.of_nat (length (stx_raw tx)) |} ∧
  take (length (stx_raw tx)) (drop (Z.to_nat (tx_offset_in txs j)) d) = stx_raw tx.
Proof.
  intros [[Hbu _] _ Hs] Hct Hv.
  destruct (chain_tx_inv _ _ _ _ _ _ _ _ Hbu Hct)
    as (b & sd & txs' & sss & Hi & -> & Hu & Hw & Hspec & Hnx & Hj & Hsj & -> & Hsplit & Hlo).
  pose proof (bs_visit _ _ _ _ _ _ _ _ Hspec) as Hv'. cbn [block_data] in Hv'.
  assert (txs' = txs) as -> by (apply block_events_txs_inj; congruence).
  pose proof (bs_layout _ _ _ _ _ _ _ _ Hspec) as Hlay. cbn [block_data] in Hlay.
  split; [|by apply layout_slice].
  pose proof (built_wf0 _ Hbu) as Hwf. rewrite Hsplit in Hs, Hwf.
  eapply get_tx_block_pos_ok; [done|done| |].
  - rewrite <-Hlo. apply lookup_lt_Some in Hj. lia.
  - apply (bs_txpos _ _ _ _ _ _ _ _ Hspec). by apply positions_of_lookup.
Qed.

Lemma get_tx_bytes_spec c bs n i j h d tx spent w data w' :
  chain_inv c bs → chain_tx bs n i j h d tx spent →
  get_tx_bytes c (tx_location n i j h) w = (Ok data, w') → data = stx_raw tx.
Proof.
  intros Hi Hct Hg. pose proof Hct as [_ Hd _ (txs & Hv & _) _].
  destruct (get_tx_block_pos_chain (E := chain_error slices_error) _ _ _ _ _ _ _ _ _ _ Hi Hct Hv)
    as [Hpos Hsl].
  unfold get_tx_bytes in Hg. apply st_bind_ok in Hg as (p & w1 & [Hp ->]%st_lift_ok & Hg).
  cbn [tx_location loc_txnum loc_indexed_header] in *. rewrite Hpos in Hp. injection Hp as <-.
  apply st_map_err_ok in Hg. unfold get_block_part in Hg. apply get_bytes_served in Hg as [Hg _].
  cbn [offset size] in Hg. rewrite (served_part _ _ _ _ _ Hd Hg), Nat2Z.id. done.
Qed.

(** *** Raw headers *)

Lemma raw_headers_from_ok bs c i n :
  chain_inv c bs → (i + n ≤ length bs)%nat →
  raw_headers_from c (Z.of_nat i) n = Ok (raw_header <$> take n (drop i bs)).
Proof.
  intros [[Hbu _] Hh Hs]. revert i. induction n as [|n IH]; intros i Hle; [done|].
  destruct (lookup_lt_is_Some_2 bs i) as [b Hb]; [lia|].
  cbn [raw_headers_from]. rewrite Hh, header_at_height_nat, list_lookup_fmap, Hb.
  cbn [fmap option_fmap option_map]. osimpl. unfold get_header_value.
  assert (rocks_get (db (store c)) HEADERS_CF (header_key Bitcoin (batch_header b)) =
          Some (ih_hash (batch_header b) ++ raw_header b)) as ->.
  { apply Hs; [unfold index_cf; tauto|]. exists b. split; [by eapply list_elem_of_lookup_2|constructor]. }
  osimpl. unfold raw_from_value, slice_at.
  destruct (built_lookup _ _ _ Hbu Hb) as (d & sd & txs & sss & Hu & Hbb & Hw & _).
  pose proof (bw_header _ _ _ Hw) as (_ & _ & [_ Hl] & _).
  rewrite (proj2 (slice_get_Some _ HASH_LEN _ (raw_header b))).
  2:{ rewrite length_app, Hl. split; [lia|]. rewrite drop_app_length' by done.
      by rewrite take_ge by lia. }
  osimpl. replace (Z.of_nat i + 1) with (Z.of_nat (Datatypes.S i)) by lia.
  rewrite IH by lia. by rewrite (drop_S _ _ _ Hb).
Qed.

Lemma block_headers_raw_ok c bs i count :
  chain_inv c bs → 0 ≤ count →
  block_headers_raw c (Z.of_nat i) count = Ok (raw_header <$> take (Z.to_nat count) (drop i bs)).
Proof.
  intros Hi Hc. unfold block_headers_raw. pose proof (ci_headers _ _ Hi) as Hh.
  rewrite Hh, header_at_height_nat, list_lookup_fmap.
  destruct (bs !! i) as [b|] eqn:Eb; cbn [fmap option_fmap option_map].
  2:{ apply lookup_ge_None in Eb. by rewrite drop_ge, take_nil. }
  apply lookup_lt_Some in Eb. unfold tip_height. rewrite length_fmap, checked_sub_ok by lia.
  cbn [from_option]. rewrite raw_headers_from_ok with (bs := bs) by (done || lia).
  do 2 f_equal. destruct (decide (count ≤ Z.of_nat (length bs) - Z.of_nat i)).
  - by rewrite Z.min_l by lia.
  - rewrite Z.min_r by lia. by rewrite !take_ge by (rewrite length_drop; lia).
Qed.

(** *** Transaction ids of a block *)

(** The two parsers of a transaction agree on its id. *)
Definition txids_agree : Prop :=
  ∀ d txs tx, block_visit d = (block_events txs, inr []) → tx ∈ txs →
    txid (stx_raw tx) = Ok (stx_txid tx).

Lemma txids_from_spec bs c i h d txs sd sss n j w ids w' :
  txids_agree → chain_inv c bs → (batch_header <$> bs) !! i = Some h →
  served (rest_block (ih_hash h)) d → block_visit d = (block_events txs, inr []) →
  served (rest_spenttxouts (ih_hash h)) sd → spent_stream sd sss → length sss = length txs →
  (j + n = length txs)%nat →
  txids_from Release c n (first_txnum (batch_header <$> bs) i + Z.of_nat j) w = (Ok ids, w') →
  ids = stx_txid <$> drop j txs.
Proof.
  intros Hag Hi Hh Hd Hv Hsd Hss Hlen. revert j w ids w'.
  induction n as [|n IH]; intros j w ids w' Hjn; cbn [txids_from].
  { intros [-> _]%st_ret_ok. by rewrite drop_ge by lia. }
  intros (loc & w1 & [Hloc ->]%st_lift_ok & Hr)%st_bind_ok.
  apply st_bind_ok in Hr as (raw & w2 & Hraw & Hr).
  apply st_bind_ok in Hr as (id & w3 & [Hid ->]%st_lift_ok & Hr).
  apply st_bind_ok in Hr as (next & w3 & [Hnext ->]%st_lift_ok & Hr).
  apply st_bind_ok in Hr as (rest & w4 & Hrest & Hr). apply st_ret_ok in Hr as [-> _].
  destruct (lookup_lt_is_Some_2 txs j) as [tx Htx]; [lia|].
  destruct (lookup_lt_is_Some_2 sss j) as [sp Hsp]; [lia|].
  assert (chain_tx bs (first_txnum (batch_header <$> bs) i + Z.of_nat j) i j h d tx sp) as Hct.
  { split; [done..|by exists txs|by exists sd, sss]. }
  rewrite (ci_headers _ _ Hi), (chain_tx_find _ _ _ _ _ _ _ _ (ci_batches _ _ Hi) Hct) in Hloc.
  injection Hloc as <-. apply (get_tx_bytes_spec _ _ _ _ _ _ _ _ _ _ _ _ Hi Hct) in Hraw as ->.
  apply map_err_ok in Hid.
  rewrite (Hag d txs tx Hv) in Hid by (by eapply list_elem_of_lookup_2). injection Hid as <-.
  apply increment_by_ok in Hnext as [-> _].
  replace (first_txnum (batch_header <$> bs) i + Z.of_nat j + 1)
    with (first_txnum (batch_header <$> bs) i + Z.of_nat (Datatypes.S j)) in Hrest by lia.
  rewrite (IH (Datatypes.S j) w2 rest _ ltac:(lia) Hrest). by rewrite (drop_S _ _ _ Htx).
Qed.

Lemma block_txids_spec bs c i h d txs w r w' :
  txids_agree → chain_inv c bs → (batch_header <$> bs) !! i = Some h →
  served (rest_block (ih_hash h)) d → block_visit d = (block_events txs, inr []) →
  block_txids_at_height Release c (Z.of_nat i) w = (Ok r, w') → r = Some (stx_txid <$> txs).
Proof.
  intros Hag Hi Hh Hd Hv. pose proof (ci_batches _ _ Hi) as [Hbu _].
  unfold block_txids_at_height. rewrite (ci_headers _ _ Hi).
  pose proof Hh as Hb. rewrite list_lookup_fmap in Hb.
  destruct (bs !! i) as [b|] eqn:Eb; [|done]. injection Hb as <-.
  destruct (built_lookup _ _ _ Hbu Eb) as (d' & sd & txs' & sss & Hu & Hbb & Hw & Hspec & Hnx & _).
  pose proof Hbb as [Hd' Hsd _ _]. assert (d' = d) as -> by by eapply served_block_unique.
  pose proof (bs_visit _ _ _ _ _ _ _ _ Hspec) as Hv'. cbn [block_data] in Hv'.
  assert (txs' = txs) as -> by (apply block_events_txs_inj; congruence).
  rewrite header_at_height_nat, Hh.
  set (t0 := match header_at_height _ _ with Some _ => _ | None => _ end).
  assert (t0 = first_txnum (batch_header <$> bs) i) as ->.
  { unfold t0. destruct i as [|i].
    - change (Z.max 0 (Z.of_nat 0 - 1)) with (Z.of_nat 0). by rewrite header_at_height_nat, Hh.
    - replace (Z.max 0 (Z.of_nat (Datatypes.S i) - 1)) with (Z.of_nat i) by lia.
      rewrite header_at_height_nat. cbn [first_txnum].
      destruct ((batch_header <$> bs) !! i); [|done].
      by rewrite (proj2 (Z.ltb_lt _ _)) by lia. }
  intros (cnt & w1 & [Hcnt ->]%st_lift_ok & Hr)%st_bind_ok.
  apply expect_ok in Hcnt. unfold offset_from in Hcnt. apply checked_sub_Some in Hcnt as [-> _].
  apply st_bind_ok in Hr as (ids & w2 & Hids & Hr). apply st_ret_ok in Hr as [-> _].
  unfold batch_next in Hnx. rewrite Hnx in Hids.
  replace (Z.to_nat _) with (length txs) in Hids by lia.
  assert (ids = stx_txid <$> drop 0 txs) as ->; [|done].
  eapply (txids_from_spec bs c i _ d txs sd sss (length txs) 0); try done.
  - apply (bs_spent _ _ _ _ _ _ _ _ Hspec).
  - apply (bs_counts _ _ _ _ _ _ _ _ Hspec).
  - by rewrite Z.add_0_r.
Qed.
End query.
