(* ===== verification/ChainSecondary.v ===== *)
(** * Opening an index and following a primary

    [from_config] loads the headers the store holds; [refresh_secondary] brings
    them up to date with the rows the primary wrote, whether or not it reorged. *)

From S2P Require Import Prelude External Index TxPos HashIndex Fmt Headers Batch Store StoreSpec.
From S2P Require Import Client Chain ChainSpec ChainSync.

Section secondary.
Context {S W : Type} `{HS : !Hashes, HSL : !HashLaws, SO : !ScriptOps, VI : !VarInt,
  VIL : !VarIntLaws, SL : !Slices, SLL : !SlicesLaws, CS : !Consensus, RD : !RocksDB S,
  RL : !RocksDBLaws S, CJ : !ConfigJson, HA : !HttpAgent W, NL : !NodeLaws W}.
Implicit Types (c : IndexedChain S) (bs : list Batch) (w : W).

(** ** A block hash determines the chain below it *)

Lemma built_block_prev lo height b d sd lo' height' b' d' sd' :
  built_block lo height b d sd → built_block lo' height' b' d' sd' → is_u32 lo → is_u32 lo' →
  ih_hash (batch_header b) = ih_hash (batch_header b') →
  ih_prev_blockhash (batch_header b) = ih_prev_blockhash (batch_header b').
Proof.
  intros Hb Hb' Hlo Hlo' Heq.
  destruct (built_block_spec _ _ _ _ _ Hb Hlo) as (txs & sss & _ & _ & Hs & _).
  destruct (built_block_spec _ _ _ _ _ Hb' Hlo') as (txs' & sss' & _ & _ & Hs' & _).
  assert (d' = d) as ->.
  { eapply served_block_unique; [apply Hb'|]. rewrite <-Heq. apply Hb. }
  pose proof (bs_prev _ _ _ _ _ _ _ _ Hs) as Hp. pose proof (bs_prev _ _ _ _ _ _ _ _ Hs') as Hp'.
  rewrite (bs_raw _ _ _ _ _ _ _ _ Hs) in Hp. rewrite (bs_raw _ _ _ _ _ _ _ _ Hs') in Hp'.
  cbn [block_header_len block_data] in *. congruence.
Qed.

(** The last block of a chain, and its link to the rest. *)
Lemma chain_snoc bs b :
  chain_batches (bs ++ [b]) →
  chain_batches bs ∧ (∃ d sd, built_block (next_from 0 bs) (Z.of_nat (length bs)) b d sd) ∧
  is_u32 (next_from 0 bs) ∧
  ih_prev_blockhash (batch_header b) = tip_hash (batch_header <$> bs).
Proof.
  intros Hcb. pose proof (chain_batches_app _ _ Hcb) as Hcb0. destruct Hcb as [Hb Hl].
  pose proof Hb as [Hb0 [Hb1 _]]%built_app. rewrite Z.add_0_l in Hb1.
  destruct (built_next _ _ _ Hb0) as [Hu _]; [done..|]. split_and!; [done..|].
  rewrite fmap_app in Hl. destruct Hcb0 as [_ Hl0].
  by apply (headers_add_linked _ (batch_header b) Hl0) in Hl as [? _].
Qed.

Lemma chain_tip_nonzero bs b : chain_batches (bs ++ [b]) → ih_hash (batch_header b) ≠ all_zeros.
Proof.
  intros (_ & (d & sd & Hb) & _)%chain_snoc. by apply (served_block_hash _ d), Hb.
Qed.

Lemma chain_prefix_unique bs bs' b b' :
  chain_batches (bs ++ [b]) → chain_batches (bs' ++ [b']) →
  ih_hash (batch_header b) = ih_hash (batch_header b') → bs = bs' ∧ b = b'.
Proof.
  revert bs' b b'. induction bs as [|x bs IH] using rev_ind; intros bs' b b' H1 H2 Heq;
    pose proof (chain_snoc _ _ H1) as (Hc1 & (d & sd & Hb1) & Hu1 & Hp1);
    pose proof (chain_snoc _ _ H2) as (Hc2 & (d' & sd' & Hb2) & Hu2 & Hp2);
    pose proof (built_block_prev _ _ _ _ _ _ _ _ _ _ Hb1 Hb2 Hu1 Hu2 Heq) as Hprev;
    rewrite Hp1, Hp2 in Hprev; unfold tip_hash in Hprev.
  - destruct bs' as [|y bs' _] using rev_ind.
    + split; [done|]. by eapply built_block_unique.
    + rewrite fmap_app, last_app in Hprev. cbn in Hprev.
      by apply chain_tip_nonzero in Hc2.
  - rewrite fmap_app, last_app in Hprev. cbn in Hprev.
    destruct bs' as [|y bs' _] using rev_ind; [by apply chain_tip_nonzero in Hc1|].
    rewrite fmap_app, last_app in Hprev. cbn in Hprev.
    destruct (IH bs' x y Hc1 Hc2 Hprev) as [-> ->]. split; [done|].
    by eapply built_block_unique.
Qed.

(** ** Reading rows back *)

Definition at_height (h : IndexedHeader) (height : Z) : IndexedHeader :=
  {| ih_height := height; ih_next_txnum := ih_next_txnum h; ih_hash := ih_hash h;
     ih_prev_blockhash := ih_prev_blockhash h |}.

(** Rows always parse, whatever height the reader expects them at. *)
Lemma headers_rows_total {E} lo bs position :
  batches_wf lo bs → 0 ≤ position →
  match bs with b :: _ => position < batch_next b | [] => True end →
  ∃ rows, headers_rows (E := E) (header_kv <$> bs) position = Ok rows ∧
    ih_hash <$> rows = (λ b, ih_hash (batch_header b)) <$> bs.
Proof.
  revert lo position. induction bs as [|b bs IH]; intros lo position.
  { intros _ _ _. by exists []. }
  intros [Hb Hr] Hpos Hlt. pose proof (bw_range _ _ _ Hb) as [? ?].
  destruct (IH _ (position + 1) Hr) as (rows & Hrows & Hh); [lia| |].
  { destruct bs as [|x bs]; [done|]. destruct Hr as [Hx _].
    pose proof (bw_range _ _ _ Hx). lia. }
  exists (at_height (batch_header b) position :: rows).
  cbn [fmap list_fmap headers_rows]. fold (header_kv <$> bs).
  destruct (bw_header _ _ _ Hb) as (_ & Ht & Hhash & Hp).
  assert (header_deserialize_row (E := E) Bitcoin (header_kv b).1 (header_kv b).2 position
          = Ok (at_height (batch_header b) position)) as Hrt.
  { apply (header_row_roundtrip_bitcoin (at_height (batch_header b) position)); [|apply Hb].
    unfold indexed_header_wf. cbn [at_height ih_height ih_next_txnum ih_hash ih_prev_blockhash].
    split_and!; [bx_arith|bx_arith|done..]. }
  destruct (header_kv b) as [k v]. cbn [fst snd] in Hrt. rewrite Hrt. osimpl.
  rewrite Hrows. osimpl. split; [done|]. cbn [at_height ih_hash]. f_equal. exact Hh.
Qed.

Lemma split_at_next lo bs n :
  batches_wf lo bs →
  ∃ pre post, bs = pre ++ post ∧ Forall (λ b, batch_next b < n) pre ∧
    Forall (λ b, n ≤ batch_next b) post.
Proof.
  revert lo. induction bs as [|b bs IH]; intros lo Hwf; [by exists [], []|].
  destruct Hwf as [Hb Hr]. destruct (decide (n ≤ batch_next b)) as [Hle|Hlt].
  - exists [], (b :: bs). split_and!; [done|done|]. constructor; [done|].
    apply Forall_forall. intros x Hx.
    destruct (batches_wf_elem _ _ _ Hr Hx) as (t & Ht & ? & _). pose proof (bw_range _ _ _ Ht). lia.
  - destruct (IH _ Hr) as (pre & post & -> & Hpre & Hpost). exists (b :: pre), post.
    split_and!; [done| |done]. constructor; [lia|done].
Qed.

Lemma header_iter_at s bs n pre post :
  indexes (rocks_get (db s)) bs → batches_wf 0 bs → is_u32 n →
  bs = pre ++ post → Forall (λ b, batch_next b < n) pre → Forall (λ b, n ≤ batch_next b) post →
  rocks_iter_from (db s) HEADERS_CF (txnum_serialize n) = header_kv <$> post.
Proof.
  intros Hi Hwf Hn -> Hpre Hpost. apply (header_iter pre post); [done..| |].
  - apply Forall_forall. intros b Hb. rewrite Forall_forall in Hpre. specialize (Hpre b Hb).
    destruct (batches_wf_elem _ _ b Hwf) as (t & Ht & _); [set_solver|].
    pose proof (bw_range _ _ _ Ht). cbn [header_kv header_serialize header_key fst].
    unfold batch_next in *. split; [apply txnum_serialize_le; bx_arith|].
    intros Heq%txnum_serialize_inj; [lia|bx_arith..].
  - apply Forall_forall. intros b Hb. rewrite Forall_forall in Hpost. specialize (Hpost b Hb).
    destruct (batches_wf_elem _ _ b Hwf) as (t & Ht & _); [set_solver|].
    pose proof (bw_range _ _ _ Ht). cbn [header_kv header_serialize header_key fst].
    unfold batch_next in *. apply txnum_serialize_le; bx_arith.
Qed.

Lemma reload_ok {E} s bs :
  indexes (rocks_get (db s)) bs → chain_batches bs →
  (rows ← headers (E := E) s; headers_new rows) = Ok (batch_header <$> bs).
Proof.
  intros Hi [Hb Hl]. rewrite headers_ok with (bs := bs); [|done|by apply built_wf0|done].
  osimpl. by apply headers_new_ok.
Qed.

(** The primary's rows are in step with [bs'] after the catch-up. *)
Lemma refresh_secondary_spec c bs bs' s w :
  chain_batches bs → ic_headers c = batch_header <$> bs →
  catch_up_with_primary (store c) = Ok s → chain_batches bs' →
  indexes (rocks_get (db s)) bs' →
  refresh_secondary (c, w) =
    (Ok tt, (with_headers (with_store c s) (batch_header <$> bs'), w)).
Proof.
  intros Hcb Hh Hc Hcb' Hi. unfold refresh_secondary, on_store.
  unfold get_chain, put_chain, st_fst, st_snd, st_get, st_put, st_lift, mbind, stM_bind.
  rewrite Hc. cbn [map_err ic_headers with_store store]. rewrite Hh.
  pose proof (reload_ok (E := chain_error slices_error) s bs' Hi Hcb') as Hre.
  apply bind_ok in Hre as (rows0 & Hr0 & Hn0).
  unfold headers_tip. destruct bs as [|b bs _] using rev_ind.
  { cbn [fmap list_fmap last]. rewrite Hr0, Hn0. done. }
  rewrite fmap_app, last_app. cbn [fmap list_fmap last].
  pose proof (chain_snoc _ _ Hcb) as (Hcb0 & (d & sd & Hbb) & Hu & _).
  destruct (built_next _ _ _ (proj1 Hcb0)) as [_ Hlen]; [done..|].
  destruct (built_block_wf _ _ _ _ _ Hbb Hu) as (Hw & Hht & Hle); [lia|].
  pose proof (bw_range _ _ _ Hw) as [? ?].
  destruct Hcb' as [Hbu' Hl'] eqn:Ecb. clear Ecb. pose proof (built_wf0 _ Hbu') as Hwf'.
  destruct (split_at_next 0 bs' (batch_next b) Hwf') as (pre & post & Hsplit & Hpre & Hpost).
  assert (is_u32 (batch_next b)) as Hun by bx_arith.
  assert (∃ rows, headers_from (E := chain_error slices_error) s
      (header_key Bitcoin (batch_header b)) (ih_height (batch_header b)) = Ok rows ∧
      ih_hash <$> rows = (λ b, ih_hash (batch_header b)) <$> post) as (rows & Hrows & Hhash).
  { unfold headers_from. cbn [header_key]. fold (batch_next b).
    rewrite (header_iter_at _ _ _ _ _ Hi Hwf' Hun Hsplit Hpre Hpost).
    pose proof Hwf' as Hwfp. rewrite Hsplit in Hwfp. apply batches_wf_app in Hwfp as [_ Hwfp].
    apply (headers_rows_total (next_from 0 pre)); [done|lia|].
    destruct post as [|x post]; [done|]. apply Forall_cons in Hpost as [Hx _]. lia. }
  rewrite Hrows. destruct (bool_decide _ && _) eqn:Eext; [|by rewrite Hr0, Hn0].
  apply andb_true_iff in Eext as [Ehd%bool_decide_eq_true _].
  destruct post as [|x post].
  { destruct rows; [|done]. done. }
  assert (ih_hash (batch_header x) = ih_hash (batch_header b)) as Hx.
  { destruct rows as [|r rows]; [done|]. injection Hhash as Hr _. injection Ehd as Hr'. congruence. }
  assert (chain_batches (pre ++ [x])) as Hcbx.
  { apply (chain_batches_app _ post). rewrite <-app_assoc. cbn [app]. by rewrite <-Hsplit. }
  destruct (chain_prefix_unique _ _ _ _ Hcb Hcbx (eq_sym Hx)) as [-> ->].
  clear Hcbx Hx. subst bs'.
  assert (rows = batch_header <$> (x :: post)) as ->.
  { pose proof (headers_from_ok (E := chain_error slices_error) pre x post s Hi Hwf' Hl') as Hf.
    rewrite Hht in Hrows. congruence. }
  assert (headers_linked (((batch_header <$> pre) ++ [batch_header x]) ++ (batch_header <$> post)))
    as Hl2 by (rewrite <-app_assoc; by rewrite fmap_app in Hl').
  change (drop 1 (batch_header <$> x :: post)) with (batch_header <$> post).
  rewrite (add_headers_linked _ _ Hl2), <-app_assoc, fmap_app. done.
Qed.

(** A store opened by [from_config] is served with the headers it holds, and
    only if it is of the node's chain. *)
Lemma from_config_spec config w c w' bs :
  from_config config w = (Ok c, w') →
  indexes (rocks_get (db (store c))) bs → chain_batches bs →
  chain_inv c bs ∧
  match bs with b :: _ => ih_hash (batch_header b) = genesis_hash c | [] => True end.
Proof.
  unfold from_config. intros Hv Hi Hcb.
  repeat match type of Hv with
  | (_ ≫= _) _ = (Ok _, _) =>
      let H := fresh "Hstep" in apply st_bind_ok in Hv as (? & ? & H & Hv)
  end.
  apply st_ret_ok in Hv as [-> _]. cbn [store genesis_hash ic_headers] in *.
  rename select (st_lift (headers _) _ = _) into Hrows.
  rename select (st_lift (headers_new _) _ = _) into Hnew.
  rename select (st_lift (match headers_genesis _ with _ => _ end) _ = _) into Hgen.
  apply st_lift_ok in Hrows as [Hrows _], Hnew as [Hnew _], Hgen as [Hgen _].
  pose proof Hcb as [Hbu Hl].
  pose proof (headers_ok (E := chain_error slices_error) bs _ Hi (built_wf0 _ Hbu) Hl) as Hok.
  rewrite Hok in Hrows. injection Hrows as <-.
  apply headers_new_ok in Hnew as [-> _]. split; [by split|].
  destruct bs as [|b bs]; [done|]. cbn in Hgen. by case_decide.
  Unshelve. all: exact [].
Qed.
End secondary.
