(* ===== verification/LiquidIndex.v ===== *)
(** * The Liquid index

    What [bindex-lib] compiles under its [liquid] feature: the Elements format of
    [fmt.rs], [Batch::build] of [index/mod.rs] on it, and the headers that
    [chain.rs] fetches instead of storing them. The decoders of [rust-elements]
    are parameters. *)

From S2P Require Import Prelude External Index TxPos HashIndex Fmt Headers Batch Store Client Chain.

(** ** Elements transactions *)

Inductive confidential_value := ValueNull | ValueExplicit (v : Z) | ValueConfidential (commitment : bytes).
Inductive confidential_asset := AssetNull | AssetExplicit (id : hash32) | AssetConfidential (commitment : bytes).
Inductive confidential_nonce := NonceNull | NonceExplicit (nonce : bytes) | NonceConfidential (commitment : bytes).
#[export] Instance confidential_asset_eq_dec : EqDecision confidential_asset.
Proof. solve_decision. Defined.

Record elements_txout := {
  eo_asset : confidential_asset; eo_value : confidential_value; eo_nonce : confidential_nonce;
  eo_script : bytes;
}.
Record elements_issuance := {
  is_blinding_nonce : bytes; is_entropy : bytes; is_amount : confidential_value;
  is_inflation_keys : confidential_value;
}.
Record elements_txin := {
  ei_prevout : OutPoint; ei_is_pegin : bool; ei_script_sig : bytes; ei_sequence : Z;
  ei_issuance : elements_issuance; ei_script_witness : list bytes;
}.
Record elements_tx := {
  et_version : Z; et_locktime : Z; et_inputs : list elements_txin; et_outputs : list elements_txout;
}.

(** [elements::encode::deserialize] and [deserialize_partial] of headers (their
    size, their hash), transactions and [VarInt], and what the crate computes of
    a transaction. *)
Class Elements := {
  el_header_partial : bytes → option nat;
  el_header_hash : bytes → option hash32;
  el_tx_deserialize : bytes → option elements_tx;
  el_tx_deserialize_partial : bytes → option (elements_tx * nat);
  el_varint_partial : bytes → option (Z * nat);
  el_txid : elements_tx → hash32;
  el_weight : elements_tx → Z;
  el_outpoint_is_null : OutPoint → bool;
}.
(** A value decoded from the start of some bytes is decoded from the bytes it
    took alone; a header is longer than 36 bytes, ids are hashes. *)
Class ElementsLaws `{Elements} := {
  el_header_partial_ok b n :
    el_header_partial b = Some n → (36 ≤ n ≤ length b)%nat ∧ is_Some (el_header_hash (take n b));
  el_tx_partial_ok b tx n :
    el_tx_deserialize_partial b = Some (tx, n) →
    (0 < n ≤ length b)%nat ∧ el_tx_deserialize (take n b) = Some tx;
  el_varint_partial_ok b x n : el_varint_partial b = Some (x, n) → 0 ≤ x ∧ (n ≤ length b)%nat;
  el_txid_wf tx : hash_wf (el_txid tx);
}.

(** [Value::explicit]. *)
Definition explicit_value (v : confidential_value) : option Z :=
  match v with ValueExplicit v => Some v | _ => None end.

Section format.
Context `{EL : !Elements}.

Definition liquid_header_len (block : bytes) : outcome fmt_error nat :=
  ok_or FmtElements (el_header_partial block).
Definition liquid_header_hash (raw : bytes) : outcome fmt_error hash32 :=
  ok_or FmtElements (el_header_hash raw).
Definition liquid_txid (raw : bytes) : outcome fmt_error hash32 :=
  tx ← ok_or FmtElements (el_tx_deserialize raw); mret (el_txid tx).

(** Coinbase and peg-in inputs do not spend a Liquid output. *)
Definition liquid_parse_tx (raw : bytes) : outcome fmt_error ParsedTx :=
  tx ← ok_or FmtElements (el_tx_deserialize raw);
  mret {| pt_txid := el_txid tx;
          pt_inputs := ei_prevout <$> filter (λ i, ei_is_pegin i = false ∧
                                                   el_outpoint_is_null (ei_prevout i) = false) (et_inputs tx);
          pt_outputs := (λ o, {| tov_script_pubkey := eo_script o;
                                 tov_value := default 0 (explicit_value (eo_value o)) |}) <$> et_outputs tx;
          pt_weight := el_weight tx |}.

Fixpoint liquid_walk_txs (n : nat) (pos : Z) (rest : bytes) : outcome fmt_error (Z * list TxSummary) :=
  match n with
  | O => mret (pos, [])
  | S n =>
      '(tx, used) ← ok_or FmtElements (el_tx_deserialize_partial rest);
      '(end_pos, txs) ← liquid_walk_txs n (pos + Z.of_nat used) (drop used rest);
      mret (end_pos, {| ts_txid := el_txid tx; ts_offset := wrap32 pos; ts_size := wrap32 (Z.of_nat used);
                        ts_scripts := eo_script <$> et_outputs tx |} :: txs)
  end.
Definition liquid_walk_block (block : bytes) : outcome fmt_error (nat * list TxSummary) :=
  header_len ← liquid_header_len block;
  if bool_decide (header_len ≤ length block)%nat then
    '(count, used) ← ok_or FmtElements (el_varint_partial (drop header_len block));
    let pos := Z.of_nat header_len + Z.of_nat used in
    '(pos, txs) ← liquid_walk_txs (Z.to_nat count) pos (drop (header_len + used) block);
    if bool_decide (pos = Z.of_nat (length block)) then mret (header_len, txs)
    else Err (FmtMalformed "trailing bytes after last transaction")
  else Panic "slice index out of range".

Fixpoint liquid_split_headers_loop (fuel : nat) (data : bytes) : outcome fmt_error (list RawHeader) :=
  match data with
  | [] => mret []
  | _ =>
      match fuel with
      | O => Panic "out of fuel"
      | S fuel =>
          len ← liquid_header_len data;
          raw ← ok_or (FmtMalformed "truncated header") (slice_get data 0 len);
          hash ← liquid_header_hash raw;
          prev ← prev_blockhash raw;
          rest ← liquid_split_headers_loop fuel (drop len data);
          mret ({| rh_hash := hash; rh_prev_blockhash := prev; rh_raw := raw |} :: rest)
      end
  end.
Definition liquid_split_headers (data : bytes) : outcome fmt_error (list RawHeader) :=
  liquid_split_headers_loop (length data) data.

(** [BlockBytes::new]. *)
Definition liquid_block_bytes_new {E} (data : bytes) : outcome E BlockBytes :=
  match liquid_header_len data with
  | Ok len => Ok {| block_data := data; block_header_len := len |}
  | Err _ => Panic "cannot parse block header"
  | Panic p => Panic p
  end.
End format.

(** ** [Batch::build] *)

Section build.
Context `{HS : !Hashes, SO : !ScriptOps, VI : !VarInt, SL : !Slices, EL : !Elements}.
Abbreviation error := (index_error slices_error) (only parsing).

Record LiquidRows := {
  lr_scripthash : list HashPrefixRow; lr_txid : list HashPrefixRow; lr_positions : Positions;
  lr_txnum : TxNum;
}.
(** The body of the loop over the block's transactions. *)
Definition liquid_add_tx (rows : LiquidRows) (tx : TxSummary) : outcome error LiquidRows :=
  let txnum := lr_txnum rows in
  next ← increment_by txnum 1;
  mret {| lr_scripthash := foldl (λ r script, add_script Liquid r txnum script) (lr_scripthash rows) (ts_scripts tx);
          lr_txid := lr_txid rows ++ [hash_prefix_row_new (prefix_new (ts_txid tx)) txnum];
          lr_positions := lr_positions rows ++ [(txnum, {| offset := ts_offset tx; size := ts_size tx |})];
          lr_txnum := next |}.
Definition liquid_batch_build (height : Z) (txnum_range : TxNumRange) (blockhash : hash32)
    (block : BlockBytes) (spent : SpentBytes) : outcome error Batch :=
  '(_, txs) ← map_err Fmt (liquid_walk_block (block_data block));
  rows ← foldM liquid_add_tx {| lr_scripthash := []; lr_txid := []; lr_positions := [];
                                lr_txnum := range_first txnum_range |} txs;
  visitor ← add_spent_rows Liquid spent (range_first txnum_range) (lr_scripthash rows);
  _ ← assert_that "block tx count mismatch" (bool_decide (range_next txnum_range = lr_txnum rows));
  _ ← assert_that "spent tx count mismatch" (bool_decide (range_next txnum_range = sv_txnum visitor));
  txpos ← chunkify (lr_positions rows);
  header ← from_block height (range_next txnum_range) blockhash block;
  raw ← block_header block;
  mret {| scripthash_rows := sv_rows visitor; txid_rows := lr_txid rows; txpos_rows := txpos;
          batch_header := header; raw_header := raw |}.
End build.

(** ** Raw headers *)

Section headers.
Context {S W : Type} `{HA : !HttpAgent W, EL : !Elements, SL : !Slices}.
Abbreviation error := (chain_error slices_error) (only parsing).

Definition liquid_get_headers (hash : hash32) (limit : Z) : stM W client_error (list RawHeader) :=
  data ← get_bytes (rest_headers (wrap64 (limit + 1)) hash);
  st_lift (map_err ClientFmt (liquid_split_headers data)).

(** The loop over the headers fetched, from height [height] on. *)
Fixpoint checked_headers (rows : list IndexedHeader) (height : Z) (fetched : list RawHeader)
    : outcome error (list bytes) :=
  match fetched with
  | [] => mret []
  | raw :: fetched =>
      expected ← expect "height in range" (header_at_height rows height);
      if bool_decide (rh_hash raw = ih_hash expected) then
        rest ← checked_headers rows (height + 1) fetched;
        mret (rh_raw raw :: rest)
      else Err (BlockNotFound (Stale (rh_hash raw) height))
  end.
Definition liquid_block_headers_raw (self : IndexedChain S) (start count : Z) : stM W error (list bytes) :=
  match header_at_height (ic_headers self) start with
  | None => mret []
  | Some first =>
      let available := from_option (λ tip, tip + 1 - start) 0 (tip_height (ic_headers self)) in
      let count := Z.min count available in
      if bool_decide (count = 0) then mret []
      else
        fetched ← st_map_err ChainClient (liquid_get_headers (ih_hash first) (count - 1));
        st_lift (checked_headers (ic_headers self) start (take (Z.to_nat count) fetched))
  end.
End headers.

(** ** For the servers

    The adapter and the mempool index read transactions through [txid] and
    [parse_tx] alone; on Liquid those are the functions of [Fmt] on this decoder. *)

Section consensus.
Context `{CS : !Consensus, EL : !Elements}.

Definition as_bitcoin (tx : elements_tx) : bitcoin_tx := {|
  btx_txid := el_txid tx;
  btx_inputs := ei_prevout <$> filter (λ i, ei_is_pegin i = false) (et_inputs tx);
  btx_outputs := (λ o, {| btxout_script := eo_script o;
                          btxout_value := default 0 (explicit_value (eo_value o)) |}) <$> et_outputs tx;
  btx_weight := el_weight tx;
|}.
Definition liquid_consensus : Consensus := {|
  blockhash_deserialize := blockhash_deserialize;
  header_deserialize := el_header_hash;
  tx_deserialize b := as_bitcoin <$> el_tx_deserialize b;
  tx_deserialize_partial b := prod_map as_bitcoin id <$> el_tx_deserialize_partial b;
  outpoint_is_null := el_outpoint_is_null;
|}.

(** Only the name of the error differs. *)
Definition liquid_error {A} (r : outcome fmt_error A) : outcome fmt_error A := map_err (λ _, FmtElements) r.
Lemma liquid_txid_ok raw : liquid_error (txid (CS := liquid_consensus) raw) = liquid_txid raw.
Proof. unfold txid, liquid_txid. cbn. by destruct (el_tx_deserialize raw). Qed.
Lemma liquid_parse_tx_ok raw : liquid_error (parse_tx (CS := liquid_consensus) raw) = liquid_parse_tx raw.
Proof.
  unfold parse_tx, liquid_parse_tx. cbn. destruct (el_tx_deserialize raw) as [tx|]; [|done]. cbn.
  do 2 f_equal.
  - induction (et_inputs tx) as [|i l IH]; [done|]. cbn [filter list_filter].
    destruct (ei_is_pegin i), (el_outpoint_is_null (ei_prevout i)) eqn:En; cbn.
    all: repeat case_decide; try naive_solver; cbn [fmap list_fmap filter list_filter] in *.
    + by rewrite decide_False by congruence.
    + rewrite decide_True by done. by f_equal.
  - by rewrite <-list_fmap_compose.
Qed.
End consensus.

(** * Properties *)

Section walk.
Context `{EL : !Elements, ELL : !ElementsLaws}.

(** A transaction of a block: its bytes decode to its id and scripts. *)
Definition liquid_decodes (tx : slice_tx) : Prop :=
  stx_raw tx ≠ [] ∧ ∃ t, el_tx_deserialize (stx_raw tx) = Some t ∧
    el_txid t = stx_txid tx ∧ eo_script <$> et_outputs t = stx_scripts tx.
(** The summaries of transactions that lie one after the other from a byte on. *)
Fixpoint summaries (off : Z) (txs : list slice_tx) : list TxSummary :=
  match txs with
  | [] => []
  | tx :: txs =>
      let sz := Z.of_nat (length (stx_raw tx)) in
      {| ts_txid := stx_txid tx; ts_offset := wrap32 off; ts_size := wrap32 sz;
         ts_scripts := stx_scripts tx |} :: summaries (off + sz) txs
  end.

Lemma liquid_walk_txs_ok n pos rest end_pos sums :
  liquid_walk_txs n pos rest = Ok (end_pos, sums) →
  ∃ txs tail, rest = concat (stx_raw <$> txs) ++ tail ∧ length txs = n ∧ Forall liquid_decodes txs ∧
    end_pos = pos + txs_size txs ∧ sums = summaries pos txs.
Proof.
  revert pos rest end_pos sums. induction n as [|n IH]; intros pos rest end_pos sums; cbn [liquid_walk_txs].
  { intros [= <- <-]. exists [], rest. split_and!; [done..|constructor|unfold txs_size; cbn; lia|done]. }
  intros ([tx used] & Hp%ok_or_ok & H)%bind_ok. apply el_tx_partial_ok in Hp as [Hu Hd].
  apply bind_ok in H as ([e txs] & H & [= <- <-]).
  apply IH in H as (l & tail & Hrest & Hl & Hdec & -> & ->).
  set (s := {| stx_raw := take used rest; stx_txid := el_txid tx; stx_scripts := eo_script <$> et_outputs tx |}).
  assert (length (take used rest) = used) as Hlen by (rewrite length_take; lia).
  exists (s :: l), tail. split_and!.
  - cbn [fmap list_fmap concat stx_raw s]. rewrite <-app_assoc.
    change (list_fmap _ _ stx_raw l) with (stx_raw <$> l). by rewrite <-Hrest, take_drop.
  - cbn. by rewrite Hl.
  - constructor; [|done]. split; [|by exists tx]. cbn. intros Hnil. rewrite Hnil in Hlen. cbn in Hlen. lia.
  - unfold txs_size. cbn [fmap list_fmap concat stx_raw s]. rewrite length_app, Hlen. lia.
  - cbn [summaries stx_raw stx_txid stx_scripts s]. by rewrite Hlen.
Qed.

(** What a block that can be walked is: a header, a count, the transactions. *)
Lemma liquid_walk_block_ok block len sums :
  liquid_walk_block block = Ok (len, sums) →
  ∃ header count txs, block = header ++ count ++ concat (stx_raw <$> txs) ∧ length header = len ∧
    is_Some (el_header_hash header) ∧ Forall liquid_decodes txs ∧
    sums = summaries (Z.of_nat (length header + length count)) txs.
Proof.
  unfold liquid_walk_block, liquid_header_len. intros (n & Hn%ok_or_ok & H)%bind_ok.
  apply el_header_partial_ok in Hn as [Hn Hh]. rewrite bool_decide_eq_true_2 in H by lia.
  apply bind_ok in H as ([count used] & Hc%ok_or_ok & H). apply el_varint_partial_ok in Hc as [_ Hu].
  apply bind_ok in H as ([pos txs] & H & Hend).
  apply liquid_walk_txs_ok in H as (l & tail & Hrest & _ & Hdec & -> & ->).
  case_bool_decide as Hpos; [|done]. injection Hend as <- <-. rewrite length_drop in Hu.
  exists (take n block), (take used (drop n block)), l.
  assert (length (take n block) = n ∧ length (take used (drop n block)) = used) as [Hl1 Hl2].
  { rewrite !length_take, length_drop. lia. }
  assert (tail = []) as ->.
  { destruct tail as [|c tail]; [done|]. apply (f_equal length) in Hrest.
    unfold txs_size in Hpos. rewrite length_drop, length_app in Hrest. cbn in Hrest. lia. }
  rewrite app_nil_r in Hrest. rewrite Hl1, Hl2. split_and!; [|done..|].
  - by rewrite <-Hrest, <-drop_drop, !take_drop.
  - f_equal. lia.
Qed.

Lemma liquid_block_bytes_ok {E} data b :
  liquid_block_bytes_new (E := E) data = Ok b →
  block_data b = data ∧ el_header_partial data = Some (block_header_len b).
Proof. unfold liquid_block_bytes_new, liquid_header_len. destruct (el_header_partial data); [|done]. by intros [= <-]. Qed.

(** Headers split one after the other. *)
Definition liquid_raw_header_ok (h : RawHeader) : Prop :=
  (36 ≤ length (rh_raw h))%nat ∧ el_header_hash (rh_raw h) = Some (rh_hash h) ∧
  rh_prev_blockhash h = take 32 (drop 4 (rh_raw h)).

Lemma liquid_split_headers_loop_ok fuel data hs :
  liquid_split_headers_loop fuel data = Ok hs →
  data = concat (rh_raw <$> hs) ∧ Forall liquid_raw_header_ok hs.
Proof.
  revert data hs. induction fuel as [|fuel IH]; intros data hs.
  { destruct data; [by intros [= <-]|done]. }
  destruct data as [|b data]; [by intros [= <-]|].
  remember (b :: data) as d eqn:Ed. cbn [liquid_split_headers_loop]. rewrite Ed at 1.
  unfold liquid_header_len, liquid_header_hash.
  intros (len & [Hlen _]%ok_or_ok%el_header_partial_ok & Hv)%bind_ok.
  apply bind_ok in Hv as (raw & Hraw & Hv). apply ok_or_ok, slice_get_Some in Hraw as [_ ->].
  apply bind_ok in Hv as (hash & Hhash & Hv). apply ok_or_ok in Hhash.
  apply bind_ok in Hv as (prev & Hprev & Hv). apply prev_blockhash_ok in Hprev as [_ ->].
  apply bind_ok in Hv as (rest & [Hrest Hok]%IH & [= <-]). rewrite drop_0, Nat.sub_0_r in *.
  cbn [fmap list_fmap concat rh_raw]. split; [by rewrite <-Hrest, take_drop|].
  constructor; [|done]. split_and!; [|done..]. cbn [rh_raw]. rewrite length_take. lia.
Qed.

(** Splitting never runs out of fuel, since a header takes at least a byte. *)
Lemma liquid_split_headers_fuel fuel data :
  (length data ≤ fuel)%nat → liquid_split_headers_loop fuel data ≠ Panic "out of fuel".
Proof.
  revert data. induction fuel as [|fuel IH]; intros data Hf.
  { by destruct data; [|simpl in Hf; lia]. }
  destruct data as [|b data]; [done|]. remember (b :: data) as d eqn:Ed.
  cbn [liquid_split_headers_loop]. rewrite Ed at 1. unfold liquid_header_len.
  destruct (el_header_partial d) as [len|] eqn:El; [|done]. osimpl.
  apply el_header_partial_ok in El as [Hlen _].
  destruct (slice_get d 0 len); [|done]. osimpl. unfold liquid_header_hash.
  destruct (el_header_hash _); [|done]. osimpl. destruct (prev_blockhash _) as [|e|] eqn:Ep; osimpl; [|done|].
  - specialize (IH (drop len d)). rewrite length_drop in IH. specialize (IH ltac:(lia)).
    destruct (liquid_split_headers_loop fuel _); [done|done|osimpl; congruence].
  - unfold prev_blockhash in Ep. by destruct (slice_get _ 4 36).
Qed.
End walk.

Section batch.
Context `{HS : !Hashes, HSL : !HashLaws, SO : !ScriptOps, VI : !VarInt, VIL : !VarIntLaws,
  SL : !Slices, SLL : !SlicesLaws, EL : !Elements, ELL : !ElementsLaws}.

Lemma add_scripts_rows fmt t scripts rows :
  foldl (λ r script, add_script fmt r t script) rows scripts = rows ++ script_rows fmt t scripts.
Proof using Type.
  revert rows. induction scripts as [|s l IH]; intros rows; cbn [foldl].
  { cbn. by rewrite app_nil_r. }
  rewrite IH, add_script_rows, <-app_assoc. change (s :: l) with ([s] ++ l). by rewrite script_rows_app.
Qed.

Lemma liquid_add_txs_ok rows off txs rows' :
  foldM liquid_add_tx rows (summaries off txs) = Ok rows' → 0 ≤ off → off + txs_size txs < 2 ^ 32 →
  lr_scripthash rows' = lr_scripthash rows ++ block_script_rows Liquid (lr_txnum rows) (stx_scripts <$> txs) ∧
  lr_txid rows' = lr_txid rows ++ block_txid_rows (lr_txnum rows) (stx_txid <$> txs) ∧
  lr_positions rows' = lr_positions rows ++ positions_of (lr_txnum rows) off txs ∧
  lr_txnum rows' = lr_txnum rows + Z.of_nat (length txs).
Proof using Type.
  revert rows off. induction txs as [|tx txs IH]; intros rows off; cbn [summaries foldM].
  { intros [= <-] _ _. cbn. rewrite !app_nil_r. split_and!; [done..|lia]. }
  intros (r1 & H1 & H)%bind_ok Hoff Hsz. unfold liquid_add_tx in H1.
  apply bind_ok in H1 as (next & [-> _]%increment_by_ok & [= <-]).
  assert (txs_size (tx :: txs) = Z.of_nat (length (stx_raw tx)) + txs_size txs) as Hs.
  { unfold txs_size. cbn. rewrite length_app. lia. }
  assert (0 ≤ txs_size txs) by (unfold txs_size; lia). rewrite Hs in Hsz.
  apply IH in H as (H1 & H2 & H3 & H4); [|lia..].
  cbn [lr_scripthash lr_txid lr_positions lr_txnum ts_scripts ts_txid ts_offset ts_size] in *.
  rewrite add_scripts_rows in H1. rewrite !wrap32_small in H3 by (unfold is_u32; lia).
  rewrite <-app_assoc in H1, H2, H3. split_and!; [done..|]. rewrite H4. cbn [length]. lia.
Qed.

(** The batch of a Liquid block, given what its raw bytes and spent outputs hold. *)
Record liquid_spec (height first : Z) (hash : hash32) (block : BlockBytes) (spent : SpentBytes)
    (txs : list slice_tx) (sss : list (list bytes)) (b : Batch) : Prop := {
  ls_layout : ∃ header count, block_data block = header ++ count ++ concat (stx_raw <$> txs) ∧
    is_Some (el_header_hash header) ∧
    ∀ n p, (n, p) ∈ positions_of first (Z.of_nat (length header + length count)) txs →
      rows_locate (txpos_rows b) n p;
  ls_decodes : Forall liquid_decodes txs;
  ls_spent : spent_stream (spent_data spent) sss;
  ls_counts : length sss = length txs;
  ls_bound : first + Z.of_nat (length txs) < 2 ^ 32;
  ls_scripts : scripthash_rows b =
    block_script_rows Liquid first (stx_scripts <$> txs) ++ block_script_rows Liquid first sss;
  ls_txid_rows : txid_rows b = block_txid_rows first (stx_txid <$> txs);
  ls_txpos_in : rows_in (txpos_rows b) first (first + Z.of_nat (length txs));
  ls_raw : raw_header b = take (block_header_len block) (block_data block);
  ls_prev : prev_blockhash (raw_header b) = Ok (ih_prev_blockhash (batch_header b));
  ls_header : batch_header b = {|
    ih_height := height; ih_next_txnum := first + Z.of_nat (length txs); ih_hash := hash;
    ih_prev_blockhash := ih_prev_blockhash (batch_header b) |};
}.

Lemma liquid_batch_build_ok height r hash block spent b :
  liquid_batch_build height r hash block spent = Ok b → is_u32 (range_first r) →
  Z.of_nat (length (block_data block)) < 2 ^ 32 →
  ∃ txs sss, liquid_spec height (range_first r) hash block spent txs sss b ∧
    range_next r = range_first r + Z.of_nat (length txs).
Proof using ELL SLL.
  intros Hv Ht Hsize. unfold liquid_batch_build in Hv.
  apply bind_ok in Hv as ([len sums] & Hw%map_err_ok & Hv).
  apply liquid_walk_block_ok in Hw as (header & count & txs & Hblock & _ & Hh & Hdec & ->).
  set (off := Z.of_nat (length header + length count)) in *.
  assert (off + txs_size txs = Z.of_nat (length (block_data block))) as Hoff.
  { unfold off, txs_size. rewrite Hblock, !length_app. lia. }
  apply bind_ok in Hv as (rows & Hrows & Hv).
  apply liquid_add_txs_ok in Hrows as (H1 & H2 & H3 & H4); [|lia..].
  cbn [lr_scripthash lr_txid lr_positions lr_txnum app] in *.
  apply bind_ok in Hv as (v & Hsp & Hv). apply add_spent_rows_ok in Hsp as (sss & Hs & Hb & ->); [|done].
  apply bind_ok in Hv as (? & Hn1%assert_ok%bool_decide_eq_true & Hv).
  apply bind_ok in Hv as (? & Hn2%assert_ok%bool_decide_eq_true & Hv). cbn [sv_txnum sv_rows] in *.
  destruct (chunkify_tiled (E := index_error slices_error) _ _ _ _ _
              (positions_of_tiled (range_first r) off txs)) as (txpos & Htp & Hin & Hloc); [lia..|].
  rewrite H3, Htp in Hv. osimpl in Hv.
  apply bind_ok in Hv as (h & Hhd & Hv). apply bind_ok in Hv as (raw & Hraw & [= <-]).
  apply from_block_ok in Hhd as (raw' & Hraw' & Hprev & Hhd). assert (raw' = raw) as -> by congruence.
  apply block_header_ok in Hraw. exists txs, sss. split; [|congruence].
  split; cbn [scripthash_rows txid_rows txpos_rows batch_header raw_header]; try done.
  - by exists header, count.
  - lia.
  - lia.
  - by rewrite H1.
  - by rewrite Hhd, <-H4, <-Hn1 at 1.
Qed.

(** Every transaction of the block is where its row says, and its bytes decode to
    its id. *)
Lemma liquid_located height first hash block spent txs sss b i tx :
  liquid_spec height first hash block spent txs sss b → txs !! i = Some tx →
  ∃ p, rows_locate (txpos_rows b) (first + Z.of_nat i) p ∧
    liquid_txid (take (Z.to_nat (size p)) (drop (Z.to_nat (offset p)) (block_data block))) = Ok (stx_txid tx).
Proof using Type.
  intros Hs Hi. destruct (ls_layout _ _ _ _ _ _ _ _ Hs) as (header & count & Hblock & _ & Hloc).
  assert (∀ t off txs, txs !! i = Some tx → ∃ pre post, txs = pre ++ tx :: post ∧
    (t + Z.of_nat i, {| offset := off + txs_size pre; size := Z.of_nat (length (stx_raw tx)) |})
      ∈ positions_of t off txs) as Hgen.
  { clear. intros t off txs. revert t off i. induction txs as [|x txs IH]; intros t off i Hi; [done|].
    destruct i as [|i]; cbn in Hi.
    - injection Hi as ->. exists [], txs. split; [done|]. unfold txs_size. cbn.
      rewrite !Z.add_0_r. left.
    - destruct (IH (t + 1) (off + Z.of_nat (length (stx_raw x))) i Hi) as (pre & post & -> & Hin).
      exists (x :: pre), post. split; [done|]. cbn [positions_of app]. right.
      replace (t + Z.of_nat (S i)) with (t + 1 + Z.of_nat i) by lia.
      replace (off + txs_size (x :: pre)) with (off + Z.of_nat (length (stx_raw x)) + txs_size pre); [done|].
      unfold txs_size. cbn. rewrite length_app. lia. }
  destruct (Hgen first (Z.of_nat (length header + length count)) txs Hi) as (pre & post & -> & Hin).
  eexists. split; [by apply Hloc|]. cbn [size offset].
  pose proof (ls_decodes _ _ _ _ _ _ _ _ Hs) as Hdec. rewrite Forall_forall in Hdec.
  destruct (Hdec tx) as (_ & t & Ht & Hid & _); [apply elem_of_app; right; left|].
  assert (take (Z.to_nat (Z.of_nat (length (stx_raw tx)))) (drop (Z.to_nat
    (Z.of_nat (length header + length count) + txs_size pre)) (block_data block)) = stx_raw tx) as ->.
  { rewrite Hblock, fmap_app, concat_app. cbn [fmap list_fmap concat]. unfold txs_size.
    rewrite Nat2Z.id, <-Nat2Z.inj_add, Nat2Z.id, 2!app_assoc.
    rewrite drop_app_length' by (rewrite !length_app; lia). by rewrite take_app_length. }
  unfold liquid_txid. rewrite Ht. osimpl. by rewrite Hid.
Qed.
End batch.

(** ** Raw headers *)

Section headers.
Context {S W : Type} `{HA : !HttpAgent W, EL : !Elements, ELL : !ElementsLaws, SL : !Slices}.

Lemma checked_headers_ok rows height fetched raws :
  checked_headers rows height fetched = Ok raws →
  raws = rh_raw <$> fetched ∧
  ∀ i raw, fetched !! i = Some raw →
    ∃ h, header_at_height rows (height + Z.of_nat i) = Some h ∧ rh_hash raw = ih_hash h.
Proof using Type.
  revert height raws. induction fetched as [|x fetched IH]; intros height raws; cbn [checked_headers].
  { intros [= <-]. split; [done|]. by intros i raw Hi. }
  intros (h & Hh%expect_ok & H)%bind_ok. case_bool_decide as Heq; [|done].
  apply bind_ok in H as (rest & [-> Hrest]%IH & [= <-]). split; [done|].
  intros [|i] raw Hi; cbn in Hi.
  - injection Hi as ->. rewrite Z.add_0_r. by exists h.
  - destruct (Hrest _ _ Hi) as (h' & Hh' & Hr). exists h'. split; [|done].
    rewrite <-Hh'. f_equal. lia.
Qed.

(** What is fetched is what was indexed: at most the headers asked for, each
    with the hash of the header of its height. *)
Lemma liquid_block_headers_raw_ok (self : IndexedChain S) start count (w : W) raws w' :
  0 ≤ start → 0 ≤ count →
  liquid_block_headers_raw self start count w = (Ok raws, w') →
  Z.of_nat (length raws) ≤ count ∧
  ∀ i raw, raws !! i = Some raw →
    ∃ h, header_at_height (ic_headers self) (start + Z.of_nat i) = Some h ∧
      el_header_hash raw = Some (ih_hash h).
Proof using ELL.
  intros Hs Hcount. unfold liquid_block_headers_raw.
  destruct (header_at_height _ start) as [first|] eqn:Ef; [|intros [-> _]%st_ret_ok; done].
  set (n := Z.min count _). case_bool_decide as Hn; [intros [-> _]%st_ret_ok; done|].
  intros (hs & w1 & Hf%st_map_err_ok & [H _]%st_lift_ok)%st_bind_ok.
  apply checked_headers_ok in H as [-> Hall].
  unfold liquid_get_headers in Hf. apply st_bind_ok in Hf as (data & w2 & _ & [Hsp%map_err_ok _]%st_lift_ok).
  apply liquid_split_headers_loop_ok in Hsp as [_ Hok]. split.
  - rewrite length_fmap, length_take. lia.
  - intros i raw Hi. apply list_lookup_fmap_Some in Hi as (x & -> & Hx).
    destruct (Hall _ _ Hx) as (h & Hh & Hhash). exists h. split; [done|].
    apply lookup_take_Some in Hx as [Hx _]. eapply Forall_lookup_1 in Hok as (_ & -> & _); [|done].
    by rewrite Hhash.
Qed.
End headers.
