(* ===== verification/Cache.v ===== *)
(** * The address cache

    [bindex-lib/src/cache/mod.rs] and its [schema.sql]: histories of watched
    addresses in SQLite. The tables are maps from their primary keys; an SQL
    statement is the update or the selection it stands for, with the
    constraints of the schema (uniqueness, foreign keys, cascading deletes)
    checked as SQLite does. Disk errors of SQLite are not modelled. *)

From S2P Require Import Prelude External Index TxPos HashIndex Fmt Headers Batch Store Client Chain.

(** ** The tables *)

(** The primary key of [history]. *)
Record HistoryKey := {
  hk_script_hash : hash32; hk_block_height : Z; hk_block_offset : Z; hk_is_output : bool; hk_index : Z;
}.
#[export] Instance HistoryKey_eq_dec : EqDecision HistoryKey.
Proof. solve_decision. Defined.
#[export] Instance HistoryKey_countable : Countable HistoryKey.
Proof.
  refine (inj_countable'
    (λ k, (hk_script_hash k, hk_block_height k, hk_block_offset k, hk_is_output k, hk_index k))
    (λ '(s, h, o, b, i), Build_HistoryKey s h o b i) _).
  by intros [].
Defined.

Record Tables := {
  tb_headers : gmap Z (hash32 * bytes);               (* height: hash, header *)
  tb_transactions : gmap (Z * Z) (hash32 * bytes);    (* height and offset: id, bytes *)
  tb_history : gmap HistoryKey Z;                     (* amount *)
  tb_watch : gmap hash32 (bytes * bytes);               (* script hash: script, address *)
}.
Definition tables_empty : Tables :=
  {| tb_headers := ∅; tb_transactions := ∅; tb_history := ∅; tb_watch := ∅ |}.

Definition with_tb_headers (m : gmap Z (hash32 * bytes)) (t : Tables) : Tables :=
  {| tb_headers := m; tb_transactions := tb_transactions t; tb_history := tb_history t;
     tb_watch := tb_watch t |}.
Definition with_tb_transactions (m : gmap (Z * Z) (hash32 * bytes)) (t : Tables) : Tables :=
  {| tb_headers := tb_headers t; tb_transactions := m; tb_history := tb_history t;
     tb_watch := tb_watch t |}.
Definition with_tb_history (m : gmap HistoryKey Z) (t : Tables) : Tables :=
  {| tb_headers := tb_headers t; tb_transactions := tb_transactions t; tb_history := m;
     tb_watch := tb_watch t |}.
Definition with_tb_watch (m : gmap hash32 (bytes * bytes)) (t : Tables) : Tables :=
  {| tb_headers := tb_headers t; tb_transactions := tb_transactions t; tb_history := tb_history t;
     tb_watch := m |}.

Inductive cache_error `{Slices} :=
| CacheSqlite
| CacheIndex (e : chain_error slices_error).
Arguments CacheSqlite {_}.
Arguments CacheIndex {_} e.

(** [bsl::Transaction::parse], then [txid]: the slice's prefix is a transaction. *)
Class SliceTransactions := { slice_txid : bytes → option hash32 }.
(** Both parsers compute the id of a transaction. *)
Class SliceTransactionsLaws `{SliceTransactions, Consensus} := {
  slice_txid_agrees raw tx : tx_deserialize raw = Some tx → slice_txid raw = Some (btx_txid tx);
}.
(** [bitcoin::Address]: its script and its text. *)
Record Address := { addr_script_pubkey : bytes; addr_text : bytes }.

(** *** Statements *)

Section statements.
Context `{SL : !Slices}.
Abbreviation result := (outcome cache_error).

(** SQLite's integers are signed: [usize] and [u64] may not fit. *)
Definition to_sql (z : Z) : result Z := if z <? 2 ^ 63 then Ok z else Err CacheSqlite.

(** [INSERT OR IGNORE INTO headers]: a row that breaks uniqueness is ignored. *)
Definition insert_header (height : Z) (hash : hash32) (raw : bytes) (t : Tables) : result (Z * Tables) :=
  height ← to_sql height;
  if bool_decide (is_Some (tb_headers t !! height)) ||
     bool_decide (map_Exists (λ _ row, row.1 = hash) (tb_headers t))
  then Ok (0, t)
  else Ok (1, with_tb_headers (<[height := (hash, raw)]> (tb_headers t)) t).

(** [INSERT OR IGNORE INTO transactions]: [OR IGNORE] does not apply to the
    foreign key. *)
Definition insert_transaction (height offset : Z) (id : hash32) (raw : bytes) (t : Tables)
    : result (Z * Tables) :=
  height ← to_sql height;
  if bool_decide (is_Some (tb_transactions t !! (height, offset))) ||
     bool_decide (map_Exists (λ _ row, row.1 = id) (tb_transactions t))
  then Ok (0, t)
  else if bool_decide (is_Some (tb_headers t !! height))
  then Ok (1, with_tb_transactions (<[(height, offset) := (id, raw)]> (tb_transactions t)) t)
  else Err CacheSqlite.

(** [INSERT INTO history]. *)
Definition insert_history (key : HistoryKey) (amount : Z) (t : Tables) : result (Z * Tables) :=
  _ ← to_sql (hk_block_height key);
  _ ← to_sql (hk_index key);
  amount ← to_sql amount;
  if bool_decide (is_Some (tb_history t !! key)) then Err CacheSqlite
  else if bool_decide (is_Some (tb_watch t !! hk_script_hash key)) &&
          bool_decide (is_Some (tb_transactions t !! (hk_block_height key, hk_block_offset key)))
  then Ok (1, with_tb_history (<[key := amount]> (tb_history t)) t)
  else Err CacheSqlite.

(** [INSERT OR IGNORE INTO watch]. *)
Definition insert_watch (script_hash : hash32) (script : bytes) (address : bytes) (t : Tables)
    : result (Z * Tables) :=
  if bool_decide (is_Some (tb_watch t !! script_hash)) then Ok (0, t)
  else Ok (1, with_tb_watch (<[script_hash := (script, address)]> (tb_watch t)) t).

(** [DELETE FROM headers WHERE block_height >= ?1], with [ON DELETE CASCADE]. *)
Definition delete_headers_from (height : Z) (t : Tables) : Tables :=
  {| tb_headers := filter (λ p, p.1 < height) (tb_headers t);
     tb_transactions := filter (λ p, p.1.1 < height) (tb_transactions t);
     tb_history := filter (λ p, hk_block_height p.1 < height) (tb_history t);
     tb_watch := tb_watch t |}.

(** [SELECT block_height, block_offset FROM transactions WHERE tx_id = ?1]; the
    id is unique. *)
Definition place_of_txid (t : Tables) (id : hash32) : option (Z * Z) :=
  fst <$> head (filter (λ row, row.2.1 = id) (map_to_list (tb_transactions t))).

(** [max(block_height)] of a script's rows. *)
Definition heights_of (t : Tables) (script_hash : hash32) : list Z :=
  hk_block_height <$> filter (λ k, hk_script_hash k = script_hash) (fst <$> map_to_list (tb_history t)).
Definition max_height (t : Tables) (script_hash : hash32) : option Z :=
  foldr (λ h m, Some (from_option (Z.max h) h m)) None (heights_of t script_hash).

(** The cached headers, [ORDER BY block_height DESC]. *)
Definition headers_desc (t : Tables) : list (Z * hash32) :=
  sort_by Z.ge fst ((λ p, (p.1, p.2.1)) <$> map_to_list (tb_headers t)).
(** The watched scripts; SQL leaves the order open, here by hash. *)
Definition watched (t : Tables) : list hash32 := merge_sort bytes_le (elements (dom (tb_watch t))).
End statements.

(** [BTreeSet]: an element whose key is there is not inserted again. *)
Fixpoint bset_insert {A} (key : A → Z) (x : A) (l : list A) : list A :=
  match l with
  | [] => [x]
  | y :: l =>
      if key x <? key y then x :: y :: l
      else if key x =? key y then y :: l else y :: bset_insert key x l
  end.
Definition bset_of {A} (key : A → Z) (l : list A) : list A := foldl (λ s x, bset_insert key x s) [] l.

(** ** The cache *)

(** The connection: the tables, those to roll back to while a transaction is
    open, and the node the index reads from. *)
Record Cache (W : Type) := { ca_tables : Tables; ca_open : option Tables; ca_node : W }.
Arguments Build_Cache {W} _ _ _.
Arguments ca_tables {W} _.
Arguments ca_open {W} _.
Arguments ca_node {W} _.

Section cache.
Context {S W : Type} `{HS : !Hashes, VI : !VarInt, SL : !Slices, SO : !ScriptOps, CS : !Consensus,
  RD : !RocksDB S, HA : !HttpAgent W, ST : !SliceTransactions}.
Abbreviation M := (stM (Cache W) cache_error).

Definition on_tables {A} (f : Tables → outcome cache_error (A * Tables)) : M A := λ c,
  match f (ca_tables c) with
  | Ok (a, t) => (Ok a, {| ca_tables := t; ca_open := ca_open c; ca_node := ca_node c |})
  | Err e => (Err e, c)
  | Panic m => (Panic m, c)
  end.
Definition select {A} (f : Tables → A) : M A := on_tables (λ t, Ok (f t, t)).
Definition on_index {A} (m : stM W (chain_error slices_error) A) : M A := λ c,
  let '(r, n) := m (ca_node c) in
  (map_err CacheIndex r, {| ca_tables := ca_tables c; ca_open := ca_open c; ca_node := n |}).

(** [BEGIN], [COMMIT] and [ROLLBACK]. *)
Definition begin_transaction : M () := λ c,
  match ca_open c with
  | Some _ => (Err CacheSqlite, c)
  | None => (Ok tt, {| ca_tables := ca_tables c; ca_open := Some (ca_tables c); ca_node := ca_node c |})
  end.
Definition commit : M () := λ c,
  match ca_open c with
  | Some _ => (Ok tt, {| ca_tables := ca_tables c; ca_open := None; ca_node := ca_node c |})
  | None => (Err CacheSqlite, c)
  end.
Definition rollback : M () := λ c,
  match ca_open c with
  | Some t => (Ok tt, {| ca_tables := t; ca_open := None; ca_node := ca_node c |})
  | None => (Err CacheSqlite, c)
  end.
Definition run {A} (f : M A) : M A :=
  _ ← begin_transaction;
  r ← st_try f;
  match r with
  | inr v => _ ← commit; mret v
  | inl e => _ ← rollback; st_lift (Err e)
  end.

(** [open]: the tables of the database, or new ones. *)
Definition cache_open (t : option Tables) (n : W) : outcome cache_error () * Cache W :=
  run (mret tt) {| ca_tables := default tables_empty t; ca_open := None; ca_node := n |}.

(** *** Dropping stale blocks *)

(** The loop, from the tip: the last stale height before a block of the chain. *)
Fixpoint stale_from (rows : Headers) (cached : list (Z * hash32)) (delete_from : option Z) : option Z :=
  match cached with
  | [] => delete_from
  | (height, hash) :: cached =>
      match get_header rows hash height with
      | inl _ => delete_from
      | inr _ => stale_from rows cached (Some height)
      end
  end.
Definition drop_stale (rows : Headers) (t : Tables) : Tables :=
  match stale_from rows (headers_desc t) None with
  | Some height => delete_headers_from height t
  | None => t
  end.
Definition drop_stale_blocks (chain : IndexedChain S) : M () :=
  on_tables (λ t, Ok (tt, drop_stale (ic_headers chain) t)).

(** *** New locations *)

(** The header of a script's latest cached block; its hash is [NULL] when the
    block is not cached. *)
Definition latest_header (rows : Headers) (t : Tables) (script_hash : hash32)
    : outcome cache_error (option IndexedHeader) :=
  match max_height t script_hash with
  | None => Ok None
  | Some height =>
      row ← ok_or CacheSqlite (tb_headers t !! height);
      match get_header rows row.1 height with
      | inl header => Ok (Some header)
      | inr _ => Panic "unexpected stale block"
      end
  end.
Definition new_locations (chain : IndexedChain S) (t : Tables) (script_hash : hash32)
    : outcome cache_error (hash32 * list Location) :=
  latest ← latest_header (ic_headers chain) t script_hash;
  locations ← map_err CacheIndex (locations_by_scripthash Release chain script_hash latest);
  mret (script_hash, bset_of loc_txnum locations).
Definition sync_history (chain : IndexedChain S) : M (list (hash32 * list Location)) :=
  _ ← drop_stale_blocks chain;
  on_tables (λ t, history ← mapM (new_locations chain t) (watched t); mret (history, t)).

(** *** Adding rows *)

Definition add_header (chain : IndexedChain S) (rows : Z) (entry : Z * IndexedHeader) : M Z :=
  raw ← st_lift (map_err CacheIndex (block_header_raw_at_height chain entry.1));
  raw ← st_lift (expect "indexed header has no raw bytes" raw);
  n ← on_tables (insert_header entry.1 (ih_hash entry.2) raw);
  mret (rows + n).
Definition cache_add_headers (chain : IndexedChain S) (entries : list (Z * IndexedHeader)) : M Z :=
  st_foldM (add_header chain) 0 entries.

Definition add_transaction (chain : IndexedChain S) (rows : Z) (loc : Location) : M Z :=
  tx_bytes ← st_try (on_index (get_tx_bytes chain loc));
  tx_bytes ← st_lift match tx_bytes with
                     | inr tx_bytes => Ok tx_bytes
                     | inl _ => Panic "missing tx bytes"
                     end;
  txid ← st_lift (expect "invalid tx" (slice_txid tx_bytes));
  n ← on_tables (insert_transaction (loc_block_height loc) (loc_block_offset loc) txid tx_bytes);
  mret (rows + n).
Definition add_transactions (chain : IndexedChain S) (locations : list Location) : M Z :=
  st_foldM (add_transaction chain) 0 locations.

Definition history_key (script_hash : hash32) (height offset : Z) (is_output : bool) (i : nat) : HistoryKey :=
  {| hk_script_hash := script_hash; hk_block_height := height; hk_block_offset := offset;
     hk_is_output := is_output; hk_index := Z.of_nat i |}.

(** An input that spends an output of the script adds a row. *)
Definition add_spending (script_hash : hash32) (loc : Location) (rows : Z) (input : nat * OutPoint) : M Z :=
  let prevout := input.2 in
  place ← select (λ t, place_of_txid t (op_txid prevout));
  match place with
  | None => mret rows
  | Some (height, offset) =>
      amount ← select (λ t, tb_history t !!
        {| hk_script_hash := script_hash; hk_block_height := height; hk_block_offset := offset;
           hk_is_output := true; hk_index := op_vout prevout |});
      match amount with
      | None => mret rows
      | Some amount =>
          _ ← st_lift (assert_that "assertion failed: amount > 0" (0 <? amount));
          n ← on_tables (insert_history (history_key script_hash (loc_block_height loc)
                                           (loc_block_offset loc) false input.1) (- amount));
          mret (rows + n)
      end
  end.
(** An output to the script adds a row. *)
Definition add_funding (script_hash : hash32) (loc : Location) (rows : Z) (output : nat * bitcoin_txout) : M Z :=
  if bool_decide (script_hash = scripthash_new (btxout_script output.2)) then
    n ← on_tables (insert_history (history_key script_hash (loc_block_height loc)
                                     (loc_block_offset loc) true output.1) (btxout_value output.2));
    mret (rows + n)
  else mret rows.

(** The cached transaction at a location; [query_row] fails without a row. *)
Definition cached_tx (loc : Location) : M bitcoin_tx :=
  row ← select (λ t, tb_transactions t !! (loc_block_height loc, loc_block_offset loc));
  row ← st_lift (ok_or CacheSqlite row);
  st_lift (expect "invalid tx" (tx_deserialize row.2)).
Definition add_location (script_hash : hash32) (rows : Z) (loc : Location) : M Z :=
  tx ← cached_tx loc;
  rows ← st_foldM (add_spending script_hash loc) rows (imap pair (btx_inputs tx));
  st_foldM (add_funding script_hash loc) rows (imap pair (btx_outputs tx)).
Definition add_script_history (rows : Z) (entry : hash32 * list Location) : M Z :=
  st_foldM (add_location entry.1) rows entry.2.
Definition add_history (entries : list (hash32 * list Location)) : M Z :=
  st_foldM add_script_history 0 entries.

(** *** Synchronization *)

(** What [sync] does inside its transaction. *)
Definition sync_body (chain : IndexedChain S) : M () :=
  new_history ← sync_history chain;
  let new_locations := bset_of loc_txnum (new_history ≫= snd) in
  let new_headers :=
    bset_of fst ((λ loc, (loc_block_height loc, loc_indexed_header loc)) <$> new_locations) in
  _ ← cache_add_headers chain new_headers;
  _ ← add_transactions chain new_locations;
  _ ← add_history new_history;
  mret tt.
Definition cache_sync (chain : IndexedChain S) : M () := run (sync_body chain).

(** [Cache::add]: addresses to watch. *)
Definition add_address (rows : Z) (addr : Address) : M Z :=
  n ← on_tables (insert_watch (scripthash_new (addr_script_pubkey addr)) (addr_script_pubkey addr)
                   (addr_text addr));
  mret (rows + n).
Definition cache_add (addresses : list Address) : M () :=
  _ ← st_foldM add_address 0 addresses; mret tt.
End cache.
