(* ===== verification/CacheSpec.v ===== *)
(** * The address cache: constraints of the schema and transactions

    Every statement keeps the constraints of the schema, and a synchronization
    is atomic: it commits all its changes or leaves the tables as they were. *)

From S2P Require Import Prelude External Index TxPos HashIndex Fmt Headers Batch Store Client Chain.
From S2P Require Import Cache.

(** ** Ordered sets *)

Section bset.
Context {A : Type} (key : A → Z).

Lemma elem_bset_insert x l y : y ∈ bset_insert key x l → y = x ∨ y ∈ l.
Proof.
  induction l as [|z l IH]; cbn [bset_insert]; [set_solver|].
  destruct (key x <? key z); [set_solver|]. destruct (key x =? key z); set_solver.
Qed.
Lemma elem_bset_of l y : y ∈ bset_of key l → y ∈ l.
Proof.
  induction l as [|x l IH] using rev_ind; [done|]. unfold bset_of in *.
  rewrite foldl_snoc, elem_of_app, list_elem_of_singleton. intros [->|?]%elem_bset_insert; auto.
Qed.
Lemma bset_insert_last x l : Forall (λ k, k < key x) (key <$> l) → bset_insert key x l = l ++ [x].
Proof.
  induction l as [|y l IH]; [done|]. cbn. intros [Hy Hl]%Forall_cons.
  rewrite (proj2 (Z.ltb_ge _ _)), (proj2 (Z.eqb_neq _ _)) by lia. by rewrite IH.
Qed.
(** Collecting a sorted list changes nothing. *)
Lemma bset_of_sorted l : StronglySorted Z.lt (key <$> l) → bset_of key l = l.
Proof.
  induction l as [|x l IH] using rev_ind; [done|]. unfold bset_of in *. rewrite fmap_app.
  intros (Hlt & Hs & _)%StronglySorted_app. rewrite foldl_snoc, IH by done.
  apply bset_insert_last, Forall_forall. intros k Hk. apply Hlt; [done|]. set_solver.
Qed.
End bset.

(** ** The constraints of the schema *)

Section constraints.
Context `{SL : !Slices}.
Implicit Types t : Tables.

(** Foreign keys and uniqueness; primary keys are unique by construction. *)
Record tables_ok t : Prop := {
  to_header x y row : tb_transactions t !! (x, y) = Some row → is_Some (tb_headers t !! x);
  to_transaction k a : tb_history t !! k = Some a →
    is_Some (tb_transactions t !! (hk_block_height k, hk_block_offset k));
  to_watch k a : tb_history t !! k = Some a → is_Some (tb_watch t !! hk_script_hash k);
  to_hash x y r r' : tb_headers t !! x = Some r → tb_headers t !! y = Some r' → r.1 = r'.1 → x = y;
  to_txid p q r r' : tb_transactions t !! p = Some r → tb_transactions t !! q = Some r' →
    r.1 = r'.1 → p = q;
}.

Lemma tables_empty_ok : tables_ok tables_empty.
Proof. split; cbn; intros *; rewrite lookup_empty; done. Qed.

(** *** What the statements do *)

Lemma insert_header_ok x hash raw t n t' :
  insert_header x hash raw t = Ok (n, t') →
  t' = t ∨ t' = with_tb_headers (<[x := (hash, raw)]> (tb_headers t)) t ∧ tb_headers t !! x = None ∧
           ∀ y row, tb_headers t !! y = Some row → row.1 ≠ hash.
Proof.
  unfold insert_header. intros H. apply bind_ok in H as (x' & Hx & H).
  unfold to_sql in Hx. destruct (x <? 2 ^ 63); [|done]. injection Hx as <-.
  destruct (bool_decide (is_Some _)) eqn:E1; cbn [orb] in H; [injection H as <- <-; by left|].
  destruct (bool_decide (map_Exists _ _)) eqn:E2; injection H as <- <-; [by left|]. right.
  apply bool_decide_eq_false in E1, E2. split_and!; [done|by apply eq_None_not_Some|].
  intros y row Hy Heq. apply E2. by exists y, row.
Qed.

Lemma insert_transaction_ok x y id raw t n t' :
  insert_transaction x y id raw t = Ok (n, t') →
  t' = t ∨ t' = with_tb_transactions (<[(x, y) := (id, raw)]> (tb_transactions t)) t ∧
           tb_transactions t !! (x, y) = None ∧ is_Some (tb_headers t !! x) ∧
           ∀ p row, tb_transactions t !! p = Some row → row.1 ≠ id.
Proof.
  unfold insert_transaction. intros H. apply bind_ok in H as (x' & Hx & H).
  unfold to_sql in Hx. destruct (x <? 2 ^ 63); [|done]. injection Hx as <-.
  destruct (bool_decide (is_Some _)) eqn:E1; cbn [orb] in H; [injection H as <- <-; by left|].
  destruct (bool_decide (map_Exists _ _)) eqn:E2; [injection H as <- <-; by left|].
  destruct (bool_decide (is_Some (tb_headers t !! x))) eqn:E3; [|done]. injection H as <- <-. right.
  apply bool_decide_eq_false in E1, E2. apply bool_decide_eq_true in E3.
  split_and!; [done|by apply eq_None_not_Some|done|].
  intros p row Hp Heq. apply E2. by exists p, row.
Qed.

Lemma insert_history_ok k a t n t' :
  insert_history k a t = Ok (n, t') →
  t' = with_tb_history (<[k := a]> (tb_history t)) t ∧ tb_history t !! k = None ∧
  is_Some (tb_watch t !! hk_script_hash k) ∧
  is_Some (tb_transactions t !! (hk_block_height k, hk_block_offset k)).
Proof.
  unfold insert_history. intros H. apply bind_ok in H as (? & _ & H).
  apply bind_ok in H as (? & _ & H). apply bind_ok in H as (a' & Ha & H).
  unfold to_sql in Ha. destruct (a <? 2 ^ 63); [|done]. injection Ha as <-.
  destruct (bool_decide (is_Some (tb_history t !! k))) eqn:E1; [done|].
  destruct (bool_decide (is_Some (tb_watch t !! _))) eqn:E2; cbn [andb] in H; [|done].
  destruct (bool_decide (is_Some (tb_transactions t !! _))) eqn:E3; [|done]. injection H as <- <-.
  apply bool_decide_eq_false in E1. apply bool_decide_eq_true in E2, E3.
  split_and!; [done|by apply eq_None_not_Some|done..].
Qed.

Lemma insert_watch_ok sh script address t n t' :
  insert_watch sh script address t = Ok (n, t') →
  t' = t ∧ is_Some (tb_watch t !! sh) ∨
  t' = with_tb_watch (<[sh := (script, address)]> (tb_watch t)) t ∧ tb_watch t !! sh = None.
Proof.
  unfold insert_watch. destruct (bool_decide _) eqn:E; intros [= <- <-].
  - left. split; [done|]. by apply bool_decide_eq_true in E.
  - right. apply bool_decide_eq_false in E. split; [done|]. by apply eq_None_not_Some.
Qed.

(** *** They keep the constraints *)

Lemma is_Some_insert {K V} `{Countable K} (m : gmap K V) i j v :
  is_Some (m !! j) → is_Some (<[i := v]> m !! j).
Proof.
  intros. destruct (decide (i = j)) as [->|];
    [rewrite lookup_insert_eq; eauto|by rewrite lookup_insert_ne].
Qed.

(** Inserting a row with a new value of a unique column. *)
Lemma unique_insert {K V U} `{Countable K} (f : V → U) (m : gmap K V) i v :
  (∀ p q r r', m !! p = Some r → m !! q = Some r' → f r = f r' → p = q) →
  (∀ q r, m !! q = Some r → f r ≠ f v) →
  ∀ p q r r', <[i := v]> m !! p = Some r → <[i := v]> m !! q = Some r' → f r = f r' → p = q.
Proof.
  intros Hu Hn p q r r' [[-> ->]|[? Hp]]%lookup_insert_Some [[-> ->]|[? Hq]]%lookup_insert_Some Heq;
    [done| | |by eapply Hu]; exfalso; eapply Hn; eauto.
Qed.

Lemma insert_header_keeps x hash raw t n t' :
  tables_ok t → insert_header x hash raw t = Ok (n, t') → tables_ok t'.
Proof.
  intros Ht [->|(-> & _ & Hn)]%insert_header_ok; [done|]. destruct Ht as [H1 H2 H3 H4 H5].
  split; cbn; [|done..| |done].
  - intros. by eapply is_Some_insert, H1.
  - apply (unique_insert fst); [done|]. intros q r Hq Heq. by apply (Hn q r).
Qed.

Lemma insert_transaction_keeps x y id raw t n t' :
  tables_ok t → insert_transaction x y id raw t = Ok (n, t') → tables_ok t'.
Proof.
  intros Ht [->|(-> & _ & Hh & Hn)]%insert_transaction_ok; [done|]. destruct Ht as [H1 H2 H3 H4 H5].
  split; cbn; [| |done..|].
  - intros x' y' row [[[= <- <-] <-]|[_ Hr]]%lookup_insert_Some; [done|by eapply H1].
  - intros. by eapply is_Some_insert, H2.
  - apply (unique_insert fst); [done|]. intros q r Hq Heq. by apply (Hn q r).
Qed.

Lemma insert_history_keeps k a t n t' :
  tables_ok t → insert_history k a t = Ok (n, t') → tables_ok t'.
Proof.
  intros Ht (-> & _ & Hw & Hx)%insert_history_ok. destruct Ht as [H1 H2 H3 H4 H5].
  split; cbn; [done| | |done..].
  - intros k' a' [[<- <-]|[_ Hr]]%lookup_insert_Some; [done|by eapply H2].
  - intros k' a' [[<- <-]|[_ Hr]]%lookup_insert_Some; [done|by eapply H3].
Qed.

Lemma insert_watch_keeps sh script address t n t' :
  tables_ok t → insert_watch sh script address t = Ok (n, t') → tables_ok t'.
Proof.
  intros Ht [[-> _]|[-> _]]%insert_watch_ok; [done|]. destruct Ht as [H1 H2 H3 H4 H5].
  split; cbn; [done|done| |done..]. intros. by eapply is_Some_insert, H3.
Qed.

Lemma delete_headers_from_keeps x t : tables_ok t → tables_ok (delete_headers_from x t).
Proof.
  intros [H1 H2 H3 H4 H5]. split; cbn.
  - intros y z row [[r Hr]%H1 Hlt]%map_lookup_filter_Some. exists r.
    by apply map_lookup_filter_Some.
  - intros k a [[r Hr]%H2 Hlt]%map_lookup_filter_Some. exists r. by apply map_lookup_filter_Some.
  - intros k a [Hk _]%map_lookup_filter_Some. by eapply H3.
  - intros y z r r' [? _]%map_lookup_filter_Some [? _]%map_lookup_filter_Some. by apply H4.
  - intros p q r r' [? _]%map_lookup_filter_Some [? _]%map_lookup_filter_Some. by apply H5.
Qed.

Lemma drop_stale_keeps rows t : tables_ok t → tables_ok (drop_stale rows t).
Proof. unfold drop_stale. destruct (stale_from _ _ _); [apply delete_headers_from_keeps|done]. Qed.

Lemma drop_stale_watch rows t : tb_watch (drop_stale rows t) = tb_watch t.
Proof. unfold drop_stale. by destruct (stale_from _ _ _). Qed.

(** A transaction id has one place. *)
Lemma place_of_txid_ok t id p :
  tables_ok t → place_of_txid t id = Some p ↔ ∃ raw, tb_transactions t !! p = Some (id, raw).
Proof.
  intros Ht. unfold place_of_txid.
  set (l := filter (λ row, row.2.1 = id) (map_to_list (tb_transactions t))).
  assert (∀ q r, (q, r) ∈ l ↔ r.1 = id ∧ tb_transactions t !! q = Some r) as Hl.
  { intros q r. unfold l. by rewrite list_elem_of_filter, elem_of_map_to_list. }
  destruct l as [|[q r] l]; cbn; split.
  - done.
  - intros [raw Hp]. specialize (proj2 (Hl p (id, raw)) (conj eq_refl Hp)). set_solver.
  - intros [= ->]. destruct (proj1 (Hl p r)) as [<- Hr]; [left|]. exists r.2. by destruct r.
  - intros [raw Hp]. destruct (proj1 (Hl q r)) as [<- Hr]; [left|]. f_equal.
    by eapply (to_txid _ Ht).
Qed.
End constraints.

(** ** Transactions *)

Section transactions.
Context {S W : Type} `{HS : !Hashes, VI : !VarInt, SL : !Slices, SO : !ScriptOps, CS : !Consensus,
  RD : !RocksDB S, HA : !HttpAgent W, ST : !SliceTransactions}.
Abbreviation M := (stM (Cache W) cache_error).

(** [m] changes the tables along [R], however it ends, and neither opens nor
    closes a transaction. *)
Definition steps {A} (R : relation Tables) (m : M A) : Prop :=
  ∀ c r c', m c = (r, c') → R (ca_tables c) (ca_tables c') ∧ ca_open c' = ca_open c.

Section steps.
Context (R : relation Tables) `{HR : !PreOrder R}.

Lemma steps_ret {A} (a : A) : steps R (mret a).
Proof using HR. intros c r c' [= <- <-]. split; [reflexivity|done]. Qed.
Lemma steps_lift {A} (o : outcome cache_error A) : steps R (st_lift o).
Proof using HR. intros c r c' [= <- <-]. split; [reflexivity|done]. Qed.
Lemma steps_bind {A B} (m : M A) (f : A → M B) :
  steps R m → (∀ a, steps R (f a)) → steps R (m ≫= f).
Proof using HR.
  intros Hm Hf c r c'. unfold mbind, stM_bind. destruct (m c) as [o c1] eqn:E.
  apply Hm in E as [H1 H2]. destruct o as [a| |].
  - intros [H3 H4]%Hf. split; [by etrans|congruence].
  - by intros [= <- <-].
  - by intros [= <- <-].
Qed.
Lemma steps_on_tables {A} (f : Tables → outcome cache_error (A * Tables)) :
  (∀ t a t', f t = Ok (a, t') → R t t') → steps R (on_tables f).
Proof using HR.
  intros Hf c r c'. unfold on_tables. destruct (f (ca_tables c)) as [[a t]| |] eqn:E; intros [= <- <-];
    cbn; (split; [|done]); [by eapply Hf|reflexivity..].
Qed.
Lemma steps_select {A} (f : Tables → A) : steps R (select f).
Proof using HR. apply steps_on_tables. intros t a t' [= _ <-]. reflexivity. Qed.
Lemma steps_on_index {A} (m : stM W (chain_error slices_error) A) : steps R (on_index m).
Proof using HR.
  intros c r c'. unfold on_index. destruct (m (ca_node c)). intros [= _ <-]. cbn. split; [reflexivity|done].
Qed.
Lemma steps_try {A} (m : M A) : steps R m → steps R (st_try m : M (cache_error + A)).
Proof using HR.
  intros Hm c r c'. unfold st_try. destruct (m c) as [o c1] eqn:E. apply Hm in E.
  destruct o; by intros [= <- <-].
Qed.
Lemma steps_foldM {A B} (f : B → A → M B) b l : (∀ b a, steps R (f b a)) → steps R (st_foldM f b l).
Proof using HR.
  intros Hf. revert b. induction l as [|a l IH]; intros b; [apply steps_ret|].
  apply steps_bind; [apply Hf|apply IH].
Qed.
End steps.

(** The constraints are kept and the watched scripts are not changed. *)
Definition checked (t t' : Tables) : Prop :=
  (tables_ok t → tables_ok t') ∧ tb_watch t' = tb_watch t.
#[export] Instance checked_preorder : PreOrder checked.
Proof.
  split; [by intros t|]. intros a b c [H1 H2] [H3 H4]. split; [auto|congruence].
Qed.

Ltac steps := repeat first
  [ apply steps_bind; [apply _| |intros ?]
  | apply steps_ret, _ | apply steps_lift, _ | apply steps_select, _
  | apply steps_foldM; [apply _|intros ? ?]
  | apply steps_try; [apply _|]
  | apply steps_on_index, _
  | case_match ].

Lemma insert_header_checked x hash raw : steps checked (on_tables (insert_header x hash raw)).
Proof using Type.
  apply steps_on_tables; [apply _|]. intros t n t' H. split; [intros; by eapply insert_header_keeps|].
  by apply insert_header_ok in H as [->|(-> & _)].
Qed.
Lemma insert_transaction_checked x y id raw :
  steps checked (on_tables (insert_transaction x y id raw)).
Proof using Type.
  apply steps_on_tables; [apply _|]. intros t n t' H.
  split; [intros; by eapply insert_transaction_keeps|].
  by apply insert_transaction_ok in H as [->|(-> & _)].
Qed.
Lemma insert_history_checked k a : steps checked (on_tables (insert_history k a)).
Proof using Type.
  apply steps_on_tables; [apply _|]. intros t n t' H.
  split; [intros; by eapply insert_history_keeps|]. by apply insert_history_ok in H as (-> & _).
Qed.

Lemma sync_history_checked (chain : IndexedChain S) : steps checked (sync_history chain).
Proof using Type.
  apply steps_bind; [apply _|..].
  - apply steps_on_tables; [apply _|]. intros t a t' [= _ <-].
    split; [apply drop_stale_keeps|apply drop_stale_watch].
  - intros _. apply steps_on_tables; [apply _|]. intros t a t' H.
    apply bind_ok in H as (? & _ & [= _ <-]). reflexivity.
Qed.
Lemma cache_add_headers_checked (chain : IndexedChain S) entries :
  steps checked (cache_add_headers chain entries).
Proof using Type. unfold cache_add_headers, add_header. steps. apply insert_header_checked. Qed.
Lemma add_transactions_checked (chain : IndexedChain S) locs : steps checked (add_transactions chain locs).
Proof using Type. unfold add_transactions, add_transaction. steps. apply insert_transaction_checked. Qed.
Lemma add_location_checked sh rows loc : steps checked (add_location sh rows loc).
Proof using Type.
  unfold add_location, cached_tx, add_spending, add_funding. steps; apply insert_history_checked.
Qed.
Lemma add_history_checked entries : steps checked (add_history entries).
Proof using Type.
  apply steps_foldM; [apply _|intros ? ?]. apply steps_foldM; [apply _|intros ? ?].
  apply add_location_checked.
Qed.
Lemma sync_body_checked (chain : IndexedChain S) : steps checked (sync_body chain).
Proof using Type.
  unfold sync_body. apply steps_bind; [apply _|apply sync_history_checked|intros history].
  apply steps_bind; [apply _|apply cache_add_headers_checked|intros _].
  apply steps_bind; [apply _|apply add_transactions_checked|intros _].
  apply steps_bind; [apply _|apply add_history_checked|intros _]. apply steps_ret, _.
Qed.

(** [run] commits on success and rolls back on an error; a panic unwinds out of
    the open transaction. *)
Lemma run_ok {A} (R : relation Tables) (m : M A) c r c' :
  steps R m → ca_open c = None → run m c = (r, c') →
  match r with
  | Ok v => ∃ c1, m {| ca_tables := ca_tables c; ca_open := Some (ca_tables c); ca_node := ca_node c |} =
              (Ok v, c1) ∧ R (ca_tables c) (ca_tables c') ∧
              c' = {| ca_tables := ca_tables c1; ca_open := None; ca_node := ca_node c1 |}
  | Err _ => ca_tables c' = ca_tables c ∧ ca_open c' = None
  | Panic _ => ca_open c' = Some (ca_tables c)
  end.
Proof using Type.
  intros Hm Ho. unfold run, begin_transaction, mbind, stM_bind, st_try. rewrite Ho.
  set (c0 := {| ca_tables := _ |}). destruct (m c0) as [o c1] eqn:E.
  pose proof (Hm _ _ _ E) as [HR Ho1]. cbn in HR, Ho1. destruct o as [v|e|p].
  - unfold commit. rewrite Ho1. intros [= <- <-]. exists c1. done.
  - unfold rollback. rewrite Ho1. by intros [= <- <-].
  - by intros [= <- <-].
Qed.

(** A synchronization that fails leaves no trace; one that succeeds leaves
    tables that satisfy the schema, and the watched scripts as they were. *)
Lemma cache_sync_run (chain : IndexedChain S) c r c' :
  tables_ok (ca_tables c) → ca_open c = None → cache_sync chain c = (r, c') →
  match r with
  | Ok _ => tables_ok (ca_tables c') ∧ tb_watch (ca_tables c') = tb_watch (ca_tables c) ∧
            ca_open c' = None
  | Err _ => ca_tables c' = ca_tables c ∧ ca_open c' = None
  | Panic _ => ca_open c' = Some (ca_tables c)
  end.
Proof using Type.
  intros Ht Ho H. pose proof (run_ok _ _ _ _ _ (sync_body_checked chain) Ho H) as Hr.
  destruct r; [|done..]. destruct Hr as (c1 & _ & [Hk Hw] & ->). cbn in *. auto.
Qed.

(** *** Watching addresses *)

Definition address_entry (addr : Address) : hash32 * (bytes * bytes) :=
  (scripthash_new (addr_script_pubkey addr), (addr_script_pubkey addr, addr_text addr)).

(** The rows of [watch] are kept by the hash of their script. *)
Definition watch_ok (t : Tables) : Prop :=
  ∀ sh script text, tb_watch t !! sh = Some (script, text) → sh = scripthash_new script.

(** [add] adds the scripts that are not watched yet and changes nothing else. *)
Lemma add_addresses_ok rows addrs (c : Cache W) n c' :
  st_foldM add_address rows addrs c = (Ok n, c') →
  ca_tables c' = with_tb_watch (tb_watch (ca_tables c) ∪ list_to_map (address_entry <$> addrs)) (ca_tables c) ∧
  ca_open c' = ca_open c ∧ ca_node c' = ca_node c.
Proof using Type.
  revert rows c. induction addrs as [|a addrs IH]; intros rows c; cbn [st_foldM].
  { intros [-> ->]%st_ret_ok. cbn. rewrite (right_id_L ∅ (∪)). by destruct c as [[]]. }
  intros (b & c1 & Ha & Hr)%st_bind_ok. unfold add_address in Ha.
  apply st_bind_ok in Ha as (k & c2 & Hi & [-> ->]%st_ret_ok).
  apply IH in Hr as (-> & -> & ->). unfold on_tables in Hi.
  destruct (insert_watch _ _ _ _) as [[k' t]| |] eqn:E; [|done..]. injection Hi as <- <-.
  cbn. split; [|done]. unfold with_tb_watch.
  apply insert_watch_ok in E as [[-> [x Hx]]|[-> Hn]]; cbn; f_equal.
  - apply map_eq. intros i. rewrite !lookup_union.
    destruct (decide (i = scripthash_new (addr_script_pubkey a))) as [->|].
    + rewrite Hx, lookup_insert_eq. by destruct (list_to_map _ !! _).
    + by rewrite lookup_insert_ne.
  - apply map_eq. intros i. rewrite !lookup_union.
    destruct (decide (i = scripthash_new (addr_script_pubkey a))) as [->|].
    + rewrite !lookup_insert_eq, Hn. by destruct (list_to_map _ !! _).
    + by rewrite !lookup_insert_ne.
Qed.

(** It never fails: [OR IGNORE] ignores a script that is watched. *)
Lemma add_addresses_total rows addrs (c : Cache W) : ∃ n c', st_foldM add_address rows addrs c = (Ok n, c').
Proof using Type.
  revert rows c. induction addrs as [|a addrs IH]; intros rows c; cbn [st_foldM]; [by do 2 eexists|].
  assert (∃ n c1, add_address rows a c = (Ok n, c1)) as (n & c1 & Ha).
  { unfold add_address, on_tables, insert_watch, mbind, stM_bind.
    destruct (bool_decide _); by do 2 eexists. }
  destruct (IH n c1) as (n' & c2 & Hr). exists n', c2. apply st_bind_ok. eauto.
Qed.
End transactions.
