(* ===== verification/CacheSync.v ===== *)
(** * The address cache: what a synchronization leaves in it

    The rows of a watched script are determined by the chain: one for every
    output that pays it and one for every input that spends such an output.
    [sync] keeps what earlier blocks gave, drops what a reorg removed, and adds
    the rows of the new blocks. *)

From S2P Require Import Prelude External Index TxPos HashIndex Fmt Headers Batch Store StoreSpec.
From S2P Require Import Client Chain ChainSpec ChainSync ChainQuery ChainSecondary Cache CacheSpec.

Section history.
Context {S W : Type} `{HS : !Hashes, HSL : !HashLaws, SO : !ScriptOps, VI : !VarInt,
  VIL : !VarIntLaws, SL : !Slices, SLL : !SlicesLaws, CS : !Consensus, RD : !RocksDB S,
  RL : !RocksDBLaws S, HA : !HttpAgent W, NL : !NodeLaws W, ST : !SliceTransactions,
  STL : !SliceTransactionsLaws}.
Implicit Types (chain : IndexedChain S) (bs : list Batch) (t : Tables) (sh : hash32) (c : Cache W).

(** ** The rows a chain gives a script *)

(** Transaction [n], number [j] of block [i], touches the script and parses to
    [p]. *)
Definition script_tx bs sh (n : TxNum) (i j : nat) (p : bitcoin_tx) : Prop :=
  ∃ h d tx spent, chain_tx (W := W) bs n i j h d tx spent ∧
    touches sh (stx_scripts tx ++ spent) ∧ tx_deserialize (stx_raw tx) = Some p.

(** The row key of input or output [k] of transaction [j] of block [i]. *)
Definition row_of sh (i j : nat) (is_output : bool) (k : nat) : HistoryKey :=
  history_key sh (Z.of_nat i) (Z.of_nat j) is_output k.

(** Output [v] of [p] pays the script. *)
Definition pays sh (p : bitcoin_tx) (v : nat) (amount : Z) : Prop :=
  ∃ o, btx_outputs p !! v = Some o ∧ scripthash_new (btxout_script o) = sh ∧ btxout_value o = amount.

(** The outpoint is an output, paying the script, of a transaction before [n]. *)
Definition funded_before bs sh (n : TxNum) (op : OutPoint) (amount : Z) : Prop :=
  ∃ m i j q v, script_tx bs sh m i j q ∧ m < n ∧ btx_txid q = op_txid op ∧
    op_vout op = Z.of_nat v ∧ pays sh q v amount.

(** The rows of transaction [n]. *)
Inductive expected bs sh (n : TxNum) : HistoryKey → Z → Prop :=
| expected_funding i j p v amount :
    script_tx bs sh n i j p → pays sh p v amount →
    expected bs sh n (row_of sh i j true v) amount
| expected_spending i j p k op amount :
    script_tx bs sh n i j p → btx_inputs p !! k = Some op → funded_before bs sh n op amount →
    expected bs sh n (row_of sh i j false k) (- amount).

(** The table has exactly the rows of the transactions before [n]. *)
Definition history_below bs t sh (n : TxNum) : Prop :=
  ∀ key a, hk_script_hash key = sh →
    tb_history t !! key = Some a ↔ ∃ m, expected bs sh m key a ∧ m < n.
(** The table has exactly the rows of the whole chain. *)
Definition history_complete bs t sh : Prop :=
  ∀ key a, hk_script_hash key = sh → tb_history t !! key = Some a ↔ ∃ m, expected bs sh m key a.

(** Headers and transactions are those of the chain. *)
Definition headers_ok bs t : Prop :=
  ∀ x row, tb_headers t !! x = Some row →
    ∃ i b, x = Z.of_nat i ∧ bs !! i = Some b ∧ row = (ih_hash (batch_header b), raw_header b).
Definition transactions_ok bs t : Prop :=
  ∀ x y row, tb_transactions t !! (x, y) = Some row →
    ∃ n i j h d tx spent, x = Z.of_nat i ∧ y = Z.of_nat j ∧
      chain_tx (W := W) bs n i j h d tx spent ∧ row.2 = stx_raw tx ∧ slice_txid row.2 = Some row.1.

Record rows_ok bs t : Prop := {
  ro_tables : tables_ok t;
  ro_watch : watch_ok t;
  ro_headers : headers_ok bs t;
  ro_transactions : transactions_ok bs t;
}.

(** ** Facts about the transactions of a chain *)

Lemma chain_tx_num bs n i j h d tx spent n' i' j' h' d' tx' spent' :
  chain_batches (W := W) bs → chain_tx (W := W) bs n i j h d tx spent →
  chain_tx (W := W) bs n' i' j' h' d' tx' spent' → n = n' → i = i' ∧ j = j'.
Proof using HSL NL SLL VIL.
  intros Hcb H1 H2 <-. pose proof (chain_tx_find (E := unit) _ _ _ _ _ _ _ _ Hcb H1) as E1.
  rewrite (chain_tx_find (E := unit) _ _ _ _ _ _ _ _ Hcb H2) in E1. injection E1. lia.
Qed.

Lemma chain_tx_place bs n i j h d tx spent n' h' d' tx' spent' :
  chain_batches (W := W) bs → chain_tx (W := W) bs n i j h d tx spent →
  chain_tx (W := W) bs n' i j h' d' tx' spent' → n = n' ∧ h = h' ∧ tx = tx'.
Proof using HSL NL SLL VIL.
  intros [Hbu _] H1 H2.
  destruct (chain_tx_inv _ _ _ _ _ _ _ _ Hbu H1)
    as (b & sd & txs & sss & Hi & -> & Hu & Hw & Hspec & Hnx & Hj & Hsj & -> & _).
  destruct (chain_tx_inv _ _ _ _ _ _ _ _ Hbu H2)
    as (b' & sd' & txs' & sss' & Hi' & -> & _ & _ & Hspec' & _ & Hj' & _ & -> & _).
  rewrite Hi in Hi'. injection Hi' as <-. split_and!; [done..|].
  assert (d' = d) as ->.
  { destruct H1, H2. eapply served_block_unique; [|done]. congruence. }
  pose proof (bs_visit _ _ _ _ _ _ _ _ Hspec) as Hv. pose proof (bs_visit _ _ _ _ _ _ _ _ Hspec') as Hv'.
  assert (txs' = txs) as -> by (apply block_events_txs_inj; congruence). congruence.
Qed.

(** Transactions of a block are numbered below the next block's. *)
Lemma chain_tx_range bs n i j h d tx spent :
  chain_batches (W := W) bs → chain_tx (W := W) bs n i j h d tx spent →
  txnum_in_block (batch_header <$> bs) i h n ∧ 0 ≤ n.
Proof using HSL NL SLL VIL.
  intros [Hbu _] Hct. pose proof Hct as [Hh _ _ _ _].
  destruct (chain_tx_inv _ _ _ _ _ _ _ _ Hbu Hct)
    as (b & sd & txs & sss & Hi & -> & Hu & Hw & Hspec & Hnx & Hj & Hsj & -> & _).
  apply lookup_lt_Some in Hj. unfold batch_next in *.
  split; [split; [done|lia]|bx_arith].
Qed.

Lemma chain_tx_le bs n i j h d tx spent n' i' j' h' d' tx' spent' :
  chain_batches (W := W) bs → chain_tx (W := W) bs n i j h d tx spent →
  chain_tx (W := W) bs n' i' j' h' d' tx' spent' → n' ≤ n → (i' ≤ i)%nat.
Proof using HSL NL SLL VIL.
  intros Hcb H1 H2 Hle. destruct (built_headers_wf _ Hcb) as [_ Ha].
  destruct (chain_tx_range _ _ _ _ _ _ _ _ Hcb H1) as [[Hh ?] _].
  destruct (chain_tx_range _ _ _ _ _ _ _ _ Hcb H2) as [[Hh' Hn'] _].
  destruct (decide (i' ≤ i)%nat); [done|]. destruct i' as [|k]; [lia|]. cbn [first_txnum] in Hn'.
  destruct (lookup_lt_is_Some_2 (batch_header <$> bs) k) as [g Hg]; [apply lookup_lt_Some in Hh'; lia|].
  rewrite Hg in Hn'.
  pose proof (txnums_ascending_le _ i k h g Ha ltac:(lia) Hh Hg). lia.
Qed.

Lemma script_tx_num bs sh sh' n i j p i' j' p' :
  chain_batches (W := W) bs → script_tx bs sh n i j p → script_tx bs sh' n i' j' p' →
  i = i' ∧ j = j' ∧ p = p'.
Proof using HSL NL SLL VIL.
  intros Hcb (h & d & tx & spent & Hct & _ & Hp) (h' & d' & tx' & spent' & Hct' & _ & Hp').
  destruct (chain_tx_num _ _ _ _ _ _ _ _ _ _ _ _ _ _ _ Hcb Hct Hct' eq_refl) as [<- <-].
  destruct (chain_tx_place _ _ _ _ _ _ _ _ _ _ _ _ _ Hcb Hct Hct') as (_ & _ & <-).
  split_and!; congruence.
Qed.

Lemma script_tx_place bs sh sh' n n' i j p p' :
  chain_batches (W := W) bs → script_tx bs sh n i j p → script_tx bs sh' n' i j p' →
  n = n' ∧ p = p'.
Proof using HSL NL SLL VIL.
  intros Hcb (h & d & tx & spent & Hct & _ & Hp) (h' & d' & tx' & spent' & Hct' & _ & Hp').
  destruct (chain_tx_place _ _ _ _ _ _ _ _ _ _ _ _ _ Hcb Hct Hct') as (<- & _ & <-). split; congruence.
Qed.

(** ** One transaction *)

(** The output spent, with its amount, as the queries on the tables find it. *)
Definition spends_row t sh (op : OutPoint) (amount : Z) : Prop :=
  ∃ x y, place_of_txid t (op_txid op) = Some (x, y) ∧
    tb_history t !! {| hk_script_hash := sh; hk_block_height := x; hk_block_offset := y;
                       hk_is_output := true; hk_index := op_vout op |} = Some amount.

(** The tables find exactly the outputs that pay the script. *)
Lemma spends_row_ok bs t sh n op amount :
  chain_batches (W := W) bs → rows_ok bs t → history_below bs t sh n →
  spends_row t sh op amount ↔ funded_before bs sh n op amount.
Proof using HSL NL SLL STL VIL.
  intros Hcb Hok Hb. pose proof (ro_tables _ _ Hok) as Ht. split.
  - intros (x & y & [raw Hp]%(place_of_txid_ok _ _ _ Ht) & (m & He & Hm)%Hb); [|done].
    inversion He as [i j q v a Hq Hv|]; subst. exists m, i, j, q, v. split_and!; [done..| |done|done].
    destruct (ro_transactions _ _ Hok _ _ _ Hp) as (n' & i' & j' & h & d & tx & sp & Hi & Hj & Hct & Hr & Hid).
    apply Nat2Z.inj in Hi as <-. apply Nat2Z.inj in Hj as <-. cbn in Hr, Hid. subst raw.
    destruct Hq as (h' & d' & tx' & sp' & Hct' & _ & Hq).
    destruct (chain_tx_place _ _ _ _ _ _ _ _ _ _ _ _ _ Hcb Hct Hct') as (_ & _ & <-).
    apply slice_txid_agrees in Hq. congruence.
  - intros (m & i & j & q & v & Hq & Hm & Hid & Hv & Hpay).
    assert (tb_history t !! row_of sh i j true v = Some amount) as Hr.
    { apply Hb; [done|]. exists m. split; [by eapply expected_funding|done]. }
    exists (Z.of_nat i), (Z.of_nat j). unfold row_of, history_key in *. rewrite Hv. split; [|done].
    destruct (to_transaction _ Ht _ _ Hr) as [[id raw] Hx]. cbn in Hx.
    apply (place_of_txid_ok _ _ _ Ht). exists raw. rewrite <-Hid.
    destruct (ro_transactions _ _ Hok _ _ _ Hx) as (n' & i' & j' & h & d & tx & sp & Hi & Hj & Hct & Hrw & Hi').
    apply Nat2Z.inj in Hi as <-. apply Nat2Z.inj in Hj as <-. cbn in Hrw, Hi'. subst raw.
    destruct Hq as (h' & d' & tx' & sp' & Hct' & _ & Hq).
    destruct (chain_tx_place _ _ _ _ _ _ _ _ _ _ _ _ _ Hcb Hct Hct') as (_ & _ & <-).
    apply slice_txid_agrees in Hq. congruence.
Qed.

(** The only change from [t] to [t'] is that history gets the rows [P]. *)
Definition adds t t' (P : HistoryKey → Z → Prop) : Prop :=
  tb_headers t' = tb_headers t ∧ tb_transactions t' = tb_transactions t ∧ tb_watch t' = tb_watch t ∧
  ∀ key a, tb_history t' !! key = Some a ↔ tb_history t !! key = Some a ∨ P key a.

Lemma adds_none t : adds t t (λ _ _, False).
Proof using Type. split_and!; [done..|]. tauto. Qed.
Lemma adds_trans t t1 t2 P Q :
  adds t t1 P → adds t1 t2 Q → adds t t2 (λ key a, P key a ∨ Q key a).
Proof using Type.
  intros (H1 & H2 & H3 & H4) (K1 & K2 & K3 & K4). split_and!; [congruence..|].
  intros. rewrite K4, H4. tauto.
Qed.
Lemma adds_iff t t' P Q : (∀ key a, P key a ↔ Q key a) → adds t t' P → adds t t' Q.
Proof using Type. intros HPQ (H1 & H2 & H3 & H4). split_and!; [done..|]. intros. by rewrite H4, HPQ. Qed.

Lemma insert_history_adds k a t n t' :
  insert_history k a t = Ok (n, t') → adds t t' (λ key b, key = k ∧ b = a).
Proof using Type.
  intros (-> & Hn & _)%insert_history_ok. split_and!; [done..|]. intros key b. cbn.
  rewrite lookup_insert_Some. split; [naive_solver|].
  intros [Hk|[-> ->]]; [|by left]. right. split; [congruence|done].
Qed.

(** A loop whose rounds each add rows. *)
Lemma fold_adds {A} (f : Z → nat * A → stM (Cache W) cache_error Z) (Inv : Tables → Prop)
    (P : nat → A → HistoryKey → Z → Prop) l :
  (∀ rows k x c r c', Inv (ca_tables c) → f rows (k, x) c = (Ok r, c') →
     adds (ca_tables c) (ca_tables c') (P k x) ∧ Inv (ca_tables c')) →
  ∀ rows c r c', Inv (ca_tables c) → st_foldM f rows l c = (Ok r, c') →
    adds (ca_tables c) (ca_tables c') (λ key a, ∃ k x, (k, x) ∈ l ∧ P k x key a) ∧ Inv (ca_tables c').
Proof using Type.
  intros Hf. induction l as [|[k x] l IH]; intros rows c r c' Hi; cbn [st_foldM].
  { intros [-> ->]%st_ret_ok. split; [|done]. eapply adds_iff; [|apply adds_none].
    intros key a. split; [done|]. by intros (? & ? & []%not_elem_of_nil & _). }
  intros (r1 & c1 & [H1 Hi1]%Hf & [H2 Hi2]%IH)%st_bind_ok; [|done..]. split; [|done].
  eapply adds_iff; [|by eapply adds_trans]. cbn. intros key a. split.
  - intros [?|(k' & x' & ? & ?)]; do 2 eexists; (split; [|done]); [by left|by right].
  - intros (k' & x' & [[= -> ->]|?]%elem_of_cons & ?); [by left|right; eauto].
Qed.

Lemma select_ok {A} (f : Tables → A) c a c' :
  select f c = (Ok a, c') → a = f (ca_tables c) ∧ c' = c.
Proof using Type. unfold select, on_tables. intros [= <- <-]. by destruct c. Qed.
Lemma on_tables_ok {A} (f : Tables → outcome cache_error (A * Tables)) c a c' :
  on_tables f c = (Ok a, c') → f (ca_tables c) = Ok (a, ca_tables c').
Proof using Type. unfold on_tables. by destruct (f _) as [[]| |]; intros [= <- <-]. Qed.

(** The rows of the inputs and outputs of a transaction. *)
Definition spending_rows t sh (x y : Z) (k : nat) (op : OutPoint) (key : HistoryKey) (a : Z) : Prop :=
  key = history_key sh x y false k ∧ ∃ amount, spends_row t sh op amount ∧ a = - amount.
Definition funding_rows sh (x y : Z) (k : nat) (o : bitcoin_txout) (key : HistoryKey) (a : Z) : Prop :=
  key = history_key sh x y true k ∧ scripthash_new (btxout_script o) = sh ∧ a = btxout_value o.

(** Tables with the same outputs find the same amounts. *)
Definition same_outputs t0 t : Prop :=
  tb_transactions t = tb_transactions t0 ∧
  ∀ key, hk_is_output key = true → tb_history t !! key = tb_history t0 !! key.
Lemma same_outputs_spends t0 t sh op a : same_outputs t0 t → spends_row t sh op a ↔ spends_row t0 sh op a.
Proof using Type.
  intros [Ht Hh]. unfold spends_row, place_of_txid. rewrite Ht.
  split; intros (x & y & Hp & Hr); exists x, y; (split; [done|]); [by rewrite <-Hh|by rewrite Hh].
Qed.

Lemma add_spending_adds t0 sh loc rows k op c r c' :
  same_outputs t0 (ca_tables c) → add_spending sh loc rows (k, op) c = (Ok r, c') →
  adds (ca_tables c) (ca_tables c')
    (spending_rows t0 sh (loc_block_height loc) (loc_block_offset loc) k op) ∧
  same_outputs t0 (ca_tables c').
Proof using Type.
  intros Hs. unfold add_spending. cbn [fst snd].
  intros (place & c1 & [-> ->]%select_ok & H)%st_bind_ok.
  destruct (place_of_txid (ca_tables c) (op_txid op)) as [[x y]|] eqn:Ep.
  2: { apply st_ret_ok in H as [_ ->]. split; [|done]. eapply adds_iff; [|apply adds_none].
       intros key a. split; [done|]. intros (_ & a' & (x & y & Hp & _)%(same_outputs_spends _ _ _ _ _ Hs) & _).
       congruence. }
  apply st_bind_ok in H as (amount & c1 & [-> ->]%select_ok & H).
  destruct (tb_history (ca_tables c) !! _) as [amount|] eqn:Ea.
  2: { apply st_ret_ok in H as [_ ->]. split; [|done]. eapply adds_iff; [|apply adds_none].
       intros key a. split; [done|]. intros (_ & a' & (x' & y' & Hp & Hr)%(same_outputs_spends _ _ _ _ _ Hs) & _).
       rewrite Ep in Hp. injection Hp as <- <-. congruence. }
  apply st_bind_ok in H as (u & c1 & [_ ->]%st_lift_ok & H).
  apply st_bind_ok in H as (n & c1 & Hi%on_tables_ok & [_ ->]%st_ret_ok).
  assert (spends_row t0 sh op amount) as Hsp.
  { apply (same_outputs_spends _ _ _ _ _ Hs). by exists x, y. }
  split.
  - eapply adds_iff; [|by eapply insert_history_adds]. intros key a. split.
    + intros [-> ->]. split; [done|]. by exists amount.
    + intros (-> & a' & (x' & y' & Hp & Hr)%(same_outputs_spends _ _ _ _ _ Hs) & ->). split; [done|].
      rewrite Ep in Hp. injection Hp as <- <-. congruence.
  - apply insert_history_ok in Hi as (-> & _). destruct Hs as [H1 H2]. split; [done|]. cbn.
    intros key Hk. rewrite lookup_insert_ne; [by apply H2|]. by intros <-.
Qed.

Lemma add_funding_adds sh loc rows k o c r c' :
  add_funding sh loc rows (k, o) c = (Ok r, c') →
  adds (ca_tables c) (ca_tables c')
    (funding_rows sh (loc_block_height loc) (loc_block_offset loc) k o).
Proof using Type.
  unfold add_funding. cbn [fst snd]. case_bool_decide as Hs.
  - intros (n & c1 & Hi%on_tables_ok & [_ ->]%st_ret_ok)%st_bind_ok.
    eapply adds_iff; [|by eapply insert_history_adds]. intros key a. unfold funding_rows. naive_solver.
  - intros [_ ->]%st_ret_ok. eapply adds_iff; [|apply adds_none]. unfold funding_rows. naive_solver.
Qed.

Lemma expected_key bs sh n key a : expected bs sh n key a → hk_script_hash key = sh.
Proof using Type. by destruct 1. Qed.

(** Rows of a script only. *)
Lemma adds_rows_ok bs t t' P :
  adds t t' P → tables_ok t' → rows_ok bs t → rows_ok bs t'.
Proof using Type.
  intros (H1 & H2 & H3 & _) Ht [_ Hw Hh Hx]. split; [done|..].
  - intros sh s x. rewrite H3. apply Hw.
  - intros x row. rewrite H1. apply Hh.
  - intros x y row. rewrite H2. apply Hx.
Qed.

Lemma history_below_next bs t t' sh n :
  history_below bs t sh n → adds t t' (expected bs sh n) → history_below bs t' sh (n + 1).
Proof using Type.
  intros Hb (_ & _ & _ & Ha) key a Hk. rewrite Ha, (Hb key a Hk). split.
  - intros [(m & ? & ?)|?]; [exists m|exists n]; (split; [done|lia]).
  - intros (m & He & Hm). destruct (decide (m = n)) as [->|]; [by right|left].
    exists m. split; [done|lia].
Qed.

(** [add_location] adds the rows of a transaction, given those of the earlier
    ones. *)
Lemma add_location_adds bs sh n i j h d tx spent rows c r c' :
  chain_batches (W := W) bs → chain_tx (W := W) bs n i j h d tx spent →
  touches sh (stx_scripts tx ++ spent) → rows_ok bs (ca_tables c) →
  history_below bs (ca_tables c) sh n →
  add_location sh rows (tx_location n i j h) c = (Ok r, c') →
  adds (ca_tables c) (ca_tables c') (expected bs sh n).
Proof using HSL NL SLL STL VIL.
  intros Hcb Hct Htc Hok Hb. unfold add_location. intros (p & c1 & Hp & H)%st_bind_ok.
  assert (script_tx bs sh n i j p ∧ c1 = c) as [Hp' ->].
  { unfold cached_tx in Hp. apply st_bind_ok in Hp as (row & c2 & [-> ->]%select_ok & Hp).
    apply st_bind_ok in Hp as (row & c2 & [Hrow%ok_or_ok ->]%st_lift_ok & [Hp%expect_ok ->]%st_lift_ok).
    cbn [tx_location loc_block_height loc_block_offset] in Hrow. split; [|done].
    destruct (ro_transactions _ _ Hok _ _ _ Hrow) as (n' & i' & j' & h' & d' & tx' & sp & Hi & Hj & Hct' & Hr & _).
    apply Nat2Z.inj in Hi as <-. apply Nat2Z.inj in Hj as <-.
    destruct (chain_tx_place _ _ _ _ _ _ _ _ _ _ _ _ _ Hcb Hct Hct') as (_ & _ & <-).
    exists h, d, tx, spent. rewrite Hr in Hp. done. }
  apply st_bind_ok in H as (r1 & c1 & Hs & Ho).
  apply (fold_adds _ (same_outputs (ca_tables c)) _ _
    (λ rows k op c0 r c' Hi, add_spending_adds (ca_tables c) sh _ rows k op c0 r c' Hi)) in Hs as [Hs _];
    [|by split].
  apply (fold_adds _ (λ _, True) _ _
    (λ rows k o c r c' _ H, conj (add_funding_adds sh _ rows k o c r c' H) I)) in Ho as [Ho _]; [|done].
  eapply adds_iff; [|by eapply adds_trans]. cbn [tx_location loc_block_height loc_block_offset].
  intros key a. split.
  - intros [(k & op & Hk & -> & amount & Hsp & ->)|(k & o & Hk & -> & Hsh & ->)];
      apply elem_of_lookup_imap in Hk as (k' & x & [= -> ->] & Hx).
    + eapply expected_spending; [done..|]. by eapply spends_row_ok.
    + eapply (expected_funding _ _ _ _ _ p); [done|]. by exists x.
  - destruct 1 as [i' j' q v amount Hq (o & Hv & Hsh & <-)|i' j' q k op amount Hq Hk Hf];
      destruct (script_tx_num _ _ _ _ _ _ _ _ _ _ Hcb Hp' Hq) as (<- & <- & <-).
    + right. exists v, o. split; [apply elem_of_lookup_imap; eauto|]. by split.
    + left. exists k, op. split; [apply elem_of_lookup_imap; eauto|]. split; [done|].
      exists amount. split; [|done]. by eapply spends_row_ok.
Qed.

(** ** The transactions of a script *)

(** What is left to do for a script: [locs] are its transactions from [n] on,
    the rows before are there. *)
Definition pending bs t (sh : hash32) (locs : list Location) : Prop :=
  ∃ n, history_below bs t sh n ∧
    located (W := W) bs (λ m tx spent, n ≤ m ∧ touches sh (stx_scripts tx ++ spent)) locs.

Lemma expected_tx bs sh n key a : expected bs sh n key a → ∃ i j p, script_tx bs sh n i j p.
Proof using Type. destruct 1; eauto. Qed.

Lemma pending_nil bs t sh : pending bs t sh [] → history_complete bs t sh.
Proof using Type.
  intros (n & Hb & _ & Hl) key a Hk. rewrite (Hb key a Hk). split.
  - intros (m & ? & _). by exists m.
  - intros (m & He). exists m. split; [done|].
    destruct (expected_tx _ _ _ _ _ He) as (i & j & p & h & d & tx & sp & Hct & Ht & _).
    destruct (decide (m < n)); [done|]. exfalso. apply (not_elem_of_nil (tx_location m i j h)), Hl.
    do 7 eexists. split; [done|]. split; [|done]. split; [lia|done].
Qed.

(** The first of the transactions left, and what is left after it. *)
Lemma pending_cons bs t sh loc locs :
  chain_batches (W := W) bs → pending bs t sh (loc :: locs) →
  ∃ n i j h d tx spent, loc = tx_location n i j h ∧ chain_tx (W := W) bs n i j h d tx spent ∧
    touches sh (stx_scripts tx ++ spent) ∧ history_below bs t sh n ∧
    ∀ t', adds t t' (expected bs sh n) → pending bs t' sh locs.
Proof using HSL NL SLL VIL.
  intros Hcb (n0 & Hb & Hs & Hl).
  destruct (proj1 (Hl loc)) as (n & i & j & h & d & tx & sp & Hct & [Hn Ht] & ->); [left|].
  cbn in Hs. apply StronglySorted_inv in Hs as [Hs Hlt]. rewrite Forall_forall in Hlt.
  assert (∀ m i' j' h' d' tx' sp', chain_tx (W := W) bs m i' j' h' d' tx' sp' → n0 ≤ m →
    touches sh (stx_scripts tx' ++ sp') → n ≤ m) as Hfirst.
  { intros m i' j' h' d' tx' sp' Hct' Hm Ht'.
    destruct (proj1 (elem_of_cons _ _ _) (proj2 (Hl (tx_location m i' j' h'))
      ltac:(do 7 eexists; split; [done|]; split; [|done]; split; [lia|done]))) as [Heq|Hin].
    - by injection Heq as ->.
    - apply (list_elem_of_fmap_2 loc_txnum), Hlt in Hin. cbn in Hin. lia. }
  assert (history_below bs t sh n) as Hb'.
  { intros key a Hk. rewrite (Hb key a Hk).
    split; intros (m & He & Hm); exists m; split; try done; try lia.
    destruct (expected_tx _ _ _ _ _ He) as (i' & j' & p & h' & d' & tx' & sp' & Hct' & Ht' & _).
    destruct (decide (m < n0)); [done|].
    specialize (Hfirst _ _ _ _ _ _ _ Hct' ltac:(lia) Ht'). lia. }
  exists n, i, j, h, d, tx, sp. split_and!; [done..|].
  intros t' Ha. exists (n + 1). split; [by eapply history_below_next|]. split; [done|].
  intros loc. split.
  - intros Hin. pose proof (Hlt _ (list_elem_of_fmap_2 loc_txnum _ _ Hin)) as Hlt'.
    destruct (proj1 (Hl loc)) as (m & i' & j' & h' & d' & tx' & sp' & Hct' & [Hm Ht'] & ->); [by right|].
    cbn in Hlt'. do 7 eexists. split; [done|]. split; [|done]. split; [lia|done].
  - intros (m & i' & j' & h' & d' & tx' & sp' & Hct' & [Hm Ht'] & ->).
    destruct (proj1 (elem_of_cons _ _ _) (proj2 (Hl (tx_location m i' j' h'))
      ltac:(do 7 eexists; split; [done|]; split; [|done]; split; [lia|done]))) as [Heq|Hin]; [|done].
    injection Heq as ->. lia.
Qed.

(** Only rows of the script change. *)
Definition touches_only sh t t' : Prop :=
  tb_headers t' = tb_headers t ∧ tb_transactions t' = tb_transactions t ∧ tb_watch t' = tb_watch t ∧
  ∀ key, hk_script_hash key ≠ sh → tb_history t' !! key = tb_history t !! key.

Lemma adds_touches_only bs sh n t t' : adds t t' (expected bs sh n) → touches_only sh t t'.
Proof using Type.
  intros (H1 & H2 & H3 & H4). split_and!; [done..|]. intros key Hk. apply option_eq. intros a.
  rewrite H4. split; [|by left]. intros [?|He%expected_key]; done.
Qed.

Lemma add_script_history_ok bs sh locs rows c r c' :
  chain_batches (W := W) bs → rows_ok bs (ca_tables c) → pending bs (ca_tables c) sh locs →
  add_script_history rows (sh, locs) c = (Ok r, c') →
  rows_ok bs (ca_tables c') ∧ history_complete bs (ca_tables c') sh ∧
  touches_only sh (ca_tables c) (ca_tables c').
Proof using HSL NL SLL STL VIL.
  intros Hcb. unfold add_script_history. cbn [fst snd]. revert rows c.
  induction locs as [|loc locs IH]; intros rows c Hok Hp; cbn [st_foldM].
  { intros [_ ->]%st_ret_ok. split_and!; [done|by apply pending_nil|done]. }
  intros (r1 & c1 & Ha & Hr)%st_bind_ok.
  destruct (pending_cons _ _ _ _ _ Hcb Hp) as (n & i & j & h & d & tx & sp & -> & Hct & Ht & Hb & Hnext).
  pose proof (add_location_checked _ _ _ _ _ _ Ha) as [[Hk _] _].
  pose proof (add_location_adds _ _ _ _ _ _ _ _ _ _ _ _ _ Hcb Hct Ht Hok Hb Ha) as Hadd.
  apply IH in Hr as (? & ? & H1 & H2 & H3 & H4); [|by eapply adds_rows_ok, Hok; [|apply Hk, Hok]|by apply Hnext].
  destruct (adds_touches_only _ _ _ _ _ Hadd) as (K1 & K2 & K3 & K4).
  split_and!; [done..|]. split_and!; [congruence..|]. intros key Hkey. by rewrite H4, K4.
Qed.

Lemma touches_only_pending bs t t' sh sh' locs :
  touches_only sh t t' → sh' ≠ sh → pending bs t sh' locs → pending bs t' sh' locs.
Proof using Type.
  intros (_ & _ & _ & Ht) Hne (n & Hb & Hl). exists n. split; [|done].
  intros key a Hk. rewrite Ht by congruence. by apply Hb.
Qed.

(** Every script of the list ends up complete. *)
Lemma add_history_ok bs entries rows c r c' :
  chain_batches (W := W) bs → NoDup entries.*1 → rows_ok bs (ca_tables c) →
  Forall (λ e, pending bs (ca_tables c) e.1 e.2) entries →
  st_foldM add_script_history rows entries c = (Ok r, c') →
  rows_ok bs (ca_tables c') ∧ Forall (λ e, history_complete bs (ca_tables c') e.1) entries ∧
  (∀ key, hk_script_hash key ∉ entries.*1 →
     tb_history (ca_tables c') !! key = tb_history (ca_tables c) !! key) ∧
  tb_headers (ca_tables c') = tb_headers (ca_tables c) ∧
  tb_watch (ca_tables c') = tb_watch (ca_tables c).
Proof using HSL NL SLL STL VIL.
  intros Hcb. revert rows c. induction entries as [|[sh locs] es IH]; intros rows c Hnd Hok Hp; cbn [st_foldM].
  { intros [_ ->]%st_ret_ok. done. }
  intros (r1 & c1 & Ha & Hr)%st_bind_ok. cbn in Hnd. apply NoDup_cons in Hnd as [Hn Hnd].
  apply Forall_cons in Hp as [Hp Hps]. cbn [fst snd] in Hp.
  destruct (add_script_history_ok _ _ _ _ _ _ _ Hcb Hok Hp Ha) as (Hok1 & Hc & Ht).
  apply IH in Hr as (Hok' & Hf & Hsame & Hh & Hw); [|done..|].
  - pose proof Ht as (T1 & T2 & T3 & T4). split_and!; [done| | |congruence..].
    + constructor; [|done]. cbn. intros key a Hk. rewrite Hsame by (by rewrite Hk). by apply Hc.
    + intros key Hk. cbn in Hk. apply not_elem_of_cons in Hk as [Hk1 Hk2]. by rewrite Hsame, T4.
  - eapply Forall_impl; [apply Forall_and; split; [exact Hps|apply Forall_forall; intros e He; exact He]|].
    intros e [He Hin]. eapply touches_only_pending; [done| |done]. intros <-. apply Hn.
    by apply list_elem_of_fmap_2.
Qed.

(** ** Reorgs *)

(** Chains with a common block at height [k] agree up to it. *)
Lemma chain_take bs n : chain_batches (W := W) bs → chain_batches (W := W) (take n bs).
Proof using Type. rewrite <-(take_drop n bs) at 1. apply chain_batches_app. Qed.

Lemma chain_common bs bs' k b b' :
  chain_batches (W := W) bs → chain_batches (W := W) bs' → bs !! k = Some b → bs' !! k = Some b' →
  ih_hash (batch_header b) = ih_hash (batch_header b') →
  take (Datatypes.S k) bs = take (Datatypes.S k) bs'.
Proof using HSL NL SLL VIL.
  intros Hc Hc' Hb Hb' Heq. rewrite (take_S_r _ _ _ Hb), (take_S_r _ _ _ Hb').
  destruct (chain_prefix_unique (take k bs) (take k bs') b b') as [-> ->]; try done.
  - rewrite <-(take_S_r _ _ _ Hb). by apply chain_take.
  - rewrite <-(take_S_r _ _ _ Hb'). by apply chain_take.
Qed.

Lemma lookup_common {A} (l l' : list A) k i : take k l = take k l' → (i < k)%nat → l !! i = l' !! i.
Proof using Type. intros Ht Hi. by rewrite <-(lookup_take_lt l k i), Ht, lookup_take_lt. Qed.

Lemma chain_tx_common bs bs' k n i j h d tx spent :
  take k bs = take k bs' → (i < k)%nat →
  chain_tx (W := W) bs n i j h d tx spent → chain_tx (W := W) bs' n i j h d tx spent.
Proof using Type.
  intros Ht Hi [H1 H2 H3 H4 H5].
  assert (∀ i, (i < k)%nat → (batch_header <$> bs) !! i = (batch_header <$> bs') !! i) as Hl.
  { intros x Hx. by rewrite !list_lookup_fmap, (lookup_common _ _ _ _ Ht). }
  split; [by rewrite <-Hl|done| |done|done].
  rewrite H3. f_equal. destruct i as [|i]; [done|]. cbn [first_txnum]. by rewrite Hl by lia.
Qed.

Lemma script_tx_common bs bs' k sh n i j p :
  take k bs = take k bs' → (i < k)%nat → script_tx bs sh n i j p → script_tx bs' sh n i j p.
Proof using Type.
  intros Ht Hi (h & d & tx & sp & Hct & ? & ?). exists h, d, tx, sp. split_and!; [|done..].
  by eapply chain_tx_common.
Qed.

Lemma script_tx_le bs sh n i j p m i' j' q :
  chain_batches (W := W) bs → script_tx bs sh n i j p → script_tx bs sh m i' j' q → m < n → (i' ≤ i)%nat.
Proof using HSL NL SLL VIL.
  intros Hcb (h & d & tx & sp & Hct & _) (h' & d' & tx' & sp' & Hct' & _) Hlt.
  eapply (chain_tx_le bs n i j h d tx sp); [done..|lia].
Qed.

(** The block of a row. *)
Lemma expected_block bs sh n key a :
  expected bs sh n key a →
  ∃ i j p, script_tx bs sh n i j p ∧ hk_block_height key = Z.of_nat i ∧ hk_block_offset key = Z.of_nat j.
Proof using Type. destruct 1; by do 3 eexists. Qed.

(** Rows of the common blocks are the same. *)
Lemma expected_common bs bs' k sh n key a :
  chain_batches (W := W) bs → take k bs = take k bs' → hk_block_height key < Z.of_nat k →
  expected bs sh n key a → expected bs' sh n key a.
Proof using HSL NL SLL VIL.
  intros Hcb Ht Hk. destruct 1 as [i j p v a Hp Hv|i j p x op a Hp Hx (m & i' & j' & q & v & Hq & Hm & Hid & Hv & Hpay)];
    cbn in Hk.
  - eapply expected_funding; [|done]. eapply script_tx_common; [done|lia|done].
  - eapply expected_spending; [eapply script_tx_common; [done|lia|done]|done|].
    exists m, i', j', q, v. split_and!; try done.
    pose proof (script_tx_le _ _ _ _ _ _ _ _ _ _ Hcb Hp Hq Hm).
    eapply script_tx_common; [done|lia|done].
Qed.

(** The tables keep exactly the rows below height [k]. *)
Record kept_below (k : Z) t t' : Prop := {
  kb_headers x row : tb_headers t' !! x = Some row ↔ tb_headers t !! x = Some row ∧ x < k;
  kb_transactions p row :
    tb_transactions t' !! p = Some row ↔ tb_transactions t !! p = Some row ∧ p.1 < k;
  kb_history key a : tb_history t' !! key = Some a ↔ tb_history t !! key = Some a ∧ hk_block_height key < k;
  kb_watch : tb_watch t' = tb_watch t;
}.

Lemma delete_kept_below k t : kept_below k t (delete_headers_from k t).
Proof using Type. split; cbn; [..|done]; intros; apply map_lookup_filter_Some. Qed.

(** Without rows at [k] and above nothing has to be deleted. *)
Lemma none_kept_below k t :
  tables_ok t → (∀ x row, tb_headers t !! x = Some row → x < k) → kept_below k t t.
Proof using Type.
  intros Ht Hk. split; [..|done].
  - intros x row. split; [|tauto]. intros Hx. split; [done|by eapply Hk].
  - intros [x y] row. split; [|tauto]. intros Hx. split; [done|].
    destruct (to_header _ Ht _ _ _ Hx) as [r Hr]. by eapply Hk.
  - intros key a. split; [|tauto]. intros Hx. split; [done|].
    destruct (to_transaction _ Ht _ _ Hx) as [r Hr]. destruct (to_header _ Ht _ _ _ Hr) as [r' Hr'].
    by eapply Hk.
Qed.

(** *** The loop of [drop_stale_blocks] *)

Lemma headers_desc_ok t :
  StronglySorted (λ a b, b.1 < a.1) (headers_desc t) ∧
  ∀ x h, (x, h) ∈ headers_desc t ↔ ∃ raw, tb_headers t !! x = Some (h, raw).
Proof using Type.
  unfold headers_desc.
  set (l := (λ p : Z * (hash32 * bytes), (p.1, p.2.1)) <$> map_to_list (tb_headers t)).
  assert (NoDup (fst <$> sort_by Z.ge fst l)) as Hnd.
  { rewrite (sort_by_perm Z.ge fst l). unfold l. rewrite <-list_fmap_compose.
    apply NoDup_fst_map_to_list. }
  split.
  - pose proof (sort_by_sorted Z.ge fst l) as Hs. revert Hnd Hs. generalize (sort_by Z.ge fst l).
    intros s Hnd Hs. specialize (Hs ltac:(intros ???; lia) ltac:(intros ??; lia)).
    induction s as [|x s IH]; [constructor|]. cbn in Hnd, Hs. apply NoDup_cons in Hnd as [Hn Hnd].
    apply StronglySorted_inv in Hs as [Hs Hx]. constructor; [by apply IH|].
    rewrite Forall_forall in Hx. apply Forall_forall. intros y Hy.
    pose proof (Hx _ (list_elem_of_fmap_2 fst _ _ Hy)). cbn in *.
    destruct (decide (x.1 = y.1)) as [Heq|]; [|lia]. exfalso. apply Hn. rewrite Heq.
    by apply list_elem_of_fmap_2.
  - intros x h. rewrite (sort_by_perm Z.ge fst l). unfold l. rewrite list_elem_of_fmap. split.
    + intros ([y [h' raw]] & [= -> ->] & Hin%elem_of_map_to_list). by exists raw.
    + intros [raw Hx]. exists (x, (h, raw)). split; [done|]. by apply elem_of_map_to_list.
Qed.

(** The loop stops at the highest block of the chain; what it passed is stale. *)
Lemma stale_from_ok rows cached acc :
  ∃ stale rest, cached = stale ++ rest ∧
    stale_from rows cached acc = from_option (λ p : Z * hash32, Some p.1) acc (last stale) ∧
    match rest with
    | [] => True
    | (x, h) :: _ => ∃ header, get_header rows h x = inl header
    end.
Proof using Type.
  revert acc. induction cached as [|[x h] cached IH]; intros acc; cbn [stale_from].
  { by exists [], []. }
  destruct (get_header rows h x) as [header|] eqn:E.
  - exists [], ((x, h) :: cached). split_and!; [done..|]. by exists header.
  - destruct (IH (Some x)) as (stale & rest & -> & -> & Hr). exists ((x, h) :: stale), rest.
    split_and!; [done| |done]. rewrite last_cons. by destruct (last stale).
Qed.

(** What is left after dropping the stale blocks lies below the height after
    the highest block of the chain. *)
Lemma drop_stale_ok rows t :
  tables_ok t →
  ∃ k, kept_below k t (drop_stale rows t) ∧
    ((∀ x, tb_headers (drop_stale rows t) !! x = None) ∨
     ∃ x row header, tb_headers t !! x = Some row ∧ get_header rows row.1 x = inl header ∧ x < k ∧
       ∀ y row', tb_headers t !! y = Some row' → y < k → y ≤ x).
Proof using Type.
  intros Ht. destruct (headers_desc_ok t) as [Hs Hin].
  destruct (stale_from_ok rows (headers_desc t) None) as (stale & rest & Hl & Hst & Hr).
  rewrite Hl in Hs. apply StronglySorted_app in Hs as (Hlt & Hss & Hsr).
  assert (∃ k, kept_below k t (drop_stale rows t) ∧ (∀ p, p ∈ stale → k ≤ p.1) ∧
    (∀ p, p ∈ rest → p.1 < k)) as (k & Hk & Hk1 & Hk2).
  { unfold drop_stale. rewrite Hst. destruct stale as [|p stale _] using rev_ind; cbn.
    - assert (∀ k, (∀ p, p ∈ rest → p.1 < k) → kept_below k t t) as Hnone.
      { intros k Hk. apply none_kept_below; [done|]. intros x [h raw] Hx.
        apply (Hk (x, h)). rewrite app_nil_l in Hl. rewrite <-Hl. apply Hin. by exists raw. }
      destruct rest as [|[x h] rest].
      + exists 0. split_and!; [apply Hnone|..]; by intros ? ?%not_elem_of_nil.
      + exists (x + 1). assert (∀ p, p ∈ (x, h) :: rest → p.1 < x + 1) as Hb.
        { apply StronglySorted_inv in Hsr as [_ Hx]. rewrite Forall_forall in Hx.
          intros p [->|Hp%Hx]%elem_of_cons; cbn in *; lia. }
        split_and!; [by apply Hnone|by intros ? ?%not_elem_of_nil|done].
    - rewrite last_snoc. cbn. exists p.1. split; [apply delete_kept_below|].
      apply StronglySorted_app in Hss as (Hsp & _ & _). split.
      + intros q [Hq|Hq]%elem_of_app; [|apply list_elem_of_singleton in Hq as ->; lia].
        pose proof (Hsp q p Hq ltac:(left)). lia.
      + intros q Hq. apply Hlt; [|done]. apply elem_of_app. right. left. }
  exists k. split; [done|]. destruct rest as [|[x h] rest].
  - left. intros x. destruct (tb_headers (drop_stale rows t) !! x) as [[h raw]|] eqn:E; [|done].
    apply (kb_headers _ _ _ Hk) in E as [Hx Hxk].
    assert ((x, h) ∈ stale ++ []) as Hs by (rewrite <-Hl; apply Hin; by exists raw).
    rewrite app_nil_r in Hs. apply Hk1 in Hs. cbn in Hs. lia.
  - right. destruct Hr as [header Hh].
    assert (∃ raw, tb_headers t !! x = Some (h, raw)) as [raw Hx].
    { apply Hin. rewrite Hl. apply elem_of_app. right. left. }
    exists x, (h, raw), header. split_and!; [done..| |].
    + apply (Hk2 (x, h)). left.
    + intros y [h' raw'] Hy Hyk. assert ((y, h') ∈ stale ++ (x, h) :: rest) as Hs
        by (rewrite <-Hl; apply Hin; by exists raw').
      apply elem_of_app in Hs as [Hs%Hk1|Hs]; [cbn in Hs; lia|].
      apply StronglySorted_inv in Hsr as [_ Hx']. rewrite Forall_forall in Hx'.
      apply elem_of_cons in Hs as [[= -> ->]|Hs%Hx']; cbn in *; lia.
Qed.

(** ** The invariant between synchronizations *)

(** The number after the transactions of the latest block a script has rows
    of: its rows are complete below it. *)
Definition synced_below bs t sh : TxNum :=
  match max_height t sh with
  | Some x => from_option ih_next_txnum txnum_default ((batch_header <$> bs) !! Z.to_nat x)
  | None => txnum_default
  end.

Record cache_ok bs t : Prop := {
  co_rows : rows_ok bs t;
  co_history sh : is_Some (tb_watch t !! sh) → history_below bs t sh (synced_below bs t sh);
}.

Lemma elem_heights_of t sh x :
  x ∈ heights_of t sh ↔
  ∃ key a, tb_history t !! key = Some a ∧ hk_script_hash key = sh ∧ hk_block_height key = x.
Proof using Type.
  unfold heights_of. rewrite list_elem_of_fmap. setoid_rewrite list_elem_of_filter.
  setoid_rewrite list_elem_of_fmap. split.
  - intros (k & -> & <- & [k' a] & -> & Hin%elem_of_map_to_list). by exists k', a.
  - intros (k & a & Hk & Hs & <-). exists k. split; [done|]. split; [done|].
    exists (k, a). split; [done|]. by apply elem_of_map_to_list.
Qed.

Lemma max_height_ok t sh :
  match max_height t sh with
  | Some x => (∃ key a, tb_history t !! key = Some a ∧ hk_script_hash key = sh ∧ hk_block_height key = x) ∧
              ∀ key a, tb_history t !! key = Some a → hk_script_hash key = sh → hk_block_height key ≤ x
  | None => ∀ key a, tb_history t !! key = Some a → hk_script_hash key ≠ sh
  end.
Proof using Type.
  unfold max_height. set (f := λ h m, Some (from_option (Z.max h) h m)).
  assert (∀ l : list Z, match foldr f None l with
    | Some x => x ∈ l ∧ ∀ y, y ∈ l → y ≤ x | None => l = [] end) as Hf.
  { intros l. induction l as [|y l IH]; [done|]. cbn. destruct (foldr f None l) as [x|]; cbn.
    - destruct IH as [Hx Hm]. split.
      + destruct (Z.max_spec y x) as [[_ ->]|[_ ->]]; [by right|left].
      + intros z [->|Hz%Hm]%elem_of_cons; lia.
    - subst l. split; [left|]. intros z ->%list_elem_of_singleton. lia. }
  specialize (Hf (heights_of t sh)). destruct (foldr f None (heights_of t sh)) as [x|].
  - destruct Hf as [Hx%elem_heights_of Hm]. split; [done|]. intros key a Hk Hs. apply Hm, elem_heights_of.
    by exists key, a.
  - intros key a Hk Hs. apply (not_elem_of_nil (hk_block_height key)). rewrite <-Hf.
    apply elem_heights_of. by exists key, a.
Qed.

(** A row lies in a block up to [x] when its transaction is numbered below the
    end of block [x]. *)
Lemma expected_height bs sh m key a x h :
  chain_batches (W := W) bs → expected bs sh m key a → (batch_header <$> bs) !! x = Some h →
  m < ih_next_txnum h ↔ hk_block_height key ≤ Z.of_nat x.
Proof using HSL NL SLL VIL.
  intros Hcb (i & j & p & (h' & d & tx & sp & Hct & _) & -> & _)%expected_block Hx.
  destruct (built_headers_wf _ Hcb) as [_ Ha].
  destruct (chain_tx_range _ _ _ _ _ _ _ _ Hcb Hct) as [[Hi Hm] _]. split.
  - intros Hlt. destruct (decide (i ≤ x)%nat); [lia|]. destruct i as [|k]; [lia|]. cbn [first_txnum] in Hm.
    destruct (lookup_lt_is_Some_2 (batch_header <$> bs) k) as [g Hg]; [apply lookup_lt_Some in Hi; lia|].
    rewrite Hg in Hm. pose proof (txnums_ascending_le _ x k h g Ha ltac:(lia) Hx Hg). lia.
  - intros Hle. pose proof (txnums_ascending_le _ i x h' h Ha ltac:(lia) Hi Hx). lia.
Qed.

(** The block of a row of the tables. *)
Lemma row_block bs t key a :
  rows_ok bs t → tb_history t !! key = Some a →
  ∃ i b raw, hk_block_height key = Z.of_nat i ∧ bs !! i = Some b ∧
    tb_headers t !! hk_block_height key = Some (ih_hash (batch_header b), raw).
Proof using Type.
  intros [Ht _ Hh _] Hk. destruct (to_transaction _ Ht _ _ Hk) as [row Hr].
  destruct (to_header _ Ht _ _ _ Hr) as [row' Hr'].
  destruct (Hh _ _ Hr') as (i & b & Hi & Hb & ->). by exists i, b, (raw_header b).
Qed.

Lemma complete_below bs t sh :
  chain_batches (W := W) bs → rows_ok bs t → history_complete bs t sh →
  history_below bs t sh (synced_below bs t sh).
Proof using HSL NL SLL VIL.
  intros Hcb Hok Hc key a Hk. rewrite (Hc key a Hk). split; [|intros (m & ? & _); by exists m].
  intros (m & He). exists m. split; [done|].
  assert (tb_history t !! key = Some a) as Hrow by (apply Hc; eauto).
  pose proof (max_height_ok t sh) as Hm. unfold synced_below. destruct (max_height t sh) as [x|].
  - destruct Hm as [(key' & a' & Hrow' & _ & Hx) Hmax].
    destruct (row_block _ _ _ _ Hok Hrow') as (i & b & raw & Hi & Hb & _).
    rewrite Hx in Hi. rewrite Hi in Hmax |- *. rewrite Nat2Z.id, list_lookup_fmap, Hb. cbn.
    eapply expected_height; [done..|by rewrite list_lookup_fmap, Hb|]. by eapply Hmax.
  - by destruct (Hm key a).
Qed.

(** A chain and the one it was cached from agree on the blocks kept. *)
Lemma drop_stale_common bs0 bs t :
  chain_batches (W := W) bs0 → chain_batches (W := W) bs → tables_ok t → headers_ok bs0 t →
  ∃ K k, take K bs0 = take K bs ∧ kept_below k t (drop_stale (batch_header <$> bs) t) ∧
    ∀ y row, tb_headers (drop_stale (batch_header <$> bs) t) !! y = Some row → y < Z.of_nat K.
Proof using HSL NL SLL VIL.
  intros Hc0 Hc Ht Hh.
  destruct (drop_stale_ok (batch_header <$> bs) t Ht) as (k & Hk & [Hn|(x & row & hd & Hx & Hg & Hlt & Hmax)]).
  - exists 0%nat, k. split_and!; [done..|]. intros y row Hy. by rewrite Hn in Hy.
  - destruct (Hh _ _ Hx) as (i & b0 & -> & Hb0 & ->). cbn [fst] in Hg.
    unfold get_header in Hg. rewrite header_at_height_nat, list_lookup_fmap in Hg.
    destruct (bs !! i) as [b|] eqn:Hb; [|done]. cbn in Hg. destruct (decide _) as [Heq|]; [|done].
    exists (Datatypes.S i), k. split_and!; [|done|].
    + by eapply chain_common.
    + intros y row [Hy Hyk]%(kb_headers _ _ _ Hk). specialize (Hmax _ _ Hy Hyk). lia.
Qed.

(** After dropping the stale blocks the cache is one of the current chain. *)
Lemma drop_stale_cache_ok bs0 bs t :
  chain_batches (W := W) bs0 → chain_batches (W := W) bs → cache_ok bs0 t →
  cache_ok bs (drop_stale (batch_header <$> bs) t).
Proof using HSL NL SLL VIL.
  intros Hc0 Hc [Hok Hhist]. pose proof Hok as [Ht Hw Hh Hx].
  destruct (drop_stale_common bs0 bs t) as (K & k & HK & Hkept & Hbelow); [done..|].
  set (t' := drop_stale _ t) in *. pose proof (drop_stale_keeps (batch_header <$> bs) t Ht : tables_ok t') as Ht'.
  assert (rows_ok bs t') as Hok'.
  { split; [done|..].
    - intros sh s x. rewrite (kb_watch _ _ _ Hkept). apply Hw.
    - intros x row Hr. pose proof (Hbelow _ _ Hr) as Hlt. apply (kb_headers _ _ _ Hkept) in Hr as [Hr _].
      destruct (Hh _ _ Hr) as (i & b & -> & Hb & ->). exists i, b. split_and!; [done| |done].
      by rewrite <-(lookup_common _ _ _ _ HK) by lia.
    - intros x y row Hr. destruct (to_header _ Ht' _ _ _ Hr) as [hrow Hlt%Hbelow].
      apply (kb_transactions _ _ _ Hkept) in Hr as [Hr _].
      destruct (Hx _ _ _ Hr) as (n & i & j & h & d & tx & sp & -> & -> & Hct & ? & ?).
      exists n, i, j, h, d, tx, sp. split_and!; [done..| |done|done].
      eapply chain_tx_common; [done|lia|done]. }
  split; [done|]. intros sh Hsh key a Hk.
  rewrite (kb_watch _ _ _ Hkept) in Hsh. specialize (Hhist sh Hsh).
  pose proof (max_height_ok t' sh) as Hm'. unfold synced_below. destruct (max_height t' sh) as [x|].
  - destruct Hm' as [(key' & a' & Hrow' & Hs' & Hx') Hmax].
    destruct (row_block _ _ _ _ Hok' Hrow') as (i & b & raw & Hi & Hb & Hhd). rewrite Hx' in Hi, Hhd.
    rewrite Hi in Hx', Hmax, Hhd |- *. rewrite Nat2Z.id. pose proof (Hbelow _ _ Hhd) as HiK.
    assert ((batch_header <$> bs) !! i = Some (batch_header b)) as Hbh by (by rewrite list_lookup_fmap, Hb).
    rewrite Hbh. cbn [from_option]. split.
    + intros Hrow. pose proof (Hmax _ _ Hrow Hk) as Hle. pose proof Hrow as Hr.
      apply (kb_history _ _ _ Hkept) in Hr as [(m & He & _)%Hhist Hlt]; [|done].
      exists m. assert (expected bs sh m key a) as He' by (eapply (expected_common bs0 bs K); [done..|lia|done]).
      split; [done|]. by eapply (expected_height bs).
    + intros (m & He & Hm). assert (hk_block_height key ≤ Z.of_nat i) as Hle by (by eapply (expected_height bs)).
      pose proof Hrow' as [Hrow0 Hk0]%(kb_history _ _ _ Hkept). apply (kb_history _ _ _ Hkept).
      split; [|lia]. apply Hhist; [done|]. exists m.
      assert (expected bs0 sh m key a) as He' by (eapply (expected_common bs bs0 K); [done|by symmetry; exact HK|lia|done]).
      split; [done|]. pose proof (max_height_ok t sh) as Hm0. unfold synced_below.
      destruct (max_height t sh) as [x2|]; [|by destruct (Hm0 _ _ Hrow0)].
      destruct Hm0 as [(key2 & a2 & Hrow2 & _ & Hx2) Hmax0].
      destruct (row_block _ _ _ _ Hok Hrow2) as (i2 & b2 & raw2 & Hi2 & Hb2 & _). rewrite Hx2 in Hi2.
      rewrite Hi2 in Hmax0 |- *. rewrite Nat2Z.id, list_lookup_fmap, Hb2. cbn.
      eapply (expected_height bs0); [done..|by rewrite list_lookup_fmap, Hb2|].
      pose proof (Hmax0 _ _ Hrow0 Hs'). lia.
  - split; [by intros ?%Hm'|]. intros (m & He & Hm).
    destruct (expected_block _ _ _ _ _ He) as (i & j & p & (h & d & tx & sp & Hct & _) & _).
    apply (chain_tx_range _ _ _ _ _ _ _ _ Hc) in Hct as [_ ?]. unfold txnum_default in Hm. lia.
Qed.

(** ** What [sync] asks the index *)

Lemma new_locations_ok chain bs t sh :
  chain_inv (W := W) chain bs → cache_ok bs t → is_Some (tb_watch t !! sh) →
  ∃ locs, new_locations chain t sh = Ok (sh, locs) ∧ pending bs t sh locs.
Proof using HSL NL RL SLL VIL.
  intros Hinv [Hok Hh] Hsh. specialize (Hh sh Hsh). pose proof (ci_batches _ _ Hinv) as Hcb.
  assert (∃ latest, latest_header (ic_headers chain) t sh = Ok latest ∧
    from_option ih_next_txnum txnum_default latest = synced_below bs t sh ∧
    is_u32 (synced_below bs t sh)) as (latest & Hl & Hf & Hu).
  { unfold latest_header, synced_below. pose proof (max_height_ok t sh) as Hm.
    destruct (max_height t sh) as [x|]; [|by eexists].
    destruct Hm as [(key & a & Hrow & _ & Hx) _].
    destruct (row_block _ _ _ _ Hok Hrow) as (i & b & raw & Hi & Hb & Hhd).
    rewrite Hx in Hi, Hhd. rewrite Hi in Hhd |- *. rewrite Nat2Z.id, list_lookup_fmap, Hb, Hhd.
    osimpl. cbn [fst].
    unfold get_header. rewrite (ci_headers _ _ Hinv), header_at_height_nat, list_lookup_fmap, Hb. cbn.
    rewrite decide_True by done. exists (Some (batch_header b)). split_and!; [done..|].
    destruct (built_headers_wf _ Hcb) as [_ [_ Ha]]. rewrite Forall_fmap in Ha.
    exact (Forall_lookup_1 _ _ _ _ Ha Hb). }
  destruct (locations_by_scripthash_spec (E := chain_error slices_error) chain bs sh latest Hinv)
    as (locs & Hlocs & Hloc); [|by rewrite Hf|].
  { destruct Hsh as [[s x] Hs]. rewrite (ro_watch _ _ Hok _ _ _ Hs). apply sha256_wf. }
  exists locs. unfold new_locations. rewrite Hl. osimpl. rewrite Hlocs. osimpl.
  rewrite bset_of_sorted by apply Hloc. split; [done|].
  exists (synced_below bs t sh). split; [done|]. by rewrite <-Hf.
Qed.

Lemma elem_watched t sh : sh ∈ watched t ↔ is_Some (tb_watch t !! sh).
Proof using Type. unfold watched. by rewrite merge_sort_Permutation, elem_of_elements, elem_of_dom. Qed.
Lemma watched_nodup t : NoDup (watched t).
Proof using Type. unfold watched. rewrite merge_sort_Permutation. apply NoDup_elements. Qed.

(** It drops the stale blocks and never fails on its own. *)
Lemma sync_history_ok chain bs0 bs c :
  chain_batches (W := W) bs0 → chain_inv (W := W) chain bs → cache_ok bs0 (ca_tables c) →
  ∃ entries c', sync_history chain c = (Ok entries, c') ∧ cache_ok bs (ca_tables c') ∧
    tb_watch (ca_tables c') = tb_watch (ca_tables c) ∧
    entries.*1 = watched (ca_tables c') ∧
    Forall (λ e, pending bs (ca_tables c') e.1 e.2) entries.
Proof using HSL NL RL SLL VIL.
  intros Hc0 Hinv Hok. pose proof (ci_batches _ _ Hinv) as Hcb.
  set (t := drop_stale (ic_headers chain) (ca_tables c)).
  assert (cache_ok bs t) as Hok'.
  { unfold t. rewrite (ci_headers _ _ Hinv). by apply (drop_stale_cache_ok bs0). }
  assert (∃ entries, mapM (new_locations chain t) (watched t) = Ok entries ∧
    entries.*1 = watched t ∧ Forall (λ e, pending bs t e.1 e.2) entries) as (entries & Hm & He & Hp).
  { assert (∀ sh, sh ∈ watched t → is_Some (tb_watch t !! sh)) as Hw by (intros; by apply elem_watched).
    induction (watched t) as [|sh l IH]; [by exists []|].
    destruct (new_locations_ok chain bs t sh) as (locs & Hl & Hp); [done..|apply Hw; left|].
    destruct IH as (es & He & Hes & Hps); [intros; apply Hw; by right|].
    exists ((sh, locs) :: es). cbn [mapM]. rewrite Hl. osimpl. rewrite He. osimpl.
    split_and!; [done|cbn; by f_equal|by constructor]. }
  exists entries, {| ca_tables := t; ca_open := ca_open c; ca_node := ca_node c |}.
  split_and!; [|done|apply drop_stale_watch|done|done].
  apply st_bind_ok. exists tt, {| ca_tables := t; ca_open := ca_open c; ca_node := ca_node c |}.
  split; [done|]. unfold on_tables. cbn [ca_tables]. by rewrite Hm.
Qed.

(** ** Adding headers and transactions *)

(** Headers and transactions change, of [bs] still; history does not. *)
Definition same_history t t' : Prop := tb_history t' = tb_history t ∧ tb_watch t' = tb_watch t.
Definition fills bs : relation Tables := λ t t', (rows_ok bs t → rows_ok bs t') ∧ same_history t t'.
#[local] Instance fills_preorder bs : PreOrder (fills bs).
Proof using Type.
  split; [by intros t; split|]. intros a b d [H1 [H2 H3]] [H4 [H5 H6]].
  split; [auto|]. split; congruence.
Qed.

(** A loop over elements that satisfy [P]. *)
Lemma fold_fills {A B} (R : relation Tables) `{!PreOrder R} (f : B → A → stM (Cache W) cache_error B)
    (P : A → Prop) b l c r c' :
  (∀ b a c r c', P a → f b a c = (Ok r, c') → R (ca_tables c) (ca_tables c')) →
  (∀ a, a ∈ l → P a) → st_foldM f b l c = (Ok r, c') → R (ca_tables c) (ca_tables c').
Proof using Type.
  intros Hf. revert b c. induction l as [|a l IH]; intros b c Hl; cbn [st_foldM].
  { by intros [_ ->]%st_ret_ok. }
  intros (b1 & c1 & Ha & Hr)%st_bind_ok. etrans; [eapply Hf; [|done]; apply Hl; left|].
  eapply IH; [|done]. intros; apply Hl; by right.
Qed.

(** A block of the chain, as [add_headers] is given it. *)
Definition block_entry bs (e : Z * IndexedHeader) : Prop :=
  ∃ i b, bs !! i = Some b ∧ e = (Z.of_nat i, batch_header b).

Lemma add_header_fills chain bs rows e c r c' :
  chain_inv (W := W) chain bs → block_entry bs e → add_header chain rows e c = (Ok r, c') →
  fills bs (ca_tables c) (ca_tables c').
Proof using HSL NL RL SLL VIL.
  intros Hinv (i & b & Hb & ->). unfold add_header. cbn [fst snd].
  intros (raw & c1 & [Hraw%map_err_ok ->]%st_lift_ok & H)%st_bind_ok.
  apply st_bind_ok in H as (raw' & c1 & [Hr%expect_ok ->]%st_lift_ok & H). subst raw.
  unfold block_header_raw_at_height in Hraw. rewrite (block_headers_raw_ok _ bs) in Hraw by done.
  osimpl in Hraw. injection Hraw as Hraw. rewrite (drop_S _ _ _ Hb) in Hraw. cbn in Hraw.
  injection Hraw as <-.
  apply st_bind_ok in H as (n & c1 & Hi%on_tables_ok & [_ ->]%st_ret_ok).
  pose proof (λ Ht, insert_header_keeps _ _ _ _ _ _ Ht Hi) as Hk.
  apply insert_header_ok in Hi as [->|(Heq & _ & _)]; [done|]. rewrite Heq in *.
  split; [|by split]. intros [Ht Hw Hh Hx]. split; cbn; [by apply Hk|done| |done].
  intros x row. cbn. intros [[<- <-]|[_ Hr]]%lookup_insert_Some; [|by apply Hh]. by exists i, b.
Qed.

(** A transaction of the chain, as [add_transactions] is given it. *)
Definition tx_entry bs (loc : Location) : Prop :=
  ∃ n i j h d tx sp, chain_tx (W := W) bs n i j h d tx sp ∧ loc = tx_location n i j h.

Lemma add_transaction_fills chain bs rows loc c r c' :
  chain_inv (W := W) chain bs → tx_entry bs loc → add_transaction chain rows loc c = (Ok r, c') →
  fills bs (ca_tables c) (ca_tables c').
Proof using HSL NL RL SLL VIL.
  intros Hinv (n & i & j & h & d & tx & sp & Hct & ->). unfold add_transaction.
  intros (bytes & c1 & Hb & H)%st_bind_ok.
  apply st_bind_ok in H as (raw & c2 & [Hraw ->]%st_lift_ok & H).
  destruct bytes as [|bytes]; [done|]. injection Hraw as ->.
  apply st_try_ok in Hb as [(raw' & Hb & [= <-])|(? & _ & ?)]; [|done].
  unfold on_index in Hb. destruct (get_tx_bytes chain (tx_location n i j h) (ca_node c)) as [o w] eqn:Eg.
  destruct o as [raw'| |]; [|done..]. injection Hb as -> <-.
  apply (get_tx_bytes_spec _ _ _ _ _ _ _ _ _ _ _ _ Hinv Hct) in Eg as ->.
  apply st_bind_ok in H as (id & c2 & [Hid%expect_ok ->]%st_lift_ok & H).
  apply st_bind_ok in H as (k & c2 & Hi%on_tables_ok & [_ ->]%st_ret_ok).
  cbn [ca_tables tx_location loc_block_height loc_block_offset] in Hi |- *.
  pose proof (λ Ht, insert_transaction_keeps _ _ _ _ _ _ _ Ht Hi) as Hk.
  apply insert_transaction_ok in Hi as [->|(Heq & _ & _ & _)]; [done|]. rewrite Heq in *.
  split; [|by split]. intros [Ht Hw Hh Hx]. split; cbn; [by apply Hk|done..|].
  intros x y row. cbn. intros [[[= <- <-] <-]|[_ Hr]]%lookup_insert_Some; [|by apply Hx].
  by exists n, i, j, h, d, tx, sp.
Qed.

Lemma fills_pending bs t t' sh locs : fills bs t t' → pending bs t sh locs → pending bs t' sh locs.
Proof using Type.
  intros [_ [Hh _]] (n & Hb & Hl). exists n. split; [|done]. intros key a. rewrite Hh. apply Hb.
Qed.

(** ** Synchronization *)

(** After a successful [sync] every watched script has exactly the rows of the
    current chain, whatever chain the cache was filled from before. *)
Lemma sync_body_ok chain bs0 bs c c' :
  chain_batches (W := W) bs0 → chain_inv (W := W) chain bs → cache_ok bs0 (ca_tables c) →
  sync_body chain c = (Ok tt, c') →
  cache_ok bs (ca_tables c') ∧
  ∀ sh, is_Some (tb_watch (ca_tables c) !! sh) → history_complete bs (ca_tables c') sh.
Proof using HSL NL RL SLL STL VIL.
  intros Hc0 Hinv Hok H. pose proof (ci_batches _ _ Hinv) as Hcb. unfold sync_body in H.
  apply st_bind_ok in H as (entries & c1 & He & H).
  destruct (sync_history_ok chain bs0 bs c) as (entries' & c1' & He' & Hok1 & Hw1 & Hes & Hp); [done..|].
  rewrite He in He'. injection He' as <- <-.
  assert (∀ loc, loc ∈ bset_of loc_txnum (entries ≫= snd) → tx_entry bs loc) as Htx.
  { intros loc ([sh locs] & Hl & Hin)%elem_bset_of%list_elem_of_bind. rewrite Forall_forall in Hp.
    destruct (Hp _ Hin) as (n & _ & _ & Hloc). cbn in Hl, Hloc.
    apply Hloc in Hl as (m & i & j & h & d & tx & sp & Hct & _ & ->). by do 8 eexists. }
  apply st_bind_ok in H as (r1 & c2 & Hh & H).
  apply (fold_fills (fills bs) _ (block_entry bs)) in Hh.
  2: { intros b a c0 r c0'. by apply add_header_fills. }
  2: { intros e (loc & -> & (m & i & j & h & d & tx & sp & Hct & ->)%Htx)%elem_bset_of%list_elem_of_fmap.
       pose proof (ct_batch _ _ _ _ _ _ _ _ Hct) as Hi. rewrite list_lookup_fmap in Hi.
       destruct (bs !! i) as [b|] eqn:Eb; [|done]. injection Hi as <-. by exists i, b. }
  apply st_bind_ok in H as (r2 & c3 & Ht & H).
  apply (fold_fills (fills bs) _ (tx_entry bs)) in Ht; [|by intros; eapply add_transaction_fills|done].
  assert (fills bs (ca_tables c1) (ca_tables c3)) as Hf by (by etrans).
  apply st_bind_ok in H as (r3 & c4 & Hhist & [_ ->]%st_ret_ok).
  apply add_history_ok with (bs := bs) in Hhist as (Hok' & Hall & Hsame & _ & Hw); [|done|..].
  - assert (∀ sh, is_Some (tb_watch (ca_tables c) !! sh) → history_complete bs (ca_tables c4) sh) as Hcomp.
    { intros sh Hsh. rewrite <-Hw1 in Hsh. apply elem_watched in Hsh. rewrite <-Hes in Hsh.
      apply list_elem_of_fmap in Hsh as (e & -> & Hin). rewrite Forall_forall in Hall. by apply Hall. }
    split; [|done]. split; [done|]. intros sh Hsh. apply complete_below; [done..|]. apply Hcomp.
    destruct Hf as [_ [_ Hfw]]. by rewrite <-Hw1, <-Hfw, <-Hw.
  - rewrite Hes. apply watched_nodup.
  - apply Hf, Hok1.
  - eapply Forall_impl; [exact Hp|]. intros e. by apply fills_pending.
Qed.

Lemma cache_sync_ok chain bs0 bs c c' :
  chain_batches (W := W) bs0 → chain_inv (W := W) chain bs → cache_ok bs0 (ca_tables c) →
  ca_open c = None → cache_sync chain c = (Ok tt, c') →
  cache_ok bs (ca_tables c') ∧ ca_open c' = None ∧
  tb_watch (ca_tables c') = tb_watch (ca_tables c) ∧
  ∀ sh, is_Some (tb_watch (ca_tables c) !! sh) → history_complete bs (ca_tables c') sh.
Proof using HSL NL RL SLL STL VIL.
  intros Hc0 Hinv Hok Ho H.
  pose proof (run_ok _ _ _ _ _ (sync_body_checked chain) Ho H) as (c1 & Hb & [_ Hw] & ->).
  apply (sync_body_ok _ bs0 bs) in Hb as [Hok' Hc]; [|done..]. done.
Qed.

(** *** Watching more addresses *)

Lemma empty_cache_ok : cache_ok [] tables_empty.
Proof using Type.
  split; [split|].
  - apply tables_empty_ok.
  - intros sh s x. cbn. by rewrite lookup_empty.
  - intros x row. cbn. by rewrite lookup_empty.
  - intros x y row. cbn. by rewrite lookup_empty.
  - intros sh [x Hx]. cbn in Hx. by rewrite lookup_empty in Hx.
Qed.

Lemma add_watch_cache_ok bs t addrs :
  chain_batches (W := W) bs → cache_ok bs t →
  cache_ok bs (with_tb_watch (tb_watch t ∪ list_to_map (address_entry <$> addrs)) t).
Proof using HSL NL SLL VIL.
  intros Hcb [[Ht Hw Hh Hx] Hhist]. set (t' := with_tb_watch _ t).
  assert (∀ sh, is_Some (tb_watch t !! sh) → is_Some (tb_watch t' !! sh)) as Hmono.
  { intros sh [x Hsh]. cbn. exists x. by apply lookup_union_Some_l. }
  split; [split; cbn; try done|].
  - destruct Ht as [H1 H2 H3 H4 H5]. split; cbn; try done. intros k a Hk. by eapply Hmono, H3.
  - intros sh script text [Hs|[_ Hs]]%lookup_union_Some_raw; [by eapply Hw|].
    apply elem_of_list_to_map_2, list_elem_of_fmap in Hs as (a & [= -> -> ->] & _). done.
  - intros sh _. destruct (tb_watch t !! sh) as [x|] eqn:E; [apply (Hhist sh); by eexists|].
    assert (∀ key a, tb_history t !! key = Some a → hk_script_hash key ≠ sh) as Hnone.
    { intros key a Hk <-. destruct (to_watch _ Ht _ _ Hk) as [y Hy]. congruence. }
    intros key a Hk. pose proof (max_height_ok t sh) as Hm. unfold synced_below.
    change (max_height t' sh) with (max_height t sh).
    destruct (max_height t sh) as [x|].
    { destruct Hm as [(k' & a' & Hk' & Hs' & _) _]. by destruct (Hnone _ _ Hk'). }
    split; [intros Hr; by destruct (Hnone _ _ Hr)|]. intros (m & He & Hlt). exfalso.
    destruct (expected_block _ _ _ _ _ He) as (i & j & p & (h & d & tx & sp & Hct & _) & _).
    apply (chain_tx_range _ _ _ _ _ _ _ _ Hcb) in Hct as [_ ?]. unfold txnum_default in Hlt. lia.
Qed.
End history.
