(* ===== verification/History.v ===== *)
(** * The history query

    The query of the address cache's tables that the command-line tool and the
    web front end run: the sums of the rows of each transaction, joined with the
    transaction and its header, in chain order. *)

From S2P Require Import Prelude External Index TxPos HashIndex Fmt Headers Batch Store Client Chain.
From S2P Require Import Cache.

(** [sum(amount)]: SQLite fails on overflow. *)
Definition in_i64 (z : Z) : bool := (- 2 ^ 63 <=? z) && (z <? 2 ^ 63).
Definition sql_sum (amounts : list Z) : option Z :=
  foldl (λ s a, s ← s; if in_i64 (s + a) then Some (s + a) else None) (Some 0) amounts.

(** The rows of the history of a transaction, by its place. *)
Definition row_place (key : HistoryKey) : Z * Z := (hk_block_height key, hk_block_offset key).
Definition amounts_at (t : Tables) (place : Z * Z) : list Z :=
  snd <$> filter (λ e : HistoryKey * Z, row_place e.1 = place) (map_to_list (tb_history t)).
(** [GROUP BY], in the order of the query. *)
Definition history_places (t : Tables) : list (Z * Z) :=
  sort_by (lex_le Z.lt Z.le) id (remove_dups (row_place <$> (map_to_list (tb_history t)).*1)).

Record DeltaRow := {
  dr_header : bytes; dr_offset : Z; dr_height : Z; dr_txid : hash32; dr_delta : Z;
}.
(** One row of the join; a place without its transaction or header gives none. *)
Definition delta_row (t : Tables) (place : Z * Z) : option (option DeltaRow) :=
  delta ← sql_sum (amounts_at t place);
  Some (tx ← tb_transactions t !! place; header ← tb_headers t !! place.1;
        Some {| dr_header := header.2; dr_offset := place.2; dr_height := place.1;
                dr_txid := tx.1; dr_delta := delta |}).
Definition delta_rows (t : Tables) : option (list DeltaRow) :=
  rows ← mapM (delta_row t) (history_places t); Some (omap id rows).

(** * Properties *)

(** ** Sums *)

Lemma sql_sum_from s amounts r :
  foldl (λ s a, s ← s; if in_i64 (s + a) then Some (s + a) else None) s amounts = Some r →
  ∃ s0, s = Some s0 ∧ r = s0 + sumZ amounts.
Proof.
  revert s. induction amounts as [|a l IH]; intros s; cbn [foldl].
  { intros ->. exists r. split; [done|]. cbn. lia. }
  intros (s1 & Hs & ->)%IH. apply bind_Some in Hs as (s0 & -> & Hs).
  destruct (in_i64 _); [|done]. injection Hs as <-. exists s0. split; [done|]. cbn. lia.
Qed.
Lemma sql_sum_ok amounts r : sql_sum amounts = Some r → r = sumZ amounts.
Proof. intros (s & [= <-] & ->)%sql_sum_from. done. Qed.

(** ** The places of a history *)

Definition place_lt (a b : Z * Z) : Prop := a.1 < b.1 ∨ (a.1 = b.1 ∧ a.2 < b.2).

Lemma history_places_ok t :
  StronglySorted place_lt (history_places t) ∧
  ∀ place, place ∈ history_places t ↔ ∃ key a, tb_history t !! key = Some a ∧ row_place key = place.
Proof.
  unfold history_places. set (l := remove_dups _).
  assert (NoDup (sort_by (lex_le Z.lt Z.le) id l)) as Hnd by (rewrite sort_by_perm; apply NoDup_remove_dups).
  split.
  - pose proof (sort_by_sorted (lex_le Z.lt Z.le) id l _ _) as Hs. rewrite list_fmap_id in Hs.
    revert Hs Hnd. generalize (sort_by (lex_le Z.lt Z.le) id l). intros s Hs.
    induction Hs as [|x s Hs IH Hx]; intros Hnd; [constructor|]. apply NoDup_cons in Hnd as [Hn Hnd].
    constructor; [by apply IH|]. rewrite Forall_forall in Hx. apply Forall_forall. intros y Hy.
    specialize (Hx y Hy). unfold lex_le, place_lt in *. destruct x as [a b], y as [c d]. cbn in *.
    destruct (decide (b = d ∧ a = c)) as [[-> ->]|]; [done|]. lia.
  - intros place. rewrite sort_by_perm. unfold l. rewrite elem_of_remove_dups, list_elem_of_fmap. split.
    + intros (key & -> & Hin). apply list_elem_of_fmap in Hin as ([k a] & -> & Hin%elem_of_map_to_list).
      by exists k, a.
    + intros (key & a & Hk & <-). exists key. split; [done|]. apply list_elem_of_fmap. exists (key, a).
      split; [done|]. by apply elem_of_map_to_list.
Qed.

(** The rows of the history at a place. *)
Definition rows_at (t : Tables) (place : Z * Z) : list (HistoryKey * Z) :=
  filter (λ e : HistoryKey * Z, row_place e.1 = place) (map_to_list (tb_history t)).
Lemma rows_at_ok t place :
  NoDup (rows_at t place) ∧
  ∀ key a, (key, a) ∈ rows_at t place ↔ tb_history t !! key = Some a ∧ row_place key = place.
Proof.
  split; [apply NoDup_filter, NoDup_map_to_list|]. intros key a. unfold rows_at.
  rewrite list_elem_of_filter, elem_of_map_to_list. cbn. tauto.
Qed.

(** The header of a row is a cached one. *)
Lemma delta_rows_header t rows row :
  delta_rows t = Some rows → row ∈ rows → ∃ x hash, tb_headers t !! x = Some (hash, dr_header row).
Proof.
  unfold delta_rows. intros (os & Hm%mapM_Some & [= <-])%bind_Some.
  intros (o & Ho & Hr)%list_elem_of_omap. cbn in Hr. subst o.
  destruct (list_elem_of_lookup_1 _ _ Ho) as [k Hk].
  destruct (Forall2_lookup_r _ _ _ _ _ Hm Hk) as (place & _ & Hd). unfold delta_row in Hd.
  apply bind_Some in Hd as (delta & _ & [= Hd]). apply bind_Some in Hd as (tx & _ & Hd).
  apply bind_Some in Hd as ([hash raw] & Hh & [= <-]). by exists place.1, hash.
Qed.
