(* ===== verification/HistorySpec.v ===== *)
(** * The history query: what it answers

    On tables that hold exactly the rows of some scripts, the query gives a row
    for each transaction of the chain that touches them, in chain order, with
    the sum of what they are paid less what is spent. *)

From S2P Require Import Prelude External Index TxPos HashIndex Fmt Headers Batch Store StoreSpec.
From S2P Require Import Client Chain ChainSpec ChainSync ChainQuery Cache CacheSpec CacheSync History.

Section history.
Context {S W : Type} `{HS : !Hashes, HSL : !HashLaws, SO : !ScriptOps, VI : !VarInt,
  VIL : !VarIntLaws, SL : !Slices, SLL : !SlicesLaws, CS : !Consensus, RD : !RocksDB S,
  RL : !RocksDBLaws S, HA : !HttpAgent W, NL : !NodeLaws W, ST : !SliceTransactions,
  STL : !SliceTransactionsLaws}.
Implicit Types (bs : list Batch) (t : Tables) (sh : hash32) (P : hash32 → Prop).

(** The rows a chain gives the scripts in [P] for a transaction. *)
Definition expected_in bs P (n : TxNum) (key : HistoryKey) (a : Z) : Prop :=
  ∃ sh, P sh ∧ expected (W := W) bs sh n key a.

(** The row of a transaction: the sum of the outputs that pay the scripts less
    that of their outputs that are spent. *)
Definition delta_of bs P (row : DeltaRow) : Prop :=
  ∃ n i j p b rows, (∃ sh, P sh ∧ script_tx (W := W) bs sh n i j p) ∧ bs !! i = Some b ∧
    rows ≠ [] ∧ NoDup rows ∧ (∀ key a, (key, a) ∈ rows ↔ expected_in bs P n key a) ∧
    row = {| dr_header := raw_header b; dr_offset := Z.of_nat j; dr_height := Z.of_nat i;
             dr_txid := btx_txid p; dr_delta := sumZ rows.*2 |}.
(** The rows of the scripts, in chain order. *)
Definition history_rows bs P (rows : list DeltaRow) : Prop :=
  StronglySorted place_lt ((λ r, (dr_height r, dr_offset r)) <$> rows) ∧
  ∀ row, row ∈ rows ↔ delta_of bs P row.

(** Tables that hold exactly the rows of the scripts. *)
Record exactly_rows bs P t : Prop := {
  er_rows : rows_ok (W := W) bs t;
  er_history key a : tb_history t !! key = Some a ↔ ∃ n, expected_in bs P n key a;
}.

(** The place of a row determines the transaction. *)
Lemma expected_in_place bs P n n' i j p sh key a :
  chain_batches (W := W) bs → script_tx (W := W) bs sh n i j p → expected_in bs P n' key a →
  row_place key = (Z.of_nat i, Z.of_nat j) ↔ n' = n.
Proof using HSL NL SLL VIL.
  intros Hcb Hp (sh' & _ & He). destruct (expected_block _ _ _ _ _ He) as (i' & j' & p' & Hp' & H1 & H2).
  unfold row_place. rewrite H1, H2. split.
  - intros [= ->%Nat2Z.inj ->%Nat2Z.inj]. by destruct (script_tx_place _ _ _ _ _ _ _ _ _ Hcb Hp Hp').
  - intros ->. by destruct (script_tx_num _ _ _ _ _ _ _ _ _ _ Hcb Hp Hp') as (-> & -> & _).
Qed.

(** What the join finds for the place of a transaction with rows. *)
Lemma delta_row_ok bs P t n i j p sh key a :
  chain_batches (W := W) bs → exactly_rows bs P t → P sh → script_tx (W := W) bs sh n i j p →
  expected_in bs P n key a →
  ∀ o, delta_row t (Z.of_nat i, Z.of_nat j) = Some o → ∃ row, o = Some row ∧ delta_of bs P row ∧
    (dr_height row, dr_offset row) = (Z.of_nat i, Z.of_nat j) ∧
    dr_delta row = sumZ (amounts_at t (Z.of_nat i, Z.of_nat j)).
Proof using HSL NL RL SLL STL VIL.
  intros Hcb [Hok Hh] HP Hp He o. unfold delta_row. intros (s & Hs%sql_sum_ok & [= <-])%bind_Some.
  assert (tb_history t !! key = Some a) as Hrow by (apply Hh; eauto).
  pose proof (proj2 (expected_in_place _ _ _ _ _ _ _ _ _ _ Hcb Hp He) eq_refl) as Hplace.
  unfold row_place in Hplace. injection Hplace as Hki Hkj.
  destruct (to_transaction _ (ro_tables _ _ Hok) _ _ Hrow) as [[id raw] Htx]. rewrite Hki, Hkj in Htx.
  destruct (row_block _ _ _ _ Hok Hrow) as (i' & b & raw' & Hi' & Hb & Hhd). rewrite Hki in Hi', Hhd.
  apply Nat2Z.inj in Hi' as <-. rewrite Htx. cbn [fst]. rewrite Hhd. cbn.
  assert (raw' = raw_header b) as ->.
  { destruct (ro_headers _ _ Hok _ _ Hhd) as (i' & b' & Hi' & Hb' & [= _ ->]).
    apply Nat2Z.inj in Hi' as <-. congruence. }
  assert (id = btx_txid p) as ->.
  { destruct (ro_transactions _ _ Hok _ _ _ Htx) as (n' & i' & j' & h & d & tx & sp & Hi' & Hj' & Hct & Hr & Hid).
    apply Nat2Z.inj in Hi' as <-. apply Nat2Z.inj in Hj' as <-. cbn in Hr, Hid. subst raw.
    destruct Hp as (h' & d' & tx' & sp' & Hct' & _ & Hp).
    destruct (chain_tx_place _ _ _ _ _ _ _ _ _ _ _ _ _ Hcb Hct Hct') as (_ & _ & <-).
    apply slice_txid_agrees in Hp. congruence. }
  eexists. split; [done|]. split; [|split; [done|by rewrite Hs]].
  destruct (rows_at_ok t (Z.of_nat i, Z.of_nat j)) as [Hnd Hin].
  exists n, i, j, p, b, (rows_at t (Z.of_nat i, Z.of_nat j)).
  split_and!; [by exists sh|done| |done| |by rewrite Hs].
  - intros Hnil. apply (not_elem_of_nil (key, a)). rewrite <-Hnil. apply Hin. split; [done|].
    unfold row_place. by rewrite Hki, Hkj.
  - intros key' a'. rewrite Hin, Hh. split.
    + intros [(m & He') Hpl]. apply (expected_in_place _ _ _ _ _ _ _ _ _ _ Hcb Hp He') in Hpl as ->. done.
    + intros He'. split; [by exists n|]. by apply (expected_in_place _ _ _ _ _ _ _ _ _ _ Hcb Hp He').
Qed.

(** The row of a transaction is determined by its place. *)
Lemma delta_of_unique bs P r r' :
  chain_batches (W := W) bs → delta_of bs P r → delta_of bs P r' →
  (dr_height r, dr_offset r) = (dr_height r', dr_offset r') → r = r'.
Proof using HSL NL SLL VIL.
  intros Hcb (n & i & j & p & b & rows & (sh & _ & Hp) & Hb & _ & Hnd & Hin & ->)
    (n' & i' & j' & p' & b' & rows' & (sh' & _ & Hp') & Hb' & _ & Hnd' & Hin' & ->). cbn. intros [= Hi Hj].
  apply Nat2Z.inj in Hi as <-. apply Nat2Z.inj in Hj as <-.
  destruct (script_tx_place _ _ _ _ _ _ _ _ _ Hcb Hp Hp') as [<- <-]. rewrite Hb in Hb'.
  injection Hb' as <-. f_equal. apply sumZ_perm, fmap_Permutation, NoDup_Permutation; [done..|].
  intros [key a]. by rewrite Hin, Hin'.
Qed.

(** A place of the history is that of a transaction with rows. *)
Lemma history_place_tx bs P t place :
  exactly_rows bs P t → place ∈ history_places t →
  ∃ n i j p sh key a, place = (Z.of_nat i, Z.of_nat j) ∧ P sh ∧ script_tx (W := W) bs sh n i j p ∧
    expected_in bs P n key a.
Proof using Type.
  intros Her (key & a & (n & sh & HP & He)%(er_history _ _ _ Her) & <-)%history_places_ok.
  destruct (expected_block _ _ _ _ _ He) as (i & j & p & Hp & H1 & H2).
  exists n, i, j, p, sh, key, a. unfold row_place. rewrite H1, H2. split_and!; [done..|]. by exists sh.
Qed.

Lemma delta_rows_places bs P t places os :
  chain_batches (W := W) bs → exactly_rows bs P t → places ⊆ history_places t →
  mapM (delta_row t) places = Some os →
  ∃ rows, os = Some <$> rows ∧ Forall (delta_of bs P) rows ∧
    (λ r, (dr_height r, dr_offset r)) <$> rows = places ∧
    dr_delta <$> rows = (λ p, sumZ (amounts_at t p)) <$> places.
Proof using HSL NL RL SLL STL VIL.
  intros Hcb Her Hsub Hm%mapM_Some. induction Hm as [|place o places os Ho _ IH]; [by exists []|].
  destruct IH as (rows & -> & Hall & Hrp & Hd); [set_solver|].
  destruct (history_place_tx bs P t place) as (n & i & j & p & sh & key & a & -> & HP & Hp & He); [done|set_solver|].
  destruct (delta_row_ok _ _ _ _ _ _ _ _ _ _ Hcb Her HP Hp He _ Ho) as (row & -> & Hrow & Hpr & Hdr).
  exists (row :: rows). split_and!; [done|by constructor|cbn; by rewrite Hpr, Hrp|cbn; by rewrite Hdr, Hd].
Qed.

Lemma omap_id_fmap_Some {A} (l : list A) : omap id (Some <$> l) = l.
Proof. induction l as [|x l IH]; [done|]. cbn. by f_equal. Qed.

Lemma delta_rows_ok bs P t rows :
  chain_batches (W := W) bs → exactly_rows bs P t → delta_rows t = Some rows →
  history_rows bs P rows ∧ dr_delta <$> rows = (λ p, sumZ (amounts_at t p)) <$> history_places t.
Proof using HSL NL RL SLL STL VIL.
  intros Hcb Her. unfold delta_rows. intros (os & Hm & [= <-])%bind_Some.
  destruct (history_places_ok t) as [Hsort Hplaces].
  destruct (delta_rows_places bs P t _ os Hcb Her (reflexivity _) Hm) as (rows & -> & Hall & Hrp & Hd).
  rewrite omap_id_fmap_Some. split; [|done]. split; [by rewrite Hrp|]. rewrite Forall_forall in Hall.
  intros row. split; [apply Hall|].
  intros Hrow. pose proof Hrow as (n & i & j & p & b & es & (sh & HP & Hp) & _ & Hne & _ & Hin & Heq).
  destruct es as [|[key a] es]; [done|].
  assert (expected_in bs P n key a) as He by (apply Hin; left).
  assert ((Z.of_nat i, Z.of_nat j) ∈ history_places t) as Hpin.
  { apply Hplaces. exists key, a. split; [apply (er_history _ _ _ Her); eauto|].
    by apply (expected_in_place _ _ _ _ _ _ _ _ _ _ Hcb Hp He). }
  rewrite <-Hrp in Hpin. apply list_elem_of_fmap in Hpin as (row' & Hpl' & Hin').
  assert (row = row') as ->; [|done]. eapply delta_of_unique; [done|done|by apply Hall|].
  rewrite <-Hpl'. by subst row.
Qed.
End history.
