(* ===== verification/Instances.v ===== *)
(** * Concrete instances of the external interfaces

    Small implementations of the classes of [External], [Fmt] and [ChainSpec],
    with their laws: Bitcoin's CompactSize integers, a database held in a finite
    map, and simplified hashes, transactions and node. They let concrete inputs
    be evaluated, and show that the hypotheses of the development hold together.
    Nothing about the program depends on them. *)

From S2P Require Import Prelude External Index TxPos HashIndex Fmt Headers Batch Store StoreSpec.
From S2P Require Import Client Chain ChainSpec ChainSync ChainQuery.

(** ** CompactSize *)

Module CompactSize.
Definition to_le_bytes (n : nat) (z : Z) : bytes := rev (to_be_bytes n z).
Definition from_le_bytes (b : bytes) : Z := from_be_bytes (rev b).

Definition encode (x : Z) : bytes :=
  if x <? 253 then [x]
  else if x <? 2 ^ 16 then 253 :: to_le_bytes 2 x
  else if x <? 2 ^ 32 then 254 :: to_le_bytes 4 x
  else 255 :: to_le_bytes 8 x.

Definition bytes_ok (b : bytes) : bool := forallb (λ x, (0 <=? x) && (x <? 256)) b.

(** A number of [n] bytes, at least [min]: shorter encodings are refused. *)
Definition decode_le (n : nat) (min : Z) (b : bytes) : option (Z * nat) :=
  let v := from_le_bytes (take n b) in
  if bool_decide (n ≤ length b)%nat && bytes_ok (take n b) && (min <=? v)
  then Some (v, S n) else None.

Definition scan (b : bytes) : option (Z * nat) :=
  match b with
  | [] => None
  | x :: b =>
      if (0 <=? x) && (x <? 253) then Some (x, 1%nat)
      else if x =? 253 then decode_le 2 253 b
      else if x =? 254 then decode_le 4 (2 ^ 16) b
      else if x =? 255 then decode_le 8 (2 ^ 32) b
      else None
  end.

Lemma bytes_ok_wf b : bytes_ok b = true ↔ bytes_wf b.
Proof.
  unfold bytes_ok, bytes_wf. rewrite forallb_forall, Forall_forall.
  setoid_rewrite <-list_elem_of_In. apply forall_proper. intros x.
  rewrite andb_true_iff, Z.leb_le, Z.ltb_lt. by unfold is_u8.
Qed.

Lemma to_le_bytes_length n z : length (to_le_bytes n z) = n.
Proof. unfold to_le_bytes. by rewrite length_rev, to_be_bytes_length. Qed.

Lemma decode_le_encode n min x rest :
  min ≤ x < 256 ^ Z.of_nat n → 0 ≤ min →
  decode_le n min (to_le_bytes n x ++ rest) = Some (x, S n).
Proof.
  intros Hx Hmin. unfold decode_le. rewrite take_app_length' by (by rewrite to_le_bytes_length).
  assert (from_le_bytes (to_le_bytes n x) = x) as ->.
  { unfold from_le_bytes, to_le_bytes. rewrite rev_involutive, from_to_be_bytes; lia. }
  rewrite bool_decide_eq_true_2 by (rewrite length_app, to_le_bytes_length; lia).
  rewrite (proj2 (bytes_ok_wf _)).
  - rewrite (proj2 (Z.leb_le _ _)) by lia. done.
  - apply List.Forall_rev, to_be_bytes_wf.
Qed.

Lemma decode_le_ok n min b x used :
  decode_le n min b = Some (x, used) →
  used = S n ∧ (n ≤ length b)%nat ∧ min ≤ x < 256 ^ Z.of_nat n ∧ take n b = to_le_bytes n x.
Proof.
  unfold decode_le. destruct (bool_decide _) eqn:Hl; [|done]. apply bool_decide_eq_true in Hl.
  destruct (bytes_ok _) eqn:Hok; [|done]. apply bytes_ok_wf in Hok. cbn [andb].
  destruct (Z.leb_spec min (from_le_bytes (take n b))); [|done]. intros [= <- <-].
  assert (length (rev (take n b)) = n) as Hlen by (rewrite length_rev, length_take; lia).
  assert (bytes_wf (rev (take n b))) as Hwf by (by apply List.Forall_rev).
  pose proof (from_be_bytes_bound _ Hwf) as Hb. rewrite Hlen in Hb.
  split_and!; [done..|unfold from_le_bytes in *; lia| |].
  - apply Hb.
  - unfold to_le_bytes, from_le_bytes. rewrite <-Hlen at 2.
    rewrite to_from_be_bytes by done. by rewrite rev_involutive.
Qed.

Lemma scan_encode x rest :
  is_u64 x → scan (encode x ++ rest) = Some (x, length (encode x)).
Proof.
  intros Hx. unfold encode.
  destruct (Z.ltb_spec x 253); [|destruct (Z.ltb_spec x (2 ^ 16));
    [|destruct (Z.ltb_spec x (2 ^ 32))]]; cbn [app scan length]; rewrite ?to_le_bytes_length.
  - rewrite (proj2 (Z.leb_le _ _)), (proj2 (Z.ltb_lt _ _)) by bx_arith. done.
  - apply decode_le_encode; lia.
  - apply decode_le_encode; lia.
  - apply decode_le_encode; bx_arith.
Qed.

Lemma scan_ok b x used :
  scan b = Some (x, used) → is_u64 x ∧ (used ≤ length b)%nat ∧ take used b = encode x.
Proof.
  destruct b as [|y b]; [done|]. cbn [scan].
  destruct (Z.leb_spec 0 y), (Z.ltb_spec y 253); cbn [andb].
  1: { intros [= <- <-]. split_and!; [bx_arith|simpl; lia|].
       unfold encode. rewrite (proj2 (Z.ltb_lt _ _)) by done. cbn. by rewrite take_0. }
  all: destruct (Z.eqb_spec y 253) as [->|]; [|destruct (Z.eqb_spec y 254) as [->|];
    [|destruct (Z.eqb_spec y 255) as [->|]; [|done]]]; try lia.
  all: intros (-> & Hl & Hx & Ht)%decode_le_ok.
  all: split_and!; [bx_arith|simpl; lia|]; unfold encode;
    rewrite (proj2 (Z.ltb_ge x 253)) by lia.
  - rewrite (proj2 (Z.ltb_lt x (2 ^ 16))) by lia. cbn [take]. by rewrite Ht.
  - rewrite (proj2 (Z.ltb_ge x (2 ^ 16))), (proj2 (Z.ltb_lt x (2 ^ 32))) by lia.
    cbn [take]. by rewrite Ht.
  - rewrite (proj2 (Z.ltb_ge x (2 ^ 16))), (proj2 (Z.ltb_ge x (2 ^ 32))) by lia.
    cbn [take]. by rewrite Ht.
Qed.

#[export] Instance varint : VarInt := {
  varint_encode := encode;
  varint_decode b := match scan b with Some (x, n) => Some (x, drop n b) | None => None end;
  varint_size x := Z.of_nat (length (encode x));
}.
#[export] Instance varint_laws : VarIntLaws.
Proof.
  split; cbn.
  - intros x rest Hx. rewrite scan_encode by done. by rewrite drop_app_length.
  - intros b x rest. destruct (scan b) as [[y n]|] eqn:E; [|done]. intros [= <- <-].
    by apply scan_ok in E as [? _].
  - done.
Qed.
End CompactSize.

(** ** A database in a finite map *)

Module MapDB.
Definition T : Type := gmap (cf_name * bytes) bytes.

Definition get (s : T) : db_view := λ cf k, s !! (cf, k).
Definition step (s : T) (op : write_op) : T :=
  match op with
  | put_cf cf k v => <[(cf, k) := v]> s
  | delete_cf cf k => base.delete (cf, k) s
  end.
Definition key_le (a b : bytes * bytes) : Prop := bytes_le a.1 b.1.
#[export] Instance key_le_dec : RelDecision key_le.
Proof. intros a b. unfold key_le. apply _. Defined.

Definition entries (s : T) (cf : cf_name) (from : bytes) : list (bytes * bytes) :=
  (λ e : (cf_name * bytes) * bytes, (e.1.2, e.2)) <$>
    filter (λ e, e.1.1 = cf ∧ bytes_le from e.1.2) (map_to_list s).
Definition iter_from (s : T) (cf : cf_name) (from : bytes) : list (bytes * bytes) :=
  merge_sort key_le (entries s cf from).

#[export] Instance rocksdb : RocksDB T := {
  rocks_get := get;
  rocks_iter_from := iter_from;
  rocks_write s ops := Some (foldl step s ops);
  rocks_flush s _ := Some s;
  rocks_enable_compactions s _ := Some s;
  rocks_catch_up s := Some s;
  rocks_open _ := Some ∅;
  rocks_open_secondary _ _ := Some ∅;
}.

Lemma step_get s op cf k : get (step s op) cf k = view_op (get s) op cf k.
Proof.
  destruct op as [cf' k' v|cf' k']; unfold get, step, view_op; case_decide as Hd.
  - rewrite Hd. apply lookup_insert_eq.
  - by apply lookup_insert_ne.
  - rewrite Hd. apply lookup_delete_eq.
  - by apply lookup_delete_ne.
Qed.

Lemma entries_elem s cf from k v :
  (k, v) ∈ entries s cf from ↔ get s cf k = Some v ∧ bytes_le from k.
Proof.
  unfold entries, get. rewrite list_elem_of_fmap. split.
  - intros ([[cf' k'] v'] & [= -> ->] & Hin). apply list_elem_of_filter in Hin as [[Hc Hle] Hm].
    cbn in Hc, Hle. subst cf'. by apply elem_of_map_to_list in Hm.
  - intros [Hg ?]. exists ((cf, k), v). split; [done|]. apply list_elem_of_filter.
    split; [done|]. by apply elem_of_map_to_list.
Qed.

Lemma entries_keys_nodup s cf from : NoDup (entries s cf from).*1.
Proof.
  unfold entries.
  assert (∀ l : list ((cf_name * bytes) * bytes), NoDup l.*1 →
    NoDup ((λ e : (cf_name * bytes) * bytes, (e.1.2, e.2)) <$>
             filter (λ e, e.1.1 = cf ∧ bytes_le from e.1.2) l).*1) as Hgen;
    [|apply Hgen, NoDup_fst_map_to_list]. intros l.
  induction l as [|[[cf' k] v] l IH]; intros Hnd; [constructor|].
  cbn [fmap list_fmap] in Hnd. apply NoDup_cons in Hnd as [Hn Hnd]. rewrite filter_cons.
  case_decide as Hd; [|by apply IH]. cbn [fst snd] in Hd. destruct Hd as [-> _].
  cbn [fmap list_fmap fst snd]. apply NoDup_cons. split; [|by apply IH].
  rewrite list_elem_of_fmap. intros ([k2 v2] & Heq & Hin). cbn [fst] in Heq. subst k2.
  apply list_elem_of_fmap in Hin as ([[c3 k3] v3] & [= -> ->] & Hin).
  apply list_elem_of_filter in Hin as [[Hc _] Hin]. cbn in Hc. subst c3.
  apply Hn. by apply (list_elem_of_fmap_2 fst) in Hin.
Qed.

Lemma iter_sorted s cf from : StronglySorted bytes_lt (iter_from s cf from).*1.
Proof.
  unfold iter_from.
  assert (StronglySorted key_le (merge_sort key_le (entries s cf from))) as Hs.
  { apply StronglySorted_merge_sort.
    - intros a b c. unfold key_le. apply transitivity.
    - intros a b. unfold key_le. apply (total bytes_le). }
  assert (NoDup (merge_sort key_le (entries s cf from)).*1) as Hnd.
  { rewrite merge_sort_Permutation. apply entries_keys_nodup. }
  induction Hs as [|x l Hs IH Hx]; [constructor|].
  cbn [fmap list_fmap] in *. apply NoDup_cons in Hnd as [Hn Hnd]. constructor; [by apply IH|].
  apply Forall_forall. intros k (y & -> & Hy)%list_elem_of_fmap.
  rewrite Forall_forall in Hx. split; [by apply Hx|]. intros Heq. apply Hn. rewrite Heq.
  by apply list_elem_of_fmap_2.
Qed.

#[export] Instance rocksdb_laws : RocksDBLaws T.
Proof.
  split; cbn.
  - intros s ops s' cf k [= <-]. revert s. induction ops as [|op ops IH] using rev_ind; [done|].
    intros s. unfold view_ops. rewrite !foldl_snoc, step_get.
    destruct op as [cf' k' v|cf' k']; cbn [view_op]; case_decide; done || apply IH.
  - apply iter_sorted.
  - intros s cf from k v. unfold iter_from. rewrite merge_sort_Permutation. apply entries_elem.
  - by intros s cf s' cf' k [= <-].
  - by intros s cf s' cf' k [= <-].
Qed.
End MapDB.

(** ** Hashes, transactions and blocks *)

Module Toy.
Export CompactSize MapDB.

(** A 32-byte checksum: a shift register fed with the bytes, then 64 rounds
    of mixing. *)
Definition checksum_step (st : bytes) (x : Z) : bytes :=
  match st with
  | a :: st => st ++ [(31 * a + 17 * default 0 (head st) + x + 1) mod 256]
  | [] => []
  end.
Definition checksum (b : bytes) : hash32 :=
  foldl checksum_step (replicate 32 90) (b ++ replicate 64 0).

Lemma checksum_wf b : hash_wf (checksum b).
Proof.
  unfold checksum. generalize (b ++ replicate 64 0) as l.
  assert (hash_wf (replicate 32 90)) as Hst by (split; [repeat constructor; done|done]).
  revert Hst. generalize (replicate 32 90) as st. intros st Hst l. revert st Hst.
  induction l as [|x l IH]; intros st [Hw Hl]; [done|]. cbn [foldl]. apply IH.
  destruct st as [|a st]; [done|]. apply Forall_cons in Hw as [_ Hw]. cbn [checksum_step]. split.
  - apply Forall_app. split; [done|]. constructor; [|done]. by apply Z.mod_pos_bound.
  - rewrite length_app. cbn [length] in *. lia.
Qed.

#[export] Instance hashes : Hashes := { sha256 := checksum; sha256d := checksum }.
#[export] Instance hash_laws : HashLaws.
Proof. split; apply checksum_wf. Qed.

#[export] Instance script_ops : ScriptOps := {
  is_op_return s := match s with x :: _ => x =? 106 | [] => false end
}.

(** An output is a length byte and its script; a transaction is the number of
    outputs, in one byte, and the outputs. *)
Definition parse_output (b : bytes) : option (bytes * nat) :=
  match b with
  | n :: b =>
      if bool_decide (0 ≤ n) && bool_decide (Z.to_nat n ≤ length b)%nat
      then Some (take (Z.to_nat n) b, S (Z.to_nat n)) else None
  | [] => None
  end.
Fixpoint parse_outputs (n : nat) (b : bytes) : option (list bytes * nat) :=
  match n with
  | O => Some ([], O)
  | S n =>
      '(s, u) ← parse_output b;
      '(ss, v) ← parse_outputs n (drop u b);
      Some (s :: ss, (u + v)%nat)
  end.
Definition parse_tx (b : bytes) : option (slice_tx * nat) :=
  match b with
  | n :: b' =>
      '(ss, u) ← parse_outputs (Z.to_nat n) b';
      Some ({| stx_raw := take (S u) b; stx_txid := checksum (take (S u) b);
               stx_scripts := ss |}, S u)
  | [] => None
  end.
Fixpoint parse_txs (n : nat) (b : bytes) : option (list slice_tx * bytes) :=
  match n with
  | O => Some ([], b)
  | S n =>
      '(tx, u) ← parse_tx b;
      '(txs, rest) ← parse_txs n (drop u b);
      Some (tx :: txs, rest)
  end.
Definition parse_block (b : bytes) : option (list slice_tx * bytes) :=
  if bool_decide (80 ≤ length b)%nat then
    '(n, u) ← scan (drop 80 b);
    parse_txs (Z.to_nat n) (drop u (drop 80 b))
  else None.

#[export] Instance slices : Slices := {
  slices_error := unit;
  block_visit b := match parse_block b with
                   | Some (txs, rest) => (block_events txs, inr rest)
                   | None => ([], inl tt)
                   end;
  scan_len b := match scan b with Some r => inr r | None => inl tt end;
  txout_parse b := match parse_output b with Some r => inr r | None => inl tt end;
}.

Lemma parse_txs_ok n b txs rest :
  parse_txs n b = Some (txs, rest) →
  length txs = n ∧ b = concat (stx_raw <$> txs) ++ rest ∧
  Forall (λ tx, stx_raw tx ≠ [] ∧ hash_wf (stx_txid tx)) txs.
Proof.
  revert b txs. induction n as [|n IH]; intros b txs; cbn [parse_txs].
  { by intros [= <- <-]. }
  intros ([tx u] & Htx & ([txs' rest'] & Hr & [= <- <-])%bind_Some)%bind_Some.
  apply IH in Hr as (<- & Hb & Hf). destruct b as [|x b]; [done|].
  cbn [parse_tx] in Htx. apply bind_Some in Htx as ([ss v] & _ & [= <- <-]).
  cbn [length fmap list_fmap concat stx_raw stx_txid]. split_and!; [done| |].
  - rewrite <-app_assoc, <-Hb. cbn [take drop app]. by rewrite take_drop.
  - constructor; [|done]. split; [done|]. apply (hash_laws.(sha256_wf)).
Qed.

#[export] Instance slices_laws : SlicesLaws.
Proof.
  split; cbn.
  - intros raw evs rest. destruct (parse_block raw) as [[txs rest']|] eqn:Ep; [|done].
    intros [= <- <-]. exists txs. unfold parse_block in Ep.
    destruct (bool_decide _) eqn:Hl; [|done]. apply bool_decide_eq_true in Hl.
    apply bind_Some in Ep as ([n u] & Hs & Hp).
    apply scan_ok in Hs as (Hn & Hu & Ht). apply parse_txs_ok in Hp as (Hlen & Hd & Hf).
    split_and!; [done| |done]. exists (take 80 raw). rewrite length_take.
    split; [unfold HEADER_SIZE; lia|]. rewrite Hlen, Z2Nat.id by bx_arith. cbn.
    rewrite <-Ht, <-Hd, take_drop. by rewrite take_drop.
  - intros raw n used. destruct (scan raw) as [[m u]|] eqn:E; [|done].
    intros [= <- <-]. by apply scan_ok.
  - intros n rest Hn. by rewrite scan_encode.
Qed.

(** What a transaction spends is written in its OP_RETURN outputs: the id of a
    transaction and the number of an output, in one byte. *)
Definition spent_by (script : bytes) : option OutPoint :=
  match script with
  | 106 :: o =>
      if bool_decide (length o = 33%nat)
      then Some {| op_txid := take 32 o; op_vout := default 0 (last o) |} else None
  | _ => None
  end.
Definition to_bitcoin_tx (tx : slice_tx) : bitcoin_tx := {|
  btx_txid := stx_txid tx; btx_inputs := omap spent_by (stx_scripts tx);
  btx_outputs := (λ s, {| btxout_script := s; btxout_value := 1 |}) <$> stx_scripts tx;
  btx_weight := 4 * Z.of_nat (length (stx_raw tx));
|}.

#[export] Instance consensus : Consensus := {
  blockhash_deserialize b :=
    if bool_decide (length b = 32%nat) && bytes_ok b then Some b else None;
  header_deserialize b := if bool_decide (length b = 80%nat) then Some (checksum b) else None;
  tx_deserialize b := match parse_tx b with
                      | Some (tx, u) => if bool_decide (u = length b) then Some (to_bitcoin_tx tx) else None
                      | None => None
                      end;
  tx_deserialize_partial b := '(tx, u) ← parse_tx b; Some (to_bitcoin_tx tx, u);
  outpoint_is_null o := bool_decide (op_vout o = 2 ^ 32 - 1);
}.
#[export] Instance consensus_laws : ConsensusLaws.
Proof.
  split; cbn.
  - intros b h. destruct (bool_decide _) eqn:Hl; [|done]. apply bool_decide_eq_true in Hl.
    destruct (bytes_ok b) eqn:Hb; [|done]. intros [= <-]. by split; [apply bytes_ok_wf|].
  - intros b h. case_bool_decide; [|done]. intros [= <-]. apply hash_laws.(sha256_wf).
Qed.

#[export] Instance config_json : ConfigJson := { config_from_json b := head b }.

(** ** A node with three blocks

    A genesis block and two competing blocks on top of it. The world says what
    the node knows: 0 and 1, that one or the other is the tip; 2, that a block
    it cannot serve follows the first; 3, nothing at all. *)
Definition header_after (prev : hash32) (nonce : Z) : bytes :=
  [1; 0; 0; 0] ++ prev ++ replicate 43 0 ++ [nonce].
Definition mk_tx (scripts : list bytes) : bytes :=
  Z.of_nat (length scripts) :: concat ((λ s, Z.of_nat (length s) :: s) <$> scripts).
Definition mk_block (header : bytes) (txs : list (list bytes)) : bytes :=
  header ++ encode (Z.of_nat (length txs)) ++ concat (mk_tx <$> txs).
Definition mk_spent (txs : list (list bytes)) : bytes :=
  encode (Z.of_nat (length txs)) ++
  concat ((λ ss, encode (Z.of_nat (length ss)) ++
                 concat ((λ s, Z.of_nat (length s) :: s) <$> ss)) <$> txs).

Definition script_a : bytes := [81; 1].
Definition script_b : bytes := [81; 2].

(** A script that spends the output of the genesis block. *)
Definition genesis_txid : hash32 := Eval vm_compute in checksum (mk_tx [script_a]).
Definition spend_a : bytes := 106 :: genesis_txid ++ [0].

Definition genesis_header : bytes := header_after all_zeros 0.
Definition genesis_id : hash32 := Eval vm_compute in checksum genesis_header.
Definition header_1 : bytes := header_after genesis_id 1.
Definition id_1 : hash32 := Eval vm_compute in checksum header_1.
Definition header_2 : bytes := header_after genesis_id 2.
Definition id_2 : hash32 := Eval vm_compute in checksum header_2.

(** Block, its spent outputs. *)
Definition blocks : list (hash32 * (bytes * bytes)) :=
  [ (genesis_id, (mk_block genesis_header [[script_a]], mk_spent [[]]));
    (id_1, (mk_block header_1 [[script_b]; [script_b; spend_a]], mk_spent [[]; [script_a]]));
    (id_2, (mk_block header_2 [[script_b]], mk_spent [[]])) ].

Definition find_block (h : hash32) : option (bytes * bytes) :=
  (λ e, e.2.2) <$> list_find (λ e, e.1 = h) blocks.

(** The best chain, and its headers from a block on. *)
Definition best_chain (w : Z) : list (hash32 * bytes) :=
  match w with
  | 0 => [(genesis_id, genesis_header); (id_1, header_1)]
  | 1 => [(genesis_id, genesis_header); (id_2, header_2)]
  | 2 => [(genesis_id, genesis_header); (id_1, header_1); (all_zeros, header_after id_1 3)]
  | _ => []
  end.
Definition headers_after (w : Z) (h : hash32) : bytes :=
  match list_find (λ e, e.1 = h) (best_chain w) with
  | Some (i, _) => concat (snd <$> drop i (best_chain w))
  | None => []
  end.

Definition answer (w : Z) (req : rest_request) : http_error + (http_error + bytes) :=
  let found (o : option bytes) :=
    match o with Some b => inr (inr b) | None => inl (StatusCode 404) end in
  match req with
  | rest_blockhashbyheight h => found (if decide (h = 0) then Some genesis_id else None)
  | rest_headers _ h => found (Some (headers_after w h))
  | rest_block h => found (if w =? 3 then None else fst <$> find_block h)
  | rest_spenttxouts h => found (snd <$> find_block h)
  | rest_blockpart h o n =>
      found (b ← fst <$> find_block h;
             if bool_decide (0 ≤ o ∧ 0 ≤ n ∧ o + n ≤ Z.of_nat (length b))
             then Some (take (Z.to_nat n) (drop (Z.to_nat o) b)) else None)
  | rest_block_json _ | rest_tx _ | rest_mempool_contents => inl (StatusCode 404)
  end.
#[export] Instance node : HttpAgent Z := { http_call w req := (answer w req, w) }.

Lemma served_inv req d : served (W := Z) req d → ∃ w, answer w req = inr (inr d).
Proof. intros (w & w' & [= Ha _]). by exists w. Qed.

(** Every block of the node is one of [blocks]. *)
Lemma served_block_blocks h d :
  served (W := Z) (rest_block h) d → ∃ sd, (h, (d, sd)) ∈ blocks.
Proof.
  intros [w Ha]%served_inv. cbn [answer] in Ha. unfold find_block in Ha.
  destruct (list_find _ blocks) as [[i [k [x y]]]|] eqn:E; [|by destruct (w =? 3)].
  cbn in Ha. destruct (w =? 3); [done|]. injection Ha as ->. apply list_find_Some in E as (Hi & Hk & _).
  cbn in Hk. subst k. exists y. by eapply list_elem_of_lookup_2.
Qed.

Lemma blocks_ok :
  Forall (λ e, bytes_wf e.2.1 ∧ hash_wf e.1 ∧ e.1 ≠ all_zeros ∧
               (fst <$> parse_block e.2.1) ≠ Some []) blocks.
Proof.
  assert (forallb (λ e, bytes_ok e.2.1 && (bytes_ok e.1 && bool_decide (length e.1 = HASH_LEN)) &&
    bool_decide (e.1 ≠ all_zeros) &&
    match parse_block e.2.1 with Some ([], _) => false | _ => true end) blocks = true) as Hb
    by by vm_compute.
  apply Forall_forall. rewrite forallb_forall in Hb. intros e He%list_elem_of_In%Hb.
  repeat (apply andb_true_iff in He as [He ?]).
  split_and!.
  - by apply bytes_ok_wf.
  - repeat match goal with H : _ && _ = true |- _ => apply andb_true_iff in H as [? ?] end.
    split; [by apply bytes_ok_wf|by eapply bool_decide_eq_true_1].
  - by eapply bool_decide_eq_true_1.
  - destruct (parse_block _) as [[[|? ?] ?]|]; done.
Qed.

#[export] Instance node_laws : NodeLaws Z.
Proof.
  split.
  - intros h d d' [w Hd]%served_inv [w' Hd']%served_inv. cbn [answer] in *.
    destruct (w =? 3), (w' =? 3), (find_block h); naive_solver.
  - intros h d d' [w Hd]%served_inv [w' Hd']%served_inv. cbn [answer] in *.
    destruct (find_block h); naive_solver.
  - intros h d [sd Hb]%served_block_blocks. pose proof blocks_ok as Hok.
    rewrite Forall_forall in Hok. by apply (Hok _ Hb).
  - intros h d txs [sd Hb]%served_block_blocks Hv ->. pose proof blocks_ok as Hok.
    rewrite Forall_forall in Hok. destruct (Hok _ Hb) as (_ & _ & _ & Hne). cbn in Hv, Hne.
    destruct (parse_block d) as [[txs rest]|]; [|done]. injection Hv as Hn _.
    destruct txs; [done|]. cbn [length] in Hn. lia.
  - intros h d [sd Hb]%served_block_blocks. pose proof blocks_ok as Hok.
    rewrite Forall_forall in Hok. destruct (Hok _ Hb) as (_ & ? & ? & _). done.
  - intros h o n d d' [w Hd]%served_inv [w' Hd']%served_inv. cbn [answer] in *.
    destruct (find_block h) as [[x y]|]; [|by destruct (w =? 3)]. cbn in *. destruct (w =? 3); [done|]. injection Hd as ->.
    case_bool_decide; [|done]. by injection Hd' as <-.
Qed.

(** An empty chain, the chain synchronized with the first tip, and the same
    after the node switched to the second one. *)
Definition empty_chain : IndexedChain MapDB.T := {|
  genesis_hash := genesis_id; ic_headers := [];
  store := {| db := ∅; compacting := false; secondary := false |}
|}.
Definition synced : outcome (chain_error unit) Stats * (IndexedChain MapDB.T * Z) :=
  sync 10 (empty_chain, 0).
Definition synced_chain : IndexedChain MapDB.T := synced.2.1.
Definition reorged : outcome (chain_error unit) Stats * (IndexedChain MapDB.T * Z) :=
  sync 10 (synced_chain, 1).
Definition reorged_chain : IndexedChain MapDB.T := reorged.2.1.
Definition failed : outcome (chain_error unit) Stats * (IndexedChain MapDB.T * Z) :=
  sync 10 (synced_chain, 3).
Definition failed_chain : IndexedChain MapDB.T := failed.2.1.

Definition stats_1 : Stats := {| st_tip := id_1; indexed_blocks := 2; size_read := 217 |}.
Definition stats_2 : Stats := {| st_tip := id_2; indexed_blocks := 1; size_read := 87 |}.

Lemma pair3_eq {A B C} (p : A * (B * C)) a c : p.1 = a → p.2.2 = c → p = (a, (p.2.1, c)).
Proof. by destruct p as [? [? ?]]; cbn; intros -> ->. Qed.
Lemma synced_ok : sync 10 (empty_chain, 0) = (Ok stats_1, (synced_chain, 0)).
Proof. change (sync 10 (empty_chain, 0)) with synced. apply pair3_eq; vm_compute; reflexivity. Qed.
Lemma reorged_ok : sync 10 (synced_chain, 1) = (Ok stats_2, (reorged_chain, 1)).
Proof. change (sync 10 (synced_chain, 1)) with reorged. apply pair3_eq; vm_compute; reflexivity. Qed.

Lemma failed_ok :
  sync 10 (synced_chain, 3) = (Err (ChainClient (Http (StatusCode 404))), (failed_chain, 3)).
Proof. change (sync 10 (synced_chain, 3)) with failed. apply pair3_eq; vm_compute; reflexivity. Qed.

Lemma empty_inv : chain_inv (W := Z) empty_chain [].
Proof.
  split; [done|done|]. intros cf k x _. split; [done|]. set_solver.
Qed.

Lemma synced_inv : ∃ bs, chain_inv (W := Z) synced_chain bs.
Proof.
  pose proof (sync_spec 10 empty_chain [] 0 (Ok stats_1) synced_chain 0 empty_inv synced_ok) as Hs.
  cbn in Hs. destruct Hs as (kept & new & _ & Hi & _). eauto.
Qed.

(** *** The second block of the synchronized chain *)

Definition block_1 : bytes := mk_block header_1 [[script_b]; [script_b; spend_a]].
Definition spent_1 : bytes := mk_spent [[]; [script_a]].
Definition txs_1 : list slice_tx := default [] (fst <$> parse_block block_1).
Definition tx_1 : slice_tx := Eval vm_compute in
  default {| stx_raw := []; stx_txid := []; stx_scripts := [] |} (txs_1 !! 1%nat).
Definition ih_1 : IndexedHeader :=
  {| ih_height := 1; ih_next_txnum := 3; ih_hash := id_1; ih_prev_blockhash := genesis_id |}.

Lemma block_1_served : served (W := Z) (rest_block id_1) block_1.
Proof. exists 0, 0. vm_compute. reflexivity. Qed.
Lemma spent_1_served : served (W := Z) (rest_spenttxouts id_1) spent_1.
Proof. exists 0, 0. vm_compute. reflexivity. Qed.
Lemma block_1_visit : block_visit block_1 = (block_events txs_1, inr []).
Proof. vm_compute. reflexivity. Qed.
Lemma spent_1_stream : spent_stream spent_1 [[]; [script_a]].
Proof.
  exists 1%nat. split; [by vm_compute|].
  apply (spent_txs_cons _ 1 [] [1; 2; 81; 1]); [by vm_compute|vm_compute; constructor|].
  apply (spent_txs_cons _ 1 [script_a] []); [by vm_compute| |constructor].
  apply (spent_outputs_cons _ script_a 3 []); [by vm_compute|vm_compute; constructor].
Qed.

Lemma synced_headers : ic_headers synced_chain !! 1%nat = Some ih_1.
Proof. vm_compute. reflexivity. Qed.

Lemma synced_tx bs :
  chain_inv (W := Z) synced_chain bs →
  (batch_header <$> bs) !! 1%nat = Some ih_1 ∧ first_txnum (batch_header <$> bs) 1 = 1.
Proof.
  intros Hi. rewrite <-(ci_headers _ _ Hi). split; [apply synced_headers|].
  vm_compute. reflexivity.
Qed.

Lemma synced_chain_tx bs :
  chain_inv (W := Z) synced_chain bs →
  chain_tx (W := Z) bs 2 1 1 ih_1 block_1 tx_1 [script_a].
Proof.
  intros Hi. destruct (synced_tx _ Hi) as [Hh Hf]. split.
  - exact Hh.
  - exact block_1_served.
  - by rewrite Hf.
  - exists txs_1. split; [exact block_1_visit|]. vm_compute. reflexivity.
  - exists spent_1, [[]; [script_a]]. split_and!; [exact spent_1_served|exact spent_1_stream|done].
Qed.

(** *** The two transaction parsers agree *)

Lemma parse_output_prefix b s u rest :
  parse_output b = Some (s, u) →
  (u ≤ length b)%nat ∧ parse_output (take u b ++ rest) = Some (s, u).
Proof.
  destruct b as [|n b]; [done|]. unfold parse_output at 1.
  destruct (bool_decide (0 ≤ n)) eqn:Hn; [|done].
  destruct (bool_decide (Z.to_nat n ≤ length b)%nat) eqn:Hl; [|done].
  apply bool_decide_eq_true in Hl. cbn [andb]. intros Heq. injection Heq as <- <-.
  cbn [take length app]. split; [lia|]. unfold parse_output. rewrite Hn.
  rewrite bool_decide_eq_true_2 by (rewrite length_app, length_take; lia). cbn [andb].
  rewrite take_app_length' by (rewrite length_take; lia). done.
Qed.

Lemma parse_outputs_prefix n b ss u rest :
  parse_outputs n b = Some (ss, u) →
  (u ≤ length b)%nat ∧ parse_outputs n (take u b ++ rest) = Some (ss, u).
Proof.
  revert b ss u. induction n as [|n IH]; intros b ss u; cbn [parse_outputs].
  { intros [= <- <-]. split; [lia|done]. }
  intros ([s x] & Hs & ([ss' y] & Hss & [= <- <-])%bind_Some)%bind_Some.
  destruct (parse_output_prefix _ _ _ (take y (drop x b) ++ rest) Hs) as [Hx Hp].
  apply IH in Hss as [Hy Hr]. rewrite length_drop in Hy.
  rewrite <-(take_take_drop b x y), <-app_assoc, Hp. split; [lia|]. cbn.
  rewrite drop_app_length' by (rewrite length_take; lia). by rewrite Hr.
Qed.

Lemma parse_tx_raw b tx u : parse_tx b = Some (tx, u) → parse_tx (stx_raw tx) = Some (tx, length (stx_raw tx)).
Proof.
  destruct b as [|n b]; [done|]. cbn [parse_tx].
  intros ([ss v] & Hs & [= <- <-])%bind_Some. cbn [stx_raw take].
  destruct (parse_outputs_prefix _ _ _ _ [] Hs) as [Hv Hp]. rewrite app_nil_r in Hp.
  unfold parse_tx. rewrite Hp. cbn [mbind option_bind]. rewrite firstn_cons, take_take, Nat.min_id.
  cbn [length]. by rewrite length_take_le.
Qed.

Lemma parse_txs_elem n b txs rest tx :
  parse_txs n b = Some (txs, rest) → tx ∈ txs →
  parse_tx (stx_raw tx) = Some (tx, length (stx_raw tx)).
Proof.
  revert b txs. induction n as [|n IH]; intros b txs; cbn [parse_txs].
  { intros [= <- <-]. set_solver. }
  intros ([t u] & Ht & ([txs' r'] & Hr & [= <- <-])%bind_Some)%bind_Some.
  intros [->|Hin]%elem_of_cons; [by eapply parse_tx_raw|by eapply IH].
Qed.

Lemma toy_txids_agree : txids_agree.
Proof.
  intros d txs tx Hv Hin. cbn in Hv. destruct (parse_block d) as [[txs' r]|] eqn:Ep; [|done].
  assert (txs' = txs) as -> by (apply block_events_txs_inj; congruence).
  unfold parse_block in Ep. destruct (bool_decide _); [|done].
  apply bind_Some in Ep as ([n u] & _ & Hp).
  pose proof (parse_txs_elem _ _ _ _ _ Hp Hin) as Htx.
  unfold txid. cbn. rewrite Htx. by rewrite bool_decide_eq_true_2.
Qed.
End Toy.
