(* ===== verification/LibTheorems.v ===== *)
(** * Correctness of the index

    The properties of [bindex-lib], each with the concrete input that shows its
    hypotheses can hold. *)

From S2P Require Import Prelude External Index TxPos HashIndex Fmt Headers Batch Store StoreSpec.
From S2P Require Import Client Chain ChainSpec ChainSync ChainQuery ChainSecondary Instances.

Section theorems.
Context {S W : Type} `{HS : !Hashes, HSL : !HashLaws, SO : !ScriptOps, VI : !VarInt,
  VIL : !VarIntLaws, SL : !Slices, SLL : !SlicesLaws, CS : !Consensus, RD : !RocksDB S,
  RL : !RocksDBLaws S, CJ : !ConfigJson, HA : !HttpAgent W, NL : !NodeLaws W}.
Implicit Types (c : IndexedChain S) (bs : list Batch) (w : W).

(** C1: a successful [sync] keeps the headers and the database in step: from a
    chain that indexes the batches [bs] it leads to one that indexes [kept],
    the part of [bs] the node still knows, followed by the newly built
    batches; its statistics name the new tip and count the new blocks. *)
Theorem sync_keeps_index limit c bs w stats c' w' :
  chain_inv (W := W) c bs → sync limit (c, w) = (Ok stats, (c', w')) →
  ∃ kept new, kept `prefix_of` bs ∧ chain_inv (W := W) c' (kept ++ new) ∧
    st_tip stats = tip_hash (ic_headers c') ∧
    indexed_blocks stats = wrap64 (Z.of_nat (length new)).
Proof. intros Hi Hs. exact (sync_spec _ _ _ _ _ _ _ Hi Hs). Qed.


(** C40: the loop of [fetch_new_headers] ends after at most one round more than
    there are headers: with that much fuel, more fuel changes nothing. *)
Theorem fetch_new_headers_terminates extra limit c bs w :
  chain_inv (W := W) c bs →
  fetch_new_headers (Datatypes.S (length (ic_headers c)) + extra) limit (c, w) =
  fetch_new_headers (Datatypes.S (length (ic_headers c))) limit (c, w).
Proof.
  intros Hi. rewrite (ci_headers _ _ Hi), length_fmap.
  apply (fetch_new_headers_fuel _ _ _ _ _ Hi). lia.
Qed.

(** C6: [locations_by_scripthash] returns the locations of exactly the
    transactions that create or spend an output whose script hash has the
    prefix asked for, from the given header on, in chain order. *)
Theorem locations_by_scripthash_exact E c bs h latest :
  chain_inv (W := W) c bs → hash_wf h → is_u32 (from_option ih_next_txnum txnum_default latest) →
  ∃ locs, locations_by_scripthash (E := E) Release c h latest = Ok locs ∧
    located (W := W) bs (λ n tx spent, from_option ih_next_txnum txnum_default latest ≤ n ∧
                              touches h (stx_scripts tx ++ spent)) locs.
Proof. apply locations_by_scripthash_spec. Qed.

(** [locations_by_txid] returns the locations of exactly the transactions
    whose id has the prefix asked for, in chain order. *)
Theorem locations_by_txid_exact E c bs h :
  chain_inv (W := W) c bs → hash_wf h →
  ∃ locs, locations_by_txid (E := E) Release c h = Ok locs ∧
    located (W := W) bs (λ n tx spent, prefix_new (stx_txid tx) = prefix_new h) locs.
Proof. apply locations_by_txid_spec. Qed.

(** C9: the bytes [get_tx_bytes] fetches for a location are the transaction at
    that location. *)
Theorem get_tx_bytes_exact c bs n i j h d tx spent w data w' :
  chain_inv (W := W) c bs → chain_tx (W := W) bs n i j h d tx spent →
  get_tx_bytes c (tx_location n i j h) w = (Ok data, w') → data = stx_raw tx.
Proof. apply get_tx_bytes_spec. Qed.

(** [block_txids_at_height] lists the transaction ids of the block at that
    height, in block order. *)
Theorem block_txids_exact c bs i h d txs w r w' :
  txids_agree → chain_inv (W := W) c bs → (batch_header <$> bs) !! i = Some h →
  served (W := W) (rest_block (ih_hash h)) d → block_visit d = (block_events txs, inr []) →
  block_txids_at_height Release c (Z.of_nat i) w = (Ok r, w') → r = Some (stx_txid <$> txs).
Proof. apply block_txids_spec. Qed.

(** [block_headers_raw] returns the raw headers of the heights asked for,
    up to the tip. *)
Theorem block_headers_raw_exact c bs i count :
  chain_inv (W := W) c bs → 0 ≤ count →
  block_headers_raw c (Z.of_nat i) count = Ok (raw_header <$> take (Z.to_nat count) (drop i bs)).
Proof. apply block_headers_raw_ok. Qed.

(** C10: whatever the primary did, after [refresh_secondary] the headers are
    those of the rows in the database: appended ones are added to the chain,
    and after a reorg it is reloaded. *)
Theorem refresh_secondary_follows c bs bs' s w :
  chain_batches (W := W) bs → ic_headers c = batch_header <$> bs →
  catch_up_with_primary (store c) = Ok s → chain_batches (W := W) bs' →
  indexes (rocks_get (db s)) bs' →
  refresh_secondary (c, w) =
    (Ok tt, (with_headers (with_store c s) (batch_header <$> bs'), w)).
Proof. apply refresh_secondary_spec. Qed.

(** [from_config] returns a chain in step with the database it opened, and
    only when the database starts with the node's genesis block. *)
Theorem from_config_loads config w c w' bs :
  from_config config w = (Ok c, w') →
  indexes (rocks_get (db (store c))) bs → chain_batches (W := W) bs →
  chain_inv (W := W) c bs ∧
  match bs with b :: _ => ih_hash (batch_header b) = genesis_hash c | [] => True end.
Proof. apply from_config_spec. Qed.

(** C11: deleting batches undoes writing them: every entry of the database is
    as it was before. *)
Theorem delete_undoes_write bs new self self1 self2 :
  indexes (rocks_get (db self)) bs → batches_wf 0 (bs ++ new) →
  write new self = Ok self1 → delete new self1 = Ok self2 →
  ∀ cf k, rocks_get (db self2) cf k = rocks_get (db self) cf k.
Proof.
  intros Hi Hwf Hw Hd cf k.
  destruct (write_indexes _ _ _ _ Hi Hwf Hw) as (Hi1 & _ & _ & Ho1).
  destruct (delete_indexes _ _ _ _ Hi1 Hwf Hd) as (Hi2 & _ & _ & Ho2).
  assert (index_cf cf ∨ ¬ index_cf cf) as [Hcf|Hcf]
    by (unfold index_cf; destruct cf; naive_solver).
  - apply option_eq. intros x. by rewrite (Hi cf k x Hcf), (Hi2 cf k x Hcf).
  - by rewrite Ho2, Ho1.
Qed.

(** C12: [Batch::build], when it succeeds, indexes exactly the block: a row for
    each indexed script of each transaction (created or spent), a row for
    each transaction id, rows that give each transaction its byte range, and
    the header with the number after the last transaction. *)
Theorem batch_build_exact height r hash block spent b :
  batch_build height r hash block spent = Ok b → is_u32 (range_first r) →
  Z.of_nat (length (block_data block)) < 2 ^ 32 →
  ∃ txs sss, batch_spec height (range_first r) hash block spent txs sss b ∧
    range_next r = range_first r + Z.of_nat (length txs).
Proof. apply batch_build_ok. Qed.
End theorems.

(** [find_by_txnum] finds the one block a transaction number lies in. *)
Theorem find_by_txnum_exact E rows i h t :
  Z.of_nat (length rows) ≤ 2 ^ 32 → txnums_ascending rows → txnum_in_block rows i h t →
  find_by_txnum (E := E) Release rows t =
    Ok {| loc_txnum := t; loc_block_height := Z.of_nat i;
          loc_block_offset := t - first_txnum rows i; loc_indexed_header := h |} ∧
  ∀ j g, txnum_in_block rows j g t → j = i.
Proof.
  intros Hl Ha Hi. split; [by apply find_by_txnum_in_block|].
  intros j g Hj. by eapply txnum_in_block_unique.
Qed.

(** For a transaction of the genesis block the subtraction [block_height - 1]
    underflows: a build with overflow checks panics there, the wrap-around of a
    release build is what makes the lookup work. *)
Theorem find_by_txnum_genesis_overflow E rows h t :
  head rows = Some h → 0 ≤ t < ih_next_txnum h →
  find_by_txnum (E := E) Debug rows t = Panic "attempt to subtract with overflow".
Proof.
  destruct rows as [|h' rows]; [done|]. intros [= ->] Ht. unfold find_by_txnum. cbn [partition_point].
  rewrite (proj2 (Z.leb_gt _ _)) by lia. change (Z.of_nat 0) with 0.
  unfold header_at_height. rewrite (bool_decide_eq_true_2 (0 ≤ 0 < Z.of_nat (length (h :: rows))))
    by (cbn [length]; lia).
  change ((h :: rows) !! Z.to_nat 0) with (Some h). osimpl. by rewrite (proj2 (Z.ltb_lt _ _)) by lia.
Qed.

(** The rows of a Bitcoin header decode to the header they were made from. *)
Theorem header_row_roundtrip E h raw :
  indexed_header_wf h → raw_header_of h raw →
  let '(key, value) := header_serialize Bitcoin h raw in
  header_deserialize_row (E := E) Bitcoin key value (ih_height h) = Ok h ∧
  raw_from_value (E := E) value = Ok raw.
Proof.
  intros Hh Hr. pose proof (header_row_roundtrip_bitcoin (E := E) h raw Hh Hr) as Hrt.
  cbn [header_serialize fst snd] in *. split; [done|].
  destruct Hh as (_ & _ & [_ Hl] & _). unfold raw_from_value, slice_at.
  rewrite (proj2 (slice_get_Some _ HASH_LEN _ raw)); [done|].
  rewrite length_app, Hl. split; [lia|]. rewrite drop_app_length' by done. by rewrite take_ge by lia.
Qed.

(** The delta encoding of a chunk's offsets is lossless, and its decoder
    leaves what follows. *)
Theorem offsets_codec_roundtrip `{VI : !VarInt, VIL : !VarIntLaws} o rest :
  offsets_wf o →
  ∃ b, (∀ E, offsets_consensus_encode (E := E) o = Ok b) ∧
    offsets_consensus_decode (b ++ rest) = Ok o.
Proof. intros (b & Hb & Hd)%offsets_roundtrip. eauto. Qed.

(** [chunkify] splits the positions of a block into rows such that the first
    row at or after a transaction's number gives the transaction's position. *)
Theorem chunkify_locates E t off ps t' off' :
  tiled t off ps t' off' → 0 ≤ off → off' < 2 ^ 32 →
  ∃ rows, chunkify (E := E) ps = Ok rows ∧ rows_in rows t t' ∧
    ∀ n p, (n, p) ∈ ps → rows_locate rows n p.
Proof. apply chunkify_tiled. Qed.

(** [split_headers] accepts exactly the concatenations of 80-byte headers,
    and returns them in order. *)
Theorem split_headers_exact `{CS : !Consensus} data hs :
  split_headers data = Ok hs ↔
  data = concat (rh_raw <$> hs) ∧ Forall raw_header_ok hs.
Proof.
  split.
  - apply split_headers_ok_gen.
  - intros [-> Hok]. by apply split_headers_concat_gen.
Qed.

(** ** Concrete inputs *)

Section witnesses.
Import Toy.

Lemma sync_keeps_index_witness :
  ∃ bs kept new, kept `prefix_of` bs ∧ chain_inv (W := Z) reorged_chain (kept ++ new) ∧
    st_tip stats_2 = tip_hash (ic_headers reorged_chain) ∧
    indexed_blocks stats_2 = wrap64 (Z.of_nat (length new)).
Proof.
  destruct synced_inv as [bs Hi]. exists bs.
  exact (sync_keeps_index 10 synced_chain bs 1 stats_2 reorged_chain 1 Hi reorged_ok).
Defined.


Lemma fetch_new_headers_terminates_witness :
  fetch_new_headers (S (length (ic_headers synced_chain)) + 7) 10 (synced_chain, 3) =
  fetch_new_headers (S (length (ic_headers synced_chain))) 10 (synced_chain, 3).
Proof.
  destruct synced_inv as [bs Hi].
  exact (fetch_new_headers_terminates 7 10 synced_chain bs 3 Hi).
Defined.

Lemma locations_by_scripthash_exact_witness :
  ∃ bs locs,
    locations_by_scripthash (E := ()) Release synced_chain (checksum script_a) None = Ok locs ∧
    located (W := Z) bs (λ n tx spent, 0 ≤ n ∧
      touches (checksum script_a) (stx_scripts tx ++ spent)) locs.
Proof.
  destruct synced_inv as [bs Hi]. exists bs.
  exact (locations_by_scripthash_exact () synced_chain bs (checksum script_a) None Hi
           (checksum_wf script_a) (conj (Z.le_refl 0) eq_refl)).
Defined.

Lemma locations_by_txid_exact_witness :
  ∃ bs locs, locations_by_txid (E := ()) Release synced_chain (stx_txid tx_1) = Ok locs ∧
    located (W := Z) bs (λ n tx spent, prefix_new (stx_txid tx) = prefix_new (stx_txid tx_1)) locs.
Proof.
  destruct synced_inv as [bs Hi]. exists bs.
  refine (locations_by_txid_exact () synced_chain bs (stx_txid tx_1) Hi _).
  split; [by apply bytes_ok_wf|done].
Defined.

Lemma get_tx_bytes_exact_witness :
  get_tx_bytes synced_chain (tx_location 2 1 1 ih_1) 0 = (Ok (stx_raw tx_1), 0) ∧
  ∀ data, get_tx_bytes synced_chain (tx_location 2 1 1 ih_1) 0 = (Ok data, 0) →
          data = stx_raw tx_1.
Proof.
  split; [vm_compute; reflexivity|]. intros data Hd. destruct synced_inv as [bs Hi].
  exact (get_tx_bytes_exact synced_chain bs 2 1 1 ih_1 block_1 tx_1 [script_a] 0 data 0 Hi
           (synced_chain_tx bs Hi) Hd).
Defined.

Lemma block_headers_raw_exact_witness :
  ∃ bs, block_headers_raw synced_chain 0 5 = Ok (raw_header <$> take 5 (drop 0 bs)).
Proof.
  destruct synced_inv as [bs Hi]. exists bs.
  exact (block_headers_raw_exact synced_chain bs 0 5 Hi ltac:(lia)).
Defined.

(** A secondary that knew the first chain, and finds the second one. *)
Lemma refresh_secondary_follows_witness :
  ∃ bs', refresh_secondary
    (with_store synced_chain {| db := db (store reorged_chain); compacting := false;
                                secondary := true |}, 0) =
    (Ok tt, (with_headers (with_store synced_chain
       {| db := db (store reorged_chain); compacting := false; secondary := true |})
       (batch_header <$> bs'), 0)).
Proof.
  destruct synced_inv as [bs [Hcb Hh _]].
  destruct synced_inv as [bs1 Hi1].
  destruct (sync_spec 10 synced_chain bs1 1 (Ok stats_2) reorged_chain 1 Hi1 reorged_ok) as (kept & new & _ & Hi2 & _).
  exists (kept ++ new).
  exact (refresh_secondary_follows
    (with_store synced_chain {| db := db (store reorged_chain); compacting := false;
                                secondary := true |}) bs (kept ++ new)
    {| db := db (store reorged_chain); compacting := false; secondary := true |} 0
    Hcb Hh eq_refl (ci_batches _ _ Hi2) (ci_store _ _ Hi2)).
Defined.

Lemma block_txids_exact_witness :
  block_txids_at_height Release synced_chain 1 0 = (Ok (Some (stx_txid <$> txs_1)), 0) ∧
  ∀ r, block_txids_at_height Release synced_chain 1 0 = (Ok r, 0) →
       r = Some (stx_txid <$> txs_1).
Proof.
  split; [vm_compute; reflexivity|]. intros r Hr. destruct synced_inv as [bs Hi].
  exact (block_txids_exact synced_chain bs 1 ih_1 block_1 txs_1 0 r 0 toy_txids_agree Hi
           (proj1 (synced_tx bs Hi)) block_1_served block_1_visit Hr).
Defined.

Lemma from_config_loads_witness :
  chain_inv (W := Z) empty_chain [] ∧ True.
Proof.
  refine (from_config_loads {| db_path := "db"; secondary_path := None |} 0 empty_chain 0 [] _ _ _).
  - vm_compute. reflexivity.
  - apply (ci_store _ _ empty_inv).
  - apply (ci_batches _ _ empty_inv).
Defined.

Lemma delete_undoes_write_witness :
  ∃ bs self1 self2, write bs (store empty_chain) = Ok self1 ∧ delete bs self1 = Ok self2 ∧
    ∀ cf k, rocks_get (db self2) cf k = rocks_get (db (store empty_chain)) cf k.
Proof.
  destruct synced_inv as [bs [[Hbu _] _ _]]. pose proof (built_wf0 _ Hbu) as Hwf.
  assert (∃ self1, write bs (store empty_chain) = Ok self1) as [self1 Hw].
  { destruct (apply_batch_ok put_cf 0 bs (store empty_chain) Hwf) as (l & _ & Heq).
    unfold write. rewrite Heq. destruct bs; by eexists. }
  assert (∃ self2, delete bs self1 = Ok self2) as [self2 Hd].
  { destruct (apply_batch_ok (λ cf k _, delete_cf cf k) 0 bs self1 Hwf) as (l & _ & Heq).
    unfold delete. rewrite Heq. destruct bs; by eexists. }
  exists bs, self1, self2. split; [exact Hw|]. split; [exact Hd|].
  exact (delete_undoes_write [] bs (store empty_chain) self1 self2
           (ci_store _ _ empty_inv) Hwf Hw Hd).
Defined.

Lemma batch_build_exact_witness :
  ∃ b txs sss, batch_spec 1 1 id_1 {| block_data := block_1; block_header_len := 80 |}
                 {| spent_data := spent_1 |} txs sss b.
Proof.
  destruct (batch_build 1 {| range_first := 1; range_next := 3; range_len := 2 |} id_1
    {| block_data := block_1; block_header_len := 80 |} {| spent_data := spent_1 |})
    as [b|e|m] eqn:E; [|vm_compute in E; discriminate..].
  exists b. destruct (batch_build_exact _ _ _ _ _ b E ltac:(done) ltac:(done))
    as (txs & sss & Hs & _). exists txs, sss. exact Hs.
Defined.

Lemma find_by_txnum_exact_witness :
  find_by_txnum (E := ()) Release (ic_headers synced_chain) 2 =
    Ok {| loc_txnum := 2; loc_block_height := 1; loc_block_offset := 1;
          loc_indexed_header := ih_1 |}.
Proof.
  destruct synced_inv as [bs Hi]. destruct (synced_tx bs Hi) as [Hh Hf].
  destruct (built_headers_wf bs (ci_batches _ _ Hi)) as [Hl Ha].
  rewrite (ci_headers _ _ Hi).
  refine (eq_trans (proj1 (find_by_txnum_exact () _ 1 ih_1 2 Hl Ha _)) _).
  - split; [exact Hh|]. rewrite Hf. done.
  - by rewrite Hf.
Defined.

Lemma find_by_txnum_genesis_overflow_witness :
  find_by_txnum (E := ()) Debug (ic_headers synced_chain) 0 =
    Panic "attempt to subtract with overflow".
Proof.
  refine (find_by_txnum_genesis_overflow () _
    {| ih_height := 0; ih_next_txnum := 1; ih_hash := genesis_id; ih_prev_blockhash := all_zeros |}
    0 _ _); [vm_compute; reflexivity|done].
Defined.

Lemma header_row_roundtrip_witness :
  header_deserialize_row (E := ()) Bitcoin (txnum_serialize 3) (id_1 ++ header_1) 1 = Ok ih_1.
Proof.
  refine (proj1 (header_row_roundtrip () ih_1 header_1 _ _)).
  - split_and!; [done|done|split; [by apply bytes_ok_wf|done]..].
  - split; [cbn; lia|done].
Defined.

Lemma offsets_codec_roundtrip_witness :
  ∃ b, (∀ E, offsets_consensus_encode (E := E) [81; 300; 10000] = Ok b) ∧
    offsets_consensus_decode (b ++ [1; 2]) = Ok [81; 300; 10000].
Proof.
  refine (offsets_codec_roundtrip [81; 300; 10000] [1; 2] _).
  split_and!; [repeat constructor; lia|repeat constructor; lia|cbn; lia..].
Defined.

Lemma chunkify_locates_witness :
  ∃ rows, chunkify (E := ()) [(5, {| offset := 81; size := 10 |}); (6, {| offset := 91; size := 4 |})]
            = Ok rows ∧ rows_in rows 5 7 ∧ rows_locate rows 6 {| offset := 91; size := 4 |}.
Proof.
  destruct (chunkify_locates () 5 81 [(5, {| offset := 81; size := 10 |});
    (6, {| offset := 91; size := 4 |})] 7 95) as (rows & Hr & Hin & Hl); [cbn; lia|lia|lia|].
  exists rows. split; [exact Hr|]. split; [exact Hin|]. apply Hl. right. left.
Defined.
End witnesses.
