(* ===== verification/CacheTheorems.v ===== *)
(** * Correctness of the address cache

    The properties of [bindex-lib]'s cache, each with the concrete input that
    shows its hypotheses can hold. *)

From S2P Require Import Prelude External Index TxPos HashIndex Fmt Headers Batch Store StoreSpec.
From S2P Require Import Client Chain ChainSpec ChainSync ChainQuery Cache CacheSpec CacheSync.
From S2P Require Import Instances.

Section reachable.
Context {S W : Type} `{HS : !Hashes, HSL : !HashLaws, SO : !ScriptOps, VI : !VarInt,
  VIL : !VarIntLaws, SL : !Slices, SLL : !SlicesLaws, CS : !Consensus, RD : !RocksDB S,
  RL : !RocksDBLaws S, HA : !HttpAgent W, NL : !NodeLaws W, ST : !SliceTransactions,
  STL : !SliceTransactionsLaws}.
Implicit Types (chain : IndexedChain S) (bs : list Batch) (c : Cache W).

(** The states of a cache: opened on a new database, addresses added, the node
    changing, synchronized with any chain, with success or an error. *)
Inductive cache_reachable : Cache W → Prop :=
| reach_open n c : cache_open None n = (Ok tt, c) → cache_reachable c
| reach_add c addrs r c' : cache_reachable c → cache_add addrs c = (r, c') → cache_reachable c'
| reach_node c n : cache_reachable c →
    cache_reachable {| ca_tables := ca_tables c; ca_open := ca_open c; ca_node := n |}
| reach_sync c chain bs u c' : cache_reachable c → chain_inv (W := W) chain bs →
    cache_sync chain c = (Ok u, c') → cache_reachable c'
| reach_error c chain e c' : cache_reachable c → cache_sync chain c = (Err e, c') → cache_reachable c'.

Lemma reachable_ok c :
  cache_reachable c →
  ca_open c = None ∧ ∃ bs, chain_batches (W := W) bs ∧ cache_ok (W := W) bs (ca_tables c).
Proof using HSL NL RL SLL STL VIL.
  induction 1 as [n c H|c addrs r c' _ [Ho (bs & Hcb & Hok)] H|c n _ IH
    |c chain bs [] c' _ [Ho (bs0 & Hcb & Hok)] Hinv H|c chain e c' _ [Ho (bs & Hcb & Hok)] H]; [..|done|idtac|idtac].
  - unfold cache_open, run, begin_transaction, commit in H. cbn in H. injection H as <-.
    split; [done|]. exists []. split; [|apply empty_cache_ok]. by repeat constructor.
  - unfold cache_add in H. destruct (add_addresses_total 0 addrs c) as (n & c1 & Ha).
    unfold mbind, stM_bind in H. rewrite Ha in H. injection H as _ <-.
    apply add_addresses_ok in Ha as (-> & -> & _). split; [done|]. exists bs.
    split; [done|]. by apply add_watch_cache_ok.
  - destruct (cache_sync_ok chain bs0 bs c c') as (Hok' & Ho' & _); [done..|]. split; [done|].
    exists bs. split; [apply Hinv|done].
  - apply cache_sync_run in H as [-> ->]; [|apply Hok|done]. split; [done|]. by exists bs.
Qed.

(** C7: whatever addresses were added and whatever chains the cache was
    synchronized with before, with reorgs and failures, a successful [sync]
    leaves exactly the rows of the current chain for every watched script: one
    for each output that pays it, with its value, and one for each input that
    spends such an output of an earlier transaction, with the value negated. *)
Theorem cache_sync_exact chain bs c c' :
  cache_reachable c → chain_inv (W := W) chain bs → cache_sync chain c = (Ok tt, c') →
  tb_watch (ca_tables c') = tb_watch (ca_tables c) ∧
  ∀ sh key a, is_Some (tb_watch (ca_tables c) !! sh) → hk_script_hash key = sh →
    tb_history (ca_tables c') !! key = Some a ↔ ∃ n, expected (W := W) bs sh n key a.
Proof.
  intros [Ho (bs0 & Hcb & Hok)]%reachable_ok Hinv H.
  destruct (cache_sync_ok chain bs0 bs c c') as (_ & _ & Hw & Hc); [done..|]. split; [done|].
  intros sh key a Hsh. by apply Hc.
Qed.

(** C8: [sync] is atomic: an error leaves every table as it was and no
    transaction open; after a panic what is on disk is still the old tables;
    success commits tables that satisfy the constraints of the schema. *)
Theorem cache_sync_atomic chain c r c' :
  cache_reachable c → cache_sync chain c = (r, c') →
  match r with
  | Ok _ => tables_ok (ca_tables c') ∧ ca_open c' = None
  | Err _ => ca_tables c' = ca_tables c ∧ ca_open c' = None
  | Panic _ => ca_open c' = Some (ca_tables c)
  end.
Proof.
  intros [Ho (bs & _ & Hok)]%reachable_ok H.
  pose proof (cache_sync_run chain c r c' (ro_tables _ _ (co_rows _ _ Hok)) Ho H) as Hr.
  destruct r; tauto.
Qed.

(** C25: in every reachable state the tables satisfy the constraints of the
    schema and describe one chain: their headers and transactions are blocks
    and transactions of it, watched scripts are kept by their hash, and a
    script's rows are complete up to its latest block. *)
Theorem cache_reachable_consistent c :
  cache_reachable c →
  ca_open c = None ∧ tables_ok (ca_tables c) ∧ watch_ok (ca_tables c) ∧
  ∃ bs, chain_batches (W := W) bs ∧ headers_ok bs (ca_tables c) ∧
    transactions_ok (W := W) bs (ca_tables c) ∧
    ∀ sh, is_Some (tb_watch (ca_tables c) !! sh) →
      history_below (W := W) bs (ca_tables c) sh (synced_below bs (ca_tables c) sh).
Proof.
  intros [Ho (bs & Hcb & [[Ht Hw Hh Hx] Hhist])]%reachable_ok. split_and!; [done..|].
  by exists bs.
Qed.

(** An output of no value that pays a watched script cannot be spent: the input
    that spends it makes [add_history] panic, and with it every [sync]. *)
Theorem zero_value_spend_panics sh loc rows k op c x y :
  place_of_txid (ca_tables c) (op_txid op) = Some (x, y) →
  tb_history (ca_tables c) !! {| hk_script_hash := sh; hk_block_height := x; hk_block_offset := y;
                                 hk_is_output := true; hk_index := op_vout op |} = Some 0 →
  add_spending sh loc rows (k, op) c = (Panic "assertion failed: amount > 0", c).
Proof.
  intros Hp Ha. assert (∀ A (f : Tables → A), select f c = (Ok (f (ca_tables c)), c)) as Hs.
  { intros A f. unfold select, on_tables. by destruct c. }
  unfold add_spending, mbind, stM_bind. cbn [fst snd]. rewrite Hs, Hp, Hs, Ha. reflexivity.
Qed.
End reachable.

(** ** A concrete cache *)

Module CToy.
Import Toy.

#[export] Instance slice_transactions : SliceTransactions := {
  slice_txid b := '(tx, _) ← parse_tx b; Some (stx_txid tx)
}.
#[export] Instance slice_transactions_laws : SliceTransactionsLaws.
Proof.
  split. cbn. intros raw tx. destruct (parse_tx raw) as [[tx' u]|]; [|done].
  case_bool_decide; [|done]. by intros [= <-].
Qed.

(** An address for [script_a], watched in a new cache. *)
Definition address_a : Address := {| addr_script_pubkey := script_a; addr_text := [97] |}.
Definition sh_a : hash32 := Eval vm_compute in scripthash_new script_a.
Definition opened : Cache Z := (cache_open None 0).2.
Definition watching : Cache Z := (cache_add [address_a] opened).2.

Lemma result_eq {A B} (p : A * B) a : p.1 = a → p = (a, p.2).
Proof. by destruct p; cbn; intros ->. Qed.

Lemma watching_reachable : cache_reachable (S := MapDB.T) (W := Z) watching.
Proof.
  eapply reach_add; [|apply surjective_pairing]. eapply (reach_open 0).
  apply result_eq. vm_compute. reflexivity.
Qed.

(** Synchronized with the first chain, and with the one after the reorg. *)
Definition cached : Cache Z := (cache_sync synced_chain watching).2.
Definition switched : Cache Z :=
  {| ca_tables := ca_tables cached; ca_open := ca_open cached; ca_node := 1 |}.
Definition recached : Cache Z := (cache_sync reorged_chain switched).2.

Lemma cached_ok : cache_sync synced_chain watching = (Ok tt, cached).
Proof. apply (result_eq (cache_sync synced_chain watching)). vm_compute. reflexivity. Qed.
Lemma recached_ok : cache_sync reorged_chain switched = (Ok tt, recached).
Proof. apply (result_eq (cache_sync reorged_chain switched)). vm_compute. reflexivity. Qed.

Lemma reorged_inv : ∃ bs, chain_inv (W := Z) reorged_chain bs.
Proof.
  destruct synced_inv as [bs Hi].
  pose proof (sync_spec 10 synced_chain bs 1 (Ok stats_2) reorged_chain 1 Hi reorged_ok) as Hs.
  cbn in Hs. destruct Hs as (kept & new & _ & Hi' & _). eauto.
Qed.

Lemma switched_reachable : cache_reachable (S := MapDB.T) (W := Z) switched.
Proof.
  destruct synced_inv as [bs Hi]. apply reach_node.
  exact (reach_sync watching synced_chain bs tt cached watching_reachable Hi cached_ok).
Qed.

(** The output of the genesis block, and its spending in the block dropped. *)
Definition funding_key : HistoryKey := history_key sh_a 0 0 true 0.
Definition spending_key : HistoryKey := history_key sh_a 1 1 false 0.

End CToy.

Section witnesses.
Import Toy CToy.

Lemma cache_sync_exact_witness :
  map_to_list (tb_history (ca_tables cached)) = [(funding_key, 1); (spending_key, -1)] ∧
  map_to_list (tb_history (ca_tables recached)) = [(funding_key, 1)] ∧
  ∃ bs, chain_inv (W := Z) reorged_chain bs ∧ ∃ n, expected (W := Z) bs sh_a n funding_key 1.
Proof.
  split; [vm_compute; reflexivity|]. split; [vm_compute; reflexivity|].
  destruct reorged_inv as [bs Hi]. exists bs. split; [exact Hi|].
  destruct (cache_sync_exact reorged_chain bs switched recached switched_reachable Hi recached_ok)
    as [_ Hrows].
  apply (Hrows sh_a funding_key 1); [|reflexivity|].
  - eexists. vm_compute. reflexivity.
  - vm_compute. reflexivity.
Defined.

Lemma cache_sync_atomic_witness :
  tables_ok (ca_tables recached) ∧ ca_open recached = None.
Proof.
  exact (cache_sync_atomic reorged_chain switched (Ok tt) recached switched_reachable recached_ok).
Defined.

Lemma cache_reachable_consistent_witness :
  ca_open switched = None ∧ tables_ok (ca_tables switched).
Proof.
  destruct (cache_reachable_consistent switched switched_reachable) as (Ho & Ht & _).
  split; [exact Ho|exact Ht].
Defined.
End witnesses.
