(* ===== verification/Merkle.v ===== *)
(** * Merkle proofs

    [bindex-electrum/src/merkle.rs]: the Merkle branch of a leaf, and the root,
    of Bitcoin's tree (an odd level repeats its last hash). *)

From S2P Require Import Prelude External.

Record Proof := { branch : list hash32; root : hash32 }.

Section merkle.
Context `{HS : !Hashes}.

(** One round of the loop on the level, padded to an even length. *)
Definition pad_level (level : list hash32) : list hash32 :=
  if Nat.odd (length level)
  then match last level with Some h => level ++ [h] | None => level end
  else level.

(** [level.chunks_exact(2)], each pair hashed. *)
Fixpoint next_level (level : list hash32) : list hash32 :=
  match level with
  | a :: b :: level => sha256d (a ++ b) :: next_level level
  | _ => []
  end.

Definition sibling_index (idx : nat) : nat := if Nat.even idx then S idx else Nat.pred idx.

(** The loop: each round halves the level, so its length is enough fuel. *)
Fixpoint branch_loop {E} (fuel : nat) (level : list hash32) (idx : nat) (branch : list hash32)
    : outcome E Proof :=
  match level with
  | [] => Panic "index out of bounds"
  | [root] => mret {| branch := branch; root := root |}
  | _ =>
      match fuel with
      | O => Panic "out of fuel"
      | S fuel =>
          let level := pad_level level in
          sibling ← expect "index out of bounds" (level !! sibling_index idx);
          branch_loop fuel (next_level level) (Nat.div2 idx) (branch ++ [sibling])
      end
  end.

Definition branch_and_root {E} (leaves : list hash32) (index : nat) : outcome E Proof :=
  _ ← assert_that "!leaves.is_empty()" (bool_decide (leaves ≠ []));
  _ ← assert_that "index < leaves.len()" (bool_decide (index < length leaves)%nat);
  branch_loop (length leaves) leaves index [].

(** ** What a client checks *)

(** The root a leaf at [idx] and a branch lead to. *)
Fixpoint fold_branch (acc : hash32) (idx : nat) (branch : list hash32) : hash32 :=
  match branch with
  | [] => acc
  | s :: branch =>
      fold_branch (if Nat.even idx then sha256d (acc ++ s) else sha256d (s ++ acc))
        (Nat.div2 idx) branch
  end.

(** The root of the tree, level by level. *)
Inductive merkle_root : list hash32 → hash32 → Prop :=
| merkle_root_leaf h : merkle_root [h] h
| merkle_root_level level h :
    (1 < length level)%nat → merkle_root (next_level (pad_level level)) h →
    merkle_root level h.

(** ** Properties *)

Lemma next_level_length level : length (next_level level) = Nat.div2 (length level).
Proof.
  revert level. fix IH 1. intros [|a [|b level]]; [done..|].
  cbn [next_level length Nat.div2]. by rewrite IH.
Qed.

Lemma next_level_lookup level i a b :
  level !! (2 * i)%nat = Some a → level !! S (2 * i) = Some b →
  next_level level !! i = Some (sha256d (a ++ b)).
Proof.
  revert level. induction i as [|i IH]; intros level Ha Hb.
  - destruct level as [|x [|y level]]; [done..|]. by injection Ha as ->; injection Hb as ->.
  - replace (2 * S i)%nat with (S (S (2 * i))) in * by lia.
    destruct level as [|x [|y level]]; [done..|]. by apply IH.
Qed.

Lemma pad_level_spec level :
  level ≠ [] → ∃ tail, pad_level level = level ++ tail ∧
    Nat.Even (length (pad_level level)) ∧
    length (pad_level level) = (2 * Nat.div2 (S (length level)))%nat.
Proof.
  intros Hne. unfold pad_level. destruct (Nat.odd (length level)) eqn:Hodd.
  - apply Nat.odd_spec in Hodd as [k Hk].
    destruct (last level) as [h|] eqn:El; [|by apply last_None in El].
    exists [h]. rewrite length_app. cbn [length]. split; [done|].
    rewrite Hk. replace (2 * k + 1 + 1)%nat with (2 * S k)%nat by lia.
    replace (S (2 * k + 1)) with (2 * S k)%nat by lia.
    rewrite Nat.div2_double. split; [by exists (S k)|done].
  - assert (Nat.even (length level) = true) as Hev by (by rewrite <-Nat.negb_odd, Hodd).
    apply Nat.even_spec in Hev as [k Hk]. exists []. rewrite app_nil_r, Hk.
    replace (S (2 * k)) with (2 * k + 1)%nat by lia.
    split; [done|]. split; [by exists k|].
    by rewrite Nat.add_1_r, Nat.div2_succ_double.
Qed.

(** One round: the sibling exists, and the pair's hash is the parent. *)
Lemma round_spec level idx leaf :
  (1 < length level)%nat → level !! idx = Some leaf →
  ∃ sib, pad_level level !! sibling_index idx = Some sib ∧
    next_level (pad_level level) !! Nat.div2 idx =
      Some (if Nat.even idx then sha256d (leaf ++ sib) else sha256d (sib ++ leaf)) ∧
    length (next_level (pad_level level)) = Nat.div2 (S (length level)).
Proof.
  intros Hl Hi. destruct (pad_level_spec level) as (tail & Hp & Hev & Hlen); [by destruct level|].
  pose proof (lookup_lt_Some _ _ _ Hi) as Hlt.
  assert (pad_level level !! idx = Some leaf) as Hi' by (rewrite Hp; by apply lookup_app_l_Some).
  assert (length level ≤ length (pad_level level))%nat as Hge by (rewrite Hp, length_app; lia).
  unfold sibling_index. destruct (Nat.even idx) eqn:Eidx.
  - apply Nat.even_spec in Eidx as [k ->]. rewrite Nat.div2_double.
    destruct (lookup_lt_is_Some_2 (pad_level level) (S (2 * k))) as [sib Hs]; [lia|].
    exists sib. split_and!; [done|by apply next_level_lookup|].
    by rewrite next_level_length, Hlen, Nat.div2_double.
  - assert (Nat.odd idx = true) as Hodd by (by rewrite <-Nat.negb_even, Eidx).
    apply Nat.odd_spec in Hodd as [k ->]. rewrite Nat.add_1_r in *.
    rewrite Nat.div2_succ_double. cbn [Nat.pred].
    destruct (lookup_lt_is_Some_2 (pad_level level) (2 * k)) as [sib Hs]; [lia|].
    exists sib. split_and!; [done|by apply next_level_lookup|].
    by rewrite next_level_length, Hlen, Nat.div2_double.
Qed.

Lemma branch_loop_spec {E} fuel level idx leaf b0 :
  (length level ≤ fuel)%nat → level !! idx = Some leaf →
  ∃ br r, branch_loop (E := E) fuel level idx b0 = Ok {| branch := b0 ++ br; root := r |} ∧
    fold_branch leaf idx br = r ∧ merkle_root level r ∧
    (length level ≤ 2 ^ length br < 2 * length level)%nat.
Proof.
  revert level idx leaf b0. induction fuel as [|fuel IH]; intros level idx leaf b0 Hf Hi.
  { apply lookup_lt_Some in Hi. lia. }
  destruct level as [|a [|b level]]; [done| |].
  { destruct idx as [|idx]; [|done]. injection Hi as ->. exists [], leaf.
    rewrite app_nil_r. split_and!; [done|done|constructor|cbn; lia..]. }
  remember (a :: b :: level) as lv eqn:Elv.
  assert (1 < length lv)%nat as Hl by (subst; cbn; lia).
  destruct (round_spec lv idx leaf Hl Hi) as (sib & Hs & Hn & Hlen).
  set (n := length lv) in *.
  assert (Nat.div2 (S n) < n ∧ n ≤ 2 * Nat.div2 (S n) ≤ S n)%nat as Hd.
  { pose proof (Nat.div2_odd (S n)). destruct (Nat.odd (S n)); cbn [Nat.b2n] in *; lia. }
  destruct (IH (next_level (pad_level lv)) (Nat.div2 idx)
    (if Nat.even idx then sha256d (leaf ++ sib) else sha256d (sib ++ leaf)) (b0 ++ [sib]))
    as (br & r & Hr & Hfold & Hroot & Hb1 & Hb2); [lia|done|].
  exists (sib :: br), r. split_and!.
  - rewrite Elv. cbn [branch_loop]. rewrite <-Elv, Hs. osimpl. rewrite Hr. by rewrite <-app_assoc.
  - done.
  - by constructor.
  - cbn [length]. rewrite Hlen in Hb1. rewrite Nat.pow_succ_r'. lia.
  - cbn [length]. rewrite Hlen in Hb2. rewrite Nat.pow_succ_r'.
    assert (2 ^ length br < n)%nat; [|lia].
    destruct (length br) as [|k]; [cbn; lia|]. rewrite Nat.pow_succ_r' in *.
    assert (2 * 2 ^ k ≠ n)%nat; [|lia]. intros Hpow.
    assert (Nat.div2 (S n) = 2 ^ k)%nat; [|lia].
    by rewrite <-Hpow, Nat.div2_succ_double.
Qed.

Lemma merkle_root_unique level r r' : merkle_root level r → merkle_root level r' → r = r'.
Proof.
  intros H1. revert r'. induction H1 as [h|level h Hl _ IH]; intros r' H2.
  - inversion H2 as [|? ? Hl]; [done|]. cbn in Hl. lia.
  - inversion H2 as [h' Heq|]; subst; [cbn in Hl; lia|]. by apply IH.
Qed.

(** ** Binding *)

(** The inputs hashed on the way from a leaf to the root. *)
Fixpoint branch_inputs (acc : hash32) (idx : nat) (branch : list hash32) : list bytes :=
  match branch with
  | [] => []
  | s :: branch =>
      let input := if Nat.even idx then acc ++ s else s ++ acc in
      input :: branch_inputs (sha256d input) (Nat.div2 idx) branch
  end.
(** At some level, the two branches hash different inputs to one value. *)
Definition branch_collision (x y : hash32) (idx : nat) (bx bz : list hash32) : Prop :=
  ∃ k u v, branch_inputs x idx bx !! k = Some u ∧ branch_inputs y idx bz !! k = Some v ∧
    u ≠ v ∧ sha256d u = sha256d v.

Context `{HSL : !HashLaws}.

Abbreviation hashes_wf := (Forall (λ h : hash32, length h = HASH_LEN)).

Lemma pad_level_hashes level : hashes_wf level → hashes_wf (pad_level level).
Proof.
  intros Hw. unfold pad_level. destruct (Nat.odd _); [|done].
  destruct (last level) as [h|] eqn:El; [|done]. apply Forall_app. split; [done|].
  constructor; [|done]. rewrite Forall_forall in Hw. by apply Hw, last_Some_elem_of.
Qed.
Lemma next_level_hashes level : hashes_wf (next_level level).
Proof.
  revert level. fix IH 1. intros [|a [|b level]]; [constructor..|].
  cbn [next_level]. constructor; [apply sha256d_wf|apply IH].
Qed.
Lemma branch_loop_hashes {E} fuel level idx b0 p :
  hashes_wf level → hashes_wf b0 → branch_loop (E := E) fuel level idx b0 = Ok p →
  hashes_wf (branch p).
Proof using HSL.
  revert level idx b0. induction fuel as [|fuel IH]; intros level idx b0 Hw Hb.
  { destruct level as [|a [|b level]]; cbn; [done|by intros [= <-]|done]. }
  destruct level as [|a [|b level]]; [done|by intros [= <-]|]. cbn [branch_loop].
  remember (a :: b :: level) as lv. clear Heqlv a b level.
  destruct (pad_level lv !! sibling_index idx) as [sib|] eqn:Es; [|done]. osimpl.
  apply IH; [apply next_level_hashes|]. apply Forall_app. split; [done|].
  constructor; [|done]. apply pad_level_hashes in Hw. rewrite Forall_forall in Hw.
  by eapply Hw, list_elem_of_lookup_2.
Qed.

Lemma fold_branch_binding x y idx bx bz :
  length x = HASH_LEN → length y = HASH_LEN →
  Forall (λ s, length s = HASH_LEN) bx → Forall (λ s, length s = HASH_LEN) bz →
  length bx = length bz → fold_branch x idx bx = fold_branch y idx bz →
  (x = y ∧ bx = bz) ∨ branch_collision x y idx bx bz.
Proof.
  intros Hx Hy Hbx. revert x y idx bz Hx Hy.
  induction Hbx as [|s bx Hs _ IH]; intros x y idx bz Hx Hy Hby Hl Heq.
  { destruct bz; [|done]. by left. }
  destruct bz as [|s' bz]; [done|]. apply Forall_cons in Hby as [Hs' Hby]. injection Hl as Hl.
  cbn [fold_branch] in Heq.
  set (u := if Nat.even idx then x ++ s else s ++ x).
  set (v := if Nat.even idx then y ++ s' else s' ++ y).
  assert (fold_branch (sha256d u) (Nat.div2 idx) bx = fold_branch (sha256d v) (Nat.div2 idx) bz) as Hf.
  { unfold u, v. by destruct (Nat.even idx). }
  apply IH in Hf as [[Hh ->]|(k & a & b & Ha & Hb & ?)]; [| |apply sha256d_wf..|done|done].
  - destruct (decide (u = v)) as [Huv|Huv].
    + left. unfold u, v in Huv. destruct (Nat.even idx).
      * apply app_inj_1 in Huv as [-> ->]; [done|congruence].
      * apply app_inj_1 in Huv as [-> ->]; [done|congruence].
    + right. by exists 0%nat, u, v.
  - right. by exists (S k), a, b.
Qed.
End merkle.
