(* ===== verification/Text.v ===== *)
(** * Strings as bytes

    What the programs use of [str] from Rust's standard library: decimal
    numbers, splitting and joining, ASCII case. A string is the list of its
    bytes; [lit] reads an ASCII literal. *)

From Stdlib Require Import Ascii.
From S2P Require Import Prelude.

Abbreviation str := (list Z) (only parsing).

Definition lit (s : string) : str :=
  (λ c, Z.of_N (N_of_ascii c)) <$> String.list_ascii_of_string s.

(** ** Decimal numbers *)

Definition is_digit (c : Z) : bool := (48 <=? c) && (c <=? 57).

Fixpoint show_digits (fuel : nat) (z : Z) : str :=
  match fuel with
  | O => []
  | S fuel => if z <? 10 then [48 + z] else show_digits fuel (z / 10) ++ [48 + z mod 10]
  end.
(** [to_string] of an unsigned and of a signed integer; the number of binary
    digits is enough fuel for the decimal ones. *)
Definition show_unsigned (z : Z) : str := show_digits (S (Z.to_nat (Z.log2 z))) z.
Definition show_signed (z : Z) : str :=
  if z <? 0 then 45 :: show_unsigned (- z) else show_unsigned z.

(** The digits, checking for overflow at every step: [checked_mul], [checked_add]. *)
Fixpoint parse_digits (bound acc : Z) (s : str) : option Z :=
  match s with
  | [] => Some acc
  | c :: s =>
      if is_digit c then
        if acc * 10 <? bound then
          if acc * 10 + (c - 48) <? bound then parse_digits bound (acc * 10 + (c - 48)) s else None
        else None
      else None
  end.
(** [str::parse] for an unsigned integer below [bound]: an optional [+], then at
    least one digit. *)
Definition parse_unsigned (bound : Z) (s : str) : option Z :=
  match s with
  | [] => None
  | c :: digits =>
      if c =? 43 then match digits with [] => None | _ => parse_digits bound 0 digits end
      else parse_digits bound 0 s
  end.

Lemma show_digits_ok fuel z :
  0 ≤ z < 2 ^ Z.of_nat fuel → (0 < fuel)%nat →
  show_digits fuel z ≠ [] ∧ Forall (λ c, is_digit c = true) (show_digits fuel z).
Proof.
  revert z. induction fuel as [|fuel IH]; intros z Hz Hf; [lia|]. cbn [show_digits].
  destruct (Z.ltb_spec z 10).
  - split; [done|]. constructor; [|done]. apply andb_true_iff. rewrite !Z.leb_le. lia.
  - rewrite Nat2Z.inj_succ, Z.pow_succ_r in Hz by lia.
    destruct fuel as [|fuel]; [cbn in Hz; lia|].
    pose proof (Z.mod_pos_bound z 10 ltac:(lia)).
    destruct (IH (z / 10)) as [Hne Hd]; [|lia|].
    { split; [apply Z.div_pos; lia|]. apply Z.div_lt_upper_bound; lia. }
    split; [by destruct (show_digits _ _)|]. apply Forall_app. split; [done|].
    constructor; [|done]. apply andb_true_iff. rewrite !Z.leb_le. lia.
Qed.

Lemma log2_fuel z : 0 ≤ z → z < 2 ^ Z.of_nat (S (Z.to_nat (Z.log2 z))).
Proof.
  intros Hz. rewrite Nat2Z.inj_succ, Z2Nat.id by apply Z.log2_nonneg.
  destruct (decide (z = 0)) as [->|]; [done|]. apply Z.log2_spec. lia.
Qed.

Lemma show_unsigned_digits z :
  0 ≤ z → show_unsigned z ≠ [] ∧ Forall (λ c, is_digit c = true) (show_unsigned z).
Proof. intros Hz. apply show_digits_ok; [|lia]. split; [done|]. by apply log2_fuel. Qed.

Lemma parse_digits_app bound acc s t :
  parse_digits bound acc (s ++ t) =
  match parse_digits bound acc s with Some acc => parse_digits bound acc t | None => None end.
Proof.
  revert acc. induction s as [|c s IH]; intros acc; [done|]. cbn [app parse_digits].
  destruct (is_digit c), (acc * 10 <? bound), (acc * 10 + (c - 48) <? bound); done || apply IH.
Qed.

Lemma parse_show_digits bound fuel z :
  0 ≤ z < bound → z < 2 ^ Z.of_nat fuel → (0 < fuel)%nat →
  parse_digits bound 0 (show_digits fuel z) = Some z.
Proof.
  revert z. induction fuel as [|fuel IH]; intros z Hz Hf Hn; [lia|]. cbn [show_digits].
  destruct (Z.ltb_spec z 10).
  - cbn [parse_digits]. assert (is_digit (48 + z) = true) as ->
      by (apply andb_true_iff; rewrite !Z.leb_le; lia).
    rewrite !(proj2 (Z.ltb_lt _ _)) by lia. f_equal. lia.
  - rewrite Nat2Z.inj_succ, Z.pow_succ_r in Hf by lia.
    destruct fuel as [|fuel]; [cbn in Hf; lia|].
    pose proof (Z.mod_pos_bound z 10 ltac:(lia)). pose proof (Z.div_mod z 10 ltac:(lia)).
    rewrite parse_digits_app, IH; [|split; [apply Z.div_pos; lia|lia]
      |apply Z.div_lt_upper_bound; lia|lia].
    cbn [parse_digits]. assert (is_digit (48 + z mod 10) = true) as ->
      by (apply andb_true_iff; rewrite !Z.leb_le; lia).
    rewrite !(proj2 (Z.ltb_lt _ _)) by lia. f_equal. lia.
Qed.

Lemma parse_unsigned_digits bound s :
  s ≠ [] → Forall (λ c, is_digit c = true) s → parse_unsigned bound s = parse_digits bound 0 s.
Proof.
  intros Hne Hd. destruct s as [|c s]; [done|]. apply Forall_cons in Hd as [Hc _].
  cbn [parse_unsigned]. destruct (Z.eqb_spec c 43) as [->|]; [done|done].
Qed.

Lemma parse_show_unsigned bound z :
  0 ≤ z < bound → parse_unsigned bound (show_unsigned z) = Some z.
Proof.
  intros Hz. destruct (show_unsigned_digits z) as [Hne Hd]; [lia|].
  rewrite parse_unsigned_digits by done. apply parse_show_digits; [done| |lia].
  apply log2_fuel. lia.
Qed.

Lemma show_unsigned_inj a b : 0 ≤ a → 0 ≤ b → show_unsigned a = show_unsigned b → a = b.
Proof.
  intros Ha Hb Heq. pose proof (parse_show_unsigned (a + b + 1) a ltac:(lia)) as H1.
  pose proof (parse_show_unsigned (a + b + 1) b ltac:(lia)) as H2. rewrite Heq in H1. congruence.
Qed.

Lemma show_signed_chars z :
  Forall (λ c, is_digit c = true ∨ c = 45) (show_signed z).
Proof.
  unfold show_signed. destruct (Z.ltb_spec z 0).
  - constructor; [by right|]. destruct (show_unsigned_digits (- z)) as [_ Hd]; [lia|].
    eapply Forall_impl; [done|]. auto.
  - destruct (show_unsigned_digits z) as [_ Hd]; [lia|]. eapply Forall_impl; [done|]. auto.
Qed.

Lemma show_signed_inj a b : show_signed a = show_signed b → a = b.
Proof.
  assert (∀ z s, 0 ≤ z → show_unsigned z ≠ 45 :: s) as Hm.
  { intros z s Hz Heq. destruct (show_unsigned_digits z Hz) as [_ Hd]. rewrite Heq in Hd.
    by apply Forall_cons in Hd as [? _]. }
  unfold show_signed. destruct (Z.ltb_spec a 0), (Z.ltb_spec b 0); intros Heq.
  - injection Heq as Heq%show_unsigned_inj; lia.
  - symmetry in Heq. by apply Hm in Heq.
  - by apply Hm in Heq.
  - by apply show_unsigned_inj.
Qed.

Lemma parse_digits_bound bound acc s z :
  0 ≤ acc < bound → parse_digits bound acc s = Some z → 0 ≤ z < bound.
Proof.
  revert acc. induction s as [|c s IH]; intros acc Ha; cbn [parse_digits]; [by intros [= <-]|].
  destruct (is_digit c) eqn:Hd; [|done]. apply andb_true_iff in Hd as [H1%Z.leb_le H2%Z.leb_le].
  destruct (Z.ltb_spec (acc * 10) bound); [|done].
  destruct (Z.ltb_spec (acc * 10 + (c - 48)) bound); [|done]. apply IH. lia.
Qed.

(** ** Splitting *)

(** [str::split] on a one-byte separator: always at least one part. *)
Fixpoint split_on (sep : Z) (s : str) : list str :=
  match s with
  | [] => [[]]
  | c :: s =>
      if c =? sep then [] :: split_on sep s
      else match split_on sep s with
           | p :: ps => (c :: p) :: ps
           | [] => [[c]]
           end
  end.

Fixpoint join_with (sep : Z) (parts : list str) : str :=
  match parts with
  | [] => []
  | [p] => p
  | p :: parts => p ++ sep :: join_with sep parts
  end.

Lemma split_on_nonempty sep s : split_on sep s ≠ [].
Proof. destruct s as [|c s]; [done|]. cbn. case_match; [done|]. by case_match. Qed.

Lemma split_on_app sep p s :
  sep ∉ p → split_on sep (p ++ sep :: s) = p :: split_on sep s.
Proof.
  induction p as [|c p IH]; intros Hn; cbn [app split_on].
  - by rewrite Z.eqb_refl.
  - apply not_elem_of_cons in Hn as [Hc Hn]. rewrite (proj2 (Z.eqb_neq _ _)) by done.
    by rewrite IH.
Qed.

Lemma split_on_none sep p : sep ∉ p → split_on sep p = [p].
Proof.
  induction p as [|c p IH]; intros Hn; [done|]. cbn [split_on].
  apply not_elem_of_cons in Hn as [Hc Hn]. rewrite (proj2 (Z.eqb_neq _ _)) by done.
  by rewrite IH.
Qed.

Lemma split_join sep parts :
  parts ≠ [] → Forall (λ p, sep ∉ p) parts → split_on sep (join_with sep parts) = parts.
Proof.
  intros Hne Hp. induction Hp as [|p parts Hn _ IH]; [done|].
  destruct parts as [|q parts]; [by apply split_on_none|].
  change (join_with sep (p :: q :: parts)) with (p ++ sep :: join_with sep (q :: parts)).
  rewrite split_on_app by done. f_equal. by apply IH.
Qed.

Lemma join_split sep s : join_with sep (split_on sep s) = s.
Proof.
  induction s as [|c s IH]; [done|]. cbn [split_on].
  destruct (Z.eqb_spec c sep) as [->|].
  - pose proof (split_on_nonempty sep s). destruct (split_on sep s) as [|p ps]; [done|].
    change (join_with sep ([] :: p :: ps)) with (sep :: join_with sep (p :: ps)). by rewrite IH.
  - pose proof (split_on_nonempty sep s). destruct (split_on sep s) as [|p [|q ps]]; [done|..].
    + cbn in *. by rewrite IH.
    + change (join_with sep ((c :: p) :: q :: ps)) with (c :: join_with sep (p :: q :: ps)).
      by rewrite IH.
Qed.

(** ** Hexadecimal text ([hex] crate) *)

Class Hex := {
  hex_encode : bytes → str;
  hex_decode : str → option bytes;
}.
Class HexLaws `{Hex} := {
  hex_decode_encode b : bytes_wf b → hex_decode (hex_encode b) = Some b;
  hex_decode_wf s b : hex_decode s = Some b → bytes_wf b;
  hex_encode_chars b : bytes_wf b →
    Forall (λ c, 48 ≤ c ≤ 57 ∨ 97 ≤ c ≤ 102) (hex_encode b);
}.

Lemma hex_encode_inj `{HX : !Hex, HXL : !HexLaws} a b :
  bytes_wf a → bytes_wf b → hex_encode a = hex_encode b → a = b.
Proof.
  intros Ha Hb Heq. pose proof (hex_decode_encode a Ha) as H1.
  pose proof (hex_decode_encode b Hb) as H2. rewrite Heq in H1. congruence.
Qed.
