(* ===== verification/Daemon.v ===== *)
(** * The indexer daemon

    [bindex-sync/src/main.rs]: the primary writer of an index, which keeps
    synchronizing it and, once caught up, waits for an announced block or for the
    polling interval. ZeroMQ and the threads are input: what the listener
    receives, and when, is given. *)

From S2P Require Import Prelude External Text Index HashIndex Fmt Headers Batch Store Client Chain.

Inductive daemon_error `{Slices} :=
| DaemonOpen (e : chain_error slices_error)
| DaemonSync (e : chain_error slices_error)
| DaemonEndpoint (endpoint : str).
Arguments DaemonOpen {_} e.
Arguments DaemonSync {_} e.
Arguments DaemonEndpoint {_} endpoint.

(** ** Announcements *)

(** The receiving end of the channel: wake-ups that are queued, and whether the
    listener's thread still runs. *)
Record Receiver := { rc_queued : nat; rc_alive : bool }.

(** What happens first while [recv_timeout] waits. *)
Inductive arrival := Arrives | NothingArrives | ListenerEnds.
Inductive recv_result := Received | TimedOut | Disconnected.
Definition recv_timeout (e : arrival) (r : Receiver) : recv_result * Receiver :=
  match rc_queued r with
  | S n => (Received, {| rc_queued := n; rc_alive := rc_alive r |})
  | O =>
      if rc_alive r then
        match e with
        | Arrives => (Received, r)
        | NothingArrives => (TimedOut, r)
        | ListenerEnds => (Disconnected, {| rc_queued := 0; rc_alive := false |})
        end
      else (Disconnected, r)
  end.
(** [while blocks.try_recv().is_ok() {}], with the number of wake-ups sent before
    each attempt; those sent after the loop stay queued. *)
Fixpoint drain (sent : list nat) (queued : nat) : nat :=
  match sent with
  | [] => 0
  | k :: sent => match (queued + k)%nat with O => sum_list sent | S n => drain sent n end
  end.
(** How long [wait_for_block] blocks: until a wake-up, or for all of [poll]. *)
Inductive waited := UntilWakeUp | WholePoll.
Definition wait_for_block (e : arrival) (sent : list nat) (r : Receiver) : waited * Receiver :=
  match recv_timeout e r with
  | (Received, r) => (UntilWakeUp, {| rc_queued := drain sent (rc_queued r); rc_alive := rc_alive r |})
  | (TimedOut, r) => (WholePoll, r)
  | (Disconnected, r) => (WholePoll, r)
  end.

(** ** The listener *)

(** The tasks of [subscribe_blocks]: connecting and subscribing, receiving,
    pausing after an error, and done. *)
Inductive listener := Connecting | Listening | Pausing | Ended.
Inductive zmq_event := ZmqOk | ZmqError | PauseOver.
(** One step; whether a wake-up is sent. [receiver] says that the daemon still
    holds the receiving end. *)
Definition listener_step (receiver : bool) (l : listener) (e : zmq_event) : listener * bool :=
  match l, e with
  | Connecting, ZmqOk => (Listening, false)
  | Listening, ZmqOk => if receiver then (Listening, true) else (Ended, false)
  | Connecting, ZmqError | Listening, ZmqError => (Pausing, false)
  | Pausing, PauseOver => (Connecting, false)
  | l, _ => (l, false)
  end.
Definition subscribe_blocks `{Slices} (endpoint : str) : outcome daemon_error (listener * Receiver) :=
  if starts_with endpoint (lit "tcp://") then Ok (Connecting, {| rc_queued := 0; rc_alive := true |})
  else Err (DaemonEndpoint endpoint).

(** ** [main] *)

Record Args := {
  ar_db_path : string; ar_db_name : option string; ar_batch : Z; ar_once : bool;
  ar_zmq_rawblock : option str;
}.

Section daemon.
Context {S W : Type} `{HS : !Hashes, VI : !VarInt, SL : !Slices, SO : !ScriptOps, CS : !Consensus,
  RD : !RocksDB S, CJ : !ConfigJson, HA : !HttpAgent W}.

Record Daemon := { dm_chain : IndexedChain S; dm_node : W; dm_blocks : option Receiver }.

(** No listener is started for a one-shot catch-up. *)
Definition daemon_blocks (args : Args) : outcome daemon_error (option Receiver) :=
  match ar_zmq_rawblock args with
  | Some endpoint =>
      if negb (ar_once args) then '(_, blocks) ← subscribe_blocks endpoint; mret (Some blocks) else mret None
  | None => mret None
  end.
Definition daemon_start (fmt : chain_format) (args : Args) (n : W) : outcome daemon_error Daemon :=
  let name := default (FORMAT_NAME fmt) (ar_db_name args) in
  let '(chain, n) := open_named (ar_db_path args) name n in
  chain ← map_err DaemonOpen chain;
  blocks ← daemon_blocks args;
  mret {| dm_chain := chain; dm_node := n; dm_blocks := blocks |}.

(** The end of a round that found nothing, when it is not the last one. *)
Definition daemon_wait (e : arrival) (sent : list nat) (d : Daemon) : waited * Daemon :=
  match dm_blocks d with
  | Some blocks =>
      let '(w, blocks) := wait_for_block e sent blocks in
      (w, {| dm_chain := dm_chain d; dm_node := dm_node d; dm_blocks := Some blocks |})
  | None => (WholePoll, d)
  end.
(** One round of the loop: the statistics it returns with, or [None]. *)
Definition daemon_round (args : Args) (e : arrival) (sent : list nat) (d : Daemon)
    : outcome daemon_error (option Stats) * Daemon :=
  let '(r, (chain, n)) := Chain.sync (ar_batch args) (dm_chain d, dm_node d) in
  let d := {| dm_chain := chain; dm_node := n; dm_blocks := dm_blocks d |} in
  match r with
  | Ok stats =>
      if indexed_blocks stats =? 0 then
        if ar_once args then (Ok (Some stats), d) else (Ok None, (daemon_wait e sent d).2)
      else (Ok None, d)
  | Err err => (Err (DaemonSync err), d)
  | Panic msg => (Panic msg, d)
  end.
(** Between rounds wake-ups are sent, and the listener may end. *)
Inductive daemon_reaches (args : Args) : Daemon → Daemon → Prop :=
| daemon_here d : daemon_reaches args d d
| daemon_next d e sent d1 d2 :
    daemon_round args e sent d = (Ok None, d1) → daemon_reaches args d1 d2 → daemon_reaches args d d2
| daemon_events d blocks blocks' d2 :
    dm_blocks d = Some blocks → (rc_queued blocks ≤ rc_queued blocks')%nat →
    (rc_alive blocks' = true → rc_alive blocks = true) →
    daemon_reaches args {| dm_chain := dm_chain d; dm_node := dm_node d; dm_blocks := Some blocks' |} d2 →
    daemon_reaches args d d2.
End daemon.
