(* ===== verification/Protocol.v ===== *)
(** * The Electrum protocol's values

    [bindex-electrum/src/protocol.rs]: protocol versions and their negotiation,
    JSON-RPC frames and responses, script hashes and the script status. *)

From S2P Require Import Prelude External Text.

(** ** [ProtocolVersion] *)

Record ProtocolVersion := { components : list Z }.
#[export] Instance ProtocolVersion_eq_dec : EqDecision ProtocolVersion.
Proof. solve_decision. Defined.

Inductive version_error := EmptyComponent | InvalidComponent (part : str) | TooFewComponents.

Definition version_new (major minor : Z) : ProtocolVersion := {| components := [major; minor] |}.
Definition v1_4 : ProtocolVersion := version_new 1 4.
Definition v1_6 : ProtocolVersion := version_new 1 6.
Definition version_default : ProtocolVersion := v1_6.

(** [components.get(i).unwrap_or(&0)] *)
Definition component (v : ProtocolVersion) (i : nat) : Z := default 0 (components v !! i).

(** The loop of [Ord::cmp] over the indices. *)
Fixpoint compare_from (a b : ProtocolVersion) (i n : nat) : comparison :=
  match n with
  | O => Eq
  | S n =>
      match component a i ?= component b i with
      | Eq => compare_from a b (S i) n
      | ordering => ordering
      end
  end.
Definition version_cmp (a b : ProtocolVersion) : comparison :=
  compare_from a b 0 (Nat.max (length (components a)) (length (components b))).

Definition version_le (a b : ProtocolVersion) : bool :=
  match version_cmp a b with Gt => false | _ => true end.
(** [std::cmp::max] returns its second argument when equal, [min] its first. *)
Definition version_max (a b : ProtocolVersion) : ProtocolVersion :=
  match version_cmp a b with Gt => a | _ => b end.
Definition version_min (a b : ProtocolVersion) : ProtocolVersion :=
  match version_cmp a b with Gt => b | _ => a end.

Definition negotiate (client_min client_max : option ProtocolVersion)
    (server_min server_max : ProtocolVersion) : option ProtocolVersion :=
  let min := match client_min with Some v => version_max v server_min | None => server_min end in
  let max := match client_max with Some v => version_min v server_max | None => server_max end in
  if version_le min max then Some max else None.

Definition supports_1_6 (v : ProtocolVersion) : bool := version_le v1_6 v.

Definition parse_component (part : str) : outcome version_error Z :=
  match part with
  | [] => Err EmptyComponent
  | _ => ok_or (InvalidComponent part) (parse_unsigned (2 ^ 32) part)
  end.

(** [while components.len() > 2 && components.last() == Some(&0) { pop }] *)
Fixpoint pop_zeros (fuel : nat) (components : list Z) : list Z :=
  match fuel with
  | O => components
  | S fuel =>
      if bool_decide (2 < length components)%nat && bool_decide (last components = Some 0)
      then pop_zeros fuel (removelast components) else components
  end.

Definition version_from_str (s : str) : outcome version_error ProtocolVersion :=
  components ← mapM parse_component (split_on 46 s);
  if bool_decide (length components < 2)%nat then Err TooFewComponents
  else mret {| components := pop_zeros (length components) components |}.

Definition version_to_string (v : ProtocolVersion) : str :=
  join_with 46 (show_unsigned <$> components v).

(** ** JSON-RPC *)

#[local] Set Warnings "-register-all".
Inductive json :=
| JNull
| JBool (b : bool)
| JNumber (n : Z)
| JString (s : str)
| JArray (vs : list json)
| JObject (fields : list (str * json)).

Inductive protocol_error :=
| JsonError
| InvalidRequest
| InvalidParams (message : str)
| MethodNotFound (method : str)
| ServerError (message : str).

Inductive Id := IdNumber (n : Z) | IdString (s : str) | IdNull.
Inductive Params := ParamsArray (vs : list json) | ParamsObject (fields : list (str * json))
  | ParamsNone.
Record Request := {
  req_jsonrpc : option str; req_id : option Id; req_method : str; req_params : Params
}.
Inductive Frame := Single (r : Request) | BatchFrame (rs : list Request).

Record RpcError := { rpc_code : Z; rpc_message : str }.
Record Response := {
  resp_id : option Id; resp_result : option json; resp_error : option RpcError
}.

(** [serde_json] and the derived [Deserialize] of [Request]. *)
Class Serde := {
  json_from_slice : bytes → option json;
  request_from_value : json → option Request;
  json_error_text : str;
}.

Section rpc.
Context `{SD : !Serde}.

Definition response_result (id : option Id) (result : json) : Response :=
  {| resp_id := id; resp_result := Some result; resp_error := None |}.
Definition response_error (id : option Id) (code : Z) (message : str) : Response :=
  {| resp_id := id; resp_result := None;
     resp_error := Some {| rpc_code := code; rpc_message := message |} |}.

Definition response_from_error (id : option Id) (err : protocol_error) : Response :=
  match err with
  | InvalidRequest => response_error id (-32600) (lit "Invalid Request")
  | MethodNotFound method =>
      response_error id (-32601) (lit "Method not found: " ++ method)
  | InvalidParams message => response_error id (-32602) message
  | JsonError => response_error id (-32700) json_error_text
  | ServerError message => response_error id (-32000) message
  end.

Definition parse_line (line : bytes) : outcome protocol_error Frame :=
  value ← ok_or JsonError (json_from_slice line);
  match value with
  | JArray values =>
      requests ← mapM (λ v, ok_or JsonError (request_from_value v)) values;
      mret (BatchFrame requests)
  | JObject _ => r ← ok_or JsonError (request_from_value value); mret (Single r)
  | _ => Err InvalidRequest
  end.

Definition params_array (params : Params) : outcome protocol_error (list json) :=
  match params with
  | ParamsArray values => Ok values
  | ParamsNone => Ok []
  | ParamsObject _ =>
      Err (InvalidParams (lit "named params are not supported for this method"))
  end.

Definition as_str (v : json) : option str :=
  match v with JString s => Some s | _ => None end.

Definition string_param (params : Params) (index : nat) (name : str)
    : outcome protocol_error str :=
  values ← params_array params;
  ok_or (InvalidParams (lit "missing string param " ++ name)) (values !! index ≫= as_str).

Context (version_error_text : version_error → str).

Definition optional_protocol_param (params : Params) (index : nat)
    : outcome protocol_error (option ProtocolVersion) :=
  values ← params_array params;
  match values !! index with
  | None => mret None
  | Some value =>
      s ← ok_or (InvalidParams (lit "protocol version must be a string")) (as_str value);
      v ← map_err (λ e, InvalidParams (version_error_text e)) (version_from_str s);
      mret (Some v)
  end.
End rpc.

(** ** Script hashes *)

(** [Display] and [FromStr] of [bindex::ScriptHash], made by [hash_newtype!]
    with [backward]: the bytes in reverse order, in hexadecimal. *)
Class ScriptHashText `{Hex} := {
  scripthash_to_string : hash32 → str;
  scripthash_from_str : str → option hash32;
}.
Class ScriptHashTextLaws `{ScriptHashText} := {
  scripthash_to_string_backward h : scripthash_to_string h = hex_encode (rev h);
  scripthash_from_str_backward h :
    hash_wf h → scripthash_from_str (hex_encode (rev h)) = Some h;
}.

Record ElectrumScripthash := { esh_bytes : bytes }.
#[export] Instance ElectrumScripthash_eq_dec : EqDecision ElectrumScripthash.
Proof. solve_decision. Defined.
#[export] Instance ElectrumScripthash_countable : Countable ElectrumScripthash.
Proof. refine (inj_countable' esh_bytes Build_ElectrumScripthash _). by intros []. Defined.

Section scripthash.
Context `{HS : !Hashes, HX : !Hex, ST : !ScriptHashText}.

Definition esh_parse (s : str) : outcome protocol_error ElectrumScripthash :=
  bytes ← ok_or (InvalidParams (lit "scripthash must be 32-byte hex")) (hex_decode s);
  if bool_decide (length bytes = 32%nat) then mret {| esh_bytes := bytes |}
  else Err (InvalidParams (lit "scripthash must be 32-byte hex")).

Definition esh_to_string (h : ElectrumScripthash) : str := hex_encode (esh_bytes h).

Definition esh_from_script {E} (script : bytes) : outcome E ElectrumScripthash :=
  match esh_parse (scripthash_to_string (sha256 script)) with
  | Ok h => Ok h
  | Err _ => Panic "bindex-generated scripthash must parse"
  | Panic m => Panic m
  end.

Definition esh_to_bindex (h : ElectrumScripthash) : outcome protocol_error hash32 :=
  ok_or (InvalidParams (lit "invalid scripthash")) (scripthash_from_str (esh_to_string h)).

(** ** The script status *)

Record HistoryEntry := { he_tx_hash : str; he_height : Z; he_fee : option Z }.

Fixpoint status_payload (history : list HistoryEntry) : str :=
  match history with
  | [] => []
  | item :: history =>
      he_tx_hash item ++ 58 :: show_signed (he_height item) ++ 58 :: status_payload history
  end.

(** The display of a [sha256::Hash] is its bytes in order, in hexadecimal. *)
Definition scripthash_status (history : list HistoryEntry) : option str :=
  match history with
  | [] => None
  | _ => Some (hex_encode (sha256 (status_payload history)))
  end.
End scripthash.
