(* ===== verification/ProtocolSpec.v ===== *)
(** * Facts about the protocol's values

    The order on protocol versions, their text form, and the script status. *)

From S2P Require Import Prelude External Text Protocol.

(** ** The order on versions *)

(** [vlt]: at the first component that differs, [a] is smaller. *)
Definition veq (a b : ProtocolVersion) : Prop := ∀ i, component a i = component b i.
Definition vlt (a b : ProtocolVersion) : Prop :=
  ∃ k, (∀ j, (j < k)%nat → component a j = component b j) ∧ component a k < component b k.

#[export] Instance veq_equivalence : Equivalence veq.
Proof.
  split; [done|by intros a b Hab i; rewrite Hab|by intros a b c Hab Hbc i; rewrite Hab, Hbc].
Qed.

#[export] Instance vlt_proper : Proper (veq ==> veq ==> iff) vlt.
Proof.
  intros a a' Ha b b' Hb. unfold vlt, veq in *.
  split; intros (k & Hj & Hk); exists k; (split; [intros j Hlt|]);
    rewrite ?Ha, ?Hb in *; auto; by rewrite <-?Ha, <-?Hb; auto.
Qed.

Lemma vlt_trans a b c : vlt a b → vlt b c → vlt a c.
Proof.
  intros (k & Hj & Hk) (l & Hjl & Hl).
  destruct (Nat.lt_trichotomy k l) as [Hlt|[->|Hgt]].
  - exists k. split; [intros j ?; rewrite Hj by done; apply Hjl; lia|]. rewrite <-Hjl by done. done.
  - exists l. split; [intros j ?; rewrite Hj by done; by apply Hjl|lia].
  - exists l. split; [intros j ?; rewrite Hj by lia; by apply Hjl|]. rewrite Hj by done. done.
Qed.

Lemma vlt_irrefl a : ¬ vlt a a.
Proof. intros (k & _ & Hk). lia. Qed.

Lemma compare_from_spec a b i n :
  match compare_from a b i n with
  | Eq => ∀ j, (i ≤ j < i + n)%nat → component a j = component b j
  | Lt => ∃ k, (i ≤ k)%nat ∧ (∀ j, (i ≤ j < k)%nat → component a j = component b j) ∧
               component a k < component b k
  | Gt => ∃ k, (i ≤ k)%nat ∧ (∀ j, (i ≤ j < k)%nat → component b j = component a j) ∧
               component b k < component a k
  end.
Proof.
  revert i. induction n as [|n IH]; intros i; cbn [compare_from]; [lia|].
  destruct (Z.compare_spec (component a i) (component b i)) as [Heq|Hlt|Hgt].
  - specialize (IH (S i)). destruct (compare_from a b (S i) n).
    + intros j Hj. destruct (decide (j = i)) as [->|]; [done|]. apply IH. lia.
    + destruct IH as (k & ? & Hj & ?). exists k. split_and!; [lia| |done].
      intros j Hij. destruct (decide (j = i)) as [->|]; [done|]. apply Hj. lia.
    + destruct IH as (k & ? & Hj & ?). exists k. split_and!; [lia| |done].
      intros j Hij. destruct (decide (j = i)) as [->|]; [done|]. apply Hj. lia.
  - exists i. split_and!; [done|lia|done].
  - exists i. split_and!; [done|lia|done].
Qed.

Lemma component_beyond v i : (length (components v) ≤ i)%nat → component v i = 0.
Proof. intros Hi. unfold component. by rewrite (proj2 (lookup_ge_None _ _) Hi). Qed.

Lemma version_cmp_spec a b :
  CompareSpecT (veq a b) (vlt a b) (vlt b a) (version_cmp a b).
Proof.
  unfold version_cmp. pose proof (compare_from_spec a b 0
    (Nat.max (length (components a)) (length (components b)))) as Hs.
  destruct (compare_from _ _ _ _); constructor.
  - intros i. destruct (decide (i < Nat.max (length (components a)) (length (components b)))%nat).
    + apply Hs. lia.
    + rewrite !component_beyond by lia. done.
  - destruct Hs as (k & _ & Hj & Hk). exists k. split; [intros j ?; apply Hj; lia|done].
  - destruct Hs as (k & _ & Hj & Hk). exists k. split; [intros j ?; apply Hj; lia|done].
Qed.

Lemma version_le_spec a b : version_le a b = true ↔ veq a b ∨ vlt a b.
Proof.
  unfold version_le. destruct (version_cmp_spec a b) as [He|Hl|Hg]; [naive_solver..|].
  split; [done|]. intros [He|Hl].
  - rewrite He in Hg. by apply vlt_irrefl in Hg.
  - exfalso. eapply vlt_irrefl, vlt_trans; done.
Qed.

Lemma version_le_refl a : version_le a a = true.
Proof. apply version_le_spec. by left. Qed.
Lemma version_le_trans a b c : version_le a b = true → version_le b c = true → version_le a c = true.
Proof.
  rewrite !version_le_spec. intros [Hab|Hab] [Hbc|Hbc].
  - left. by rewrite Hab.
  - right. by rewrite Hab.
  - right. by rewrite <-Hbc.
  - right. by eapply vlt_trans.
Qed.

(** [std::cmp::max]/[min] bound both arguments. *)
Lemma version_max_le a b v :
  version_le (version_max a b) v = true ↔ version_le a v = true ∧ version_le b v = true.
Proof.
  rewrite !version_le_spec. unfold version_max.
  destruct (version_cmp_spec a b) as [He|Hl|Hg]; split; try naive_solver.
  - intros Hb. split; [|done]. by rewrite He.
  - intros [Hb|Hb]; (split; [right|auto]); [by rewrite <-Hb|by eapply vlt_trans].
  - intros [Ha|Ha]; (split; [auto|right]); [by rewrite <-Ha|by eapply vlt_trans].
Qed.

Lemma version_min_ge a b v :
  version_le v (version_min a b) = true ↔ version_le v a = true ∧ version_le v b = true.
Proof.
  rewrite !version_le_spec. unfold version_min.
  destruct (version_cmp_spec a b) as [He|Hl|Hg]; split; try naive_solver.
  - intros Ha. split; [done|]. by rewrite <-He.
  - intros [Ha|Ha]; (split; [auto|right]); [by rewrite Ha|by eapply vlt_trans].
  - intros [Hb|Hb]; (split; [right|auto]); [by rewrite Hb|by eapply vlt_trans].
Qed.

(** ** The text form *)

(** The versions [FromStr] produces: no redundant zero components. *)
Definition version_wf (v : ProtocolVersion) : Prop :=
  Forall is_u32 (components v) ∧ (2 ≤ length (components v))%nat ∧
  ((2 < length (components v))%nat → last (components v) ≠ Some 0).

Lemma veq_wf a b : version_wf a → version_wf b → veq a b → a = b.
Proof.
  assert (∀ a b, version_wf a → version_wf b → veq a b →
    (length (components a) ≤ length (components b))%nat) as Hlen.
  { clear a b. intros a b (_ & Ha2 & Hal) (_ & Hb2 & _) Heq.
    destruct (decide (length (components a) ≤ length (components b))%nat) as [|Hn]; [done|].
    exfalso. apply Hal; [lia|]. rewrite last_lookup.
    specialize (Heq (pred (length (components a)))).
    rewrite (component_beyond b) in Heq by lia. unfold component in Heq.
    destruct (lookup_lt_is_Some_2 (components a) (pred (length (components a)))) as [x Hx]; [lia|].
    rewrite Hx in *. cbn in Heq. by subst. }
  intros Ha Hb Heq. assert (length (components a) = length (components b)) as Hl.
  { pose proof (Hlen a b Ha Hb Heq). symmetry in Heq. pose proof (Hlen b a Hb Ha Heq). lia. }
  destruct a as [ca], b as [cb]. cbn in Hl. f_equal. apply list_eq_same_length with (length ca); [done..|].
  intros i x y Hi Hx Hy. specialize (Heq i). unfold component in Heq. cbn in Heq.
  rewrite Hx, Hy in Heq. done.
Qed.

Lemma pop_zeros_spec fuel cs :
  (length cs ≤ fuel)%nat → (2 ≤ length cs)%nat →
  ∃ n, cs = pop_zeros fuel cs ++ replicate n 0 ∧ (2 ≤ length (pop_zeros fuel cs))%nat ∧
    ((2 < length (pop_zeros fuel cs))%nat → last (pop_zeros fuel cs) ≠ Some 0).
Proof.
  revert cs. induction fuel as [|fuel IH]; intros cs Hf Hl; [lia|]. cbn [pop_zeros].
  destruct (bool_decide (2 < length cs)%nat) eqn:H2; cbn [andb].
  2:{ exists 0%nat. rewrite app_nil_r. apply bool_decide_eq_false in H2. split_and!; [done|lia|lia]. }
  destruct (bool_decide (last cs = Some 0)) eqn:H0.
  2:{ exists 0%nat. rewrite app_nil_r. apply bool_decide_eq_false in H0. split_and!; [done|lia|done]. }
  apply bool_decide_eq_true in H2, H0.
  apply last_Some in H0 as [cs' ->]. rewrite removelast_last.
  rewrite length_app in *. cbn [length] in *.
  destruct (IH cs') as (n & Hn & ? & ?); [lia|lia|]. exists (S n). split_and!; [|done|done].
  rewrite replicate_S_end, app_assoc, <-Hn. done.
Qed.

Lemma pop_zeros_wf fuel cs :
  ((2 < length cs)%nat → last cs ≠ Some 0) → pop_zeros fuel cs = cs.
Proof.
  intros Hl. destruct fuel as [|fuel]; [done|]. cbn [pop_zeros].
  destruct (bool_decide (2 < length cs)%nat) eqn:H2; [|done]. apply bool_decide_eq_true in H2.
  by rewrite bool_decide_eq_false_2 by auto.
Qed.

Lemma version_display_parse v :
  version_wf v → version_from_str (version_to_string v) = Ok v.
Proof.
  intros (Hu & Hl & Hz). unfold version_from_str, version_to_string.
  rewrite split_join.
  - assert (mapM parse_component (show_unsigned <$> components v) = Ok (components v)) as ->.
    { apply mapM_outcome_ok. apply Forall2_fmap_l.
      apply Forall2_same_length_lookup. split; [done|]. intros i x y Hx Hy. simplify_eq.
      eapply Forall_lookup_1 in Hu; [|done]. unfold is_u32 in Hu.
      destruct (show_unsigned_digits x) as [Hne _]; [lia|].
      pose proof (parse_show_unsigned (2 ^ 32) x Hu) as Hp. unfold compose, parse_component.
      destruct (show_unsigned x) as [|c s]; [done|]. by rewrite Hp. }
    osimpl. rewrite bool_decide_eq_false_2 by lia. osimpl. rewrite pop_zeros_wf by done.
    by destruct v.
  - destruct (components v); [simpl in Hl; lia|done].
  - apply Forall_fmap. eapply Forall_impl; [exact Hu|]. intros x Hx. unfold compose.
    intros Hin. destruct (show_unsigned_digits x) as [_ Hd]; [unfold is_u32 in Hx; lia|].
    rewrite Forall_forall in Hd. by apply Hd in Hin.
Qed.


Lemma version_from_str_wf s v : version_from_str s = Ok v → version_wf v.
Proof.
  unfold version_from_str. intros Hv. apply bind_ok in Hv as (cs & Hcs & Hv).
  case_bool_decide as Hl; [done|]. injection Hv as <-.
  assert (Forall is_u32 cs) as Hu.
  { apply mapM_outcome_ok in Hcs. apply Forall_forall. intros x [i Hi]%list_elem_of_lookup.
    destruct (Forall2_lookup_r _ _ _ _ _ Hcs Hi) as (p & _ & Hp).
    unfold parse_component in Hp. destruct p as [|c p]; [done|]. apply ok_or_ok in Hp.
    cbn [parse_unsigned] in Hp. destruct (c =? 43).
    - destruct p; [done|]. apply parse_digits_bound in Hp; [done|lia].
    - apply parse_digits_bound in Hp; [done|lia]. }
  destruct (pop_zeros_spec (length cs) cs) as (n & Hn & H2 & H0); [done|lia|].
  split; [|split; [done|done]]. cbn [components]. rewrite Hn in Hu. by apply Forall_app in Hu as [? _].
Qed.

(** ** The script status *)

Section status.
Context `{HS : !Hashes, HSL : !HashLaws, HX : !Hex, HXL : !HexLaws}.

Definition history_key (e : HistoryEntry) : str * Z := (he_tx_hash e, he_height e).

Lemma app_sep_inj (sep : Z) a b c d :
  sep ∉ a → sep ∉ b → a ++ sep :: c = b ++ sep :: d → a = b ∧ c = d.
Proof.
  revert b. induction a as [|x a IH]; intros [|y b] Ha Hb; cbn [app].
  - by intros [= ->].
  - intros [= -> _]. set_solver.
  - intros [= -> _]. set_solver.
  - intros [= -> Heq]. apply IH in Heq as [-> ->]; set_solver.
Qed.

Lemma status_payload_inj h1 h2 :
  Forall (λ e, 58 ∉ he_tx_hash e) h1 → Forall (λ e, 58 ∉ he_tx_hash e) h2 →
  status_payload h1 = status_payload h2 → history_key <$> h1 = history_key <$> h2.
Proof.
  intros Hf1. revert h2. induction Hf1 as [|e1 h1 He1 _ IH]; intros h2 Hf2 Heq.
  - destruct h2 as [|e2 h2]; [done|]. cbn in Heq. by destruct (he_tx_hash e2).
  - destruct h2 as [|e2 h2]; [cbn in Heq; by destruct (he_tx_hash e1)|].
    apply Forall_cons in Hf2 as [He2 Hf2]. cbn [status_payload] in Heq.
    apply app_sep_inj in Heq as [Htx Heq]; [|done..].
    assert (∀ z, 58 ∉ show_signed z) as Hns.
    { intros z Hin. pose proof (show_signed_chars z) as Hc. rewrite Forall_forall in Hc.
      by apply Hc in Hin as [?|?]. }
    apply app_sep_inj in Heq as [Hh%show_signed_inj Heq]; [|done..].
    cbn [fmap list_fmap]. f_equal; [by unfold history_key; f_equal|]. by apply IH.
Qed.

(** Equal statuses mean equal histories, unless SHA-256 collides on the two
    payloads. *)
Lemma scripthash_status_binding h1 h2 :
  Forall (λ e, 58 ∉ he_tx_hash e) h1 → Forall (λ e, 58 ∉ he_tx_hash e) h2 →
  scripthash_status h1 = scripthash_status h2 →
  history_key <$> h1 = history_key <$> h2 ∨
  (status_payload h1 ≠ status_payload h2 ∧
   sha256 (status_payload h1) = sha256 (status_payload h2)).
Proof.
  intros H1 H2 Heq. destruct h1 as [|e1 h1], h2 as [|e2 h2]; [by left|done|done|].
  cbn [scripthash_status] in Heq. injection Heq as Heq.
  apply hex_encode_inj in Heq; [|apply sha256_wf..].
  destruct (decide (status_payload (e1 :: h1) = status_payload (e2 :: h2))) as [Hp|Hp].
  - left. by apply status_payload_inj.
  - by right.
Qed.
End status.

Section scripthash.
Context `{HS : !Hashes, HSL : !HashLaws, HX : !Hex, HXL : !HexLaws, ST : !ScriptHashText,
          STL : !ScriptHashTextLaws}.

Lemma bytes_wf_rev b : bytes_wf b → bytes_wf (rev b).
Proof. apply List.Forall_rev. Qed.

Lemma esh_from_script_ok {E} script :
  esh_from_script (E := E) script = Ok {| esh_bytes := rev (sha256 script) |}.
Proof.
  destruct (sha256_wf script) as [Hw Hl]. unfold esh_from_script, esh_parse.
  rewrite scripthash_to_string_backward, hex_decode_encode by (by apply bytes_wf_rev). osimpl.
  by rewrite bool_decide_eq_true_2 by (by rewrite length_rev).
Qed.

Lemma esh_to_bindex_ok script :
  esh_to_bindex {| esh_bytes := rev (sha256 script) |} = Ok (sha256 script).
Proof.
  unfold esh_to_bindex, esh_to_string. cbn [esh_bytes].
  by rewrite scripthash_from_str_backward by apply sha256_wf.
Qed.
End scripthash.
