(* ===== verification/Mempool.v ===== *)
(** * The mempool index

    [bindex-electrum/src/mempool.rs]: the transactions of the node's mempool,
    indexed by the scripts they pay and the outputs they spend, and the polling
    that keeps them current. Of the fee histograms, the one with integer rates
    is modelled ([F] stands for [f64]); the entry metadata is taken as parsed. *)

From S2P Require Import Prelude External Text Index Fmt Protocol.

(** The display of a [Txid]: its bytes in reverse order, in hexadecimal. *)
Class TxidText := { txid_to_string : hash32 → str }.
Class TxidTextLaws `{TxidText, Hex} := {
  txid_to_string_backward t : txid_to_string t = hex_encode (rev t);
}.

Record MempoolEntry := { me_tx_hash : str; me_height : Z; me_fee : Z }.

Record ScriptMempool := {
  sm_entries : list MempoolEntry;
  balance_delta : Z;
  sm_utxos : list (OutPoint * Z);
  spent_confirmed : gset OutPoint;
}.

Record MempoolTx := {
  mt_txid : hash32; mt_raw : bytes; mt_fee : Z; mt_vsize : Z;
  ancestor_fees : Z; ancestor_vsize : Z; mt_time : Z;
  touches : gset ElectrumScripthash;
  spends : gset OutPoint;
  outputs : gmap Z (ElectrumScripthash * Z);
}.

Record RecentTx := { rt_txid : str; rt_fee : Z; rt_vsize : Z; rt_value : Z }.

Record MempoolIndex := {
  txs : gmap hash32 MempoolTx;
  by_scripthash : gmap ElectrumScripthash (gset hash32);
  spent_prevouts : gmap OutPoint hash32;
  recent : list RecentTx;
}.

Definition index_empty : MempoolIndex :=
  {| txs := ∅; by_scripthash := ∅; spent_prevouts := ∅; recent := [] |}.

Record MempoolEntryInfo := {
  mi_fee : Z; mi_vsize : Z; mi_ancestor_fees : Z; mi_ancestor_vsize : Z; mi_time : Z
}.

(** ** Orders of the sorted collections *)

Definition outputs_list (tx : MempoolTx) : list (Z * (ElectrumScripthash * Z)) :=
  sort_by Z.le fst (map_to_list (outputs tx)).
Definition txids_list (s : gset hash32) : list hash32 := merge_sort bytes_le (elements s).

(** By text, then number; by number, then text. *)
Abbreviation str_num_le := (lex_le bytes_lt Z.le).
Abbreviation num_str_le := (lex_le Z.lt bytes_le).

Section mempool.
Context `{HS : !Hashes, HX : !Hex, ST : !ScriptHashText, TT : !TxidText, CS : !Consensus}.

Definition tx_value (tx : MempoolTx) : Z := wrap64 (sumZ ((λ o, o.2.2) <$> outputs_list tx)).

(** ** Updates *)

Definition add_touch (txid : hash32) (m : gmap ElectrumScripthash (gset hash32))
    (sh : ElectrumScripthash) : gmap ElectrumScripthash (gset hash32) :=
  <[sh := {[txid]} ∪ default ∅ (m !! sh)]> m.

Definition insert (tx : MempoolTx) (self : MempoolIndex) : MempoolIndex :=
  let txid := mt_txid tx in
  {| by_scripthash := foldl (add_touch txid) (by_scripthash self) (elements (touches tx));
     spent_prevouts := foldl (λ m o, <[o := txid]> m) (spent_prevouts self) (elements (spends tx));
     txs := <[txid := tx]> (txs self);
     recent := recent self |}.

Definition remove_touch (txid : hash32) (m : gmap ElectrumScripthash (gset hash32))
    (sh : ElectrumScripthash) : gmap ElectrumScripthash (gset hash32) :=
  match m !! sh with
  | Some set =>
      let set := set ∖ {[txid]} in
      if decide (set = ∅) then base.delete sh m else <[sh := set]> m
  | None => m
  end.

Definition remove (txid : hash32) (self : MempoolIndex) : option MempoolTx * MempoolIndex :=
  match txs self !! txid with
  | None => (None, self)
  | Some tx =>
      (Some tx,
       {| txs := base.delete txid (txs self);
          by_scripthash := foldl (remove_touch txid) (by_scripthash self) (elements (touches tx));
          spent_prevouts :=
            foldl (λ m o, base.delete o m) (spent_prevouts self) (elements (spends tx));
          recent := recent self |})
  end.

Definition replace_all (new : list MempoolTx) (self : MempoolIndex) : MempoolIndex :=
  foldl (λ self tx, insert tx self)
    {| txs := ∅; by_scripthash := ∅; spent_prevouts := ∅; recent := recent self |} new.

Fixpoint pop_to (fuel : nat) (cap : nat) (l : list RecentTx) : list RecentTx :=
  match fuel with
  | O => l
  | S fuel => if bool_decide (cap < length l)%nat then pop_to fuel cap (removelast l) else l
  end.
Definition push_recent (entry : RecentTx) (cap : nat) (self : MempoolIndex) : MempoolIndex :=
  {| txs := txs self; by_scripthash := by_scripthash self;
     spent_prevouts := spent_prevouts self;
     recent := pop_to (S (length (recent self))) cap (entry :: recent self) |}.

(** ** Queries *)

Definition touched_scripthashes (self : MempoolIndex) : gset ElectrumScripthash :=
  dom (by_scripthash self).

Definition funding_txids (self : MempoolIndex) (sh : ElectrumScripthash) : list hash32 :=
  txids_list (default ∅ (by_scripthash self !! sh)).

Definition entries (self : MempoolIndex) (sh : ElectrumScripthash) : list MempoolEntry :=
  match by_scripthash self !! sh with
  | None => []
  | Some txids =>
      (λ tx, {| me_tx_hash := txid_to_string (mt_txid tx); me_height := 0; me_fee := mt_fee tx |})
        <$> omap (λ txid, txs self !! txid) (txids_list txids)
  end.

Definition history_entries (self : MempoolIndex) (sh : ElectrumScripthash) : list HistoryEntry :=
  (λ e, {| he_tx_hash := me_tx_hash e; he_height := me_height e; he_fee := Some (me_fee e) |})
    <$> entries self sh.

(** The outputs of a transaction that pay a script. *)
Definition paying (sh : ElectrumScripthash) (tx : MempoolTx) : list (OutPoint * Z) :=
  (λ o, ({| op_txid := mt_txid tx; op_vout := o.1 |}, o.2.2))
    <$> filter (λ o, o.2.1 = sh) (outputs_list tx).

Definition script_txids (self : MempoolIndex) (sh : ElectrumScripthash)
    (confirmed_outputs : list OutPoint) : gset hash32 :=
  let txids := default ∅ (by_scripthash self !! sh) in
  let unconfirmed_outputs :=
    omap (λ txid, txs self !! txid) (txids_list txids) ≫= λ tx, (paying sh tx).*1 in
  foldl (λ txids outpoint,
           match spent_prevouts self !! outpoint with
           | Some spender => {[spender]} ∪ txids
           | None => txids
           end)
    txids (confirmed_outputs ++ unconfirmed_outputs).

Definition unconfirmed_parent (self : MempoolIndex) (mined : gset hash32) (tx : MempoolTx) : bool :=
  existsb (λ prevout, bool_decide (is_Some (txs self !! op_txid prevout))
                      && bool_decide (op_txid prevout ∉ mined))
    (elements (spends tx)).

Definition spent_unmined (self : MempoolIndex) (mined : gset hash32) (o : OutPoint) : bool :=
  match spent_prevouts self !! o with
  | Some spender => bool_decide (spender ∉ mined)
  | None => false
  end.

(** The loops of [script_view]: over the transactions, the confirmed outputs
    and the unconfirmed ones. [i64] arithmetic wraps. *)
Definition view_txs (self : MempoolIndex) (sh : ElectrumScripthash) (mined : gset hash32)
    (confirmed_utxos : list (OutPoint * Z)) : list MempoolTx :=
  omap (λ txid, txs self !! txid)
    (filter (λ txid, txid ∉ mined)
       (txids_list (script_txids self sh confirmed_utxos.*1))).

Definition view_entry (self : MempoolIndex) (mined : gset hash32) (tx : MempoolTx) : MempoolEntry :=
  {| me_tx_hash := txid_to_string (mt_txid tx);
     me_height := if unconfirmed_parent self mined tx then -1 else 0;
     me_fee := mt_fee tx |}.

Definition add_value (delta : Z) (o : OutPoint * Z) : Z := as_i64 (delta + as_i64 o.2).
Definition sub_value (delta : Z) (o : OutPoint * Z) : Z := as_i64 (delta - as_i64 o.2).

Definition script_view (self : MempoolIndex) (sh : ElectrumScripthash)
    (confirmed_utxos : list (OutPoint * Z)) (mined : gset hash32) : ScriptMempool :=
  let vtxs := view_txs self sh mined confirmed_utxos in
  let outs := vtxs ≫= paying sh in
  let spent := spent_unmined self mined in
  let spent_conf := filter (λ o, spent o.1 = true) confirmed_utxos in
  let spent_outs := filter (λ o, spent o.1 = true) outs in
  let unspent_outs := filter (λ o, spent o.1 = false) outs in
  {| sm_entries :=
       sort_by num_str_le (λ e, (- me_height e, me_tx_hash e)) (view_entry self mined <$> vtxs);
     balance_delta :=
       foldl sub_value (foldl sub_value (foldl add_value 0 outs) spent_conf) spent_outs;
     sm_utxos :=
       sort_by str_num_le (λ o, (txid_to_string (op_txid o.1), op_vout o.1)) unspent_outs;
     spent_confirmed := list_to_set spent_conf.*1 |}.

Definition raw_transaction (self : MempoolIndex) (txid : hash32) : option bytes :=
  mt_raw <$> txs self !! txid.
Definition mempool_len (self : MempoolIndex) : nat := size (txs self).
Definition mempool_contains (self : MempoolIndex) (txid : hash32) : bool :=
  bool_decide (is_Some (txs self !! txid)).
Definition sorted_txids (self : MempoolIndex) : list hash32 := txids_list (dom (txs self)).
Definition spender (self : MempoolIndex) (o : OutPoint) : option hash32 := spent_prevouts self !! o.

Definition totals (self : MempoolIndex) : nat * Z * Z :=
  let vs := snd <$> map_to_list (txs self) in
  (size (txs self), wrap64 (sumZ (mt_vsize <$> vs)), wrap64 (sumZ (mt_fee <$> vs))).

Definition outputs_of (self : MempoolIndex) (sh : ElectrumScripthash) : list (OutPoint * Z) :=
  sort_by str_num_le (λ o, (op_txid o.1, op_vout o.1))
    (omap (λ txid, txs self !! txid) (funding_txids self sh) ≫= paying sh).

Definition saturating_mul64 (a b : Z) : Z := Z.min (a * b) (2 ^ 64 - 1).

(** [fee_histogram], with [milli rate] for [rate as f64 / 1000.0]. *)
Definition fee_histogram {F} (milli : Z → F) (self : MempoolIndex) : list (F * Z) :=
  let buckets :=
    foldl (λ m tx,
             if mt_vsize tx =? 0 then m
             else let rate := saturating_mul64 (mt_fee tx) 1000 / mt_vsize tx in
                  <[rate := wrap64 (default 0 (m !! rate) + mt_vsize tx)]> m)
      (∅ : gmap Z Z) (snd <$> map_to_list (txs self)) in
  (λ b, (milli b.1, b.2)) <$> rev (sort_by Z.le fst (map_to_list buckets)).

(** ** Polling *)

Definition add_output {E} (acc : gset ElectrumScripthash * gmap Z (ElectrumScripthash * Z))
    (o : nat * TxOutView) : outcome E (gset ElectrumScripthash * gmap Z (ElectrumScripthash * Z)) :=
  scripthash ← esh_from_script (tov_script_pubkey o.2);
  mret ({[scripthash]} ∪ acc.1,
        <[wrap32 (Z.of_nat o.1) := (scripthash, tov_value o.2)]> acc.2).

Definition build_tx (raw : bytes) (info : MempoolEntryInfo) : outcome fmt_error MempoolTx :=
  parsed ← parse_tx raw;
  '(touches, outputs) ← foldM add_output (∅, ∅) (imap pair (pt_outputs parsed));
  mret {| mt_txid := pt_txid parsed; mt_raw := raw; mt_fee := mi_fee info;
          mt_vsize := pt_weight parsed / 4; ancestor_fees := mi_ancestor_fees info;
          ancestor_vsize := mi_ancestor_vsize info; mt_time := mi_time info;
          touches := touches; spends := list_to_set (pt_inputs parsed); outputs := outputs |}.

(** The body of a worker for one wanted transaction: [tx_raw] is the node's
    answer, and a transaction that left the mempool or does not decode to the
    id asked for is dropped. *)
Definition fetch_one (tx_raw : hash32 → option bytes) (want : hash32 * MempoolEntryInfo)
    : option (MempoolTx * MempoolEntryInfo) :=
  raw ← tx_raw want.1;
  match build_tx raw want.2 with
  | Ok tx => if decide (mt_txid tx = want.1) then Some (tx, want.2) else None
  | _ => None
  end.

Definition add_arrival (cap : nat) (self : MempoolIndex) (tx : MempoolTx) : MempoolIndex :=
  let entry := {| rt_txid := txid_to_string (mt_txid tx); rt_fee := mt_fee tx;
                  rt_vsize := mt_vsize tx; rt_value := tx_value tx |} in
  push_recent entry cap (insert tx self).

(** [poll_once], on the parsed contents: an id that does not parse is [None].
    The workers' results are joined in order, so their number is irrelevant. *)
Definition poll_once (contents : list (option hash32 * MempoolEntryInfo))
    (tx_raw : hash32 → option bytes) (recent_cap : nat) (self : MempoolIndex)
    : MempoolIndex * (nat * nat) :=
  let known := dom (txs self) in
  let parsed := omap (λ e, match e.1 with Some t => Some (t, e.2) | None => None end) contents in
  let current : gset hash32 := list_to_set parsed.*1 in
  let wanted := filter (λ e, e.1 ∉ known) parsed in
  let removed := txids_list (known ∖ current) in
  let arrivals := sort_by Z.le (λ a, mi_time a.2) (omap (fetch_one tx_raw) wanted) in
  let self := foldl (λ self txid, (remove txid self).2) self removed in
  let self := foldl (add_arrival recent_cap) self arrivals.*1 in
  (self, (length arrivals, length removed)).
End mempool.
