(* ===== verification/MempoolSpec.v ===== *)
(** * Invariants of the mempool index

    [mempool_inv]: the two secondary indexes say exactly which scripts the
    transactions pay and which outputs they spend. *)

From S2P Require Import Prelude External Text Index Fmt Protocol Mempool.

Record mempool_inv (self : MempoolIndex) : Prop := {
  mp_id t tx : txs self !! t = Some tx → mt_txid tx = t;
  mp_by sh t :
    t ∈ default ∅ (by_scripthash self !! sh) ↔ ∃ tx, txs self !! t = Some tx ∧ sh ∈ touches tx;
  mp_nonempty sh s : by_scripthash self !! sh = Some s → s ≠ ∅;
  mp_spent o t :
    spent_prevouts self !! o = Some t ↔ ∃ tx, txs self !! t = Some tx ∧ o ∈ spends tx;
}.

(** Every output a transaction pays is among its touched scripts. *)
Definition tx_wf (tx : MempoolTx) : Prop :=
  ∀ vout sh v, outputs tx !! vout = Some (sh, v) → sh ∈ touches tx.

Lemma index_empty_inv : mempool_inv index_empty.
Proof.
  split; cbn.
  - intros t tx. by rewrite lookup_empty.
  - intros sh t. rewrite lookup_empty. cbn. set_solver.
  - intros sh s. by rewrite lookup_empty.
  - intros o t. rewrite lookup_empty. naive_solver.
Qed.

(** ** Folds over the touched scripts and the spent outputs *)

Lemma add_touches_lookup t l m sh :
  default ∅ (foldl (add_touch t) m l !! sh) =
  if decide (sh ∈ l) then {[t]} ∪ default ∅ (m !! sh) else default ∅ (m !! sh).
Proof.
  revert m. induction l as [|x l IH]; intros m; [done|]. cbn [foldl]. rewrite IH.
  unfold add_touch. destruct (decide (x = sh)) as [->|Hne].
  - rewrite lookup_insert_eq. cbn [default from_option id].
    repeat case_decide; set_solver.
  - rewrite lookup_insert_ne by done. repeat case_decide; set_solver.
Qed.

Lemma add_touches_nonempty t l m :
  (∀ sh s, m !! sh = Some s → s ≠ ∅) →
  ∀ sh s, foldl (add_touch t) m l !! sh = Some s → s ≠ ∅.
Proof.
  revert m. induction l as [|x l IH]; intros m Hm; [done|]. cbn [foldl]. apply IH.
  intros sh s. unfold add_touch. destruct (decide (x = sh)) as [->|Hne].
  - rewrite lookup_insert_eq. intros [= <-]. set_solver.
  - rewrite lookup_insert_ne by done. apply Hm.
Qed.

Lemma remove_touch_lookup t m x sh :
  default ∅ (remove_touch t m x !! sh) =
  if decide (sh = x) then default ∅ (m !! sh) ∖ {[t]} else default ∅ (m !! sh).
Proof.
  unfold remove_touch. destruct (m !! x) as [s|] eqn:Ex.
  - destruct (decide (s ∖ {[t]} = ∅)) as [He|He]; case_decide as Hs.
    + subst. rewrite lookup_delete_eq, Ex. cbn. by rewrite He.
    + by rewrite lookup_delete_ne by done.
    + subst. by rewrite lookup_insert_eq, Ex.
    + by rewrite lookup_insert_ne by done.
  - case_decide as Hs; [|done]. subst. rewrite Ex. cbn. set_solver.
Qed.

Lemma remove_touches_lookup t l m sh :
  default ∅ (foldl (remove_touch t) m l !! sh) =
  if decide (sh ∈ l) then default ∅ (m !! sh) ∖ {[t]} else default ∅ (m !! sh).
Proof.
  revert m. induction l as [|x l IH]; intros m; [done|]. cbn [foldl].
  rewrite IH, remove_touch_lookup. repeat case_decide; set_solver.
Qed.

Lemma remove_touches_nonempty t l m :
  (∀ sh s, m !! sh = Some s → s ≠ ∅) →
  ∀ sh s, foldl (remove_touch t) m l !! sh = Some s → s ≠ ∅.
Proof.
  revert m. induction l as [|x l IH]; intros m Hm; [done|]. cbn [foldl]. apply IH.
  intros sh s. unfold remove_touch. destruct (m !! x) as [s'|] eqn:Ex; [|apply Hm].
  destruct (decide (s' ∖ {[t]} = ∅)) as [He|He].
  - intros [_ Hs]%lookup_delete_Some. by apply Hm in Hs.
  - destruct (decide (x = sh)) as [->|Hne].
    + rewrite lookup_insert_eq. by intros [= <-].
    + rewrite lookup_insert_ne by done. apply Hm.
Qed.

Lemma add_spends_lookup t l (m : gmap OutPoint hash32) o :
  foldl (λ m o, <[o := t]> m) m l !! o = if decide (o ∈ l) then Some t else m !! o.
Proof.
  revert m. induction l as [|x l IH]; intros m; [done|]. cbn [foldl]. rewrite IH.
  destruct (decide (x = o)) as [->|Hne].
  - rewrite lookup_insert_eq. repeat case_decide; set_solver.
  - rewrite lookup_insert_ne by done. repeat case_decide; set_solver.
Qed.

Lemma remove_spends_lookup l (m : gmap OutPoint hash32) o :
  foldl (λ m o, base.delete o m) m l !! o = if decide (o ∈ l) then None else m !! o.
Proof.
  revert m. induction l as [|x l IH]; intros m; [done|]. cbn [foldl]. rewrite IH.
  destruct (decide (x = o)) as [->|Hne].
  - rewrite lookup_delete_eq. repeat case_decide; set_solver.
  - rewrite lookup_delete_ne by done. repeat case_decide; set_solver.
Qed.

(** ** Updates keep the invariant *)

(** Whether a transaction can join the index: new, and in conflict with none. *)
Definition admissible (self : MempoolIndex) (tx : MempoolTx) : Prop :=
  txs self !! mt_txid tx = None ∧
  ∀ t tx', txs self !! t = Some tx' → spends tx ## spends tx'.

Lemma insert_inv tx self :
  mempool_inv self → admissible self tx → mempool_inv (insert tx self).
Proof.
  intros [Hid Hby Hne Hsp] [Hnew Hdis]. split; cbn [insert txs by_scripthash spent_prevouts].
  - intros t tx' [[<- <-]|[_ Ht]]%lookup_insert_Some; [done|by apply Hid].
  - intros sh t. rewrite add_touches_lookup.
    setoid_rewrite lookup_insert_Some. case_decide as Hs; rewrite elem_of_elements in Hs.
    + rewrite elem_of_union, elem_of_singleton, Hby. split.
      * intros [->|(tx' & Ht & Htc)]; [eauto|]. exists tx'. split; [|done]. right.
        split; [|done]. intros <-. congruence.
      * intros (tx' & [[<- <-]|[_ Ht]] & Htc); [by left|right; eauto].
    + rewrite Hby. split.
      * intros (tx' & Ht & Htc). exists tx'. split; [|done]. right. split; [|done].
        intros <-. congruence.
      * intros (tx' & [[<- <-]|[_ Ht]] & Htc); [done|eauto].
  - apply add_touches_nonempty, Hne.
  - intros o t. rewrite add_spends_lookup.
    setoid_rewrite lookup_insert_Some. case_decide as Hs; rewrite elem_of_elements in Hs.
    + split.
      * intros [= <-]. eauto.
      * intros (tx' & [[<- <-]|[_ Ht]] & Ho); [done|]. by specialize (Hdis _ _ Ht o Hs).
    + rewrite Hsp. split.
      * intros (tx' & Ht & Ho). exists tx'. split; [|done]. right. split; [|done].
        intros <-. congruence.
      * intros (tx' & [[<- <-]|[_ Ht]] & Ho); [done|eauto].
Qed.

(** No two transactions of the index spend the same output: a consequence. *)
Lemma inv_no_conflict self t t' tx tx' :
  mempool_inv self → txs self !! t = Some tx → txs self !! t' = Some tx' → t ≠ t' →
  spends tx ## spends tx'.
Proof.
  intros [_ _ _ Hsp] Ht Ht' Hne o Ho Ho'. apply Hne.
  assert (spent_prevouts self !! o = Some t) as H1 by (apply Hsp; eauto).
  assert (spent_prevouts self !! o = Some t') as H2 by (apply Hsp; eauto). congruence.
Qed.

Lemma remove_txs t self : txs (remove t self).2 = base.delete t (txs self).
Proof.
  unfold remove. destruct (txs self !! t) eqn:E; [done|]. cbn. by rewrite delete_id.
Qed.

Lemma remove_inv t self : mempool_inv self → mempool_inv (remove t self).2.
Proof.
  intros Hinv. pose proof Hinv as [Hid Hby Hne Hsp]. unfold remove.
  destruct (txs self !! t) as [tx|] eqn:Et; [|done]. cbn [snd].
  split; cbn [txs by_scripthash spent_prevouts].
  - intros t' tx' [_ Ht']%lookup_delete_Some. by apply Hid.
  - intros sh t'. rewrite remove_touches_lookup.
    setoid_rewrite lookup_delete_Some. case_decide as Hs; rewrite elem_of_elements in Hs.
    + rewrite elem_of_difference, elem_of_singleton, Hby. naive_solver.
    + rewrite Hby. split; [|naive_solver]. intros (tx' & Ht' & Htc). exists tx'.
      split; [|done]. split; [|done]. intros ->. simplify_eq. done.
  - apply remove_touches_nonempty, Hne.
  - intros o t'. rewrite remove_spends_lookup.
    setoid_rewrite lookup_delete_Some. case_decide as Hs; rewrite elem_of_elements in Hs.
    + split; [done|]. intros (tx' & [Hne' Ht'] & Ho).
      exfalso. by apply (inv_no_conflict _ _ _ _ _ Hinv Et Ht' Hne' o).
    + rewrite Hsp. split; [|naive_solver]. intros (tx' & Ht' & Ho). exists tx'.
      split; [|done]. split; [|done]. intros ->. simplify_eq. done.
Qed.

Lemma push_recent_inv e cap self : mempool_inv self → mempool_inv (push_recent e cap self).
Proof. by intros [Hid Hby Hne Hsp]. Qed.

Lemma pop_to_length fuel cap l :
  (length l ≤ fuel + cap)%nat → (length (pop_to fuel cap l) ≤ cap)%nat.
Proof.
  revert l. induction fuel as [|fuel IH]; intros l Hl; [done|]. cbn [pop_to].
  case_bool_decide; [|lia]. apply IH. destruct l as [|x l _] using rev_ind; [cbn in *; lia|].
  rewrite removelast_last. rewrite length_app in Hl. cbn in Hl. lia.
Qed.

Lemma push_recent_length e cap self : (length (recent (push_recent e cap self)) ≤ cap)%nat.
Proof. unfold push_recent. cbn [recent]. apply pop_to_length. cbn [length]. lia. Qed.

(** ** Polling *)

Section poll.
Context `{HS : !Hashes, HX : !Hex, ST : !ScriptHashText, TT : !TxidText, CS : !Consensus}.

Lemma remove_all_inv l self :
  mempool_inv self →
  mempool_inv (foldl (λ self txid, (remove txid self).2) self l) ∧
  ∀ t, txs (foldl (λ self txid, (remove txid self).2) self l) !! t =
    if decide (t ∈ l) then None else txs self !! t.
Proof.
  revert self. induction l as [|x l IH]; intros self Hinv; [done|]. cbn [foldl].
  destruct (IH _ (remove_inv x self Hinv)) as [Hi Ht]. split; [done|]. intros t.
  rewrite Ht, remove_txs. destruct (decide (x = t)) as [->|Hne].
  - rewrite lookup_delete_eq. repeat case_decide; set_solver.
  - rewrite lookup_delete_ne by done. repeat case_decide; set_solver.
Qed.

(** Arrivals that conflict with nothing. *)
Definition all_admissible (self : MempoolIndex) (l : list MempoolTx) : Prop :=
  NoDup (mt_txid <$> l) ∧ Forall (admissible self) l ∧
  ∀ a b, a ∈ l → b ∈ l → mt_txid a ≠ mt_txid b → spends a ## spends b.

Lemma add_arrivals_inv cap l self :
  mempool_inv self → all_admissible self l →
  mempool_inv (foldl (add_arrival cap) self l) ∧
  ∀ t, txs (foldl (add_arrival cap) self l) !! t =
    match list_find (λ tx, mt_txid tx = t) l with
    | Some (_, tx) => Some tx
    | None => txs self !! t
    end.
Proof.
  revert self. induction l as [|x l IH]; intros self Hinv (Hnd & Hadm & Hdis); [done|].
  cbn [foldl fmap list_fmap] in *. apply NoDup_cons in Hnd as [Hx Hnd].
  apply Forall_cons in Hadm as [Hax Hadm].
  destruct (IH (add_arrival cap self x)) as [Hi Ht].
  - apply push_recent_inv, insert_inv; done.
  - split_and!; [done| |intros a b ??; apply Hdis; by right].
    apply Forall_forall. rewrite Forall_forall in Hadm. intros y Hy.
    destruct (Hadm y Hy) as [Hyn Hyd]. assert (mt_txid y ≠ mt_txid x) as Hyx.
    { intros Heq. apply Hx. rewrite <-Heq. by apply list_elem_of_fmap_2. }
    split; cbn [add_arrival push_recent insert txs].
    + by rewrite lookup_insert_ne by done.
    + intros t tx' [[<- <-]|[_ Ht']]%lookup_insert_Some; [|by eapply Hyd].
      apply Hdis; [by right|by left|done].
  - split; [done|]. intros t. rewrite Ht. cbn [add_arrival push_recent insert txs list_find].
    destruct (decide (mt_txid x = t)) as [<-|Hne].
    + destruct (list_find _ l) as [[i tx]|] eqn:Ef; [|by rewrite lookup_insert_eq].
      apply list_find_Some in Ef as (Hi' & Heq & _). exfalso. apply Hx.
      rewrite <-Heq. apply list_elem_of_fmap_2. by eapply list_elem_of_lookup_2.
    + rewrite lookup_insert_ne by done. destruct (list_find _ l) as [[i tx]|]; done.
Qed.

(** The ids of the polled contents, and what was fetched of them. *)
Definition contents_ids (contents : list (option hash32 * MempoolEntryInfo)) : gset hash32 :=
  list_to_set (omap fst contents).
Definition arrivals_of contents tx_raw (self : MempoolIndex) : list MempoolTx :=
  (sort_by Z.le (λ a : MempoolTx * MempoolEntryInfo, mi_time a.2)
     (omap (fetch_one tx_raw)
        (filter (λ e : hash32 * MempoolEntryInfo, e.1 ∉ dom (txs self))
           (omap (λ e : option hash32 * MempoolEntryInfo,
                    match e.1 with Some t => Some (t, e.2) | None => None end) contents)))).*1.

Lemma contents_ids_eq (contents : list (option hash32 * MempoolEntryInfo)) :
  (omap (λ e : option hash32 * MempoolEntryInfo,
           match e.1 with Some t => Some (t, e.2) | None => None end) contents).*1 =
  omap fst contents.
Proof. induction contents as [|[[t|] i] l IH]; cbn; congruence. Qed.

Lemma fetch_one_id tx_raw w a : fetch_one tx_raw w = Some a → mt_txid a.1 = w.1.
Proof.
  unfold fetch_one. intros (raw & _ & Hb)%bind_Some.
  destruct (build_tx raw w.2); [|done..]. case_decide; [|done]. by injection Hb as <-.
Qed.

(** Every output of a transaction that was built is among what it touches. *)
Lemma add_outputs_wf {E} l acc acc' :
  foldM (add_output (E := E)) acc l = Ok acc' →
  (∀ vout sh v, acc.2 !! vout = Some (sh, v) → sh ∈ acc.1) →
  ∀ vout sh v, acc'.2 !! vout = Some (sh, v) → sh ∈ acc'.1.
Proof.
  revert acc. induction l as [|[i out] l IH]; intros acc; cbn [foldM]; [by intros [= ->]|].
  destruct (add_output acc (i, out)) as [a| |] eqn:Ea; osimpl; [|done..].
  unfold add_output in Ea. destruct (esh_from_script _) as [sh| |]; [|done..]. injection Ea as <-.
  intros Hf Hwf. apply (IH _ Hf). intros vout sh' v'. cbn.
  intros [[_ [= <- _]]|[_ Hl]]%lookup_insert_Some; [set_solver|]. apply Hwf in Hl. set_solver.
Qed.
Lemma build_tx_wf raw info tx : build_tx raw info = Ok tx → tx_wf tx.
Proof.
  unfold build_tx. destruct (parse_tx raw) as [p| |]; [|done..]. osimpl.
  destruct (foldM _ _ _) as [[sh out]| |] eqn:Ef; [|done..]. osimpl. intros [= <-].
  unfold tx_wf. cbn. eapply (add_outputs_wf _ _ _ Ef). by intros ???.
Qed.
Lemma arrivals_wf contents tx_raw self tx : tx ∈ arrivals_of contents tx_raw self → tx_wf tx.
Proof.
  unfold arrivals_of. intros ([t i] & -> & Hin)%list_elem_of_fmap.
  rewrite sort_by_perm in Hin. apply list_elem_of_omap in Hin as (w & _ & Hf).
  unfold fetch_one in Hf. apply bind_Some in Hf as (raw & _ & Hf).
  destruct (build_tx raw w.2) as [tx| |] eqn:Eb; [|done..]. case_decide; [|done].
  injection Hf as <- _. by eapply build_tx_wf.
Qed.

(** What a poll does to the index. *)
Lemma poll_once_spec contents tx_raw cap self :
  mempool_inv self →
  all_admissible
    (foldl (λ self txid, (remove txid self).2) self
       (txids_list (dom (txs self) ∖ contents_ids contents)))
    (arrivals_of contents tx_raw self) →
  let '(self', (added, removed)) := poll_once contents tx_raw cap self in
  mempool_inv self' ∧ added = length (arrivals_of contents tx_raw self) ∧
  removed = size (dom (txs self) ∖ contents_ids contents) ∧
  ∀ t, txs self' !! t =
    match list_find (λ tx, mt_txid tx = t) (arrivals_of contents tx_raw self) with
    | Some (_, tx) => Some tx
    | None => if decide (t ∈ contents_ids contents) then txs self !! t else None
    end.
Proof.
  intros Hinv Hadm. unfold poll_once. rewrite contents_ids_eq.
  fold (contents_ids contents).
  destruct (remove_all_inv (txids_list (dom (txs self) ∖ contents_ids contents)) self Hinv)
    as [Hi Ht].
  destruct (add_arrivals_inv cap _ _ Hi Hadm) as [Hi' Ht'].
  fold (arrivals_of contents tx_raw self). split_and!; [exact Hi'| | |].
  - unfold arrivals_of. by rewrite length_fmap.
  - unfold txids_list. by rewrite (Permutation_length (merge_sort_Permutation _ _)).
  - intros t. etrans; [apply Ht'|]. destruct (list_find _ _) as [[? ?]|]; [done|].
    rewrite Ht.
    assert (∀ s : gset hash32, t ∈ txids_list s ↔ t ∈ s) as Hel.
    { intros s. unfold txids_list. by rewrite merge_sort_Permutation, elem_of_elements. }
    specialize (Hel (dom (txs self) ∖ contents_ids contents)). rewrite elem_of_difference in Hel.
    destruct (txs self !! t) as [tx|] eqn:E.
    + assert (t ∈ dom (txs self)) by (by eapply elem_of_dom_2).
      repeat case_decide; try done; tauto.
    + by repeat case_decide.
Qed.
End poll.

(** ** A script's view of the mempool *)

Section view.
Context `{HX : !Hex, TT : !TxidText}.

Definition mempool_ok (self : MempoolIndex) : Prop :=
  mempool_inv self ∧ ∀ t tx, txs self !! t = Some tx → tx_wf tx.

(** [o] is an unconfirmed output of value [v] that pays [sh]. *)
Definition unconfirmed_output (self : MempoolIndex) (sh : ElectrumScripthash) (o : OutPoint)
    (v : Z) : Prop :=
  ∃ tx, txs self !! op_txid o = Some tx ∧ outputs tx !! op_vout o = Some (sh, v).

(** The transaction pays the script, or spends one of its outputs. *)
Definition involves (self : MempoolIndex) (sh : ElectrumScripthash) (confirmed : list OutPoint)
    (tx : MempoolTx) : Prop :=
  sh ∈ touches tx ∨
  ∃ o, o ∈ spends tx ∧ (o ∈ confirmed ∨ ∃ v, unconfirmed_output self sh o v).

Lemma elem_txids_list t s : t ∈ txids_list s ↔ t ∈ s.
Proof. unfold txids_list. by rewrite merge_sort_Permutation, elem_of_elements. Qed.

Lemma elem_outputs_list tx vout sh v :
  (vout, (sh, v)) ∈ outputs_list tx ↔ outputs tx !! vout = Some (sh, v).
Proof. unfold outputs_list. by rewrite sort_by_perm, elem_of_map_to_list. Qed.

Lemma elem_paying sh tx o v :
  (o, v) ∈ paying sh tx ↔ op_txid o = mt_txid tx ∧ outputs tx !! op_vout o = Some (sh, v).
Proof.
  unfold paying. rewrite list_elem_of_fmap. split.
  - intros ([vout [sh' v']] & [= -> ->] & Hin). apply list_elem_of_filter in Hin as [Hsh Hin].
    cbn in Hsh. subst sh'. by apply elem_outputs_list in Hin.
  - intros [Ht Ho]. exists (op_vout o, (sh, v)). split; [destruct o; cbn in *; by subst|].
    apply list_elem_of_filter. split; [done|]. by apply elem_outputs_list.
Qed.

Lemma fold_spenders_elem (m : gmap OutPoint hash32) (l : list OutPoint) (s : gset hash32) (t : hash32) :
  t ∈ foldl (λ txids outpoint,
               match m !! outpoint with
               | Some spender => {[spender]} ∪ txids
               | None => txids
               end) s l ↔
  t ∈ s ∨ ∃ o, o ∈ l ∧ m !! o = Some t.
Proof.
  revert s. induction l as [|o l IH]; intros s; cbn [foldl]; [set_solver|].
  rewrite IH. setoid_rewrite elem_of_cons. destruct (m !! o) as [x|] eqn:E.
  - rewrite elem_of_union, elem_of_singleton. split; [|naive_solver].
    intros [[->|?]|(o' & ? & ?)]; eauto.
  - naive_solver.
Qed.

Lemma script_txids_exact self sh confirmed t :
  mempool_ok self →
  t ∈ script_txids self sh confirmed ↔
  ∃ tx, txs self !! t = Some tx ∧ involves self sh confirmed tx.
Proof.
  intros [[Hid Hby Hne Hsp] Hwf]. unfold script_txids. rewrite fold_spenders_elem, Hby.
  assert (∀ o, o ∈ omap (λ txid, txs self !! txid) (txids_list (default ∅ (by_scripthash self !! sh)))
                 ≫= (λ tx, (paying sh tx).*1) ↔ ∃ v, unconfirmed_output self sh o v) as Hunc.
  { intros o. rewrite list_elem_of_bind. split.
    - intros (tx & ([o' v] & -> & Hp)%list_elem_of_fmap & (t' & _ & Ht')%list_elem_of_omap).
      apply elem_paying in Hp as [Ht Ho]. exists v, tx. cbn. rewrite Ht, (Hid _ _ Ht'). done.
    - intros (v & tx & Ht & Ho). exists tx. split.
      + apply list_elem_of_fmap. exists (o, v). split; [done|].
        apply elem_paying. by rewrite (Hid _ _ Ht).
      + apply list_elem_of_omap. exists (op_txid o). split; [|done].
        apply elem_txids_list, Hby. exists tx. split; [done|]. by eapply Hwf. }
  setoid_rewrite elem_of_app. setoid_rewrite Hunc. setoid_rewrite Hsp. unfold involves. split.
  - intros [(tx & ? & ?)|(o & Ho & tx & ? & ?)]; exists tx; (split; [done|]); [by left|].
    right. exists o. tauto.
  - intros (tx & Ht & [?|(o & ? & Ho)]); [left; eauto|]. right. exists o. split; [tauto|eauto].
Qed.

Lemma elem_view_txs self sh mined conf tx :
  mempool_ok self →
  tx ∈ view_txs self sh mined conf ↔
  txs self !! mt_txid tx = Some tx ∧ (mt_txid tx ∉ mined) ∧ involves self sh conf.*1 tx.
Proof.
  intros Hok. pose proof Hok as [[Hid _ _ _] _]. unfold view_txs. rewrite list_elem_of_omap.
  setoid_rewrite list_elem_of_filter. setoid_rewrite elem_txids_list. split.
  - intros (t & [Hm Hs] & Ht). apply script_txids_exact in Hs as (tx' & Ht' & Hinv); [|done].
    pose proof (Hid _ _ Ht) as <-. simplify_eq. done.
  - intros (Ht & Hm & Hinv). exists (mt_txid tx). split; [|done]. split; [done|].
    apply script_txids_exact; eauto.
Qed.

(** Spent by a transaction of the mempool that is not mined. *)
Definition spent_in_mempool (self : MempoolIndex) (mined : gset hash32) (o : OutPoint) : Prop :=
  ∃ t tx, txs self !! t = Some tx ∧ o ∈ spends tx ∧ t ∉ mined.

Lemma spent_unmined_spec self mined o :
  mempool_inv self → spent_unmined self mined o = true ↔ spent_in_mempool self mined o.
Proof.
  intros [_ _ _ Hsp]. unfold spent_unmined, spent_in_mempool. split.
  - destruct (spent_prevouts self !! o) as [t|] eqn:E; [|done].
    intros ?%bool_decide_eq_true. apply Hsp in E as (tx & ? & ?). eauto.
  - intros (t & tx & Ht & Ho & Hm). rewrite (proj2 (Hsp o t)) by eauto.
    by apply bool_decide_eq_true.
Qed.

Lemma view_utxos_exact self sh conf mined o v :
  mempool_ok self →
  (o, v) ∈ sm_utxos (script_view self sh conf mined) ↔
  unconfirmed_output self sh o v ∧ (op_txid o ∉ mined) ∧ ¬ spent_in_mempool self mined o.
Proof.
  intros Hok. pose proof Hok as [Hinv Hwf]. cbn [script_view sm_utxos].
  rewrite sort_by_perm, list_elem_of_filter, list_elem_of_bind. cbn [fst].
  rewrite <-not_true_iff_false, spent_unmined_spec by done. split.
  - intros [Hns (tx & Hp & Htx)]. apply elem_view_txs in Htx as (Ht & Hm & _); [|done].
    apply elem_paying in Hp as [Ho Hout]. rewrite Ho. split_and!; [|done|done].
    exists tx. by rewrite Ho.
  - intros [(tx & Ht & Ho) [Hm Hns]]. split; [done|]. exists tx.
    pose proof (mp_id _ Hinv _ _ Ht) as Hid. split; [by apply elem_paying|].
    apply elem_view_txs; [done|]. rewrite Hid. split_and!; [done|done|].
    left. by eapply Hwf.
Qed.

Lemma view_entries_exact self sh conf mined e :
  mempool_ok self →
  e ∈ sm_entries (script_view self sh conf mined) ↔
  ∃ t tx, txs self !! t = Some tx ∧ (t ∉ mined) ∧ involves self sh conf.*1 tx ∧
    e = view_entry self mined tx.
Proof.
  intros Hok. cbn [script_view sm_entries]. rewrite sort_by_perm, list_elem_of_fmap. split.
  - intros (tx & -> & Htx). apply elem_view_txs in Htx as (Ht & Hm & Hi); [|done]. eauto 6.
  - intros (t & tx & Ht & Hm & Hi & ->). exists tx. split; [done|]. apply elem_view_txs; [done|].
    by rewrite (mp_id _ (proj1 Hok) _ _ Ht).
Qed.

(** *** The balance *)

Lemma as_i64_add_l a b : as_i64 (as_i64 a + b) = as_i64 (a + b).
Proof.
  unfold as_i64. f_equal.
  replace ((a + 2 ^ 63) mod 2 ^ 64 - 2 ^ 63 + b + 2 ^ 63) with ((a + 2 ^ 63) mod 2 ^ 64 + b) by lia.
  rewrite Zplus_mod_idemp_l. f_equal. lia.
Qed.
Lemma as_i64_add_r a b : as_i64 (a + as_i64 b) = as_i64 (a + b).
Proof. rewrite Z.add_comm, as_i64_add_l. f_equal. lia. Qed.
Lemma as_i64_sub_r a b : as_i64 (a - as_i64 b) = as_i64 (a - b).
Proof.
  unfold as_i64. f_equal.
  replace (a - ((b + 2 ^ 63) mod 2 ^ 64 - 2 ^ 63) + 2 ^ 63)
    with ((a + 2 ^ 64) - (b + 2 ^ 63) mod 2 ^ 64) by lia.
  rewrite Zminus_mod_idemp_r. f_equal. lia.
Qed.

Lemma fold_add_value l d : foldl add_value (as_i64 d) l = as_i64 (d + sumZ l.*2).
Proof.
  revert d. induction l as [|[o v] l IH]; intros d; cbn [foldl fmap list_fmap sumZ snd].
  - by rewrite Z.add_0_r.
  - unfold add_value at 2. cbn [snd]. rewrite as_i64_add_l, as_i64_add_r, IH. f_equal. lia.
Qed.
Lemma fold_sub_value l d : foldl sub_value (as_i64 d) l = as_i64 (d - sumZ l.*2).
Proof.
  revert d. induction l as [|[o v] l IH]; intros d; cbn [foldl fmap list_fmap sumZ snd].
  - by rewrite Z.sub_0_r.
  - unfold sub_value at 2. cbn [snd].
    replace (as_i64 d - as_i64 v) with (as_i64 d + - as_i64 v) by lia.
    rewrite as_i64_add_l. replace (d + - as_i64 v) with (d - as_i64 v) by lia.
    rewrite as_i64_sub_r, IH. f_equal. lia.
Qed.

Lemma sum_filter_split (p : OutPoint → bool) (l : list (OutPoint * Z)) :
  sumZ (filter (λ o, p o.1 = true) l).*2 + sumZ (filter (λ o, p o.1 = false) l).*2 = sumZ l.*2.
Proof.
  induction l as [|[o v] l IH]; [done|]. rewrite !filter_cons. cbn [fst].
  destruct (p o); repeat case_decide; try done; cbn [fmap list_fmap sumZ snd]; lia.
Qed.

(** What the mempool changes for a script: it gains the unspent unconfirmed
    outputs and loses the confirmed ones that are spent. *)
Lemma view_balance self sh conf mined :
  let view := script_view self sh conf mined in
  balance_delta view =
    as_i64 (sumZ (sm_utxos view).*2 -
            sumZ (filter (λ o : OutPoint * Z, spent_unmined self mined o.1 = true) conf).*2).
Proof.
  cbn [script_view balance_delta sm_utxos].
  set (outs := view_txs self sh mined conf ≫= paying sh).
  rewrite (sumZ_perm _ _ (fmap_Permutation snd _ _ (sort_by_perm str_num_le _ _))).
  pose proof (sum_filter_split (spent_unmined self mined) outs) as Hsplit.
  change 0 with (as_i64 0) at 1. rewrite fold_add_value, !fold_sub_value. f_equal. lia.
Qed.
End view.
