(* ===== verification/CoreRest.v ===== *)
(** * The servers' node client

    [bindex-electrum/src/corerest.rs] (Bitcoin format): the REST calls of the
    Electrum and REST servers, not retried, and the parser of the spent outputs
    of a block. The base URL is part of the [HttpAgent]. *)

From S2P Require Import Prelude External Text Index Fmt Client Protocol.

(** [Error]; the texts of the inner errors stand for themselves. *)
Inductive decode_error :=
| DecodeBody (e : http_error)
| DecodeJson
| DecodeConsensus
| DecodeNonString
| DecodeHex
| TrailingBytes (n : Z).
Inductive corerest_error :=
| Transport (e : http_error)
| NotFound
| Decode (e : decode_error)
| CoreRpc (message : str).

(** [consensus_decode_from_finite_reader] for [TxOut]: the output and the rest
    of the reader. *)
Class TxOutReader := { txout_decode : bytes → option (bitcoin_txout * bytes) }.
Class TxOutReaderLaws `{TxOutReader} := {
  txout_decode_suffix b o rest :
    txout_decode b = Some (o, rest) → ∃ p, p ≠ [] ∧ b = p ++ rest;
}.

(** The bytes of a [Vec<TxOut>] and of a [TxOut] in memory. *)
Definition SIZEOF_VEC : Z := 24.
Definition SIZEOF_TXOUT : Z := 32.
(** [Vec::with_capacity] panics when the size in bytes exceeds [isize::MAX]. *)
Definition with_capacity {E} (sizeof n : Z) : outcome E () :=
  assert_that "capacity overflow" (n * sizeof <=? 2 ^ 63 - 1).

Section corerest.
Context {W : Type} `{HA : !HttpAgent W, SD : !Serde, VI : !VarInt, TR : !TxOutReader}.
Abbreviation M := (stM W corerest_error).

Definition rest_get_bytes (path : rest_request) : M bytes := λ w,
  match http_call w path with
  | (inr (inr data), w) =>
      (if Z.of_nat (length data) <=? BODY_LIMIT then Ok data
       else Err (Decode (DecodeBody BodyExceedsLimit)), w)
  | (inr (inl e), w) => (Err (Decode (DecodeBody e)), w)
  | (inl (StatusCode 404), w) => (Err NotFound, w)
  | (inl err, w) => (Err (Transport err), w)
  end.

Definition get_json (path : rest_request) : M json :=
  bytes ← rest_get_bytes path;
  st_lift (ok_or (Decode DecodeJson) (json_from_slice bytes)).

Definition block_json (hash : hash32) : M json := get_json (rest_block_json hash).
Definition block_raw (hash : hash32) : M bytes := rest_get_bytes (rest_block hash).
Definition spent_txouts (hash : hash32) : M bytes := rest_get_bytes (rest_spenttxouts hash).
Definition header_raw (hash : hash32) : M bytes := rest_get_bytes (rest_headers 1 hash).
Definition block_part (hash : hash32) (offset size : Z) : M bytes :=
  rest_get_bytes (rest_blockpart hash offset size).
Definition tx_raw (txid : hash32) : M bytes := rest_get_bytes (rest_tx txid).
Definition mempool_contents : M json := get_json rest_mempool_contents.

(** ** [parse_spent_txouts] *)

Abbreviation P := (outcome corerest_error).

Definition read_varint (cursor : bytes) : P (Z * bytes) :=
  ok_or (Decode DecodeConsensus) (varint_decode cursor).
Definition read_txout (cursor : bytes) : P (bitcoin_txout * bytes) :=
  ok_or (Decode DecodeConsensus) (txout_decode cursor).

(** [for _ in 0..n { out.push(item(&mut cursor)?) }]: an item takes at least a
    byte, so a reader of [fuel] bytes ends a longer loop with an error. *)
Fixpoint read_n {A} (item : bytes → P (A * bytes)) (fuel : nat) (n : Z) (cursor : bytes)
    : P (list A * bytes) :=
  if n <=? 0 then mret ([], cursor) else
  match fuel with
  | O => Panic "out of fuel"
  | S fuel =>
      '(x, cursor) ← item cursor;
      '(rest, cursor) ← read_n item fuel (n - 1) cursor;
      mret (x :: rest, cursor)
  end.

Definition read_spent_tx (cursor : bytes) : P (list bitcoin_txout * bytes) :=
  '(outputs_count, cursor) ← read_varint cursor;
  _ ← with_capacity SIZEOF_TXOUT outputs_count;
  read_n read_txout (S (length cursor)) outputs_count cursor.

Definition parse_spent_txouts (bytes : bytes) : P (list (list bitcoin_txout)) :=
  '(txs_count, cursor) ← read_varint bytes;
  _ ← with_capacity SIZEOF_VEC txs_count;
  '(out, cursor) ← read_n read_spent_tx (S (length cursor)) txs_count cursor;
  match cursor with
  | [] => mret out
  | _ => Err (Decode (TrailingBytes (Z.of_nat (length cursor))))
  end.
End corerest.

(** * Properties *)

Section served.
Context {W : Type} `{HA : !HttpAgent W}.

Lemma rest_get_bytes_served path w data w' :
  rest_get_bytes path w = (Ok data, w') → served (W := W) path data.
Proof.
  unfold rest_get_bytes. destruct (http_call w path) as [[e|[e|d]] w1] eqn:Ec.
  - destruct e; try done. by repeat case_match.
  - done.
  - case_match; [|done]. intros [= <- <-]. by exists w, w1.
Qed.
Lemma rest_get_bytes_no_panic path w m w' : rest_get_bytes path w ≠ (Panic m, w').
Proof.
  unfold rest_get_bytes. destruct (http_call w path) as [[e|[e|d]] w1]; repeat case_match; done.
Qed.
End served.

(** ** The spent outputs of a block *)

Class VarIntReadLaws `{VarInt} := {
  varint_decode_suffix b x rest : varint_decode b = Some (x, rest) → ∃ p, p ≠ [] ∧ b = p ++ rest;
}.

Section spent.
Context `{VI : !VarInt, VIL : !VarIntLaws, VRL : !VarIntReadLaws, TR : !TxOutReader,
  TRL : !TxOutReaderLaws}.

(** A grammar: items one after the other. *)
Inductive items_of {A} (item : bytes → A → bytes → Prop) : bytes → list A → bytes → Prop :=
| items_nil b : items_of item b [] b
| items_cons b x b1 l b2 :
    item b x b1 → items_of item b1 l b2 → items_of item b (x :: l) b2.
Arguments items_nil {A item} b.

(** A count, then that many items. *)
Definition counted {A} (item : bytes → A → bytes → Prop) (b : bytes) (l : list A) (rest : bytes)
    : Prop :=
  ∃ b1, varint_decode b = Some (Z.of_nat (length l), b1) ∧ items_of item b1 l rest.

Definition txout_enc (b : bytes) (o : bitcoin_txout) (rest : bytes) : Prop :=
  txout_decode b = Some (o, rest).
(** The outputs a block spends, as [/rest/spenttxouts] encodes them. *)
Definition spent_encoding (b : bytes) (out : list (list bitcoin_txout)) : Prop :=
  counted (counted txout_enc) b out [].

Definition consumes {A} (item : bytes → A → bytes → Prop) : Prop :=
  ∀ b x rest, item b x rest → ∃ p, p ≠ [] ∧ b = p ++ rest.
(** [read] reads [item]s, on readers of at most [n] bytes. *)
Definition reads {A} (n : nat) (read : bytes → outcome corerest_error (A * bytes))
    (item : bytes → A → bytes → Prop) : Prop :=
  ∀ b x rest, (length b ≤ n)%nat → read b = Ok (x, rest) ↔ item b x rest.

Lemma items_suffix {A} (item : bytes → A → bytes → Prop) b l rest :
  consumes item → items_of item b l rest →
  ∃ p, b = p ++ rest ∧ (length l ≤ length p)%nat.
Proof.
  intros Hc. induction 1 as [b|b x b1 l b2 Hx _ (p & -> & Hp)]; [by exists []|].
  apply Hc in Hx as (q & Hq & ->). exists (q ++ p). rewrite (assoc (++)). split; [done|].
  destruct q; [done|]. cbn. rewrite length_app. lia.
Qed.

Lemma counted_consumes {A} (item : bytes → A → bytes → Prop) :
  consumes item → consumes (counted item).
Proof.
  intros Hc b x rest (b1 & Hn & Hi). apply varint_decode_suffix in Hn as (p & Hp & ->).
  apply items_suffix in Hi as (q & -> & _); [|done].
  exists (p ++ q). rewrite (assoc (++)). split; [|done]. by destruct p.
Qed.

Lemma read_n_reads {A} n read (item : bytes → A → bytes → Prop) fuel k b l rest :
  reads n read item → consumes item → (length b ≤ n)%nat → (length b < fuel)%nat → 0 ≤ k →
  read_n read fuel k b = Ok (l, rest) ↔ items_of item b l rest ∧ Z.of_nat (length l) = k.
Proof.
  intros Hr Hc. revert k b l rest. induction fuel as [|fuel IH]; intros k b l rest Hb Hf Hk; [lia|].
  cbn [read_n]. destruct (Z.leb_spec k 0) as [Hz|Hz].
  { split; [intros [= <- <-]; split; [constructor|cbn; lia]|].
    intros [Hi Hl]. destruct l; [|cbn in Hl; lia]. by inversion Hi. }
  assert (∀ x b1, read b = Ok (x, b1) → (length b1 ≤ n ∧ length b1 < fuel)%nat) as Hlen.
  { intros x b1 Hx. apply Hr, Hc in Hx as (p & Hp & ->); [|done].
    rewrite length_app in *. destruct p; [done|]. cbn in *. lia. }
  split.
  - intros ([x b1] & Hx & ([l' b2] & Hl & [= <- <-])%bind_ok)%bind_ok.
    destruct (Hlen _ _ Hx). apply IH in Hl as [Hl Hn]; [|lia..].
    split; [|cbn; lia]. econstructor; [by apply Hr|done].
  - intros [Hi Hl]. inversion Hi as [|? x b1 l' ? Hx Hi']; subst; [cbn in Hz; lia|].
    apply Hr in Hx; [|done]. destruct (Hlen _ _ Hx). rewrite Hx. osimpl.
    cbn [length] in *. rewrite (proj2 (IH (Z.of_nat (S (length l')) - 1) b1 l' rest ltac:(lia) ltac:(lia) ltac:(lia)));
      [done|]. split; [done|lia].
Qed.

(** A count, the capacity check and the loop read a counted list, when the
    check cannot fail on a list that fits the reader. *)
Lemma read_counted {A} n size read (item : bytes → A → bytes → Prop) :
  reads n read item → consumes item → 0 ≤ size → Z.of_nat n * size < 2 ^ 63 →
  reads n (λ b, '(k, b) ← read_varint b;
                _ ← with_capacity size k;
                read_n read (S (length b)) k b) (counted item).
Proof.
  intros Hr Hc Hs Hcap b l rest Hb.
  assert (∀ k b1, varint_decode b = Some (k, b1) → (length b1 ≤ n)%nat ∧ 0 ≤ k) as Hk.
  { intros k b1 Hn. pose proof (varint_decode_u64 _ _ _ Hn).
    apply varint_decode_suffix in Hn as (p & Hp & ->). rewrite length_app in Hb. split; [lia|bx_arith]. }
  split.
  - intros ([k b1] & Hn & (u & _ & Hl)%bind_ok)%bind_ok. apply ok_or_ok in Hn.
    destruct (Hk _ _ Hn). apply (read_n_reads n _ item) in Hl as [Hi <-]; [|done || lia..].
    by exists b1.
  - intros (b1 & Hn & Hi). destruct (Hk _ _ Hn) as [Hb1 _]. unfold read_varint. rewrite Hn. osimpl.
    pose proof Hi as (p & -> & Hp)%items_suffix; [|done]. rewrite length_app in Hb1.
    unfold with_capacity. rewrite (proj2 (Z.leb_le _ _)) by nia. osimpl.
    apply (read_n_reads n _ item); [done|done|rewrite length_app; lia|lia|lia|done].
Qed.

Lemma parse_spent_txouts_ok b out :
  Z.of_nat (length b) < 2 ^ 58 →
  parse_spent_txouts b = Ok out ↔ spent_encoding b out.
Proof.
  intros Hb.
  assert (consumes txout_enc) as Hc1 by (intros ???; apply txout_decode_suffix).
  assert (reads (length b) read_txout txout_enc) as Hr1.
  { intros b' x rest _. unfold read_txout. by rewrite ok_or_ok. }
  pose proof (read_counted _ SIZEOF_TXOUT _ _ Hr1 Hc1 ltac:(done) ltac:(unfold SIZEOF_TXOUT; lia)) as Hr2.
  pose proof (read_counted _ SIZEOF_VEC _ _ Hr2 (counted_consumes _ Hc1) ltac:(done)
                ltac:(unfold SIZEOF_VEC; lia)) as Hr3.
  specialize (Hr3 b out []).
  unfold spent_encoding. rewrite <-Hr3 by done. unfold parse_spent_txouts.
  destruct (read_varint b) as [[k b1]| |]; [|done..]. osimpl.
  destruct (with_capacity SIZEOF_VEC k); [|done..]. osimpl.
  fold read_spent_tx. change (λ b0 : list Z, _) with read_spent_tx.
  destruct (read_n _ _ _ _) as [[l [|z rest]]| |]; osimpl; [|done..].
  split; [by intros [= ->]|by intros [= ->]].
Qed.
End spent.
