(* ===== verification/ScriptFold.v ===== *)
(** * Folding a script's history

    [Fold] and [ScriptCache] of [bindex-electrum/src/chain.rs]: the confirmed
    history of one script, folded one transaction at a time in chain order, and
    the bounded cache of such folds. [u64] amounts wrap; [usize] counters of
    objects in memory do not reach their width and are plain. *)

From S2P Require Import Prelude External Text Index Fmt Headers Batch Store Client Chain Protocol.
From S2P Require Import Mempool.

Record ScriptHistoryRow := {
  shr_txid : hash32; shr_height : Z; shr_position : Z;
  shr_funded : Z; shr_funded_count : Z; shr_spent : Z; shr_spent_count : Z;
}.
(** [self.funded as i64 - self.spent as i64] *)
Definition net_value (row : ScriptHistoryRow) : Z :=
  as_i64 (as_i64 (shr_funded row) - as_i64 (shr_spent row)).

Record ScriptUtxo := { su_outpoint : OutPoint; su_value : Z; su_height : Z; su_position : Z }.

Record ScriptHistory := {
  sh_rows : list ScriptHistoryRow;
  sh_utxos : list ScriptUtxo;
  funded_txo_count : Z; funded_txo_sum : Z;
  spent_txo_count : Z; spent_txo_sum : Z;
  peak_live_utxos : Z;
}.
Definition script_history_default : ScriptHistory :=
  {| sh_rows := []; sh_utxos := []; funded_txo_count := 0; funded_txo_sum := 0;
     spent_txo_count := 0; spent_txo_sum := 0; peak_live_utxos := 0 |}.
Definition tx_count (h : ScriptHistory) : nat := length (sh_rows h).

Record Fold := {
  fd_history : ScriptHistory;
  fd_funded : gmap OutPoint Z;
  fd_live : gmap OutPoint ScriptUtxo;
}.
Definition fold_default : Fold :=
  {| fd_history := script_history_default; fd_funded := ∅; fd_live := ∅ |}.

#[export] Instance TxBytesRef_eq_dec : EqDecision TxBytesRef.
Proof. solve_decision. Defined.

(** [values()] of a [BTreeMap] keyed by outpoints. *)
Definition btree_values {A} (m : gmap OutPoint A) : list A :=
  snd <$> sort_by str_num_le (λ p, (op_txid p.1, op_vout p.1)) (map_to_list m).

Section fold.
Context `{HS : !Hashes, HX : !Hex, ST : !ScriptHashText, CS : !Consensus}.

(** The loop over the inputs: what was spent, how many, and the live outputs. *)
Definition spend_input (funded : gmap OutPoint Z)
    (acc : Z * Z * gmap OutPoint ScriptUtxo) (prevout : OutPoint)
    : Z * Z * gmap OutPoint ScriptUtxo :=
  let '(spent, spent_count, live) := acc in
  match funded !! prevout with
  | Some value => (wrap64 (spent + value), spent_count + 1, base.delete prevout live)
  | None => acc
  end.

(** The loop over the outputs. *)
Definition fund_output {E} (scripthash : ElectrumScripthash) (txid : hash32) (height position : Z)
    (acc : Z * Z * gmap OutPoint Z * gmap OutPoint ScriptUtxo) (item : nat * TxOutView)
    : outcome E (Z * Z * gmap OutPoint Z * gmap OutPoint ScriptUtxo) :=
  let '(funded, funded_count, outs, live) := acc in
  let '(vout, output) := item in
  sh ← esh_from_script (tov_script_pubkey output);
  if decide (sh = scripthash) then
    let outpoint := {| op_txid := txid; op_vout := wrap32 (Z.of_nat vout) |} in
    mret (wrap64 (funded + tov_value output), funded_count + 1,
          <[outpoint := tov_value output]> outs,
          <[outpoint := {| su_outpoint := outpoint; su_value := tov_value output;
                           su_height := height; su_position := position |}]> live)
  else mret acc.

(** [Fold::apply], after [parse_tx]. *)
Definition apply_tx {E} (scripthash : ElectrumScripthash) (reference : TxBytesRef) (tx : ParsedTx)
    (self : Fold) : outcome E Fold :=
  let height := tbr_block_height reference in
  let position := tbr_block_position reference in
  let '(spent, spent_count, live) :=
    foldl (spend_input (fd_funded self)) (0, 0, fd_live self) (pt_inputs tx) in
  '(funded, funded_count, outs, live) ←
    foldM (fund_output scripthash (pt_txid tx) height position)
      (0, 0, fd_funded self, live) (imap pair (pt_outputs tx));
  let row := {| shr_txid := pt_txid tx; shr_height := height; shr_position := position;
                shr_funded := funded; shr_funded_count := funded_count;
                shr_spent := spent; shr_spent_count := spent_count |} in
  let h := fd_history self in
  let peak := Z.max (peak_live_utxos h) (Z.of_nat (size live)) in
  let history :=
    if (0 <? funded_count) || (0 <? spent_count) then
      {| sh_rows := sh_rows h ++ [row]; sh_utxos := sh_utxos h;
         funded_txo_count := funded_txo_count h + funded_count;
         funded_txo_sum := wrap64 (funded_txo_sum h + funded);
         spent_txo_count := spent_txo_count h + spent_count;
         spent_txo_sum := wrap64 (spent_txo_sum h + spent);
         peak_live_utxos := peak |}
    else
      {| sh_rows := sh_rows h; sh_utxos := sh_utxos h;
         funded_txo_count := funded_txo_count h; funded_txo_sum := funded_txo_sum h;
         spent_txo_count := spent_txo_count h; spent_txo_sum := spent_txo_sum h;
         peak_live_utxos := peak |} in
  mret {| fd_history := history; fd_funded := outs; fd_live := live |}.

Definition apply (scripthash : ElectrumScripthash) (reference : TxBytesRef) (raw : bytes)
    (self : Fold) : outcome fmt_error Fold :=
  tx ← parse_tx raw;
  apply_tx scripthash reference tx self.

Definition finish (self : Fold) : ScriptHistory :=
  let h := fd_history self in
  {| sh_rows := sort_by (lex_le Z.lt Z.le) (λ row, (shr_height row, shr_position row)) (sh_rows h);
     sh_utxos := btree_values (fd_live self);
     funded_txo_count := funded_txo_count h; funded_txo_sum := funded_txo_sum h;
     spent_txo_count := spent_txo_count h; spent_txo_sum := spent_txo_sum h;
     peak_live_utxos := peak_live_utxos h |}.
End fold.

(** ** [ScriptCache] *)

Record CachedScript := {
  cs_refs : list TxBytesRef; cs_fold : Fold; cs_history : ScriptHistory
}.

Record ScriptCache := {
  sc_entries : gmap ElectrumScripthash (CachedScript * Z);
  sc_refs : Z; max_refs : Z; clock : Z;
}.

Definition cache_new (max : Z) : ScriptCache :=
  {| sc_entries := ∅; sc_refs := 0; max_refs := max; clock := 0 |}.

Definition cache_get (scripthash : ElectrumScripthash) (self : ScriptCache)
    : option CachedScript * ScriptCache :=
  let clock := wrap64 (clock self + 1) in
  let with_entries m :=
    {| sc_entries := m; sc_refs := sc_refs self; max_refs := max_refs self; clock := clock |} in
  match sc_entries self !! scripthash with
  | Some (cached, _) => (Some cached, with_entries (<[scripthash := (cached, clock)]> (sc_entries self)))
  | None => (None, with_entries (sc_entries self))
  end.

Definition refs_len (cached : CachedScript) : Z := Z.of_nat (length (cs_refs cached)).

(** [self.entries.remove(&scripthash)], adjusting [refs]. *)
Definition cache_remove (scripthash : ElectrumScripthash) (self : ScriptCache) : ScriptCache :=
  match sc_entries self !! scripthash with
  | Some (old, _) =>
      {| sc_entries := base.delete scripthash (sc_entries self);
         sc_refs := wrap64 (sc_refs self - refs_len old);
         max_refs := max_refs self; clock := clock self |}
  | None => self
  end.

(** [min_by_key] over the entries. *)
Definition oldest (m : gmap ElectrumScripthash (CachedScript * Z)) : option ElectrumScripthash :=
  fst <$> head (sort_by Z.le (λ e, e.2.2) (map_to_list m)).

(** The loop of [put]; a round removes an entry, so their number is enough fuel. *)
Fixpoint evict (fuel : nat) (self : ScriptCache) : ScriptCache :=
  if sc_refs self <=? max_refs self then self else
  match fuel with
  | O => self
  | S fuel =>
      match oldest (sc_entries self) with
      | None => self
      | Some old => evict fuel (cache_remove old self)
      end
  end.

Definition cache_put (scripthash : ElectrumScripthash) (cached : CachedScript) (self : ScriptCache)
    : ScriptCache :=
  let self := cache_remove scripthash self in
  if max_refs self <? refs_len cached then self else
  let clock := wrap64 (clock self + 1) in
  let self :=
    {| sc_entries := <[scripthash := (cached, clock)]> (sc_entries self);
       sc_refs := wrap64 (sc_refs self + refs_len cached);
       max_refs := max_refs self; clock := clock |} in
  evict (size (sc_entries self)) self.
