(* ===== verification/ScriptFoldSpec.v ===== *)
(** * What a folded history says

    The fold of a valid run of transactions lists exactly the unspent outputs
    of the script, and its totals agree with them; the cache of folds keeps its
    bound and evicts the least recently used. *)

From S2P Require Import Prelude External Text Index Fmt Headers Batch Store Client Chain Protocol.
From S2P Require Import ProtocolSpec Mempool ScriptFold.

(** ** Sums over a map *)

Definition map_sum `{Countable K} {A} (f : A → Z) (m : gmap K A) : Z :=
  sumZ (f <$> (map_to_list m).*2).

Section map_sum.
Context `{Countable K} {A : Type} (f : A → Z).
Implicit Types (m : gmap K A) (o : K).

Lemma map_sum_insert m o x : m !! o = None → map_sum f (<[o := x]> m) = f x + map_sum f m.
Proof.
  intros Ho. unfold map_sum.
  by rewrite (sumZ_perm _ _ (fmap_Permutation f _ _ (fmap_Permutation snd _ _ (map_to_list_insert m o x Ho)))).
Qed.
Lemma map_sum_delete m o x : m !! o = Some x → map_sum f (base.delete o m) = map_sum f m - f x.
Proof.
  intros Ho. rewrite <-(insert_delete_id m o x Ho) at 2.
  rewrite map_sum_insert by apply lookup_delete_eq. lia.
Qed.
Lemma map_sum_empty : map_sum f (∅ : gmap K A) = 0.
Proof. unfold map_sum. by rewrite map_to_list_empty. Qed.
Lemma map_sum_nonneg m : (∀ x, 0 ≤ f x) → 0 ≤ map_sum f m.
Proof. intros Hf. apply sumZ_nonneg, Forall_fmap, Forall_true. intros x. apply Hf. Qed.
Lemma map_sum_lookup m o x : (∀ x, 0 ≤ f x) → m !! o = Some x → f x ≤ map_sum f m.
Proof.
  intros Hf Ho. pose proof (map_sum_delete m o x Ho).
  pose proof (map_sum_nonneg (base.delete o m) Hf). lia.
Qed.
End map_sum.

Lemma map_sum_values {A} (f : A → Z) (m : gmap OutPoint A) :
  map_sum f m = sumZ (f <$> btree_values m).
Proof.
  unfold map_sum, btree_values.
  apply sumZ_perm, fmap_Permutation, fmap_Permutation. by rewrite sort_by_perm.
Qed.

Lemma size_delete_Some {A} (m : gmap OutPoint A) o x :
  m !! o = Some x → Z.of_nat (size (base.delete o m)) = Z.of_nat (size m) - 1.
Proof.
  intros Ho. rewrite <-(insert_delete_id m o x Ho) at 2.
  rewrite map_size_insert_None by apply lookup_delete_eq. lia.
Qed.

Lemma same_none_eq {A} (m1 m2 : gmap OutPoint A) :
  m1 ⊆ m2 → filter (λ e, m1 !! e.1 = None) m2 = ∅ → m1 = m2.
Proof.
  intros Hsub He. apply map_eq. intros o.
  destruct (m2 !! o) as [v|] eqn:Eo; [|by eapply lookup_weaken_None].
  destruct (m1 !! o) as [v'|] eqn:Eo'; [eapply lookup_weaken in Eo'; [|done]; congruence|].
  exfalso. assert (filter (λ e, m1 !! e.1 = None) m2 !! o = Some v) as Hf
    by by apply map_lookup_filter_Some.
  by rewrite He in Hf.
Qed.

Lemma size_grows {A} (m1 m2 : gmap OutPoint A) :
  m1 ⊆ m2 →
  0 ≤ Z.of_nat (size m2) - Z.of_nat (size m1) ∧
  (0 < Z.of_nat (size m2) - Z.of_nat (size m1) ↔ ∃ o v, m2 !! o = Some v ∧ m1 !! o = None).
Proof.
  intros Hsub. pose proof (map_subseteq_size _ _ Hsub). split; [lia|]. split.
  - intros Hlt. destruct (decide (filter (λ e, m1 !! e.1 = None) m2 = ∅)) as [He|He].
    + cut (m1 = m2); [intros <-; lia|]. by apply (same_none_eq m1 m2).
    + apply map_choose in He as (o & v & [Ho Hn]%map_lookup_filter_Some). eauto.
  - intros (o & v & Ho & Hn). cut (size m1 < size m2)%nat; [lia|].
    apply map_subset_size. split; [done|]. intros Hle.
    eapply lookup_weaken in Ho; [|done]. congruence.
Qed.

Lemma same_size_eq {A} (m1 m2 : gmap OutPoint A) :
  m1 ⊆ m2 → Z.of_nat (size m2) - Z.of_nat (size m1) ≤ 0 → m1 = m2.
Proof.
  intros Hsub Hle. apply same_none_eq; [done|]. apply map_empty. intros o.
  destruct (filter _ m2 !! o) as [v|] eqn:Ev; [|done].
  apply map_lookup_filter_Some in Ev as [Ho Hn].
  pose proof (proj2 (proj2 (size_grows _ _ Hsub)) (ex_intro _ o (ex_intro _ v (conj Ho Hn)))). lia.
Qed.

Lemma elem_btree_values {A} (m : gmap OutPoint A) x :
  x ∈ btree_values m ↔ ∃ o, m !! o = Some x.
Proof.
  unfold btree_values. rewrite list_elem_of_fmap. setoid_rewrite sort_by_perm. split.
  - intros ([o y] & -> & Hin). exists o. by apply elem_of_map_to_list.
  - intros [o Ho]. exists (o, x). split; [done|]. by apply elem_of_map_to_list.
Qed.

Section fold.
Context `{HS : !Hashes, HX : !Hex, ST : !ScriptHashText, HSL : !HashLaws, HXL : !HexLaws,
  STL : !ScriptHashTextLaws}.
Implicit Types (sh : ElectrumScripthash) (o : OutPoint) (fd : Fold).

Definition pays_script sh (out : TxOutView) : Prop :=
  sh = {| esh_bytes := rev (sha256 (tov_script_pubkey out)) |}.
#[local] Instance pays_script_dec sh out : Decision (pays_script sh out) := decide_rel (=) _ _.

(** [o] is an output of [tx] of value [v] that pays the script. *)
Definition pays sh (tx : ParsedTx) o (v : Z) : Prop :=
  op_txid o = pt_txid tx ∧ ∃ i out, op_vout o = Z.of_nat i ∧ pt_outputs tx !! i = Some out ∧
    pays_script sh out ∧ v = tov_value out.

(** *** The inputs *)

(** The state of the input loop relates to what is live. *)
Lemma spend_inputs_spec (F : gmap OutPoint Z) ins s c (live : gmap OutPoint ScriptUtxo) :
  NoDup ins →
  (∀ o v, o ∈ ins → F !! o = Some v → ∃ u, live !! o = Some u ∧ su_value u = v) →
  (∀ o u, live !! o = Some u → is_Some (F !! o)) →
  ∃ live', foldl (spend_input F) (wrap64 s, c, live) ins =
      (wrap64 (s + map_sum su_value live - map_sum su_value live'),
       c + Z.of_nat (size live) - Z.of_nat (size live'), live') ∧
    ∀ o, live' !! o = if decide (o ∈ ins) then None else live !! o.
Proof.
  intros Hnd. revert s c live. induction Hnd as [|p ins Hp _ IH]; intros s c live Hin Hlive.
  { exists live. cbn [foldl]. split; [do 2 f_equal; [f_equal; lia|lia]|].
    intros o. rewrite decide_False; [done|set_solver]. }
  cbn [foldl]. unfold spend_input at 2. destruct (F !! p) as [v|] eqn:Ep.
  - destruct (Hin p v ltac:(set_solver) Ep) as (u & Hu & <-).
    destruct (IH (s + su_value u) (c + 1) (base.delete p live)) as (live' & Heq & Hl').
    { intros o v Ho HF. destruct (Hin o v ltac:(set_solver) HF) as (u' & ? & ?).
      exists u'. rewrite lookup_delete_ne; [done|]. by intros <-. }
    { intros o u' [_ ?]%lookup_delete_Some. eauto. }
    exists live'. split.
    + assert (wrap64 (wrap64 s + su_value u) = wrap64 (s + su_value u)) as ->
        by (unfold wrap64; by rewrite Zplus_mod_idemp_l).
      rewrite Heq, (map_sum_delete _ _ _ u), (size_delete_Some _ _ u) by done.
      do 2 f_equal; [f_equal; lia|lia].
    + intros o. rewrite Hl'. destruct (decide (p = o)) as [<-|].
      * rewrite (decide_True (P := p ∈ p :: ins)) by set_solver.
        case_decide; [done|]. by rewrite lookup_delete_eq.
      * rewrite lookup_delete_ne by done. repeat case_decide; set_solver.
  - destruct (IH s c live) as (live' & Heq & Hl'); [set_solver|done|].
    exists live'. split; [done|]. intros o. rewrite Hl'.
    destruct (decide (p = o)) as [<-|]; [|repeat case_decide; set_solver].
    rewrite (decide_True (P := p ∈ p :: ins)) by set_solver. case_decide; [done|].
    destruct (live !! p) as [u|] eqn:Eu; [|done]. apply Hlive in Eu as [? ?]. congruence.
Qed.
(** *** The outputs *)

Definition pays_from sh t (k : nat) (outs : list TxOutView) o (v : Z) : Prop :=
  op_txid o = t ∧ ∃ i out, op_vout o = Z.of_nat (k + i) ∧ outs !! i = Some out ∧
    pays_script sh out ∧ v = tov_value out.

Lemma pays_from_cons sh t k out outs o v :
  pays_from sh t k (out :: outs) o v ↔
  (o = {| op_txid := t; op_vout := Z.of_nat k |} ∧ pays_script sh out ∧ v = tov_value out) ∨
  pays_from sh t (S k) outs o v.
Proof.
  unfold pays_from. split.
  - intros (<- & [|i] & out' & Ho & Hi & Hp & ->).
    + injection Hi as <-. left. split; [|done]. destruct o; cbn in *. f_equal. lia.
    + right. split; [done|]. exists i, out'. split_and!; [lia|done..].
  - intros [(-> & Hp & ->)|(<- & i & out' & Ho & Hi & Hp & ->)].
    + split; [done|]. exists 0%nat, out. cbn. split_and!; [lia|done..].
    + split; [done|]. exists (S i), out'. split_and!; [lia|done..].
Qed.

Lemma fund_output_eq {E} sh t h p f c F live k out :
  Z.of_nat k < 2 ^ 32 →
  fund_output (E := E) sh t h p (f, c, F, live) (k, out) =
  let o := {| op_txid := t; op_vout := Z.of_nat k |} in
  Ok (if decide (pays_script sh out) then
        (wrap64 (f + tov_value out), c + 1, <[o := tov_value out]> F,
         <[o := {| su_outpoint := o; su_value := tov_value out; su_height := h;
                   su_position := p |}]> live)
      else (f, c, F, live)).
Proof.
  intros Hk. cbn [fund_output]. rewrite esh_from_script_ok, wrap32_small by bx_arith. osimpl.
  unfold pays_script. repeat case_decide; done || congruence.
Qed.

Lemma fund_outputs_spec {E} sh t h p outs (k : nat) f c (F : gmap OutPoint Z)
    (live : gmap OutPoint ScriptUtxo) :
  (∀ o, op_txid o = t → Z.of_nat k ≤ op_vout o → F !! o = None ∧ live !! o = None) →
  Z.of_nat (k + length outs) ≤ 2 ^ 32 →
  ∃ F' live', foldM (fund_output (E := E) sh t h p) (wrap64 f, c, F, live)
      (imap (λ i x, ((k + i)%nat, x)) outs) =
      Ok (wrap64 (f + map_sum id F' - map_sum id F),
          c + Z.of_nat (size F') - Z.of_nat (size F), F', live') ∧
    (∀ o v, F' !! o = Some v ↔ F !! o = Some v ∨ pays_from sh t k outs o v) ∧
    (∀ o u, live' !! o = Some u ↔ live !! o = Some u ∨
       ∃ v, pays_from sh t k outs o v ∧
            u = {| su_outpoint := o; su_value := v; su_height := h; su_position := p |}) ∧
    map_sum su_value live' - map_sum su_value live = map_sum id F' - map_sum id F ∧
    Z.of_nat (size live') - Z.of_nat (size live) = Z.of_nat (size F') - Z.of_nat (size F).
Proof.
  revert k f c F live. induction outs as [|out outs IH]; intros k f c F live Hfresh Hk.
  { exists F, live. cbn. split_and!; [do 4 f_equal; [f_equal; lia|lia]| | |lia..].
    - intros o v. split; [by left|]. intros [?|(_ & i & ? & _ & ? & _)]; [done|].
      by rewrite lookup_nil in *.
    - intros o u. split; [by left|]. intros [?|(v & (_ & i & ? & _ & ? & _) & _)]; [done|].
      by rewrite lookup_nil in *. }
  cbn [imap foldM length] in *. rewrite Nat.add_0_r, fund_output_eq by lia. cbv zeta. osimpl.
  rewrite (imap_ext _ (λ i x, ((S k + i)%nat, x))) by (intros; cbn; f_equal; lia).
  set (o0 := {| op_txid := t; op_vout := Z.of_nat k |}).
  destruct (Hfresh o0) as [HF0 Hl0]; [done|cbn; lia|].
  case_decide as Hsh.
  - set (u0 := {| su_outpoint := o0; su_value := tov_value out; su_height := h; su_position := p |}).
    assert (wrap64 (wrap64 f + tov_value out) = wrap64 (f + tov_value out)) as ->
      by (unfold wrap64; by rewrite Zplus_mod_idemp_l).
    destruct (IH (S k) (f + tov_value out) (c + 1) (<[o0 := tov_value out]> F) (<[o0 := u0]> live))
      as (F' & live' & Heq & HF' & Hl' & Hsum & Hsize); [|lia|].
    { intros o Ho Hv. assert (o0 ≠ o) by (intros <-; cbn in Hv; lia).
      rewrite !lookup_insert_ne by done. apply Hfresh; [done|lia]. }
    rewrite !map_size_insert_None in Hsize by done. rewrite !map_sum_insert in Hsum by done.
    exists F', live'. rewrite Heq, map_size_insert_None, map_sum_insert by done. cbn [id] in *.
    split_and!; [do 4 f_equal; [f_equal; lia|lia]| | |cbn in Hsum; lia|lia].
    + intros o v. rewrite HF', pays_from_cons, lookup_insert_Some.
      destruct (decide (o0 = o)) as [<-|Hne]; [rewrite HF0; naive_solver|naive_solver].
    + intros o u. rewrite Hl', lookup_insert_Some. setoid_rewrite pays_from_cons.
      destruct (decide (o0 = o)) as [<-|Hne]; [rewrite Hl0|]; naive_solver.
  - destruct (IH (S k) f c F live) as (F' & live' & Heq & HF' & Hl' & Hsum & Hsize); [|lia|].
    { intros o Ho Hv. apply Hfresh; [done|lia]. }
    exists F', live'. split_and!; [done| | |done..].
    + intros o v. rewrite HF', pays_from_cons. unfold pays_script. naive_solver.
    + intros o u. rewrite Hl'. setoid_rewrite pays_from_cons. unfold pays_script. naive_solver.
Qed.

(** *** One transaction *)

(** Transactions that can follow one another in a chain. *)
Record joins (past : list ParsedTx) (tx : ParsedTx) : Prop := {
  jn_new : pt_txid tx ∉ pt_txid <$> past;
  jn_outputs : Z.of_nat (length (pt_outputs tx)) ≤ 2 ^ 32;
  jn_nodup : NoDup (pt_inputs tx);
  jn_order : ∀ y o, y ∈ past ++ [tx] → o ∈ pt_inputs y → op_txid o ≠ pt_txid tx;
  jn_once : ∀ y o, y ∈ past → o ∈ pt_inputs y → o ∉ pt_inputs tx;
}.
Fixpoint valid_run (past : list ParsedTx) (l : list (TxBytesRef * ParsedTx)) : Prop :=
  match l with
  | [] => True
  | x :: l => joins past x.2 ∧ valid_run (past ++ [x.2]) l
  end.

Definition funded_by sh (l : list (TxBytesRef * ParsedTx)) o (v : Z) : Prop :=
  ∃ e, e ∈ l ∧ pays sh e.2 o v.
(** The transaction moves the script's coins: it pays it or spends from it. *)
Definition moves sh l (tx : ParsedTx) : Prop :=
  (∃ o v, pays sh tx o v) ∨ ∃ o v, o ∈ pt_inputs tx ∧ funded_by sh l o v.
(** The script's unspent outputs. *)
Definition unspent sh (l : list (TxBytesRef * ParsedTx)) (u : ScriptUtxo) : Prop :=
  (∃ e, e ∈ l ∧ pays sh e.2 (su_outpoint u) (su_value u) ∧
     su_height u = tbr_block_height e.1 ∧ su_position u = tbr_block_position e.1) ∧
  ∀ e, e ∈ l → su_outpoint u ∉ pt_inputs e.2.

Definition row_key (r : ScriptHistoryRow) : hash32 * Z * Z :=
  (shr_txid r, shr_height r, shr_position r).
Definition ref_key (e : TxBytesRef * ParsedTx) : hash32 * Z * Z :=
  (pt_txid e.2, tbr_block_height e.1, tbr_block_position e.1).

Record fold_spec sh (l : list (TxBytesRef * ParsedTx)) fd : Prop := {
  fs_funded o v : fd_funded fd !! o = Some v ↔ funded_by sh l o v;
  fs_live o u : fd_live fd !! o = Some u ↔ su_outpoint u = o ∧ unspent sh l u;
  fs_rows x : x ∈ row_key <$> sh_rows (fd_history fd) ↔
    ∃ e, e ∈ l ∧ moves sh l e.2 ∧ x = ref_key e;
  fs_order : row_key <$> sh_rows (fd_history fd) `sublist_of` ref_key <$> l;
  fs_funded_count : funded_txo_count (fd_history fd) = Z.of_nat (size (fd_funded fd));
  fs_spent_count : spent_txo_count (fd_history fd) =
    Z.of_nat (size (fd_funded fd)) - Z.of_nat (size (fd_live fd));
  fs_funded_sum : funded_txo_sum (fd_history fd) = wrap64 (map_sum id (fd_funded fd));
  fs_spent_sum : spent_txo_sum (fd_history fd) =
    wrap64 (map_sum id (fd_funded fd) - map_sum su_value (fd_live fd));
  fs_peak : Z.of_nat (size (fd_live fd)) ≤ peak_live_utxos (fd_history fd);
}.

Lemma pays_pays_from sh tx o v :
  pays sh tx o v ↔ pays_from sh (pt_txid tx) 0 (pt_outputs tx) o v.
Proof. done. Qed.

Lemma pays_fun sh tx o v v' : pays sh tx o v → pays sh tx o v' → v = v'.
Proof.
  intros (_ & i & out & Ho & Hi & _ & ->) (_ & j & out' & Ho' & Hj & _ & ->).
  assert (i = j) as <- by lia. congruence.
Qed.

Lemma fold_default_spec sh : fold_spec sh [] fold_default.
Proof.
  split; cbn.
  - intros o v. rewrite lookup_empty. split; [done|]. intros (e & He & _). by apply elem_of_nil in He.
  - intros o u. rewrite lookup_empty. split; [done|].
    intros (_ & (e & He & _) & _). by apply elem_of_nil in He.
  - intros x. split; [by intros ?%elem_of_nil|]. intros (e & He & _). by apply elem_of_nil in He.
  - constructor.
  - done.
  - done.
  - done.
  - done.
  - done.
Qed.

Section step.
Context sh l fd (e : TxBytesRef * ParsedTx) (Hfs : fold_spec sh l fd) (Hj : joins l.*2 e.2).

Lemma funded_by_app l1 l2 o v :
  funded_by sh (l1 ++ l2) o v ↔ funded_by sh l1 o v ∨ funded_by sh l2 o v.
Proof. unfold funded_by. setoid_rewrite elem_of_app. naive_solver. Qed.
Lemma funded_by_one o v : funded_by sh [e] o v ↔ pays sh e.2 o v.
Proof. unfold funded_by. setoid_rewrite list_elem_of_singleton. naive_solver. Qed.

Lemma funded_txid o v : funded_by sh l o v → op_txid o ≠ pt_txid e.2.
Proof using Hj.
  intros (e' & He' & Ht & _) Heq. apply (jn_new _ _ Hj).
  rewrite <-Heq, Ht. apply list_elem_of_fmap. exists e'.2. split; [done|].
  by apply list_elem_of_fmap_2.
Qed.

Lemma spent_own o v y : y ∈ l ++ [e] → o ∈ pt_inputs y.2 → pays sh e.2 o v → False.
Proof using Hj.
  intros Hy Ho (Ht & _). apply (jn_order _ _ Hj y.2 o); [|done|done].
  change [e.2] with ([e].*2). rewrite <-fmap_app. by apply list_elem_of_fmap_2.
Qed.

Lemma live_funded o u : fd_live fd !! o = Some u → fd_funded fd !! o = Some (su_value u).
Proof using Hfs.
  intros [<- [(e' & He' & Hp & _) _]]%(fs_live _ _ _ Hfs). apply (fs_funded _ _ _ Hfs).
  by exists e'.
Qed.

Lemma funded_live o v :
  o ∈ pt_inputs e.2 → fd_funded fd !! o = Some v →
  ∃ u, fd_live fd !! o = Some u ∧ su_value u = v.
Proof using Hfs Hj.
  intros Ho (e' & He' & Hp)%(fs_funded _ _ _ Hfs).
  exists {| su_outpoint := o; su_value := v; su_height := tbr_block_height e'.1;
            su_position := tbr_block_position e'.1 |}. split; [|done].
  apply (fs_live _ _ _ Hfs). split; [done|]. split; [by exists e'|]. cbn.
  intros y Hy Hy'. apply (jn_once _ _ Hj y.2 o); [by apply list_elem_of_fmap_2|done..].
Qed.

(** What the two loops leave. *)
Context (L1 L2 : gmap OutPoint ScriptUtxo) (F' : gmap OutPoint Z)
  (HL1 : ∀ o, L1 !! o = if decide (o ∈ pt_inputs e.2) then None else fd_live fd !! o)
  (HF' : ∀ o v, F' !! o = Some v ↔ fd_funded fd !! o = Some v ∨ pays sh e.2 o v)
  (HL2 : ∀ o u, L2 !! o = Some u ↔ L1 !! o = Some u ∨
     ∃ v, pays sh e.2 o v ∧
          u = {| su_outpoint := o; su_value := v; su_height := tbr_block_height e.1;
                 su_position := tbr_block_position e.1 |}).

Lemma step_funded o v : F' !! o = Some v ↔ funded_by sh (l ++ [e]) o v.
Proof using Hfs HF'. by rewrite HF', (fs_funded _ _ _ Hfs), funded_by_app, funded_by_one. Qed.

Lemma step_live o u : L2 !! o = Some u ↔ su_outpoint u = o ∧ unspent sh (l ++ [e]) u.
Proof using Hfs Hj HL1 HL2.
  rewrite HL2, HL1. unfold unspent. setoid_rewrite elem_of_app.
  setoid_rewrite list_elem_of_singleton. split.
  - intros [Hl|(v & Hp & ->)].
    + case_decide as Ho; [done|]. apply (fs_live _ _ _ Hfs) in Hl as [<- [(e' & ? & ?) Hn]].
      split; [done|]. split; [by eauto|]. intros y [?| ->]; [by apply Hn|done].
    + split; [done|]. cbn. split; [by eauto 6|].
      intros y Hy Ho. eapply (spent_own o v y); [|done..].
      apply elem_of_app. rewrite list_elem_of_singleton. done.
  - intros [<- [(e' & [He'| ->] & Hp & Hh & Hq) Hn]].
    + left. rewrite decide_False by (apply Hn; by right).
      apply (fs_live _ _ _ Hfs). split; [done|]. split; [by eauto|]. eauto.
    + right. exists (su_value u). split; [done|]. destruct u; cbn in *. by subst.
Qed.

Lemma step_moves y :
  y ∈ l → moves sh (l ++ [e]) y.2 ↔ moves sh l y.2.
Proof using Hj.
  intros Hy. unfold moves. setoid_rewrite funded_by_app. setoid_rewrite funded_by_one. split.
  - intros [?|(o & v & Ho & [?|Hp])]; [by left|right; eauto|].
    exfalso. eapply (spent_own o v y); [|done..]. apply elem_of_app. by left.
  - intros [?|(o & v & Ho & ?)]; [by left|right; eauto].
Qed.

Lemma step_moves_new :
  moves sh (l ++ [e]) e.2 ↔
  (∃ o v, F' !! o = Some v ∧ fd_funded fd !! o = None) ∨
  (∃ o u, fd_live fd !! o = Some u ∧ L1 !! o = None).
Proof using Hfs Hj HL1 HF'.
  unfold moves. setoid_rewrite funded_by_app. setoid_rewrite funded_by_one. split.
  - intros [(o & v & Hp)|(o & v & Ho & [Hf|Hp])].
    + left. exists o, v. split; [apply HF'; by right|].
      destruct (fd_funded fd !! o) as [v'|] eqn:Ef; [|done].
      exfalso. apply (fs_funded _ _ _ Hfs), funded_txid in Ef. by destruct Hp.
    + right. apply (fs_funded _ _ _ Hfs) in Hf. destruct (funded_live o v Ho Hf) as (u & Hu & _).
      exists o, u. split; [done|]. by rewrite HL1, decide_True.
    + exfalso. eapply (spent_own o v e); [|done..]. apply elem_of_app. right. by left.
  - intros [(o & v & Hv & Hn)|(o & u & Hu & Hn)].
    + left. apply HF' in Hv as [Hv|?]; [congruence|eauto].
    + right. exists o, (su_value u). rewrite HL1 in Hn. case_decide; [|congruence].
      split; [done|]. left. by apply (fs_funded _ _ _ Hfs), live_funded.
Qed.
End step.

Lemma wrap64_add a b : wrap64 (wrap64 a + wrap64 b) = wrap64 (a + b).
Proof. unfold wrap64. by rewrite <-Zplus_mod. Qed.

Lemma apply_tx_ok {E} sh l fd e :
  fold_spec sh l fd → joins l.*2 e.2 →
  ∃ fd', apply_tx (E := E) sh e.1 e.2 fd = Ok fd' ∧ fold_spec sh (l ++ [e]) fd'.
Proof.
  intros Hfs Hj.
  destruct (spend_inputs_spec (fd_funded fd) (pt_inputs e.2) 0 0 (fd_live fd)) as (L1 & Heq1 & HL1).
  { apply Hj. }
  { intros o v Ho Hv. by eapply funded_live. }
  { intros o u Hu. eexists. by eapply live_funded. }
  destruct (fund_outputs_spec (E := E) sh (pt_txid e.2) (tbr_block_height e.1)
              (tbr_block_position e.1) (pt_outputs e.2) 0 0 0 (fd_funded fd) L1)
    as (F' & L2 & Heq2 & HF' & HL2 & Hsum & Hsize); [|apply Hj|].
  { intros o Ho _. assert (fd_funded fd !! o = None) as HF.
    { destruct (fd_funded fd !! o) as [v|] eqn:Ev; [|done].
      apply (fs_funded _ _ _ Hfs) in Ev. by eapply funded_txid in Ev. }
    split; [done|]. rewrite HL1. case_decide; [done|].
    destruct (fd_live fd !! o) eqn:Eu; [|done]. eapply live_funded in Eu; [|done]. congruence. }
  setoid_rewrite <-pays_pays_from in HF'. setoid_rewrite <-pays_pays_from in HL2.
  assert (fd_funded fd ⊆ F') as Hs1 by (apply map_subseteq_spec; intros; apply HF'; by left).
  assert (L1 ⊆ fd_live fd) as Hs2.
  { apply map_subseteq_spec. intros o u. rewrite HL1. by case_decide. }
  pose proof (size_grows _ _ Hs1) as [Hc1 Hg1]. pose proof (size_grows _ _ Hs2) as [Hc2 Hg2].
  pose proof (step_moves_new sh l fd e Hfs Hj L1 F' HL1 HF') as Hnew. rewrite <-Hg1, <-Hg2 in Hnew.
  pose proof (step_moves sh l e Hj) as Hold.
  change (wrap64 0) with 0 in Heq1, Heq2. unfold apply_tx. rewrite Heq1.
  change (imap pair (pt_outputs e.2)) with (imap (λ i x, ((0 + i)%nat, x)) (pt_outputs e.2)).
  rewrite Heq2. osimpl.
  eexists. split; [done|].
  pose proof Hfs as [_ _ Hrows Hord Hfc Hsc Hfsum Hssum Hpk].
  set (fc := 0 + Z.of_nat (size F') - Z.of_nat (size (fd_funded fd))).
  set (sc := 0 + Z.of_nat (size (fd_live fd)) - Z.of_nat (size L1)).
  assert ((0 <? fc) || (0 <? sc) = true ↔ moves sh (l ++ [e]) e.2) as Hb.
  { rewrite orb_true_iff, !Z.ltb_lt, Hnew. unfold fc, sc. cbn [Z.add]. done. }
  assert (∀ x, (∃ y, y ∈ l ++ [e] ∧ moves sh (l ++ [e]) y.2 ∧ x = ref_key y) ↔
            (∃ y, y ∈ l ∧ moves sh l y.2 ∧ x = ref_key y) ∨
            moves sh (l ++ [e]) e.2 ∧ x = ref_key e) as Hsplit.
  { intros x. setoid_rewrite elem_of_app. setoid_rewrite list_elem_of_singleton. split.
    - intros (y & [Hy| ->] & Hm & ->); [left; apply Hold in Hm; eauto|by right].
    - intros [(y & Hy & Hm & ->)|[Hm ->]]; [apply Hold in Hm; eauto|eauto 7]. }
  destruct ((0 <? fc) || (0 <? sc)) eqn:Ecnt.
  - split; cbn [fd_history fd_funded fd_live sh_rows funded_txo_count funded_txo_sum
                spent_txo_count spent_txo_sum peak_live_utxos].
    + by eapply step_funded.
    + by eapply step_live.
    + intros x. rewrite Hsplit, fmap_app, elem_of_app, Hrows. cbn [fmap list_fmap].
      rewrite list_elem_of_singleton. unfold row_key at 1, ref_key at 2.
      cbn [shr_txid shr_height shr_position]. tauto.
    + rewrite !fmap_app. apply sublist_app; [done|]. done.
    + unfold fc. lia.
    + unfold sc. lia.
    + rewrite Hfsum, wrap64_add. f_equal. lia.
    + rewrite Hssum, wrap64_add. f_equal. lia.
    + lia.
  - assert (¬ moves sh (l ++ [e]) e.2) as Hno by (rewrite <-Hb; done).
    apply orb_false_iff in Ecnt as [Hz1%Z.ltb_ge Hz2%Z.ltb_ge].
    unfold fc in Hz1. unfold sc in Hz2.
    apply same_size_eq in Hs1 as <-; [|lia]. apply same_size_eq in Hs2 as ->; [|lia].
    split; cbn [fd_history fd_funded fd_live sh_rows funded_txo_count funded_txo_sum
                spent_txo_count spent_txo_sum peak_live_utxos].
    + by eapply step_funded.
    + by eapply step_live.
    + intros x. rewrite Hsplit, Hrows. naive_solver.
    + rewrite fmap_app. by apply sublist_inserts_r.
    + lia.
    + lia.
    + done.
    + rewrite Hssum. f_equal. lia.
    + lia.
Qed.

(** *** A run of transactions *)

Definition fold_txs {E} sh (l : list (TxBytesRef * ParsedTx)) fd : outcome E Fold :=
  foldM (λ fd e, apply_tx sh e.1 e.2 fd) fd l.

Lemma fold_txs_ok {E} sh past l fd :
  fold_spec sh past fd → valid_run past.*2 l →
  ∃ fd', fold_txs (E := E) sh l fd = Ok fd' ∧ fold_spec sh (past ++ l) fd'.
Proof.
  revert past fd. induction l as [|e l IH]; intros past fd Hfs Hv.
  { exists fd. rewrite app_nil_r. done. }
  destruct Hv as [Hj Hv]. destruct (apply_tx_ok (E := E) sh past fd e Hfs Hj) as (fd1 & Heq & Hfs1).
  unfold fold_txs. cbn [foldM]. rewrite Heq. osimpl.
  rewrite (cons_middle e past l), (app_assoc past [e] l). apply (IH (past ++ [e])); [done|]. by rewrite fmap_app.
Qed.

Record history_spec sh (l : list (TxBytesRef * ParsedTx)) (h : ScriptHistory) : Prop := {
  hs_utxos u : u ∈ sh_utxos h ↔ unspent sh l u;
  hs_rows x : x ∈ row_key <$> sh_rows h ↔ ∃ e, e ∈ l ∧ moves sh l e.2 ∧ x = ref_key e;
  hs_rows_sorted : StronglySorted (lex_le Z.lt Z.le)
    ((λ r, (shr_height r, shr_position r)) <$> sh_rows h);
  hs_balance : wrap64 (funded_txo_sum h - spent_txo_sum h) =
    wrap64 (sumZ (su_value <$> sh_utxos h));
  hs_count : funded_txo_count h - spent_txo_count h = Z.of_nat (length (sh_utxos h));
  hs_peak : Z.of_nat (length (sh_utxos h)) ≤ peak_live_utxos h;
}.


Lemma length_btree_values {A} (m : gmap OutPoint A) : length (btree_values m) = size m.
Proof.
  unfold btree_values. rewrite length_fmap, (Permutation_length (sort_by_perm _ _ _)).
  by rewrite length_map_to_list.
Qed.

Lemma finish_ok sh l fd : fold_spec sh l fd → history_spec sh l (finish fd).
Proof.
  intros [Hf Hl Hr Ho Hfc Hsc Hfs Hss Hp].
  split; cbn [finish sh_utxos sh_rows funded_txo_sum spent_txo_sum funded_txo_count
              spent_txo_count peak_live_utxos].
  - intros u. rewrite elem_btree_values. setoid_rewrite Hl. naive_solver.
  - intros x. by rewrite sort_by_perm.
  - apply sort_by_sorted; apply _.
  - rewrite Hfs, Hss, <-map_sum_values. unfold wrap64. rewrite <-Zminus_mod. f_equal. lia.
  - rewrite Hfc, Hsc, length_btree_values. lia.
  - by rewrite length_btree_values.
Qed.
End fold.

(** ** The cache *)

Section cache.
Abbreviation entry := (CachedScript * Z)%type.
Implicit Types (sh : ElectrumScripthash) (m : gmap ElectrumScripthash entry).

(** [refs] counts the references of the entries, which stay within the bound;
    the clock readings of the entries are distinct and not in the future. *)
Record cache_inv (self : ScriptCache) : Prop := {
  ca_refs : sc_refs self = map_sum (refs_len ∘ fst) (sc_entries self);
  ca_bound : sc_refs self ≤ max_refs self;
  ca_max : max_refs self < 2 ^ 63;
  ca_clock : 0 ≤ clock self ∧ ∀ sh e, sc_entries self !! sh = Some e → e.2 ≤ clock self;
  ca_distinct sh1 sh2 e1 e2 :
    sc_entries self !! sh1 = Some e1 → sc_entries self !! sh2 = Some e2 → e1.2 = e2.2 → sh1 = sh2;
}.

Lemma refs_len_nonneg (e : entry) : 0 ≤ (refs_len ∘ fst) e.
Proof. unfold refs_len. cbn. lia. Qed.

Lemma cache_new_inv max : 0 ≤ max < 2 ^ 63 → cache_inv (cache_new max).
Proof.
  intros Hm. split; cbn [cache_new sc_entries sc_refs max_refs clock].
  - by rewrite map_sum_empty.
  - lia.
  - lia.
  - split; [done|]. intros sh e. by rewrite lookup_empty.
  - intros ????. by rewrite lookup_empty.
Qed.

Lemma wrap64_clock c : 0 ≤ c < 2 ^ 64 - 1 → wrap64 (c + 1) = c + 1.
Proof. intros. apply wrap64_small. bx_arith. Qed.

Lemma cache_get_ok sh self r self' :
  cache_inv self → clock self < 2 ^ 64 - 1 → cache_get sh self = (r, self') →
  r = fst <$> sc_entries self !! sh ∧ cache_inv self' ∧ max_refs self' = max_refs self ∧
  (∀ sh', fst <$> sc_entries self' !! sh' = fst <$> sc_entries self !! sh').
Proof.
  intros [Hr Hb Hm [Hc0 Hc] Hd] Hlt. unfold cache_get. rewrite wrap64_clock by done.
  destruct (sc_entries self !! sh) as [[cached used]|] eqn:E; intros [= <- <-].
  - split; [done|]. assert (∀ sh', fst <$> <[sh:=(cached, clock self + 1)]> (sc_entries self) !! sh' =
               fst <$> sc_entries self !! sh') as Hsame.
    { intros sh'. destruct (decide (sh = sh')) as [<-|Hne].
      - by rewrite lookup_insert_eq, E.
      - by rewrite lookup_insert_ne. }
    split; [|split; [done|done]]. split; cbn [sc_entries sc_refs max_refs clock]; [|done..| |].
    + rewrite Hr, <-(insert_delete_eq (sc_entries self)), map_sum_insert by apply lookup_delete_eq.
      rewrite (map_sum_delete _ _ _ _ E). cbn. lia.
    + split; [lia|]. intros sh' e. rewrite lookup_insert_Some.
      intros [[<- <-]|[_ ?%Hc]]; cbn; lia.
    + intros sh1 sh2 e1 e2. rewrite !lookup_insert_Some.
      intros [[<- <-]|[_ H1]] [[<- <-]|[_ H2]]; cbn; [done| | |by eapply Hd].
      * apply Hc in H2. lia.
      * apply Hc in H1. lia.
  - split; [done|]. split; [|done]. split; cbn [sc_entries sc_refs max_refs clock]; [done..| |done].
    split; [lia|]. intros sh' e ?%Hc. lia.
Qed.

(** The part of the invariant that holds while entries are evicted. *)
Record cache_over (self : ScriptCache) : Prop := {
  co_refs : sc_refs self = map_sum (refs_len ∘ fst) (sc_entries self);
  co_u64 : is_u64 (sc_refs self);
  co_distinct sh1 sh2 e1 e2 :
    sc_entries self !! sh1 = Some e1 → sc_entries self !! sh2 = Some e2 → e1.2 = e2.2 → sh1 = sh2;
}.

Lemma cache_remove_ok sh self :
  cache_over self →
  cache_over (cache_remove sh self) ∧ sc_refs (cache_remove sh self) ≤ sc_refs self ∧
  sc_entries (cache_remove sh self) = base.delete sh (sc_entries self) ∧
  max_refs (cache_remove sh self) = max_refs self ∧ clock (cache_remove sh self) = clock self.
Proof.
  intros [Hr Hu Hd]. unfold cache_remove. destruct (sc_entries self !! sh) as [[old used]|] eqn:E.
  - pose proof (map_sum_lookup _ _ _ _ refs_len_nonneg E) as Hle. cbn in Hle.
    pose proof (refs_len_nonneg (old, used)) as Hpos. cbn in Hpos.
    cbn [sc_entries sc_refs max_refs clock]. rewrite wrap64_small by bx_arith.
    split_and!; [|lia|done..]. split; cbn [sc_entries sc_refs].
    + rewrite (map_sum_delete _ _ _ _ E), Hr. done.
    + bx_arith.
    + intros sh1 sh2 e1 e2 [_ ?]%lookup_delete_Some [_ ?]%lookup_delete_Some. by eapply Hd.
  - rewrite delete_id by done. done.
Qed.

Lemma oldest_ok m :
  match oldest m with
  | Some sh => ∃ e, m !! sh = Some e ∧ ∀ sh' e', m !! sh' = Some e' → e.2 ≤ e'.2
  | None => m = ∅
  end.
Proof.
  unfold oldest. pose proof (sort_by_perm Z.le (λ e : ElectrumScripthash * entry, e.2.2)
                               (map_to_list m)) as Hp.
  pose proof (sort_by_sorted Z.le (λ e : ElectrumScripthash * entry, e.2.2)
                (map_to_list m) _ _) as Hs.
  destruct (sort_by _ _ _) as [|[sh e] l]; cbn [head fmap option_fmap option_map fst].
  { symmetry in Hp. apply Permutation_nil_r in Hp. by apply map_to_list_empty_iff. }
  exists e. split.
  - apply elem_of_map_to_list. rewrite <-Hp. by left.
  - intros sh' e' Hin%elem_of_map_to_list. rewrite <-Hp in Hin.
    cbn in Hs. apply StronglySorted_inv in Hs as [_ Hall].
    apply elem_of_cons in Hin as [[= -> ->]|Hin]; [done|].
    rewrite Forall_fmap, Forall_forall in Hall. by apply (Hall (sh', e')).
Qed.

(** What the eviction leaves: some of the entries, within the bound, and
    everything evicted is older than everything kept. *)
Lemma evict_ok fuel self :
  cache_over self → (size (sc_entries self) ≤ fuel)%nat → 0 ≤ max_refs self →
  let self' := evict fuel self in
  cache_over self' ∧ sc_refs self' ≤ max_refs self ∧ max_refs self' = max_refs self ∧
  clock self' = clock self ∧ sc_entries self' ⊆ sc_entries self ∧
  ∀ sh1 sh2 e1 e2, sc_entries self !! sh1 = Some e1 → sc_entries self' !! sh1 = None →
    sc_entries self' !! sh2 = Some e2 → e1.2 < e2.2.
Proof.
  revert self. induction fuel as [|fuel IH]; intros self Hco Hf Hm self'; subst self';
    cbn [evict]; destruct (Z.leb_spec (sc_refs self) (max_refs self)) as [Hle|Hgt].
  1,3: split_and!; [done..|]; intros; congruence.
  - assert (sc_entries self = ∅) as He by (apply map_size_empty_iff; lia).
    rewrite (co_refs _ Hco), He, map_sum_empty in Hgt. lia.
  - pose proof (oldest_ok (sc_entries self)) as Ho.
    destruct (oldest (sc_entries self)) as [old|].
    + destruct Ho as (e & He & Hmin).
      destruct (cache_remove_ok old self Hco) as (Hco1 & _ & Hent & Hmax & Hclk).
      assert (size (sc_entries (cache_remove old self)) ≤ fuel)%nat as Hf1.
      { rewrite Hent, map_size_delete_Some by done. lia. }
      destruct (IH _ Hco1 Hf1) as (? & Hle' & ? & ? & Hsub & Hold); [lia|].
      rewrite Hmax in *. split_and!; [done..|congruence| |].
      * etrans; [done|]. rewrite Hent. apply delete_subseteq.
      * intros sh1 sh2 e1 e2 Hx1 Hn Hx2. rewrite Hent in *.
        pose proof (lookup_weaken _ _ _ _ Hx2 Hsub) as [Hne Hx2']%lookup_delete_Some.
        destruct (decide (old = sh1)) as [<-|Hne1].
        -- rewrite He in Hx1. injection Hx1 as ->. pose proof (Hmin _ _ Hx2').
           cut (e1.2 ≠ e2.2); [lia|]. intros Heq. by apply Hne, (co_distinct _ Hco _ _ _ _ He Hx2').
        -- eapply Hold; [|done..]. by rewrite lookup_delete_ne.
    + rewrite (co_refs _ Hco), Ho, map_sum_empty in Hgt. lia.
Qed.

(** The newest entry survives when it fits. *)
Lemma evict_newest fuel self sh e :
  cache_over self → sc_entries self !! sh = Some e →
  (∀ sh' e', sc_entries self !! sh' = Some e' → e'.2 ≤ e.2) → refs_len e.1 ≤ max_refs self →
  sc_entries (evict fuel self) !! sh = Some e.
Proof.
  revert self. induction fuel as [|fuel IH]; intros self Hco He Hnew Hfit;
    cbn [evict]; destruct (Z.leb_spec (sc_refs self) (max_refs self)) as [Hle|Hgt]; try done.
  pose proof (oldest_ok (sc_entries self)) as Ho.
  destruct (oldest (sc_entries self)) as [old|]; [|done]. destruct Ho as (eo & Heo & Hmin).
  destruct (cache_remove_ok old self Hco) as (Hco1 & _ & Hent & Hmax & Hclk).
  destruct (decide (old = sh)) as [->|Hne].
  - exfalso. assert (eo = e) as -> by congruence.
    assert (sc_entries self = <[sh := e]> ∅) as Hone.
    { apply map_eq. intros sh'. destruct (decide (sh = sh')) as [<-|Hne].
      - by rewrite lookup_insert_eq.
      - rewrite lookup_insert_ne, lookup_empty by done.
        destruct (sc_entries self !! sh') as [e'|] eqn:E'; [|done].
        destruct Hne. apply (co_distinct _ Hco _ _ _ _ He E').
        pose proof (Hmin _ _ E'). pose proof (Hnew _ _ E'). lia. }
    rewrite (co_refs _ Hco), Hone, map_sum_insert, map_sum_empty in Hgt by apply lookup_empty.
    cbn in Hgt. lia.
  - apply IH; [done|by rewrite Hent, lookup_delete_ne| |by rewrite Hmax].
    rewrite Hent. intros sh' e' [_ ?]%lookup_delete_Some. by eapply Hnew.
Qed.

Lemma cache_put_ok sh cached self :
  cache_inv self → clock self < 2 ^ 64 - 1 →
  let self' := cache_put sh cached self in
  cache_inv self' ∧ max_refs self' = max_refs self ∧
  (sc_entries self' !! sh =
     if decide (refs_len cached ≤ max_refs self) then Some (cached, clock self + 1) else None) ∧
  (∀ sh' e, sh' ≠ sh → sc_entries self' !! sh' = Some e → sc_entries self !! sh' = Some e) ∧
  (∀ sh1 sh2 e1 e2, sh1 ≠ sh → sc_entries self !! sh1 = Some e1 →
     sc_entries self' !! sh1 = None → sc_entries self' !! sh2 = Some e2 → e1.2 < e2.2) ∧
  (max_refs self < refs_len cached → sc_entries self' = base.delete sh (sc_entries self)).
Proof.
  intros Hinv Hlt self'. subst self'. pose proof Hinv as [Hr Hb Hm [Hc0 Hc] Hd].
  assert (0 ≤ sc_refs self) as Hr0 by (rewrite Hr; apply map_sum_nonneg, refs_len_nonneg).
  assert (cache_over self) as Hco by (split; [done|bx_arith|done]).
  destruct (cache_remove_ok sh self Hco) as (Hco1 & Hle1 & Hent & Hmax & Hclk).
  unfold cache_put. set (self1 := cache_remove sh self) in *. rewrite Hmax, Hclk.
  rewrite wrap64_clock by done.
  pose proof (co_u64 _ Hco1) as Hu1.
  destruct (Z.ltb_spec (max_refs self) (refs_len cached)) as [Hbig|Hfit].
  - rewrite decide_False by lia. split_and!; [|done| | | |by rewrite Hent].
    + split; [apply Hco1|lia|lia| |apply Hco1].
      rewrite Hclk. split; [done|]. intros sh' e. rewrite Hent. intros [_ ?]%lookup_delete_Some. eauto.
    + by rewrite Hent, lookup_delete_eq.
    + intros sh' e Hne. by rewrite Hent, lookup_delete_ne.
    + intros sh1 sh2 e1 e2 Hne Hx1. rewrite Hent, lookup_delete_ne by done. congruence.
  - rewrite decide_True by lia.
    assert (0 ≤ refs_len cached) as Hpos by (unfold refs_len; lia).
    rewrite wrap64_small by bx_arith.
    set (self2 := {| sc_entries := _; sc_refs := _; max_refs := _; clock := _ |}).
    assert (sc_entries self1 !! sh = None) as Hnone by (by rewrite Hent, lookup_delete_eq).
    assert (∀ sh' e, sc_entries self1 !! sh' = Some e → e.2 ≤ clock self) as Hold1.
    { rewrite Hent. intros sh' e [_ ?]%lookup_delete_Some. eauto. }
    assert (cache_over self2) as Hco2.
    { split; cbn [self2 sc_entries sc_refs].
      - rewrite map_sum_insert by done. rewrite (co_refs _ Hco1). cbn. lia.
      - bx_arith.
      - intros sh1 sh2 e1 e2. rewrite !lookup_insert_Some.
        intros [[<- <-]|[_ Hx1]] [[<- <-]|[_ Hx2]]; cbn; [done| | |by eapply Hco1].
        + apply Hold1 in Hx2. lia.
        + apply Hold1 in Hx1. lia. }
    destruct (evict_ok (size (sc_entries self2)) self2 Hco2 ltac:(done))
      as (Hco' & Hle' & Hmax' & Hclk' & Hsub & Hlru); [cbn; lia|].
    assert (∀ sh' e, sc_entries self2 !! sh' = Some e → e.2 ≤ clock self + 1) as Hnew2.
    { cbn. intros sh' e. rewrite lookup_insert_Some. intros [[<- <-]|[_ Hx]]; cbn; [lia|].
      apply Hold1 in Hx. lia. }
    change (<[sh := (cached, clock self + 1)]> (sc_entries self1)) with (sc_entries self2).
    split_and!.
    + split; [apply Hco'|by rewrite Hmax'|rewrite Hmax'; cbn; lia| |apply Hco'].
      rewrite Hclk'. cbn [self2 clock]. split; [lia|]. intros sh' e Hx.
      eapply Hnew2, lookup_weaken; done.
    + done.
    + apply evict_newest; [done|by cbn; rewrite lookup_insert_eq| |done]. apply Hnew2.
    + intros sh' e Hne Hx. eapply lookup_weaken in Hx; [|done]. cbn in Hx.
      rewrite lookup_insert_ne, Hent, lookup_delete_ne in Hx by done. done.
    + intros sh1 sh2 e1 e2 Hne Hx1. apply Hlru. cbn.
      by rewrite lookup_insert_ne, Hent, lookup_delete_ne by done.
    + lia.
Qed.
End cache.
