(* ===== verification/Adapter.v ===== *)
(** * The chain adapter

    [ChainAdapter] of [bindex-electrum/src/chain.rs]: the servers' view of the
    indexed chain behind a lock. Raw headers come through an interface: one
    build stores them, the other fetches them. The threads of a server
    share the adapter, so each acquisition of a lock may find it changed by
    others: [interfere n] is what they did before the [n]-th point at which
    this query synchronizes, and [expired n] is what a deadline says there. A
    poisoned lock, which only a panic of another thread leaves, is left out. *)

From S2P Require Import Prelude External Text Index Fmt Headers Batch Store Client Chain Merkle.
From S2P Require Import Protocol Mempool CoreRest ScriptFold.

Inductive adapter_error {P : Type} :=
| Bindex (e : chain_error P)
| Height (height : Z)
| AdDecode (e : fmt_error)
| InvalidScripthash
| Rest (e : corerest_error)
| DeadlineExceeded
| ReorgUnderQuery
| Worker.
Arguments adapter_error : clear implicits.

Record HeaderNotification := { hn_height : Z; hn_hex : str }.
Record BlockHeaders := {
  bh_count : Z; bh_hex : str; bh_max : option Z;
  bh_branch : option (list str); bh_root : option str;
}.
Record LocatedTx := {
  lt_raw : bytes; lt_height : Z; lt_block_hash : str; lt_position : Z; lt_confirmations : Z;
}.
Record Spender := {
  sp_txid : hash32; sp_vin : Z; sp_height : Z; sp_position : Z; sp_block_hash : hash32;
}.

Definition FETCH_BATCH : nat := 512.
Definition FETCH_WORKERS : nat := 8.
Definition REORG_RETRIES : nat := 3.

(** [Display] of the hashes of a Merkle branch and of its root. *)
Class HashText := { hash_to_string : hash32 → str }.

Record Adapter (S : Type) := { ad_chain : IndexedChain S; ad_scripts : ScriptCache }.
Arguments Build_Adapter {S} _ _.
Arguments ad_chain {S} _.
Arguments ad_scripts {S} _.

(** The adapter, the number of synchronization points passed, and the node. *)
Record World (S W : Type) := { wd_adapter : Adapter S; wd_tick : nat; wd_node : W }.
Arguments Build_World {S W} _ _ _.
Arguments wd_adapter {S W} _.
Arguments wd_tick {S W} _.
Arguments wd_node {S W} _.

(** [IndexedChain::block_headers_raw], which is compiled differently for the two
    chain formats; [stored_headers] is Bitcoin's. *)
Class RawHeaders (S W : Type) `{SL : !Slices} :=
  raw_headers : IndexedChain S → Z → Z → stM W (chain_error slices_error) (list bytes).
Definition stored_headers {S W} `{SL : !Slices, RD : !RocksDB S} : RawHeaders S W :=
  λ chain start count w, (block_headers_raw chain start count, w).
#[export] Existing Instance stored_headers | 10.

Section adapter.
Context {S W : Type} `{HS : !Hashes, HX : !Hex, HT : !HashText, ST : !ScriptHashText,
  SO : !ScriptOps, VI : !VarInt, SL : !Slices, CS : !Consensus, RD : !RocksDB S,
  HA : !HttpAgent W, RH : !RawHeaders S W}.
Context (interfere : nat → Adapter S → Adapter S) (expired : nat → bool).
Abbreviation error := (adapter_error slices_error).
Abbreviation M := (stM (World S W) error).

(** *** Synchronization points *)

Definition next_tick (w : World S W) : World S W :=
  {| wd_adapter := interfere (wd_tick w) (wd_adapter w); wd_tick := Datatypes.S (wd_tick w);
     wd_node := wd_node w |}.

(** [self.chain.read()]: the chain as long as the lock is held. *)
Definition read_chain : M (IndexedChain S) := λ w,
  let w := next_tick w in (Ok (ad_chain (wd_adapter w)), w).
(** [self.scripts.lock()], and an operation on the cache. *)
Definition on_scripts {A} (f : ScriptCache → A * ScriptCache) : M A := λ w,
  let w := next_tick w in
  let '(r, scripts) := f (ad_scripts (wd_adapter w)) in
  (Ok r, {| wd_adapter := {| ad_chain := ad_chain (wd_adapter w); ad_scripts := scripts |};
            wd_tick := wd_tick w; wd_node := wd_node w |}).
(** [deadline.expired()] *)
Definition deadline_expired : M bool := λ w, let w := next_tick w in (Ok (expired (wd_tick w)), w).
(** A call to the node. *)
Definition on_node {A} (m : stM W error A) : M A := λ w,
  let '(r, n) := m (wd_node w) in
  (r, {| wd_adapter := wd_adapter w; wd_tick := wd_tick w; wd_node := n |}).

(** *** Headers *)

Definition raw_header_at (chain : IndexedChain S) (height : Z) : M (option bytes) :=
  raws ← on_node (st_map_err Bindex (raw_headers chain height 1)); mret (head raws).

Definition ad_tip : M (option HeaderNotification) :=
  chain ← read_chain;
  match tip_height (ic_headers chain) with
  | None => mret None
  | Some height =>
      header ← raw_header_at chain height;
      header ← st_lift (ok_or (Height height) header);
      mret (Some {| hn_height := height; hn_hex := hex_encode header |})
  end.

Definition ad_genesis_hash : M (option hash32) :=
  chain ← read_chain; mret (block_hash_at_height (ic_headers chain) 0).

Definition block_header_hex (height : Z) : M str :=
  chain ← read_chain;
  header ← raw_header_at chain height;
  header ← st_lift (ok_or (Height height) header);
  mret (hex_encode header).

(** The Merkle proof of [block_headers]. *)
Definition checkpoint_proof (chain : IndexedChain S) (start_height cp_height tip_height : Z)
    : outcome error (list str * str) :=
  hashes ← mapM (λ height : nat, ok_or (Height (Z.of_nat height))
                           (block_hash_at_height (ic_headers chain) (Z.of_nat height)))
             (seq 0 (Z.to_nat (Z.min cp_height tip_height + 1)));
  proof ← branch_and_root hashes (Z.to_nat (Z.min start_height (Z.of_nat (length hashes) - 1)));
  mret (hash_to_string <$> branch proof, hash_to_string (root proof)).

Definition block_headers (start_height count cp_height : Z) : M BlockHeaders :=
  chain ← read_chain;
  let tip := default 0 (tip_height (ic_headers chain)) in
  if tip <? start_height then
    mret {| bh_count := 0; bh_hex := []; bh_max := Some 2016; bh_branch := None; bh_root := None |}
  else
    let count := Z.min (Z.min count 2016) (tip - start_height + 1) in
    headers ← on_node (st_map_err Bindex (raw_headers chain start_height count));
    if negb (Z.of_nat (length headers) =? count)
    then st_lift (Err (Height (start_height + Z.of_nat (length headers))))
    else
      proof ← st_lift (if 0 <? cp_height
                       then Some <$> checkpoint_proof chain start_height cp_height tip
                       else mret None);
      mret {| bh_count := count; bh_hex := hex_encode (concat headers); bh_max := Some 2016;
              bh_branch := fst <$> proof; bh_root := snd <$> proof |}.

(** *** Transactions *)

(** The loop over the locations of a transaction id. *)
Fixpoint find_located (chain : IndexedChain S) (tip : Z) (id : hash32) (locations : list Location)
    : stM W error (option LocatedTx) :=
  match locations with
  | [] => mret None
  | location :: locations =>
      raw ← st_map_err Bindex (get_tx_bytes chain location);
      got ← st_lift (map_err AdDecode (txid raw));
      if decide (got = id) then
        mret (Some {| lt_raw := raw; lt_height := loc_block_height location;
                      lt_block_hash := hash_to_string (ih_hash (loc_indexed_header location));
                      lt_position := loc_block_offset location;
                      lt_confirmations := Z.max 0 (tip - loc_block_height location) + 1 |})
      else find_located chain tip id locations
  end.
Definition located_transaction_by_txid (id : hash32) : M (option LocatedTx) :=
  chain ← read_chain;
  let tip := default 0 (tip_height (ic_headers chain)) in
  locations ← st_lift (map_err Bindex (locations_by_txid Release chain id));
  on_node (find_located chain tip id locations).
Definition transaction_by_txid (id : hash32) : M (option bytes) :=
  t ← located_transaction_by_txid id; mret (lt_raw <$> t).

Definition block_txids (height : Z) : M (list hash32) :=
  chain ← read_chain;
  txids ← on_node (st_map_err Bindex (block_txids_at_height Release chain height));
  st_lift (ok_or (Height height) txids).

(** *** Bodies *)

Definition fetch_body (reference : TxBytesRef) : stM W error bytes :=
  st_map_err Rest (block_part (tbr_block_hash reference) (tbr_offset reference)
                     (tbr_size reference)).

(** [iter().map(fetch_body).collect::<Result<_, _>>()] *)
Fixpoint fetch_slice (refs : list TxBytesRef) : stM W error (list bytes) :=
  match refs with
  | [] => mret []
  | r :: refs => body ← fetch_body r; rest ← fetch_slice refs; mret (body :: rest)
  end.

(** The spawned workers. Each runs to its end whatever the others return; they
    run here one after the other, and a panic of one is [Error::Worker]. *)
Fixpoint run_workers (slices : list (list TxBytesRef)) (w : W)
    : list (outcome error (list bytes)) * W :=
  match slices with
  | [] => ([], w)
  | s :: slices =>
      let '(r, w) := fetch_slice s w in
      let r := match r with Panic _ => Err Worker | r => r end in
      let '(rs, w) := run_workers slices w in (r :: rs, w)
  end.
Definition join_workers (slices : list (list TxBytesRef)) : stM W error (list bytes) := λ w,
  let '(batches, w) := run_workers slices w in
  (foldM (λ out batch, b ← batch; mret (out ++ b)) [] batches, w).

(** [usize::div_ceil] *)
Definition div_ceil (a b : nat) : nat := (a + b - 1) / b.

Definition fetch_bodies (refs : list TxBytesRef) : M (list bytes) :=
  late ← deadline_expired;
  if late : bool then st_lift (Err DeadlineExceeded) else
  if bool_decide (length refs < 2)%nat then on_node (fetch_slice refs) else
  let workers := Nat.min FETCH_WORKERS (length refs) in
  let chunk := div_ceil (length refs) workers in
  on_node (join_workers (chunks chunk refs)).

(** *** Script history *)

(** [sort] by transaction number and [dedup]. *)
Fixpoint dedup {A} `{EqDecision A} (l : list A) : list A :=
  match l with
  | [] => []
  | x :: l =>
      match l with
      | [] => [x]
      | y :: _ => if decide (x = y) then dedup l else x :: dedup l
      end
  end.
#[local] Instance Location_eq_dec : EqDecision Location.
Proof. solve_decision. Defined.

Definition script_refs (scripthash : ElectrumScripthash) (from_height : option Z)
    : M (hash32 * list TxBytesRef) :=
  chain ← read_chain;
  bindex_hash ← st_lift (map_err (λ _, InvalidScripthash) (esh_to_bindex scripthash));
  let previous := height ← from_height; height ← checked_sub height 1;
                  header_at_height (ic_headers chain) height in
  locations ← st_lift (map_err Bindex
                         (locations_by_scripthash Release chain bindex_hash previous));
  refs ← st_lift (map_err Bindex
                    (mapM (tx_bytes_ref chain) (dedup (sort_by Z.le loc_txnum locations))));
  mret (tip_hash (ic_headers chain), refs).

Definition ad_tip_hash : M hash32 := chain ← read_chain; mret (tip_hash (ic_headers chain)).

Fixpoint fetch_batches (batches : list (list TxBytesRef)) : M (list bytes) :=
  match batches with
  | [] => mret []
  | batch :: batches =>
      bodies ← fetch_bodies batch; rest ← fetch_batches batches; mret (bodies ++ rest)
  end.

Definition fold_refs (scripthash : ElectrumScripthash) (fold : Fold)
    (items : list (TxBytesRef * bytes)) : outcome fmt_error Fold :=
  foldM (λ fold item, apply scripthash item.1 item.2 fold) fold items.

(** The cached fold to start from: [inl] a finished history, or the fold and
    the number of references it covers. *)
Definition resume (refs : list TxBytesRef) (cached : option CachedScript)
    : ScriptHistory + (Fold * nat) :=
  match cached with
  | Some cached =>
      if bool_decide (take (length (cs_refs cached)) refs = cs_refs cached) then
        if bool_decide (length refs = length (cs_refs cached)) then inl (cs_history cached)
        else inr (cs_fold cached, length (cs_refs cached))
      else inr (fold_default, 0%nat)
  | None => inr (fold_default, 0%nat)
  end.

Fixpoint script_history_loop (retries : nat) (scripthash : ElectrumScripthash) : M ScriptHistory :=
  match retries with
  | O => st_lift (Err ReorgUnderQuery)
  | Datatypes.S retries =>
      '(tip, refs) ← script_refs scripthash None;
      cached ← on_scripts (cache_get scripthash);
      match resume refs cached with
      | inl history => mret history
      | inr (fold, start) =>
          let tail := drop start refs in
          bodies ← fetch_batches (chunks FETCH_BATCH tail);
          now ← ad_tip_hash;
          if decide (now = tip) then
            fold ← st_lift (map_err AdDecode (fold_refs scripthash fold (zip tail bodies)));
            let history := finish fold in
            _ ← on_scripts (λ c, (tt, cache_put scripthash
                  {| cs_refs := refs; cs_fold := fold; cs_history := history |} c));
            mret history
          else script_history_loop retries scripthash
      end
  end.
Definition script_history : ElectrumScripthash → M ScriptHistory :=
  script_history_loop REORG_RETRIES.

(** *** Spenders *)

(** The inner loop of ['scan] over one batch. *)
Fixpoint scan_batch (outpoint : OutPoint) (items : list (TxBytesRef * bytes))
    : outcome fmt_error (option Spender) :=
  match items with
  | [] => mret None
  | (reference, raw) :: items =>
      tx ← parse_tx raw;
      if decide (pt_txid tx = op_txid outpoint) then scan_batch outpoint items else
      match position (λ input, bool_decide (input = outpoint)) (pt_inputs tx) with
      | Some vin =>
          mret (Some {| sp_txid := pt_txid tx; sp_vin := wrap32 (Z.of_nat vin);
                        sp_height := tbr_block_height reference;
                        sp_position := tbr_block_position reference;
                        sp_block_hash := tbr_block_hash reference |})
      | None => scan_batch outpoint items
      end
  end.
Fixpoint scan_batches (outpoint : OutPoint) (batches : list (list TxBytesRef))
    : M (option Spender) :=
  match batches with
  | [] => mret None
  | batch :: batches =>
      bodies ← fetch_bodies batch;
      found ← st_lift (map_err AdDecode (scan_batch outpoint (zip batch bodies)));
      match found with
      | Some s => mret (Some s)
      | None => scan_batches outpoint batches
      end
  end.

Fixpoint find_spender_loop (retries : nat) (outpoint : OutPoint)
    (scripthash : ElectrumScripthash) (funding_height : Z) : M (option Spender) :=
  match retries with
  | O => st_lift (Err ReorgUnderQuery)
  | Datatypes.S retries =>
      '(tip, refs) ← script_refs scripthash (Some funding_height);
      found ← scan_batches outpoint (chunks FETCH_BATCH refs);
      now ← ad_tip_hash;
      if decide (now = tip) then mret found
      else find_spender_loop retries outpoint scripthash funding_height
  end.
Definition find_spender : OutPoint → ElectrumScripthash → Z → M (option Spender) :=
  find_spender_loop REORG_RETRIES.
End adapter.

(** * Properties *)

(** The stored header is read without a call to the node. *)
Lemma raw_header_at_stored {S W} `{SL : !Slices, RD : !RocksDB S} (chain : IndexedChain S) height (w : World S W) r w' :
  raw_header_at (RH := stored_headers) chain height w = (Ok r, w') →
  block_header_raw_at_height chain height = Ok r ∧ w' = w.
Proof.
  intros (raws & w1 & Hr & [-> ->]%st_ret_ok)%st_bind_ok. unfold on_node, st_map_err, stored_headers in Hr.
  unfold block_header_raw_at_height. destruct w. cbn in Hr.
  destruct (block_headers_raw chain height 1); injection Hr as Hraws Hw; subst; [done|discriminate..].
Qed.
