(* ===== verification/AdapterSpec.v ===== *)
(** * What the chain adapter answers

    A script's history is the fold of exactly the chain's transactions that
    touch the script, whether it was folded from scratch or resumed from the
    cache, and whatever other threads did to the adapter meanwhile. *)

From S2P Require Import Prelude External Text Index TxPos HashIndex Fmt Headers Batch Store.
From S2P Require Import StoreSpec Client Chain ChainSpec ChainSync ChainQuery Merkle Protocol.
From S2P Require Import ProtocolSpec Mempool CoreRest ScriptFold ScriptFoldSpec Adapter.

Lemma dedup_sorted {A} `{EqDecision A} (key : A → Z) (l : list A) :
  StronglySorted Z.lt (key <$> l) → dedup l = l.
Proof.
  induction l as [|x [|y l] IH]; [done..|]. cbn [fmap list_fmap].
  intros [Hs Hx]%StronglySorted_inv. change (dedup (x :: y :: l)) with
    (if decide (x = y) then dedup (y :: l) else x :: dedup (y :: l)).
  inversion Hx as [|? ? Hlt _]; subst. rewrite decide_False by (intros ->; lia).
  f_equal. by apply IH.
Qed.

Lemma sort_by_sorted_id {A} (key : A → Z) (l : list A) :
  StronglySorted Z.lt (key <$> l) → sort_by Z.le key l = l.
Proof.
  intros Hs. apply (sorted_by_key_unique Z.lt key).
  - apply _.
  - apply _.
  - pose proof (sort_by_sorted Z.le key l _ _) as Hle.
    pose proof (fmap_Permutation key _ _ (sort_by_perm Z.le key l)) as Hp.
    assert (key <$> sort_by Z.le key l = key <$> l) as ->; [|done].
    assert (StronglySorted Z.le (key <$> l)) as Hs'.
    { rewrite <-(list_fmap_id (key <$> l)). eapply StronglySorted_fmap; [|done]. cbn. lia. }
    eapply (StronglySorted_unique Z.le); done.
  - done.
  - intros x. by rewrite sort_by_perm.
Qed.

(** Eviction and insertion add no other entry to the cache. *)
Lemma evict_sub fuel self : sc_entries (evict fuel self) ⊆ sc_entries self.
Proof.
  revert self. induction fuel as [|fuel IH]; intros self; cbn [evict]; case_match; [done..|].
  destruct (oldest (sc_entries self)) as [old|]; [|done].
  etrans; [apply IH|]. unfold cache_remove. destruct (sc_entries self !! old) as [[??]|]; [|done].
  cbn. apply delete_subseteq.
Qed.

Lemma cache_put_sub sh cached self k e :
  sc_entries (cache_put sh cached self) !! k = Some e →
  (k = sh ∧ e.1 = cached) ∨ sc_entries self !! k = Some e.
Proof.
  assert (sc_entries (cache_remove sh self) ⊆ sc_entries self) as Hr.
  { unfold cache_remove. destruct (sc_entries self !! sh) as [[??]|]; [|done]. apply delete_subseteq. }
  unfold cache_put. case_match.
  - intros Hk. right. by eapply lookup_weaken.
  - intros Hk. eapply lookup_weaken in Hk; [|apply evict_sub]. cbn in Hk.
    apply lookup_insert_Some in Hk as [[<- <-]|[_ Hk]]; [by left|right].
    by eapply lookup_weaken.
Qed.

Lemma position_ok (l : list OutPoint) o :
  match position (λ x, bool_decide (x = o)) l with
  | Some k => l !! k = Some o ∧ ∀ i, (i < k)%nat → l !! i ≠ Some o
  | None => o ∉ l
  end.
Proof.
  induction l as [|x l IH]; cbn [position]; [set_solver|].
  case_bool_decide as Hx; [subst; split; [done|lia]|].
  destruct (position _ l) as [k|]; cbn [fmap option_fmap option_map]; [|set_solver].
  destruct IH as [? Hk]. split; [done|]. intros [|i] Hi; [cbn; congruence|]. apply Hk. lia.
Qed.

Section spec.
Context {S W : Type} `{HS : !Hashes, HSL : !HashLaws, HX : !Hex, HXL : !HexLaws, HT : !HashText,
  ST : !ScriptHashText, STL : !ScriptHashTextLaws, SO : !ScriptOps, VI : !VarInt,
  VIL : !VarIntLaws, SL : !Slices, SLL : !SlicesLaws, CS : !Consensus, RD : !RocksDB S,
  RL : !RocksDBLaws S, HA : !HttpAgent W, NL : !NodeLaws W}.
Context (interfere : nat → Adapter S → Adapter S) (expired : nat → bool).
Implicit Types (c : IndexedChain S) (bs : list Batch) (w : World S W) (r : TxBytesRef).

(** The node serves [raw] for the reference. *)
Definition body_of r (raw : bytes) : Prop :=
  served (W := W) (rest_blockpart (tbr_block_hash r) (tbr_offset r) (tbr_size r)) raw.

(** *** Fetching *)

Lemma fetch_body_ok r (n : W) raw n' :
  fetch_body r n = (Ok raw, n') → body_of r raw.
Proof. intros Hf%st_map_err_ok. by eapply rest_get_bytes_served. Qed.

Lemma fetch_slice_ok refs (n : W) raws n' :
  fetch_slice refs n = (Ok raws, n') → Forall2 body_of refs raws.
Proof.
  revert n raws. induction refs as [|r refs IH]; intros n raws; cbn [fetch_slice].
  - intros [-> _]%st_ret_ok. constructor.
  - intros (raw & n1 & Hr & (rest & n2 & Hl & [-> ->]%st_ret_ok)%st_bind_ok)%st_bind_ok.
    constructor; [by eapply fetch_body_ok|by eapply IH].
Qed.

Lemma run_workers_ok slices (n : W) rs n' :
  run_workers slices n = (rs, n') →
  Forall2 (λ s res, ∀ raws, res = Ok raws → Forall2 body_of s raws) slices rs.
Proof.
  revert n rs. induction slices as [|s slices IH]; intros n rs; cbn [run_workers].
  - intros [= <- <-]. constructor.
  - destruct (fetch_slice s n) as [r n1] eqn:Er.
    destruct (run_workers slices n1) as [rs' n2] eqn:Ers. intros [= <- <-].
    constructor; [|by eapply IH]. intros raws Hr. eapply fetch_slice_ok.
    destruct r; try done. injection Hr as ->. done.
Qed.

Lemma join_batches_ok {E A} (rs : list (outcome E (list A))) acc out :
  foldM (λ out batch, b ← batch; mret (out ++ b)) acc rs = Ok out →
  ∃ parts, Forall2 (λ res p, res = Ok p) rs parts ∧ out = acc ++ concat parts.
Proof.
  revert acc. induction rs as [|r rs IH]; intros acc; cbn [foldM].
  - intros [= ->]. exists []. split; [constructor|]. by rewrite app_nil_r.
  - intros (acc' & (p & -> & [= <-])%bind_ok & (parts & Hp & ->)%IH)%bind_ok.
    exists (p :: parts). split; [by constructor|]. cbn. by rewrite (assoc (++)).
Qed.

Lemma Forall2_concat {A B} (R : A → B → Prop) xs ys :
  Forall2 (Forall2 R) xs ys → Forall2 R (concat xs) (concat ys).
Proof. induction 1; cbn; [constructor|]. by apply Forall2_app. Qed.

Lemma join_workers_ok slices (n : W) raws n' :
  join_workers slices n = (Ok raws, n') → Forall2 body_of (concat slices) raws.
Proof.
  unfold join_workers. destruct (run_workers slices n) as [rs n1] eqn:Er.
  intros [= Hf <-]. apply join_batches_ok in Hf as (parts & Hp & ->). cbn.
  apply run_workers_ok in Er. apply Forall2_concat.
  clear -Er Hp. revert parts Hp. induction Er as [|s r slices rs Hs _ IH]; intros parts Hp.
  - inversion Hp. constructor.
  - inversion Hp as [|? p ? parts' Heq Hp']; subst. constructor; [by apply Hs|by apply IH].
Qed.

Lemma div_ceil_pos a b : (0 < a)%nat → (0 < b)%nat → (0 < div_ceil a b)%nat.
Proof. intros. unfold div_ceil. apply Nat.div_str_pos. lia. Qed.

(** *** The state of the adapter *)

Definition cached_ok sh (cs : CachedScript) : Prop :=
  ∃ raws, Forall2 body_of (cs_refs cs) raws ∧
    fold_refs sh fold_default (zip (cs_refs cs) raws) = Ok (cs_fold cs) ∧
    cs_history cs = finish (cs_fold cs).

(** [I] holds of the chain, and every cached fold is the fold of its references. *)
Definition adapter_ok (I : IndexedChain S → Prop) (a : Adapter S) : Prop :=
  I (ad_chain a) ∧
  ∀ sh e, sc_entries (ad_scripts a) !! sh = Some e → cached_ok sh e.1.
Definition world_ok I w : Prop := adapter_ok I (wd_adapter w).

Section invariant.
Context (I : IndexedChain S → Prop)
  (Hother : ∀ n a, adapter_ok I a → adapter_ok I (interfere n a)).

Lemma next_tick_ok w : world_ok I w → world_ok I (next_tick interfere w).
Proof using Hother. apply Hother. Qed.

Lemma read_chain_ok w c w' :
  world_ok I w → read_chain interfere w = (Ok c, w') → world_ok I w' ∧ I c.
Proof using Hother.
  intros Hw. unfold read_chain. intros [= <- <-].
  apply next_tick_ok in Hw. split; [done|]. apply Hw.
Qed.

Lemma on_node_ok {A} (m : stM W (adapter_error slices_error) A) w a w' :
  world_ok I w → on_node m w = (Ok a, w') →
  world_ok I w' ∧ m (wd_node w) = (Ok a, wd_node w').
Proof using.
  intros Hw. unfold on_node. destruct (m (wd_node w)) as [r n]. intros [= -> <-]. done.
Qed.

Lemma fetch_bodies_ok refs w raws w' :
  world_ok I w → fetch_bodies interfere expired refs w = (Ok raws, w') →
  world_ok I w' ∧ Forall2 body_of refs raws.
Proof using Hother.
  intros Hw (late & w1 & [= <- <-] & Hf)%st_bind_ok. apply next_tick_ok in Hw.
  destruct (expired _); [done|]. case_bool_decide as Hlen.
  - apply on_node_ok in Hf as [? Hf]; [|done]. split; [done|]. by eapply fetch_slice_ok.
  - apply on_node_ok in Hf as [? Hf]; [|done]. split; [done|].
    apply join_workers_ok in Hf. rewrite chunks_concat in Hf; [done|].
    apply div_ceil_pos; unfold FETCH_WORKERS; lia.
Qed.

Lemma fetch_batches_ok batches w raws w' :
  world_ok I w → fetch_batches interfere expired batches w = (Ok raws, w') →
  world_ok I w' ∧ Forall2 body_of (concat batches) raws.
Proof using Hother.
  revert w raws. induction batches as [|batch batches IH]; intros w raws Hw; cbn [fetch_batches].
  - intros [-> ->]%st_ret_ok. split; [done|constructor].
  - intros (bodies & w1 & Hb & (rest & w2 & Hr & [-> ->]%st_ret_ok)%st_bind_ok)%st_bind_ok.
    apply fetch_bodies_ok in Hb as [Hw1 Hb]; [|done].
    apply IH in Hr as [Hw2 Hr]; [|done]. split; [done|]. by apply Forall2_app.
Qed.

(** The references of the script's transactions, as the index gives them. *)
Definition refs_of c bs (h : hash32) (from : TxNum) (refs : list TxBytesRef) : Prop :=
  ∃ locs, located (W := W) bs (λ n tx spent, from ≤ n ∧ ChainQuery.touches h (stx_scripts tx ++ spent)) locs ∧
    Forall2 (λ loc r, tx_bytes_ref (E := chain_error slices_error) c loc = Ok r) locs refs.

Definition esh_wf sh : Prop := bytes_wf (esh_bytes sh) ∧ length (esh_bytes sh) = 32%nat.
(** [ElectrumScripthash::to_bindex]: the bytes reversed. *)
Lemma esh_to_bindex_rev sh : esh_wf sh → esh_to_bindex sh = Ok (rev (esh_bytes sh)).
Proof using HXL STL.
  intros [Hw Hl]. unfold esh_to_bindex, esh_to_string.
  rewrite <-(rev_involutive (esh_bytes sh)) at 1.
  rewrite scripthash_from_str_backward; [done|]. split; [by apply bytes_wf_rev|].
  by rewrite length_rev.
Qed.

(** Where [script_refs] starts: after the block before the given height. *)
Definition from_txnum (rows : list IndexedHeader) (from_height : option Z) : TxNum :=
  from_option ih_next_txnum txnum_default
    (height ← from_height; height ← checked_sub height 1; header_at_height rows height).

Lemma script_refs_ok sh from w tip refs w' :
  (∀ c, I c → ∃ bs, chain_inv (W := W) c bs) → esh_wf sh → world_ok I w →
  script_refs interfere sh from w = (Ok (tip, refs), w') →
  world_ok I w' ∧ ∃ c bs, I c ∧ chain_inv (W := W) c bs ∧ tip = tip_hash (ic_headers c) ∧
    refs_of c bs (rev (esh_bytes sh)) (from_txnum (ic_headers c) from) refs.
Proof using Hother HSL HXL STL VIL SLL RL NL.
  intros HI Hsh Hw (c & w1 & [Hw1 Hc]%read_chain_ok & Hr)%st_bind_ok; [|done].
  destruct (HI c Hc) as [bs Hinv].
  apply st_bind_ok in Hr as (h & w2 & [Hh ->]%st_lift_ok & Hr).
  rewrite esh_to_bindex_rev in Hh by done. injection Hh as <-.
  apply st_bind_ok in Hr as (locs & w2 & [Hlocs%map_err_ok ->]%st_lift_ok & Hr).
  apply st_bind_ok in Hr as (refs' & w2 & [Hrefs%map_err_ok ->]%st_lift_ok & Hr).
  apply st_ret_ok in Hr as [[= -> ->] ->]. split; [done|]. exists c, bs.
  split_and!; [done..|].
  destruct (locations_by_scripthash_spec (E := chain_error slices_error) c bs
    (rev (esh_bytes sh)) (height ← from; height ← checked_sub height 1;
                          header_at_height (ic_headers c) height)) as (locs' & Heq & Hl).
  { done. }
  { destruct Hsh. split; [by apply bytes_wf_rev|by rewrite length_rev]. }
  { destruct (_ ≫= _) as [hdr|] eqn:Eh; [|done]. cbn.
    apply bind_Some in Eh as (? & _ & (? & _ & Eh)%bind_Some).
    destruct (built_headers_wf _ (ci_batches _ _ Hinv)) as [_ [_ Hu]].
    rewrite <-(ci_headers _ _ Hinv), Forall_forall in Hu. apply Hu.
    unfold header_at_height in Eh. case_bool_decide; [|done].
    by eapply list_elem_of_lookup_2. }
  rewrite Heq in Hlocs. injection Hlocs as <-. exists locs'. split; [done|].
  destruct Hl as [Hsort _]. rewrite sort_by_sorted_id, (dedup_sorted loc_txnum) in Hrefs by done.
  by apply mapM_outcome_ok.
Qed.

(** *** Script history *)

(** The chain's transactions that touch a script hash, from [from] on, with
    their places and parsed, in chain order. *)
Definition script_txs bs (h : hash32) (from : TxNum) (l : list (TxBytesRef * ParsedTx)) : Prop :=
  ∃ locs,
    located (W := W) bs (λ n tx spent, from ≤ n ∧ ChainQuery.touches h (stx_scripts tx ++ spent))
      locs ∧
    Forall2 (λ loc e, ∃ n i j hdr d tx spent,
               loc = tx_location n i j hdr ∧ chain_tx (W := W) bs n i j hdr d tx spent ∧
               ChainQuery.touches h (stx_scripts tx ++ spent) ∧
               parse_tx (stx_raw tx) = Ok e.2 ∧ tbr_block_hash e.1 = ih_hash hdr ∧
               tbr_block_height e.1 = Z.of_nat i ∧ tbr_block_position e.1 = Z.of_nat j) locs l.

(** What a reference of a chain transaction leads to. *)
Lemma body_of_tx c bs n i j hdr d tx spent r raw :
  chain_inv (W := W) c bs → chain_tx (W := W) bs n i j hdr d tx spent →
  tx_bytes_ref (E := chain_error slices_error) c (tx_location n i j hdr) = Ok r →
  body_of r raw →
  raw = stx_raw tx ∧ tbr_block_hash r = ih_hash hdr ∧ tbr_block_height r = Z.of_nat i ∧
  tbr_block_position r = Z.of_nat j.
Proof using HSL VIL SLL RL NL.
  intros Hi Hct Hr Hb. pose proof Hct as [_ Hd _ (txs & Hv & _) _].
  destruct (get_tx_block_pos_chain (E := chain_error slices_error) _ _ _ _ _ _ _ _ _ _ Hi Hct Hv)
    as [Hpos Hsl].
  unfold tx_bytes_ref in Hr. cbn [tx_location loc_txnum] in Hr. rewrite Hpos in Hr.
  injection Hr as <-. unfold body_of in Hb. cbn in Hb.
  rewrite (served_part _ _ _ _ _ Hd Hb), Nat2Z.id. done.
Qed.

Lemma refs_bodies c bs h from refs raws l :
  chain_inv (W := W) c bs → refs_of c bs h from refs → Forall2 body_of refs raws →
  Forall2 (λ (i : TxBytesRef * bytes) e, e.1 = i.1 ∧ parse_tx i.2 = Ok e.2) (zip refs raws) l →
  script_txs bs h from l.
Proof using HSL VIL SLL RL NL.
  intros Hi (locs & Hloc & Hrefs) Hb Hl. exists locs. split; [done|].
  assert (∀ loc, loc ∈ locs → ∃ n i j hdr d tx spent,
    chain_tx (W := W) bs n i j hdr d tx spent ∧ ChainQuery.touches h (stx_scripts tx ++ spent) ∧
    loc = tx_location n i j hdr) as Hin.
  { intros loc (n & i & j & hdr & d & tx & spent & ? & [_ ?] & ->)%(proj2 Hloc). eauto 12. }
  clear Hloc. revert raws l Hb Hl Hin.
  induction Hrefs as [|loc r locs refs Hr _ IH]; intros raws l Hb Hl Hin.
  - cbn in Hl. inversion Hl. constructor.
  - inversion Hb as [|? raw ? raws' Hraw Hb']; subst. cbn in Hl.
    inversion Hl as [|? e ? l' [He Hp] Hl']; subst.
    constructor; [|eapply IH; [done..|]; intros loc' Hl2; apply Hin; by right].
    destruct (Hin loc) as (n & i & j & hdr & d & tx & spent & Hct & Ht & ->); [by left|].
    destruct (body_of_tx _ _ _ _ _ _ _ _ _ _ _ Hi Hct Hr Hraw) as (-> & ? & ? & ?).
    cbn in He, Hp. rewrite He. eauto 16.
Qed.

(** A fold of references and bodies is a fold of parsed transactions. *)
Lemma fold_refs_txs sh items fd fd' :
  fold_refs sh fd items = Ok fd' →
  ∃ l, Forall2 (λ (i : TxBytesRef * bytes) e, e.1 = i.1 ∧ parse_tx i.2 = Ok e.2) items l ∧
    fold_txs (E := fmt_error) sh l fd = Ok fd'.
Proof using.
  revert fd. induction items as [|[r raw] items IH]; intros fd; cbn.
  - intros [= ->]. exists []. split; [constructor|done].
  - intros (fd1 & (tx & Hp & Ha)%bind_ok & (l & Hl & Hf)%IH)%bind_ok.
    exists ((r, tx) :: l). split; [by constructor|].
    unfold fold_txs. cbn [foldM fst snd]. by rewrite Ha.
Qed.

Lemma fold_refs_app sh fd a b :
  fold_refs sh fd (a ++ b) = (fd ← fold_refs sh fd a; fold_refs sh fd b).
Proof using. apply foldM_app. Qed.

(** Resuming from the cache: the fold so far, and what it covers. *)
Lemma resume_ok sh refs cached :
  (∀ cs, cached = Some cs → cached_ok sh cs) →
  match resume refs cached with
  | inl h => ∃ raws fold, Forall2 body_of refs raws ∧
      fold_refs sh fold_default (zip refs raws) = Ok fold ∧ h = finish fold
  | inr (fold, start) => ∃ raws, Forall2 body_of (take start refs) raws ∧
      fold_refs sh fold_default (zip (take start refs) raws) = Ok fold
  end.
Proof using.
  intros Hc. unfold resume. destruct cached as [cs|]; [|by exists []].
  destruct (Hc cs eq_refl) as (raws & Hraws & Hf & Hh).
  case_bool_decide as Hpre; [|by exists []]. case_bool_decide as Hlen.
  - rewrite <-Hlen, firstn_all in Hpre. exists raws, (cs_fold cs). by rewrite Hpre.
  - exists raws. by rewrite Hpre.
Qed.

Lemma on_scripts_ok {A} (f : ScriptCache → A * ScriptCache) w a w' :
  world_ok I w → on_scripts interfere f w = (Ok a, w') →
  (∀ sc res sc', (∀ sh e, sc_entries sc !! sh = Some e → cached_ok sh e.1) → f sc = (res, sc') →
     ∀ sh e, sc_entries sc' !! sh = Some e → cached_ok sh e.1) →
  world_ok I w' ∧
  ∃ sc sc', f sc = (a, sc') ∧ ∀ sh e, sc_entries sc !! sh = Some e → cached_ok sh e.1.
Proof using Hother.
  intros Hw Hs Hf. apply next_tick_ok in Hw. unfold on_scripts in Hs.
  destruct (f _) as [r sc'] eqn:Ef. injection Hs as -> <-.
  destruct Hw as [HI Hsc]. split; [split; [done|by eapply Hf]|]. by eexists _, _.
Qed.

Lemma cache_get_entries sc sh res sc' :
  cache_get sh sc = (res, sc') →
  (∀ k e, sc_entries sc !! k = Some e → cached_ok k e.1) →
  (∀ k e, sc_entries sc' !! k = Some e → cached_ok k e.1) ∧
  ∀ cs, res = Some cs → cached_ok sh cs.
Proof using.
  intros Hg Hsc. unfold cache_get in Hg.
  destruct (sc_entries sc !! sh) as [[cs u]|] eqn:E; injection Hg as <- <-.
  - pose proof (Hsc _ _ E) as Hcs. split; [|by intros ? [= <-]].
    intros k e. cbn. intros [[<- <-]|[_ ?]]%lookup_insert_Some; eauto.
  - split; [apply Hsc|done].
Qed.

Lemma script_history_loop_ok n sh w h w' :
  (∀ c, I c → ∃ bs, chain_inv (W := W) c bs) → esh_wf sh → world_ok I w →
  script_history_loop interfere expired n sh w = (Ok h, w') →
  world_ok I w' ∧ ∃ c bs l fold, I c ∧ chain_inv (W := W) c bs ∧
    script_txs bs (rev (esh_bytes sh)) txnum_default l ∧
    fold_txs (E := fmt_error) sh l fold_default = Ok fold ∧ h = finish fold.
Proof using Hother HSL HXL STL VIL SLL RL NL.
  intros HI Hsh. revert w. induction n as [|n IH]; intros w Hw; cbn [script_history_loop]; [done|].
  intros ([tip refs] & w1 & Hr & Hs)%st_bind_ok.
  apply script_refs_ok in Hr as (Hw1 & c & bs & Hc & Hinv & Htip & Hrefs); [|done..].
  apply st_bind_ok in Hs as (cached & w2 & Hg & Hs).
  apply on_scripts_ok in Hg as (Hw2 & sc & sc' & Hg & Hsc); [|done|].
  2: { intros ??????. by eapply cache_get_entries. }
  destruct (cache_get_entries _ _ _ _ Hg Hsc) as [_ Hcached].
  pose proof (resume_ok sh refs cached Hcached) as Hres.
  (* a fold of all references is a fold of the chain's transactions *)
  assert (∀ raws fold, Forall2 body_of refs raws →
    fold_refs sh fold_default (zip refs raws) = Ok fold →
    ∃ c bs l fold', I c ∧ chain_inv (W := W) c bs ∧
      script_txs bs (rev (esh_bytes sh)) txnum_default l ∧
      fold_txs (E := fmt_error) sh l fold_default = Ok fold' ∧ finish fold = finish fold') as Hend.
  { intros raws fold Hb (l & Hl & Hf)%fold_refs_txs. exists c, bs, l, fold.
    split_and!; [done..| |done|done]. by eapply refs_bodies. }
  destruct (resume refs cached) as [hist|[fold start]].
  - apply st_ret_ok in Hs as [-> ->]. destruct Hres as (raws & fold & Hb & Hf & ->).
    split; [done|]. by eapply Hend.
  - apply st_bind_ok in Hs as (bodies & w3 & Hb & Hs).
    apply fetch_batches_ok in Hb as [Hw3 Hb]; [|done].
    rewrite chunks_concat in Hb by (unfold FETCH_BATCH; lia).
    apply st_bind_ok in Hs as (now & w4 & Hnow & Hs).
    apply st_bind_ok in Hnow as (c4 & w4' & [Hw4 _]%read_chain_ok & [-> ->]%st_ret_ok); [|done].
    case_decide; [|by eapply IH].
    apply st_bind_ok in Hs as (fold' & w5 & [Hf%map_err_ok ->]%st_lift_ok & Hs).
    destruct Hres as (raws & Hraws & Hfold).
    assert (Forall2 body_of refs (raws ++ bodies)) as Hall.
    { rewrite <-(take_drop start refs). by apply Forall2_app. }
    assert (fold_refs sh fold_default (zip refs (raws ++ bodies)) = Ok fold') as Hwhole.
    { rewrite <-(take_drop start refs), zip_with_app by (by eapply Forall2_length).
      rewrite fold_refs_app, Hfold. done. }
    apply st_bind_ok in Hs as (u & w6 & Hput & [-> ->]%st_ret_ok).
    apply on_scripts_ok in Hput as [Hw6 _]; [|done|].
    + split; [done|]. by eapply Hend.
    + intros s r s' Hok [= _ <-] k e [[-> Heq]|?]%cache_put_sub; [|by eapply Hok].
      rewrite Heq. by exists (raws ++ bodies).
Qed.

(** *** Consensus

    What consensus says of the transactions that touch a script: their ids
    are different, each output is spent once, and only after it is made. *)
Definition parsed_at bs (h : hash32) (n : TxNum) (p : ParsedTx) : Prop :=
  ∃ i j hdr d tx spent, chain_tx (W := W) bs n i j hdr d tx spent ∧
    ChainQuery.touches h (stx_scripts tx ++ spent) ∧ parse_tx (stx_raw tx) = Ok p.
Record consensus_valid bs (h : hash32) : Prop := {
  cv_txid n m p q : parsed_at bs h n p → parsed_at bs h m q → pt_txid p = pt_txid q → n = m;
  cv_outputs n p : parsed_at bs h n p → Z.of_nat (length (pt_outputs p)) ≤ 2 ^ 32;
  cv_nodup n p : parsed_at bs h n p → NoDup (pt_inputs p);
  cv_order n m p q o : parsed_at bs h n p → parsed_at bs h m q →
    o ∈ pt_inputs p → op_txid o = pt_txid q → m < n;
  cv_once n m p q o : parsed_at bs h n p → parsed_at bs h m q →
    o ∈ pt_inputs p → o ∈ pt_inputs q → n = m;
}.

Lemma sorted_valid_run bs h (past : list ParsedTx) (pns ns : list TxNum)
    (l : list (TxBytesRef * ParsedTx)) :
  consensus_valid bs h → StronglySorted Z.lt (pns ++ ns) →
  Forall2 (parsed_at bs h) pns past → Forall2 (λ n e, parsed_at bs h n e.2) ns l →
  valid_run past l.
Proof using.
  intros Hcv Hs Hp Hl. revert past pns Hs Hp.
  induction Hl as [|n [r tx] ns l Htx _ IH]; intros past pns Hs Hp; cbn [valid_run]; [done|].
  cbn [snd] in *. split.
  - assert (∀ y, y ∈ past → ∃ m, m < n ∧ parsed_at bs h m y) as Hpast.
    { intros y (k & Hk)%list_elem_of_lookup. destruct (Forall2_lookup_r _ _ _ _ _ Hp Hk) as (m & Hm & Hy).
      exists m. split; [|done]. apply StronglySorted_app in Hs as (Hlt & _ & _).
      apply Hlt; [by eapply list_elem_of_lookup_2|left]. }
    split.
    + intros (y & Heq & (m & Hlt & Hy)%Hpast)%list_elem_of_fmap.
      pose proof (cv_txid _ _ Hcv _ _ _ _ Hy Htx (eq_sym Heq)). lia.
    + by eapply cv_outputs.
    + by eapply cv_nodup.
    + intros y o [(m & Hlt & Hy)%Hpast| ->%list_elem_of_singleton]%elem_of_app Ho Heq.
      * pose proof (cv_order _ _ Hcv _ _ _ _ _ Hy Htx Ho Heq). lia.
      * pose proof (cv_order _ _ Hcv _ _ _ _ _ Htx Htx Ho Heq). lia.
    + intros y o (m & Hlt & Hy)%Hpast Ho Ho'.
      pose proof (cv_once _ _ Hcv _ _ _ _ _ Hy Htx Ho Ho'). lia.
  - apply (IH _ (pns ++ [n])); [by rewrite <-app_assoc|].
    apply Forall2_app; [done|]. by constructor.
Qed.

Lemma script_txs_valid bs h from l :
  consensus_valid bs h → script_txs bs h from l → valid_run [] l.
Proof using.
  intros Hcv (locs & [Hs _] & Hl). apply (sorted_valid_run bs h [] [] (loc_txnum <$> locs)); [done..| |].
  { constructor. }
  apply Forall2_fmap_l. eapply Forall2_impl; [done|].
  intros loc e (n & i & j & hdr & d & tx & spent & -> & Hct & Ht & Hp & _). cbn.
  do 6 eexists. done.
Qed.

(** *** Spenders *)

(** [s] reports the spending of [o] by the transaction parsed to [tx]. *)
Definition spends_at (o : OutPoint) r (tx : ParsedTx) (s : Spender) : Prop :=
  pt_txid tx ≠ op_txid o ∧
  ∃ vin, pt_inputs tx !! vin = Some o ∧ (∀ k, (k < vin)%nat → pt_inputs tx !! k ≠ Some o) ∧
    s = {| sp_txid := pt_txid tx; sp_vin := wrap32 (Z.of_nat vin);
           sp_height := tbr_block_height r; sp_position := tbr_block_position r;
           sp_block_hash := tbr_block_hash r |}.
Definition no_spend (o : OutPoint) (tx : ParsedTx) : Prop :=
  pt_txid tx = op_txid o ∨ o ∉ pt_inputs tx.

Lemma scan_batch_ok o items found :
  scan_batch o items = Ok found →
  match found with
  | Some s => ∃ r raw tx, (r, raw) ∈ items ∧ parse_tx raw = Ok tx ∧ spends_at o r tx s
  | None => ∀ r raw, (r, raw) ∈ items → ∃ tx, parse_tx raw = Ok tx ∧ no_spend o tx
  end.
Proof using.
  induction items as [|[r raw] items IH]; cbn [scan_batch].
  - intros [= <-] r raw ?%elem_of_nil. done.
  - intros (tx & Hp & Hs)%bind_ok.
    assert (no_spend o tx → scan_batch o items = Ok found → match found with
      | Some s => ∃ r' raw' tx, (r', raw') ∈ (r, raw) :: items ∧ parse_tx raw' = Ok tx ∧
                                spends_at o r' tx s
      | None => ∀ r' raw', (r', raw') ∈ (r, raw) :: items →
                  ∃ tx, parse_tx raw' = Ok tx ∧ no_spend o tx end) as Hgo.
    { intros Hno Hf%IH. destruct found.
      - destruct Hf as (r' & raw' & tx' & ? & ? & ?). exists r', raw', tx'.
        split_and!; [by right|done..].
      - intros r' raw' [[= -> ->]|Hin]%elem_of_cons; [eauto|by apply (Hf r')]. }
    case_decide as Hid; [apply Hgo; [by left|done]|].
    pose proof (position_ok (pt_inputs tx) o) as Hpos.
    destruct (position _ _) as [vin|]; [|apply Hgo; [by right|done]].
    injection Hs as <-. exists r, raw, tx. split; [by left|]. split; [done|].
    split; [done|]. exists vin. by destruct Hpos.
Qed.

Lemma elem_zip_bodies refs raws r raw :
  Forall2 body_of refs raws → (r, raw) ∈ zip refs raws → r ∈ refs ∧ body_of r raw.
Proof using.
  intros Hb (k & Hk)%list_elem_of_lookup. apply lookup_zip_with_Some in Hk as (? & ? & [= -> ->] & Hr & Hw).
  split; [by eapply list_elem_of_lookup_2|]. by eapply Forall2_lookup_lr.
Qed.

Lemma zip_bodies_elem refs raws r :
  Forall2 body_of refs raws → r ∈ refs → ∃ raw, (r, raw) ∈ zip refs raws.
Proof using.
  intros Hb (k & Hk)%list_elem_of_lookup.
  destruct (Forall2_lookup_l _ _ _ _ _ Hb Hk) as (raw & Hw & _).
  exists raw. apply list_elem_of_lookup. exists k. apply lookup_zip_with_Some. eauto.
Qed.

Lemma scan_batches_ok o batches w found w' :
  world_ok I w → scan_batches interfere expired o batches w = (Ok found, w') →
  world_ok I w' ∧
  match found with
  | Some s => ∃ r raw tx, r ∈ concat batches ∧ body_of r raw ∧ parse_tx raw = Ok tx ∧
                spends_at o r tx s
  | None => ∀ r, r ∈ concat batches → ∃ raw tx, body_of r raw ∧ parse_tx raw = Ok tx ∧ no_spend o tx
  end.
Proof using Hother.
  revert w. induction batches as [|batch batches IH]; intros w Hw; cbn [scan_batches concat].
  - intros [-> ->]%st_ret_ok. split; [done|]. intros r ?%elem_of_nil. done.
  - intros (bodies & w1 & Hb & Hs)%st_bind_ok. apply fetch_bodies_ok in Hb as [Hw1 Hb]; [|done].
    apply st_bind_ok in Hs as (f & w2 & [Hf%map_err_ok ->]%st_lift_ok & Hs).
    apply scan_batch_ok in Hf. destruct f as [s|].
    + apply st_ret_ok in Hs as [-> ->]. split; [done|].
      destruct Hf as (r & raw & tx & Hin & ? & ?).
      apply elem_zip_bodies in Hin as [? ?]; [|done].
      exists r, raw, tx. rewrite elem_of_app. eauto.
    + apply IH in Hs as [Hw2 Hs]; [|done]. split; [done|]. destruct found as [s|].
      * destruct Hs as (r & raw & tx & ? & ?). exists r, raw, tx. rewrite elem_of_app. eauto.
      * intros r [Hin|Hin]%elem_of_app; [|by apply Hs].
        destruct (zip_bodies_elem _ _ _ Hb Hin) as [raw Hz].
        destruct (Hf _ _ Hz) as (tx & ? & ?). apply elem_zip_bodies in Hz as [_ ?]; [|done]. eauto.
Qed.

Lemma find_spender_loop_ok n o sh fh w found w' :
  (∀ c, I c → ∃ bs, chain_inv (W := W) c bs) → esh_wf sh → world_ok I w →
  find_spender_loop interfere expired n o sh fh w = (Ok found, w') →
  world_ok I w' ∧ ∃ c bs refs, I c ∧ chain_inv (W := W) c bs ∧
    refs_of c bs (rev (esh_bytes sh)) (from_txnum (ic_headers c) (Some fh)) refs ∧
    match found with
    | Some s => ∃ r raw tx, r ∈ refs ∧ body_of r raw ∧ parse_tx raw = Ok tx ∧ spends_at o r tx s
    | None => ∀ r, r ∈ refs → ∃ raw tx, body_of r raw ∧ parse_tx raw = Ok tx ∧ no_spend o tx
    end.
Proof using Hother HSL HXL STL VIL SLL RL NL.
  intros HI Hsh. revert w. induction n as [|n IH]; intros w Hw; cbn [find_spender_loop]; [done|].
  intros ([tip refs] & w1 & Hr & Hs)%st_bind_ok.
  apply script_refs_ok in Hr as (Hw1 & c & bs & Hc & Hinv & Htip & Hrefs); [|done..].
  apply st_bind_ok in Hs as (f & w2 & Hf & Hs). apply scan_batches_ok in Hf as [Hw2 Hf]; [|done].
  rewrite chunks_concat in Hf by (unfold FETCH_BATCH; lia).
  apply st_bind_ok in Hs as (now & w4 & Hnow & Hs).
  apply st_bind_ok in Hnow as (c4 & w4' & [Hw4 _]%read_chain_ok & [-> ->]%st_ret_ok); [|done].
  case_decide; [|by eapply IH]. apply st_ret_ok in Hs as [-> ->].
  split; [done|]. exists c, bs, refs. done.
Qed.

(** A reference is that of a touching chain transaction, and the other way round. *)
Lemma refs_of_tx c bs h from refs :
  chain_inv (W := W) c bs → refs_of c bs h from refs →
  (∀ r, r ∈ refs → ∃ n i j hdr d tx spent,
     chain_tx (W := W) bs n i j hdr d tx spent ∧ from ≤ n ∧
     ChainQuery.touches h (stx_scripts tx ++ spent) ∧ ∀ raw, body_of r raw →
       raw = stx_raw tx ∧ tbr_block_hash r = ih_hash hdr ∧ tbr_block_height r = Z.of_nat i ∧
       tbr_block_position r = Z.of_nat j) ∧
  (∀ n i j hdr d tx spent, chain_tx (W := W) bs n i j hdr d tx spent → from ≤ n →
     ChainQuery.touches h (stx_scripts tx ++ spent) →
     ∃ r, r ∈ refs ∧ ∀ raw, body_of r raw → raw = stx_raw tx).
Proof using HSL VIL SLL RL NL.
  intros Hinv (locs & [_ Hin] & Hrefs). split.
  - intros r (k & Hk)%list_elem_of_lookup.
    destruct (Forall2_lookup_r _ _ _ _ _ Hrefs Hk) as (loc & Hl & Hr).
    apply list_elem_of_lookup_2, Hin in Hl as (n & i & j & hdr & d & tx & spent & Hct & [??] & ->).
    do 7 eexists. split_and!; [done..|]. intros raw Hb. by eapply body_of_tx.
  - intros n i j hdr d tx spent Hct Hle Ht.
    assert (tx_location n i j hdr ∈ locs) as (k & Hk)%list_elem_of_lookup.
    { apply Hin. do 7 eexists. split_and!; done. }
    destruct (Forall2_lookup_l _ _ _ _ _ Hrefs Hk) as (r & Hr & Hloc).
    exists r. split; [by eapply list_elem_of_lookup_2|]. intros raw Hb. by eapply body_of_tx.
Qed.
(** *** The exact answers *)

(** The history of a script in a chain the adapter had. *)
Lemma script_history_ok sh w h w' :
  (∀ c, I c → ∃ bs, chain_inv (W := W) c bs) →
  (∀ c bs, I c → chain_inv (W := W) c bs → consensus_valid bs (rev (esh_bytes sh))) →
  esh_wf sh → world_ok I w → script_history interfere expired sh w = (Ok h, w') →
  world_ok I w' ∧ ∃ c bs l, I c ∧ chain_inv (W := W) c bs ∧
    script_txs bs (rev (esh_bytes sh)) txnum_default l ∧ history_spec sh l h.
Proof using Hother HSL HXL STL VIL SLL RL NL.
  intros HI Hcv Hsh Hw Hs. apply script_history_loop_ok in Hs; [|done..].
  destruct Hs as (Hw' & c & bs & l & fold & Hc & Hinv & Hl & Hf & ->). split; [done|].
  exists c, bs, l. split_and!; [done..|]. apply finish_ok.
  assert (valid_run [] l) as Hv by (eapply script_txs_valid; [by apply (Hcv c bs)|done]).
  destruct (fold_txs_ok (E := fmt_error) sh [] l fold_default (fold_default_spec sh) Hv)
    as (fold' & Hf' & Hspec). rewrite Hf in Hf'. by injection Hf' as <-.
Qed.

(** [found] is what there is to find of the spending of [o] in a chain, from a
    funding height on. *)
Definition spender_in c bs (o : OutPoint) sh (fh : Z) (found : option Spender) : Prop :=
  let from := from_txnum (ic_headers c) (Some fh) in
  match found with
  | Some s => ∃ n i j hdr d tx spent p r,
      chain_tx (W := W) bs n i j hdr d tx spent ∧ from ≤ n ∧ parse_tx (stx_raw tx) = Ok p ∧
      tbr_block_hash r = ih_hash hdr ∧ tbr_block_height r = Z.of_nat i ∧
      tbr_block_position r = Z.of_nat j ∧ spends_at o r p s
  | None => ∀ n i j hdr d tx spent, chain_tx (W := W) bs n i j hdr d tx spent → from ≤ n →
      ChainQuery.touches (rev (esh_bytes sh)) (stx_scripts tx ++ spent) →
      ∃ p, parse_tx (stx_raw tx) = Ok p ∧ no_spend o p
  end.

Lemma find_spender_ok o sh fh w found w' :
  (∀ c, I c → ∃ bs, chain_inv (W := W) c bs) → esh_wf sh → world_ok I w →
  find_spender interfere expired o sh fh w = (Ok found, w') →
  world_ok I w' ∧ ∃ c bs, I c ∧ chain_inv (W := W) c bs ∧ spender_in c bs o sh fh found.
Proof using Hother HSL HXL STL VIL SLL RL NL.
  intros HI Hsh Hw Hs. apply find_spender_loop_ok in Hs; [|done..].
  destruct Hs as (Hw' & c & bs & refs & Hc & Hinv & Hrefs & Hfound). split; [done|].
  exists c, bs. split_and!; [done..|]. unfold spender_in.
  destruct (refs_of_tx _ _ _ _ _ Hinv Hrefs) as [Hin Hall]. destruct found as [s|].
  - destruct Hfound as (r & raw & tx & Hr & Hb & Hp & Hsp).
    destruct (Hin r Hr) as (n & i & j & hdr & d & t & spent & Hct & Hle & _ & Hraw).
    destruct (Hraw raw Hb) as (-> & ? & ? & ?). exists n, i, j, hdr, d, t, spent, tx, r. done.
  - intros n i j hdr d t spent Hct Hle Ht. destruct (Hall _ _ _ _ _ _ _ Hct Hle Ht) as (r & Hr & Hraw).
    destruct (Hfound r Hr) as (raw & p & Hb & Hp & Hn). rewrite (Hraw raw Hb) in Hp. eauto.
Qed.

(** [found] is what there is to find of a transaction id in a chain. *)
Definition located_in bs (id : hash32) (found : option LocatedTx) : Prop :=
  match found with
  | Some t => ∃ n i j hdr d tx spent, chain_tx (W := W) bs n i j hdr d tx spent ∧
      txid (stx_raw tx) = Ok id ∧ lt_raw t = stx_raw tx ∧ lt_height t = Z.of_nat i ∧
      lt_block_hash t = hash_to_string (ih_hash hdr) ∧ lt_position t = Z.of_nat j
  | None => ∀ n i j hdr d tx spent, chain_tx (W := W) bs n i j hdr d tx spent →
      prefix_new (stx_txid tx) = prefix_new id → txid (stx_raw tx) ≠ Ok id
  end.

Lemma find_located_ok c bs tip id locs (n : W) found n' :
  chain_inv (W := W) c bs →
  (∀ loc, loc ∈ locs → ∃ n i j hdr d tx spent, chain_tx (W := W) bs n i j hdr d tx spent ∧
     loc = tx_location n i j hdr) →
  find_located c tip id locs n = (Ok found, n') →
  match found with
  | Some t => located_in bs id (Some t)
  | None => ∀ n i j hdr d tx spent, chain_tx (W := W) bs n i j hdr d tx spent →
      tx_location n i j hdr ∈ locs → txid (stx_raw tx) ≠ Ok id
  end.
Proof using VIL SLL RL NL HSL.
  intros Hi. revert n. induction locs as [|loc locs IH]; intros w Hl; cbn [find_located].
  - intros [-> _]%st_ret_ok. intros * _ []%not_elem_of_nil.
  - intros (raw & w1 & Hraw%st_map_err_ok & (got & w2 & [Hgot%map_err_ok ->]%st_lift_ok & Hf)%st_bind_ok)%st_bind_ok.
    case_decide as Heq.
    + apply st_ret_ok in Hf as [-> _]. subst got.
      destruct (Hl loc) as (n & i & j & hdr & d & tx & spent & Hct & ->); [by left|].
      apply (get_tx_bytes_spec _ _ _ _ _ _ _ _ _ _ _ _ Hi Hct) in Hraw as ->. cbn. eauto 14.
    + apply IH in Hf; [|intros loc' ?; apply Hl; by right]. destruct found as [t|]; [done|].
      intros n i j hdr d tx spent Hct [<-|Hin]%elem_of_cons; [|by eapply Hf].
      apply (get_tx_bytes_spec _ _ _ _ _ _ _ _ _ _ _ _ Hi Hct) in Hraw as ->. congruence.
Qed.

Lemma located_transaction_ok id w found w' :
  (∀ c, I c → ∃ bs, chain_inv (W := W) c bs) → hash_wf id → world_ok I w →
  located_transaction_by_txid interfere id w = (Ok found, w') →
  world_ok I w' ∧ ∃ c bs, I c ∧ chain_inv (W := W) c bs ∧ located_in bs id found.
Proof using Hother HSL VIL SLL RL NL.
  intros HI Hid Hw (c & w1 & [Hw1 Hc]%read_chain_ok & Hr)%st_bind_ok; [|done].
  apply st_bind_ok in Hr as (locs & w2 & [Hlocs%map_err_ok ->]%st_lift_ok & Hr).
  destruct (HI c Hc) as [bs Hinv].
  destruct (locations_by_txid_spec (E := chain_error slices_error) c bs id Hinv Hid)
    as (locs' & Heq & [_ Hin]). rewrite Heq in Hlocs. injection Hlocs as <-.
  apply on_node_ok in Hr as [Hw' Hr]; [|done]. split; [done|]. exists c, bs. split_and!; [done..|].
  apply (find_located_ok _ bs) in Hr; [|done|].
  - destruct found as [t|]; [done|]. intros n i j hdr d tx spent Hct Hp.
    apply (Hr n i j hdr d tx spent Hct), Hin. eauto 12.
  - intros loc (n & i & j & hdr & d & tx & spent & Hct & _ & ->)%Hin. eauto 12.
Qed.

End invariant.
End spec.
