(* ===== verification/Utf8.v ===== *)
(** * UTF-8 text

    What the programs use of Rust's [str] beyond [Text]: validation and lossy
    conversion of bytes, characters, white space, ASCII case, and searching for
    one-byte patterns. *)

From S2P Require Import Prelude Text.

(** ** Decoding *)

Definition in_range (lo hi c : Z) : bool := (lo <=? c) && (c <=? hi).
Definition is_cont (c : Z) : bool := in_range 128 191 c.

(** The allowed second byte after the lead byte of a three- and four-byte
    character, as [core::str] checks it. *)
Definition second3 (b c : Z) : bool :=
  if b =? 224 then in_range 160 191 c
  else if b =? 237 then in_range 128 159 c
  else in_range 128 191 c.
Definition second4 (b c : Z) : bool :=
  if b =? 240 then in_range 144 191 c
  else if b =? 244 then in_range 128 143 c
  else in_range 128 191 c.

(** One step over non-empty text: whether a character was decoded, and how many
    bytes it takes; otherwise the length of the maximal invalid sequence. *)
Definition utf8_step (s : bytes) : bool * nat :=
  match s with
  | [] => (true, 0%nat)
  | b :: s =>
      let second := default 0 (s !! 0%nat) in
      let third := default 0 (s !! 1%nat) in
      let fourth := default 0 (s !! 2%nat) in
      if b <? 128 then (true, 1%nat)
      else if in_range 194 223 b then if is_cont second then (true, 2%nat) else (false, 1%nat)
      else if in_range 224 239 b then
        if second3 b second then if is_cont third then (true, 3%nat) else (false, 2%nat)
        else (false, 1%nat)
      else if in_range 240 244 b then
        if second4 b second then
          if is_cont third then if is_cont fourth then (true, 4%nat) else (false, 3%nat)
          else (false, 2%nat)
        else (false, 1%nat)
      else (false, 1%nat)
  end.

(** The characters and invalid sequences of a text, in order; each takes at
    least a byte, so the length is enough fuel. *)
Fixpoint utf8_chunks (fuel : nat) (s : bytes) : list (bool * bytes) :=
  match fuel, s with
  | S fuel, _ :: _ =>
      let '(ok, n) := utf8_step s in (ok, take n s) :: utf8_chunks fuel (drop n s)
  | _, _ => []
  end.
Definition chunks_of (s : bytes) : list (bool * bytes) := utf8_chunks (length s) s.

(** [std::str::from_utf8] and [String::from_utf8_lossy]. *)
Definition from_utf8 (s : bytes) : option str :=
  if forallb fst (chunks_of s) then Some s else None.
Definition REPLACEMENT : str := [239; 191; 189].
Definition from_utf8_lossy (s : bytes) : str :=
  concat ((λ c : bool * bytes, if c.1 then c.2 else REPLACEMENT) <$> chunks_of s).

(** [str::chars], each as its bytes. *)
Definition chars (s : str) : list str := (chunks_of s).*2.

(** ** White space *)

(** The UTF-8 encodings of [char::is_whitespace]. *)
Definition WHITESPACE : list str :=
  [[9]; [10]; [11]; [12]; [13]; [32]; [194; 133]; [194; 160]; [225; 154; 128];
   [226; 128; 128]; [226; 128; 129]; [226; 128; 130]; [226; 128; 131]; [226; 128; 132];
   [226; 128; 133]; [226; 128; 134]; [226; 128; 135]; [226; 128; 136]; [226; 128; 137];
   [226; 128; 138]; [226; 128; 168]; [226; 128; 169]; [226; 128; 175]; [226; 129; 159];
   [227; 128; 128]].
Definition is_whitespace (c : str) : bool := bool_decide (c ∈ WHITESPACE).

Fixpoint drop_while {A} (p : A → bool) (l : list A) : list A :=
  match l with
  | [] => []
  | x :: l' => if p x then drop_while p l' else l
  end.
Definition trim_start (s : str) : str := concat (drop_while is_whitespace (chars s)).
Definition trim (s : str) : str :=
  concat (rev (drop_while is_whitespace (rev (drop_while is_whitespace (chars s))))).

(** [split_whitespace]: the maximal runs of other characters. *)
Fixpoint words (run : str) (cs : list str) : list str :=
  let flush rest := match run with [] => rest | _ => run :: rest end in
  match cs with
  | [] => flush []
  | c :: cs => if is_whitespace c then flush (words [] cs) else words (run ++ c) cs
  end.
Definition split_whitespace (s : str) : list str := words [] (chars s).

(** ** ASCII *)

Definition to_lower (c : Z) : Z := if in_range 65 90 c then c + 32 else c.
Definition to_ascii_lowercase (s : str) : str := to_lower <$> s.
Definition eq_ignore_ascii_case (a b : str) : bool :=
  bool_decide (to_ascii_lowercase a = to_ascii_lowercase b).

(** ** Searching *)

Definition strip_prefix (p s : str) : option str :=
  if starts_with s p then Some (drop (length p) s) else None.
(** [find] and [rfind] of a one-byte character. *)
Definition find_byte (c : Z) (s : str) : option nat := position (λ x, x =? c) s.
Fixpoint rfind_byte (c : Z) (s : str) : option nat :=
  match s with
  | [] => None
  | x :: s =>
      match rfind_byte c s with
      | Some i => Some (S i)
      | None => if x =? c then Some 0%nat else None
      end
  end.
Definition split_once (c : Z) (s : str) : option (str * str) :=
  i ← find_byte c s; Some (take i s, drop (S i) s).
Definition rsplit_once (c : Z) (s : str) : option (str * str) :=
  i ← rfind_byte c s; Some (take i s, drop (S i) s).
(** Where a byte string occurs first: [windows(n).position(|w| w == p)]. *)
Fixpoint find_sub (p s : bytes) : option nat :=
  if starts_with s p then Some 0%nat
  else match s with [] => None | _ :: s => S <$> find_sub p s end.
Definition contains (p s : str) : bool := bool_decide (is_Some (find_sub p s)).
(** [split] on a string: a round takes at least the separator. *)
Fixpoint split_sub (fuel : nat) (p s : str) : list str :=
  match fuel with
  | O => [s]
  | S fuel =>
      match find_sub p s with
      | Some i => take i s :: split_sub fuel p (drop (i + length p) s)
      | None => [s]
      end
  end.
Definition split_str (p s : str) : list str := split_sub (length s) p s.

Definition CRLF : bytes := [13; 10].

Definition strip_suffix (p s : str) : option str :=
  if bool_decide (length p ≤ length s)%nat &&
     bool_decide (drop (length s - length p) s = p)
  then Some (take (length s - length p) s) else None.

(** [str::lines]: split at line feeds, without the empty text after a final
    one, each line without a carriage return at its end. *)
Definition strip_cr (line : str) : str := default line (strip_suffix [13] line).
Definition lines (s : str) : list str :=
  let parts := split_on 10 s in
  strip_cr <$> (if bool_decide (last parts = Some []) then removelast parts else parts).

(** ** Hexadecimal numbers *)

Definition hex_digit (c : Z) : option Z :=
  if in_range 48 57 c then Some (c - 48)
  else if in_range 97 102 c then Some (c - 87)
  else if in_range 65 70 c then Some (c - 55)
  else None.
Fixpoint parse_hex_digits (bound acc : Z) (s : str) : option Z :=
  match s with
  | [] => Some acc
  | c :: s =>
      d ← hex_digit c;
      if acc * 16 + d <? bound then parse_hex_digits bound (acc * 16 + d) s else None
  end.
(** [from_str_radix(s, 16)] for an unsigned integer below [bound]. *)
Definition parse_hex (bound : Z) (s : str) : option Z :=
  match s with
  | [] => None
  | c :: digits =>
      if c =? 43 then match digits with [] => None | _ => parse_hex_digits bound 0 digits end
      else parse_hex_digits bound 0 s
  end.

Definition hex_char (d : Z) : Z := if d <? 10 then 48 + d else 87 + d.
Fixpoint show_hex_digits (fuel : nat) (z : Z) : str :=
  match fuel with
  | O => []
  | S fuel => if z <? 16 then [hex_char z] else show_hex_digits fuel (z / 16) ++ [hex_char (z mod 16)]
  end.
(** [{:x}]; the number of binary digits is enough fuel. *)
Definition show_hex (z : Z) : str := show_hex_digits (S (Z.to_nat (Z.log2 z))) z.

(** * Properties *)

Definition is_ascii (s : str) : Prop := Forall (λ c, 0 ≤ c < 128) s.

Lemma ascii_chunks s : is_ascii s → chunks_of s = (λ c, (true, [c])) <$> s.
Proof.
  unfold chunks_of. induction 1 as [|c s Hc Hs IH]; [done|].
  cbn [length utf8_chunks utf8_step]. rewrite (proj2 (Z.ltb_lt c 128)) by lia.
  cbn [take drop fmap list_fmap]. rewrite drop_0, IH. done.
Qed.

Lemma ascii_chars s : is_ascii s → chars s = (λ c, [c]) <$> s.
Proof. intros Hs. unfold chars. rewrite ascii_chunks by done. by rewrite <-list_fmap_compose. Qed.

Lemma concat_singletons (s : str) : concat ((λ c, [c]) <$> s) = s.
Proof. induction s as [|c s IH]; [done|]. cbn. by rewrite IH. Qed.

Lemma ascii_from_utf8 s : is_ascii s → from_utf8 s = Some s.
Proof.
  intros Hs. unfold from_utf8. rewrite ascii_chunks by done.
  assert (forallb fst ((λ c : Z, (true, [c])) <$> s) = true) as ->; [|done].
  clear Hs. by induction s.
Qed.

Lemma ascii_lossy s : is_ascii s → from_utf8_lossy s = s.
Proof.
  intros Hs. unfold from_utf8_lossy. rewrite ascii_chunks by done.
  rewrite <-list_fmap_compose. apply concat_singletons.
Qed.

(** ASCII text without white space is unchanged by [trim]. *)
Definition no_space (s : str) : Prop := Forall (λ c, is_whitespace [c] = false) s.

Lemma drop_while_none {A} (p : A → bool) l : Forall (λ x, p x = false) l → drop_while p l = l.
Proof. destruct 1 as [|x l Hx _]; [done|]. cbn. by rewrite Hx. Qed.

Lemma trim_none s : is_ascii s → no_space s → trim s = s.
Proof.
  intros Ha Hn. unfold trim. rewrite ascii_chars by done.
  assert (Forall (λ x, is_whitespace x = false) ((λ c, [c]) <$> s)) as Hf by by apply Forall_fmap.
  rewrite (drop_while_none _ _ Hf), drop_while_none by (by apply List.Forall_rev).
  rewrite rev_involutive. apply concat_singletons.
Qed.

Lemma drop_S_app {A} (c : A) s t : drop (S (length s)) (s ++ c :: t) = t.
Proof. induction s as [|x s IH]; [by cbn; rewrite drop_0|done]. Qed.

Lemma find_byte_app c s t : c ∉ s → find_byte c (s ++ c :: t) = Some (length s).
Proof.
  unfold find_byte. induction s as [|x s IH]; intros Hc; cbn [position app].
  - by rewrite Z.eqb_refl.
  - apply not_elem_of_cons in Hc as [Hx Hc]. rewrite (proj2 (Z.eqb_neq _ _)) by done.
    by rewrite IH.
Qed.
Lemma find_byte_none c s : find_byte c s = None ↔ c ∉ s.
Proof.
  unfold find_byte. induction s as [|x s IH]; cbn [position]; [set_solver|].
  destruct (Z.eqb_spec x c) as [->|Hx]; [set_solver|].
  rewrite fmap_None, IH, not_elem_of_cons. naive_solver.
Qed.
Lemma find_byte_Some c s i :
  find_byte c s = Some i → s = take i s ++ c :: drop (S i) s ∧ (c ∉ take i s) ∧ (i < length s)%nat.
Proof.
  unfold find_byte. revert i. induction s as [|x s IH]; intros i; cbn [position]; [done|].
  destruct (Z.eqb_spec x c) as [->|Hx].
  - intros [= <-]. cbn. rewrite drop_0. split_and!; [done|set_solver|lia].
  - intros (j & Hj & ->)%fmap_Some. destruct (IH j) as (Heq & Hn & Hlt); [done|].
    cbn [take drop length]. split_and!; [by cbn; rewrite <-Heq|set_solver|lia].
Qed.

Lemma rfind_byte_app c s t : c ∉ t → rfind_byte c (s ++ c :: t) = Some (length s).
Proof.
  intros Hc. assert (rfind_byte c t = None) as Ht.
  { induction t as [|x t IH]; [done|]. apply not_elem_of_cons in Hc as [Hx Hc]. cbn.
    rewrite IH by done. by rewrite (proj2 (Z.eqb_neq _ _)). }
  induction s as [|x s IH]; cbn [app rfind_byte length].
  - by rewrite Ht, Z.eqb_refl.
  - by rewrite IH.
Qed.
Lemma rfind_byte_Some c s i :
  rfind_byte c s = Some i → s = take i s ++ c :: drop (S i) s ∧ (c ∉ drop (S i) s) ∧ (i < length s)%nat.
Proof.
  assert (∀ s, rfind_byte c s = None → c ∉ s) as Hnone.
  { clear. induction s as [|x s IH]; cbn; [set_solver|].
    destruct (rfind_byte c s); [done|]. destruct (Z.eqb_spec x c); [done|]. set_solver. }
  revert i. induction s as [|x s IH]; intros i; cbn [rfind_byte]; [done|].
  destruct (rfind_byte c s) as [j|] eqn:Ej.
  - intros [= <-]. destruct (IH j) as (Heq & Hn & Hlt); [done|].
    cbn [take drop length]. split_and!; [by cbn; rewrite <-Heq|done|lia].
  - destruct (Z.eqb_spec x c) as [->|]; [|done]. intros [= <-]. cbn. rewrite drop_0.
    split_and!; [done|by apply Hnone|lia].
Qed.

Lemma strip_prefix_app p s : strip_prefix p (p ++ s) = Some s.
Proof.
  unfold strip_prefix. assert (starts_with (p ++ s) p = true) as -> by (apply starts_with_spec; eauto).
  by rewrite drop_app_length.
Qed.
Lemma strip_prefix_Some p s t : strip_prefix p s = Some t ↔ s = p ++ t.
Proof.
  split; [|intros ->; apply strip_prefix_app]. unfold strip_prefix.
  destruct (starts_with s p) eqn:E; [|done]. apply starts_with_spec in E as [u ->].
  rewrite drop_app_length. by intros [= ->].
Qed.

(** Where [p ++ rest] starts with a byte [s] has not, [p] is found after [s]. *)
Lemma find_sub_app c p s rest : c ∉ s → find_sub (c :: p) (s ++ c :: p ++ rest) = Some (length s).
Proof.
  induction s as [|x s IH]; intros Hc; cbn [app length find_sub].
  - assert (starts_with (c :: p ++ rest) (c :: p) = true) as ->
      by (apply starts_with_spec; by exists rest). done.
  - apply not_elem_of_cons in Hc as [Hx Hc].
    assert (starts_with (x :: s ++ c :: p ++ rest) (c :: p) = false) as ->.
    { apply not_true_iff_false. intros [t Ht]%starts_with_spec. injection Ht as Ht _. done. }
    by rewrite IH.
Qed.

(** *** Hexadecimal numbers *)

Lemma hex_digit_char d : 0 ≤ d < 16 → hex_digit (hex_char d) = Some d.
Proof.
  intros Hd. unfold hex_digit, hex_char, in_range.
  destruct (Z.ltb_spec d 10); repeat case_match; f_equal; lia.
Qed.

Lemma parse_hex_digits_app bound acc s t :
  parse_hex_digits bound acc (s ++ t) = (acc' ← parse_hex_digits bound acc s; parse_hex_digits bound acc' t).
Proof.
  revert acc. induction s as [|c s IH]; intros acc; [done|]. cbn [app parse_hex_digits].
  destruct (hex_digit c); [|done]. cbn [mbind option_bind]. case_match; [apply IH|done].
Qed.

Lemma parse_show_hex_digits bound fuel z :
  0 ≤ z < bound → z < 2 ^ Z.of_nat fuel → (0 < fuel)%nat →
  parse_hex_digits bound 0 (show_hex_digits fuel z) = Some z.
Proof.
  revert z. induction fuel as [|fuel IH]; intros z Hz Hf Hpos; [lia|]. cbn [show_hex_digits].
  destruct (Z.ltb_spec z 16).
  - cbn [parse_hex_digits]. rewrite hex_digit_char by lia. cbn [mbind option_bind].
    rewrite (proj2 (Z.ltb_lt _ _)) by lia. done.
  - rewrite Nat2Z.inj_succ, Z.pow_succ_r in Hf by lia.
    destruct fuel as [|fuel]; [cbn in Hf; lia|].
    pose proof (Z.div_mod z 16 ltac:(lia)). pose proof (Z.mod_pos_bound z 16 ltac:(lia)).
    rewrite parse_hex_digits_app, IH by lia. cbn [mbind option_bind parse_hex_digits].
    rewrite hex_digit_char by lia. cbn [mbind option_bind].
    rewrite (proj2 (Z.ltb_lt _ _)) by lia. f_equal. lia.
Qed.

Lemma show_hex_chars fuel z :
  0 ≤ z → Forall (λ c, 48 ≤ c ≤ 57 ∨ 97 ≤ c ≤ 102) (show_hex_digits fuel z).
Proof.
  assert (∀ d, 0 ≤ d < 16 → 48 ≤ hex_char d ≤ 57 ∨ 97 ≤ hex_char d ≤ 102) as Hc.
  { intros d Hd. unfold hex_char. destruct (Z.ltb_spec d 10); lia. }
  revert z. induction fuel as [|fuel IH]; intros z Hz; [constructor|]. cbn [show_hex_digits].
  destruct (Z.ltb_spec z 16).
  - constructor; [|constructor]. apply Hc. lia.
  - pose proof (Z.div_mod z 16 ltac:(lia)). pose proof (Z.mod_pos_bound z 16 ltac:(lia)).
    apply Forall_app. split; [apply IH; lia|]. constructor; [|constructor]. apply Hc. lia.
Qed.

Lemma parse_show_hex bound z : 0 ≤ z < bound → parse_hex bound (show_hex z) = Some z.
Proof.
  intros Hz. pose proof (show_hex_chars (S (Z.to_nat (Z.log2 z))) z ltac:(lia)) as Hc.
  pose proof (parse_show_hex_digits bound (S (Z.to_nat (Z.log2 z))) z Hz) as Hp.
  assert (z < 2 ^ Z.of_nat (S (Z.to_nat (Z.log2 z)))) as Hlog.
  { rewrite Nat2Z.inj_succ, Z2Nat.id by apply Z.log2_nonneg.
    destruct (decide (z = 0)) as [->|]; [done|]. apply Z.log2_spec. lia. }
  specialize (Hp Hlog ltac:(lia)). unfold parse_hex. fold (show_hex z) in Hc, Hp.
  destruct (show_hex z) as [|c s] eqn:E.
  - exfalso. unfold show_hex in E. cbn [show_hex_digits] in E. case_match; [done|].
    by apply app_nil in E as [_ ?].
  - apply Forall_cons in Hc as [Hc _]. rewrite (proj2 (Z.eqb_neq c 43)) by lia. done.
Qed.
