(* ===== verification/TorPush.v ===== *)
(** * Broadcasting through Tor

    [bindex-electrum/src/torpush.rs]: the push endpoint's URL, the SOCKS5
    handshake with per-push credentials, the HTTP request and its response. A
    connection is the bytes the peer sends over its life, in order, with what
    the client has sent so far; the peer is arbitrary. *)

From S2P Require Import Prelude Text Utf8 Protocol.

Inductive io_error := ConnectFailed | WriteFailed | UnexpectedEof | ReadFailed.

Inductive tor_error :=
| BadUrl (reason : str)
| Io (e : io_error)
| SocksError (reason : str)
| HttpStatus (status : Z) (body : str)
| BadResponse (reason : str)
| TimedOut.

Definition MAX_ERROR_BODY_CHARS : nat := 512.

(** ** [PushTarget] *)

Record PushTarget := { pt_host : str; pt_port : Z; pt_path : str }.

Definition target_parse (url : str) : outcome tor_error PushTarget :=
  if starts_with url (lit "https://") then
    Err (BadUrl (lit "https is not supported; onion push endpoints use plain http"))
  else
    rest ← ok_or (BadUrl (lit "must start with http://")) (strip_prefix (lit "http://") url);
    let '(authority, path) :=
      match find_byte 47 rest with
      | Some idx => (take idx rest, drop idx rest)
      | None => (rest, [47])
      end in
    if bool_decide (64 ∈ authority) then Err (BadUrl (lit "userinfo is not supported")) else
    '(host, port) ←
      (match rsplit_once 58 authority with
       | Some (host, port) =>
           p ← ok_or (BadUrl (lit "invalid port")) (parse_unsigned (2 ^ 16) port);
           mret (host, p)
       | None => mret (authority, 80)
       end : outcome tor_error (str * Z));
    if bool_decide (host = []) then Err (BadUrl (lit "missing host"))
    else if bool_decide (255 < length host)%nat then Err (BadUrl (lit "host exceeds 255 bytes"))
    else mret {| pt_host := host; pt_port := port; pt_path := path |}.

Definition target_url (self : PushTarget) : str :=
  lit "http://" ++ pt_host self ++ 58 :: show_unsigned (pt_port self) ++ pt_path self.

(** ** The connection *)

Record Conn := {
  incoming : bytes;        (* what the peer will still send *)
  ends_cleanly : bool;     (* or with an error after that *)
  sent : list bytes;       (* the writes so far *)
  writes_left : nat;       (* before one fails *)
}.
Abbreviation M := (stM Conn tor_error).

Definition write_all (b : bytes) : M () := λ c,
  match writes_left c with
  | O => (Err (Io WriteFailed), c)
  | S n =>
      (Ok tt, {| incoming := incoming c; ends_cleanly := ends_cleanly c;
                 sent := sent c ++ [b]; writes_left := n |})
  end.
Definition read_exact (n : nat) : M bytes := λ c,
  if bool_decide (n ≤ length (incoming c))%nat then
    (Ok (take n (incoming c)),
     {| incoming := drop n (incoming c); ends_cleanly := ends_cleanly c; sent := sent c;
        writes_left := writes_left c |})
  else (Err (Io (if ends_cleanly c then UnexpectedEof else ReadFailed)), c).
Definition read_to_end : M bytes := λ c,
  if ends_cleanly c then
    (Ok (incoming c), {| incoming := []; ends_cleanly := true; sent := sent c;
                         writes_left := writes_left c |})
  else (Err (Io ReadFailed), c).

(** ** SOCKS5 *)

(** [isolation_credentials]: the process id, the time and the value of the
    counter; the counter is a [u64] that [fetch_add] wraps. *)
Record Isolation := { iso_pid : Z; iso_nanos : Z; iso_seq : Z }.
Definition isolation_credentials (iso : Isolation) : str * str :=
  (lit "bindex-" ++ show_unsigned (iso_pid iso) ++ 45 :: show_hex (iso_nanos iso) ++
     45 :: show_unsigned (iso_seq iso),
   lit "isolate").
Definition next_seq (counter : Z) : Z := wrap64 (counter + 1).

Definition socks_reply_message (code : Z) : str :=
  match code with
  | 1 => lit "general SOCKS server failure"
  | 2 => lit "connection not allowed by ruleset"
  | 3 => lit "network unreachable"
  | 4 => lit "host unreachable"
  | 5 => lit "connection refused"
  | 6 => lit "TTL expired"
  | 7 => lit "command not supported"
  | 8 => lit "address type not supported"
  | _ => lit "unknown SOCKS error"
  end.

(** [len() as u8] *)
Definition len_u8 (b : bytes) : Z := wrap8 (Z.of_nat (length b)).

Definition auth_message (user pass : str) : bytes :=
  1 :: len_u8 user :: user ++ len_u8 pass :: pass.
Definition connect_message (host : str) (port : Z) : bytes :=
  [5; 1; 0; 3; len_u8 host] ++ host ++ to_be_bytes 2 port.

Definition fail_when (b : bool) (e : tor_error) : M () := st_lift (if b then Err e else Ok tt).

Definition socks5_connect (iso : Isolation) (host : str) (port : Z) : M () :=
  _ ← write_all [5; 1; 2];
  reply ← read_exact 2;
  _ ← fail_when (negb (bool_decide (reply = [5; 2])))
        (SocksError (lit "proxy rejected username/password auth"));
  let '(user, pass) := isolation_credentials iso in
  _ ← write_all (auth_message user pass);
  status ← read_exact 2;
  _ ← fail_when (negb (default 0 (status !! 1%nat) =? 0))
        (SocksError (lit "proxy refused isolation credentials"));
  _ ← write_all (connect_message host port);
  header ← read_exact 4;
  _ ← fail_when (negb (default 0 (header !! 0%nat) =? 5)) (SocksError (lit "bad reply version"));
  let code := default 0 (header !! 1%nat) in
  _ ← fail_when (negb (code =? 0)) (SocksError (socks_reply_message code));
  addr_len ←
    match default 0 (header !! 3%nat) with
    | 1 => mret 4%nat
    | 4 => mret 16%nat
    | 3 => len ← read_exact 1; mret (Z.to_nat (default 0 (len !! 0%nat)))
    | _ => st_lift (Err (SocksError (lit "bad bind address type")))
    end;
  _ ← read_exact (addr_len + 2);
  mret tt.

(** ** The HTTP response *)

(** A release build wraps [size + 2]; a debug build panics when it overflows. *)
Inductive overflow_mode := Checked | Wrapping.
Definition add_usize {E} (mode : overflow_mode) (a b : Z) : outcome E Z :=
  if a + b <? 2 ^ 64 then Ok (a + b)
  else match mode with Checked => Panic "attempt to add with overflow" | Wrapping => Ok (wrap64 (a + b)) end.

(** [&body[from..]] and [&body[..to]], which panic out of range. *)
Definition slice_to {E} (b : bytes) (to : Z) : outcome E bytes :=
  if to <=? Z.of_nat (length b) then Ok (take (Z.to_nat to) b) else Panic "range end index out of range".
Definition slice_from {E} (b : bytes) (from : Z) : outcome E bytes :=
  if from <=? Z.of_nat (length b) then Ok (drop (Z.to_nat from) b)
  else Panic "range start index out of range".

(** The loop of [decode_chunked]; a round drops at least a line end, so the
    length of the body is enough fuel. *)
Fixpoint decode_chunked_loop (mode : overflow_mode) (fuel : nat) (decoded body : bytes)
    : outcome tor_error bytes :=
  match fuel with
  | O => Panic "out of fuel"
  | S fuel =>
      line_end ← ok_or (BadResponse (lit "missing chunk size")) (find_sub CRLF body);
      size_line ← ok_or (BadResponse (lit "invalid chunk size")) (from_utf8 (take line_end body));
      let size_str := trim (default [] (head (split_on 59 size_line))) in
      size ← ok_or (BadResponse (lit "invalid chunk size")) (parse_hex (2 ^ 64) size_str);
      let body := drop (line_end + 2) body in
      if size =? 0 then mret decoded else
      needed ← add_usize mode size 2;
      if Z.of_nat (length body) <? needed then Err (BadResponse (lit "truncated chunk")) else
      chunk ← slice_to body size;
      rest ← slice_from body needed;
      decode_chunked_loop mode fuel (decoded ++ chunk) rest
  end.
Definition decode_chunked (mode : overflow_mode) (body : bytes) : outcome tor_error bytes :=
  decode_chunked_loop mode (S (length body)) [] body.

(** The header loop: the transfer encoding and the content length. *)
Definition header_line (acc : bool * option Z) (line : str) : bool * option Z :=
  match split_once 58 line with
  | None => acc
  | Some (name, value) =>
      let name := to_ascii_lowercase (trim name) in
      if bool_decide (name = lit "transfer-encoding") then
        (contains (lit "chunked") (to_ascii_lowercase value), acc.2)
      else if bool_decide (name = lit "content-length") then
        (acc.1, parse_unsigned (2 ^ 64) (trim value))
      else acc
  end.

Definition parse_http_response (mode : overflow_mode) (raw : bytes) : outcome tor_error (Z * str) :=
  header_end ← ok_or (BadResponse (lit "missing header terminator")) (find_sub (CRLF ++ CRLF) raw);
  head_text ← ok_or (BadResponse (lit "headers are not valid UTF-8")) (from_utf8 (take header_end raw));
  let lines := split_str CRLF head_text in
  let status_line := default [] (head lines) in
  status ← ok_or (BadResponse (lit "invalid status line"))
             (code ← split_whitespace status_line !! 1%nat; parse_unsigned (2 ^ 16) code);
  let '(chunked, content_length) := foldl header_line (false, None) (tail lines) in
  let body := drop (header_end + 4) raw in
  body ←
    (if chunked : bool then decode_chunked mode body
     else match content_length with
          | Some len =>
              ok_or (BadResponse (lit "truncated body"))
                (if len <=? Z.of_nat (length body) then Some (take (Z.to_nat len) body)
                 else None)
          | None => mret body
          end);
  mret (status, from_utf8_lossy body).

(** ** Pushing *)

Definition VERSION : str := lit "0.1.0".

Definition http_request (target : PushTarget) (content_type : str) (payload : bytes) : bytes :=
  lit "POST " ++ pt_path target ++ lit " HTTP/1.1" ++ CRLF ++
  lit "Host: " ++ pt_host target ++ CRLF ++
  lit "User-Agent: bindex-electrum/" ++ VERSION ++ CRLF ++
  lit "Content-Type: " ++ content_type ++ CRLF ++
  lit "Content-Length: " ++ show_unsigned (Z.of_nat (length payload)) ++ CRLF ++
  lit "Connection: close" ++ CRLF ++ CRLF.

Definition push_inner (mode : overflow_mode) (iso : Isolation) (target : PushTarget)
    (content_type : str) (payload : bytes) : M str :=
  _ ← socks5_connect iso (pt_host target) (pt_port target);
  _ ← write_all (http_request target content_type payload);
  _ ← write_all payload;
  raw ← read_to_end;
  '(status, body) ← st_lift (parse_http_response mode raw);
  if (200 <=? status) && (status <? 300) then mret body
  else st_lift (Err (HttpStatus status (concat (take MAX_ERROR_BODY_CHARS (chars (trim body)))))).

(** [push]: the connection to the proxy, if it succeeds, and whether the time
    runs out first; what was sent by then depends on [writes_left]. *)
Definition push (mode : overflow_mode) (timeout : bool) (conn : option Conn) (iso : Isolation)
    (target : PushTarget) (content_type : str) (payload : bytes)
    : outcome tor_error str * list bytes :=
  match conn with
  | None => (Err (if timeout then TimedOut else Io ConnectFailed), [])
  | Some c =>
      let '(r, c) := push_inner mode iso target content_type payload c in
      (if timeout then Err TimedOut else r, sent c)
  end.

Definition push_tx (mode : overflow_mode) (timeout : bool) (conn : option Conn) (iso : Isolation)
    (target : PushTarget) (tx_hex : str) : outcome tor_error str * list bytes :=
  let '(r, sent) := push mode timeout conn iso target (lit "text/plain") tx_hex in
  (trim <$> r, sent).

(** [serde_json::to_vec] of a list of strings is the serializer's. *)
Definition push_package `{Serde} (strings_to_vec : list str → bytes) (mode : overflow_mode)
    (timeout : bool) (conn : option Conn) (iso : Isolation) (target : PushTarget)
    (raw_txs : list str) : outcome tor_error json * list bytes :=
  let '(r, sent) :=
    push mode timeout conn iso target (lit "application/json") (strings_to_vec raw_txs) in
  (body ← r; ok_or (BadResponse (lit "package endpoint returned non-JSON body")) (json_from_slice body),
   sent).
