(* ===== verification/TorPushSpec.v ===== *)
(** * Pushing through Tor is isolated

    What a push sends and when: nothing of the transaction before the proxy has
    taken the push's own credentials and connected to the endpoint; and the
    codecs of the URL and of a chunked body. *)

From S2P Require Import Prelude Text Utf8 Protocol TorPush.

(** ** Triples for code that changes a state

    [m], run where [P] holds, ends well where [Q] holds and otherwise where [R] does. *)
Definition triple {S E A} (P : S → Prop) (m : stM S E A) (Q : A → S → Prop) (R : S → Prop) : Prop :=
  ∀ s, P s → match m s with (Ok a, s') => Q a s' | (_, s') => R s' end.

Section triple.
Context {S E : Type}.

Lemma triple_bind {A B} P (m : stM S E A) (f : A → stM S E B) Q Q' R :
  triple P m Q R → (∀ a, triple (Q a) (f a) Q' R) → triple P (m ≫= f) Q' R.
Proof.
  intros Hm Hf s Hs. specialize (Hm s Hs). unfold mbind, stM_bind.
  destruct (m s) as [[a|e|p] s']; [by apply Hf|done..].
Qed.
Lemma triple_ret {A} (a : A) P Q R :
  (∀ s, P s → Q a s) → triple P (mret a : stM S E A) Q R.
Proof. intros Hq s Hs. by apply Hq. Qed.
Lemma triple_lift {A} (m : outcome E A) P Q R :
  (∀ s, P s → match m with Ok a => Q a s | _ => R s end) → triple (S := S) P (st_lift m) Q R.
Proof. intros Hq s Hs. specialize (Hq s Hs). unfold st_lift. by destruct m. Qed.
Lemma triple_weaken {A} P P' (m : stM S E A) Q R :
  triple P' m Q R → (∀ s, P s → P' s) → triple P m Q R.
Proof. intros Hm HP s Hs. by apply Hm, HP. Qed.
Lemma triple_exists {A X} (P : X → S → Prop) (m : stM S E A) Q R :
  (∀ x, triple (P x) m Q R) → triple (λ s, ∃ x, P x s) m Q R.
Proof. intros Hm s [x Hs]. by apply (Hm x). Qed.
Lemma triple_exists_and {A X} (C : X → Prop) (P : X → S → Prop) (m : stM S E A) Q R :
  (∀ x, C x → triple (P x) m Q R) → triple (λ s, ∃ x, C x ∧ P x s) m Q R.
Proof. intros Hm s (x & Hx & Hs). by apply (Hm x). Qed.
End triple.

(** ** The order of a push *)

Section push.
Context (mode : overflow_mode) (iso : Isolation) (target : PushTarget) (content_type : str)
  (payload : bytes) (init : bytes).

(** The writes of a push, in order. *)
Definition messages : list bytes :=
  let '(user, pass) := isolation_credentials iso in
  [[5; 1; 2]; auth_message user pass; connect_message (pt_host target) (pt_port target);
   http_request target content_type payload; payload].

(** The proxy took the credentials and reported a connection. *)
Definition accepted (peer : bytes) : Prop :=
  ∃ v reserved addr rest, peer = [5; 2] ++ [v; 0] ++ [5; 0; reserved; addr] ++ rest.

Definition isolated (peer : bytes) (s : list bytes) : Prop :=
  s `prefix_of` messages ∧
  ((2 ≤ length s)%nat → ∃ rest, peer = [5; 2] ++ rest) ∧
  ((4 ≤ length s)%nat → accepted peer).

(** The first [n] messages are sent and the peer's bytes [read] are consumed. *)
Definition stage (n : nat) (read : bytes) (c : Conn) : Prop :=
  sent c = take n messages ∧ init = read ++ incoming c.
Definition safe (c : Conn) : Prop := isolated init (sent c).

Lemma messages_length : length messages = 5%nat.
Proof. done. Qed.

Lemma stage_safe n read c :
  stage n read c →
  ((2 ≤ n)%nat → ∃ rest, read = [5; 2] ++ rest) →
  ((4 ≤ n)%nat → accepted read) → safe c.
Proof.
  intros [Hs Hi] H2 H4. unfold safe, isolated. rewrite Hs, length_take, messages_length.
  split; [apply prefix_take|]. split.
  - intros Hn. destruct H2 as [rest ->]; [lia|]. rewrite Hi, <-app_assoc. eauto.
  - intros Hn. destruct H4 as (v & r & a & rest & ->); [lia|].
    exists v, r, a, (rest ++ incoming c). rewrite Hi, <-!app_assoc. done.
Qed.

Lemma triple_write n read b :
  messages !! n = Some b → (∀ c, stage n read c → safe c) →
  triple (stage n read) (write_all b) (λ _, stage (S n) read) safe.
Proof.
  intros Hb Hsafe c [Hs Hi]. unfold write_all. destruct (writes_left c).
  - by apply Hsafe.
  - split; [|done]. cbn [sent]. by rewrite (take_S_r _ _ _ Hb), Hs.
Qed.

Lemma triple_read n read k :
  (∀ c, stage n read c → safe c) →
  triple (stage n read) (read_exact k)
    (λ b c, length b = k ∧ stage n (read ++ b) c) safe.
Proof.
  intros Hsafe c [Hs Hi]. unfold read_exact. case_bool_decide.
  - cbn. split; [rewrite length_take; lia|]. split; [done|]. cbn.
    by rewrite <-app_assoc, take_drop.
  - by apply Hsafe.
Qed.

Lemma triple_fail_when (b : bool) e (P : Conn → Prop) :
  (∀ c, P c → safe c) → triple P (fail_when b e) (λ _ c, P c ∧ b = false) safe.
Proof. intros Hp. apply triple_lift. intros c Hc. destruct b; [by apply Hp|done]. Qed.

Lemma two_bytes (b : bytes) : length b = 2%nat → ∃ x y, b = [x; y].
Proof. destruct b as [|x [|y [|]]]; try done. eauto. Qed.
Lemma four_bytes (b : bytes) : length b = 4%nat → ∃ w x y z, b = [w; x; y; z].
Proof. destruct b as [|w [|x [|y [|z [|]]]]]; try done. eauto 6. Qed.

(** What was read by the time the transaction may be sent. *)
Definition connected (c : Conn) : Prop := ∃ read, accepted read ∧ stage 3 read c.

Lemma socks5_safe :
  triple (stage 0 []) (socks5_connect iso (pt_host target) (pt_port target))
    (λ _, connected) safe.
Proof using mode.
  unfold socks5_connect, isolation_credentials.
  assert (∀ n read c, (n ≤ 1)%nat → stage n read c → safe c) as Hsafe1.
  { intros n read c Hn Hc. apply (stage_safe _ _ _ Hc); lia. }
  assert (∀ n rest c, (n ≤ 3)%nat → stage n ([5; 2] ++ rest) c → safe c) as Hsafe3.
  { intros n rest c Hn Hc. apply (stage_safe _ _ _ Hc); [eauto|lia]. }
  eapply triple_bind; [apply (triple_write 0 []); [done|eauto]|intros ?; cbn beta].
  eapply triple_bind; [apply (triple_read 1 []); eauto|intros reply; cbn beta].
  eapply triple_bind; [apply triple_fail_when; intros c [_ Hc]; eauto|intros ?; cbn beta].
  apply (triple_weaken _ (stage 1 ([5; 2] ++ []))).
  2: { intros c [[_ Hc] Hb%negb_false_iff%bool_decide_eq_true]. by rewrite Hb in Hc. }
  eapply triple_bind; [apply (triple_write 1); [done|eauto]|intros ?; cbn beta].
  eapply triple_bind; [apply triple_read; eauto|intros status; cbn beta].
  eapply triple_bind; [apply triple_fail_when; intros c [_ Hc]; rewrite <-app_assoc in Hc; eauto|].
  intros ?. cbn beta.
  apply (triple_weaken _ (λ c, ∃ v, stage 2 ([5; 2] ++ [v; 0]) c)).
  2: { intros c [[Hl Hc] Hb%negb_false_iff%Z.eqb_eq]. destruct (two_bytes _ Hl) as (v & y & ->).
       cbn in Hb. subst. by exists v. }
  apply triple_exists. intros v.
  eapply triple_bind; [apply (triple_write 2); [done|eauto]|intros ?; cbn beta].
  eapply triple_bind; [apply triple_read; eauto|intros header; cbn beta].
  eapply triple_bind; [apply triple_fail_when; intros c [_ Hc]; rewrite <-app_assoc in Hc; eauto|].
  intros ?. cbn beta.
  eapply triple_bind; [apply triple_fail_when|].
  { intros c [[_ Hc] _]. rewrite <-app_assoc in Hc. eauto. }
  intros ?. cbn beta.
  apply (triple_weaken _ connected).
  2: { intros c [[[Hl Hc] Hb1%negb_false_iff%Z.eqb_eq] Hb2%negb_false_iff%Z.eqb_eq].
       destruct (four_bytes _ Hl) as (x & y & r & adr & ->). cbn in Hb1, Hb2. subst.
       eexists. split; [|exact Hc]. by exists v, r, adr, []. }
  assert (∀ c, connected c → safe c) as Hconn.
  { intros c (read & Ha & Hc). apply (stage_safe _ _ _ Hc); [|done].
    destruct Ha as (? & ? & ? & ? & ->). eauto. }
  assert (∀ k, triple connected (read_exact k) (λ _, connected) safe) as Hread.
  { intros k. apply triple_exists_and. intros read Ha c Hc.
    pose proof (triple_read 3 read k) as Hr. specialize (Hr ltac:(intros; apply Hconn; by exists read) c Hc).
    destruct (read_exact k c) as [[b| |] c']; [|done..]. destruct Hr as [_ Hr].
    exists (read ++ b). split; [|done]. destruct Ha as (v' & r & adr & rest & ->).
    exists v', r, adr, (rest ++ b). by rewrite <-!app_assoc. }
  eapply (triple_bind _ _ _ (λ _, connected)); [|intros addr_len].
  - repeat case_match; try (apply triple_ret; done); try (apply triple_lift; done).
    all: try (eapply triple_bind; [apply Hread|intros ?; by apply triple_ret]).
  - eapply triple_bind; [apply Hread|intros ?; by apply triple_ret].
Qed.

Lemma push_inner_safe :
  triple (stage 0 []) (push_inner mode iso target content_type payload) (λ _, safe) safe.
Proof.
  unfold push_inner. eapply triple_bind; [apply socks5_safe|intros ?; cbn beta].
  apply triple_exists_and. intros read Ha.
  assert (∀ n c, stage n read c → safe c) as Hsafe.
  { intros n c Hc. apply (stage_safe _ _ _ Hc); [|done].
    destruct Ha as (? & ? & ? & ? & ->). eauto. }
  eapply triple_bind; [apply (triple_write 3); [done|eauto]|intros ?; cbn beta].
  eapply triple_bind; [apply (triple_write 4); [done|eauto]|intros ?; cbn beta].
  eapply (triple_bind _ _ _ (λ _, safe)).
  { intros c Hc. unfold read_to_end. pose proof (Hsafe _ _ Hc). by destruct (ends_cleanly c). }
  intros raw. eapply (triple_bind _ _ _ (λ _, safe)); [apply triple_lift; by intros; case_match|].
  intros [status body]. case_match; [by apply triple_ret|]. by apply triple_lift.
Qed.
End push.

Lemma push_isolated mode timeout c iso target content_type payload r s :
  sent c = [] → push mode timeout (Some c) iso target content_type payload = (r, s) →
  isolated iso target content_type payload (incoming c) s.
Proof.
  intros Hs. unfold push.
  pose proof (push_inner_safe mode iso target content_type payload (incoming c) c (conj Hs eq_refl)) as Hp.
  destruct (push_inner _ _ _ _ _ c) as [[a|e|p] c']; intros [= <- <-]; exact Hp.
Qed.

(** ** Credentials *)

Lemma app_cons_inj_r (c : Z) a b s t :
  c ∉ a → c ∉ b → s ++ c :: a = t ++ c :: b → a = b.
Proof.
  intros Ha Hb Heq. pose proof (rfind_byte_app c s a Ha) as H1.
  pose proof (rfind_byte_app c t b Hb) as H2. rewrite Heq, H2 in H1. injection H1 as Hl.
  apply app_inj_1 in Heq as [_ [= ->]]; done.
Qed.

Lemma digits_no_char c z : 0 ≤ z → is_digit c = false → c ∉ show_unsigned z.
Proof.
  intros Hz Hc Hin. destruct (show_unsigned_digits z Hz) as [_ Hd].
  rewrite Forall_forall in Hd. apply Hd in Hin. congruence.
Qed.

Lemma isolation_inj a b :
  0 ≤ iso_seq a → 0 ≤ iso_seq b →
  isolation_credentials a = isolation_credentials b → iso_seq a = iso_seq b.
Proof.
  intros Ha Hb Heq. apply (f_equal fst) in Heq.
  assert (∀ i, (isolation_credentials i).1 =
    (lit "bindex-" ++ show_unsigned (iso_pid i) ++ 45 :: show_hex (iso_nanos i)) ++
    45 :: show_unsigned (iso_seq i)) as Hshape.
  { intros i. unfold isolation_credentials. cbn [fst]. by rewrite <-!app_assoc. }
  rewrite !Hshape in Heq. apply app_cons_inj_r in Heq; [|by apply digits_no_char..].
  by apply show_unsigned_inj.
Qed.

(** ** URLs *)

Record target_wf (t : PushTarget) : Prop := {
  tw_host : pt_host t ≠ [];
  tw_len : (length (pt_host t) ≤ 255)%nat;
  tw_slash : 47 ∉ pt_host t;
  tw_at : 64 ∉ pt_host t;
  tw_port : 0 ≤ pt_port t < 2 ^ 16;
  tw_path : ∃ p, pt_path t = 47 :: p;
}.

Lemma parse_unsigned_bound bound s z :
  0 < bound → parse_unsigned bound s = Some z → 0 ≤ z < bound.
Proof.
  intros Hb. unfold parse_unsigned. destruct s as [|c [|d s]]; [done|..]; case_match; try done;
    by apply parse_digits_bound.
Qed.

Lemma target_url_parse t : target_wf t → target_parse (target_url t) = Ok t.
Proof.
  intros [Hh Hl Hs Hat Hp [p Hpath]]. unfold target_parse, target_url.
  assert (∀ x, starts_with (lit "http://" ++ x) (lit "https://") = false) as ->.
  { intros x. apply not_true_iff_false. by intros [y Hy]%starts_with_spec. }
  rewrite strip_prefix_app. osimpl. rewrite Hpath.
  set (port := show_unsigned (pt_port t)).
  assert (∀ c, is_digit c = false → c ∉ port) as Hport.
  { intros c. apply digits_no_char. lia. }
  assert (pt_host t ++ 58 :: port ++ 47 :: p = (pt_host t ++ 58 :: port) ++ 47 :: p) as ->
    by by rewrite <-app_assoc.
  rewrite find_byte_app.
  2: { rewrite not_elem_of_app, not_elem_of_cons. split_and!; [done|done|by apply Hport]. }
  rewrite take_app_length, drop_app_length.
  rewrite bool_decide_eq_false_2.
  2: { change (64 ∉ pt_host t ++ 58 :: port).
       rewrite not_elem_of_app, not_elem_of_cons. split_and!; [done|done|by apply Hport]. }
  unfold rsplit_once. rewrite rfind_byte_app by by apply Hport. cbn [mbind option_bind].
  rewrite take_app_length, drop_S_app.
  unfold port. rewrite parse_show_unsigned by done. osimpl.
  rewrite bool_decide_eq_false_2 by done. rewrite bool_decide_eq_false_2 by lia.
  destruct t. cbn in *. by subst.
Qed.

Lemma target_parse_wf url t : target_parse url = Ok t → target_wf t.
Proof.
  unfold target_parse. destruct (starts_with _ _); [done|].
  intros (rest & _ & Hp)%bind_ok.
  destruct (match find_byte 47 rest with Some idx => _ | None => _ end) as [authority path] eqn:Ea.
  assert ((47 ∉ authority) ∧ ∃ p, path = 47 :: p) as [Hs Hpath].
  { destruct (find_byte 47 rest) as [i|] eqn:Ef; injection Ea as <- <-.
    - apply find_byte_Some in Ef as (Heq & Hn & Hlt). split; [done|]. eexists.
      rewrite Heq at 1. apply drop_app_length'. rewrite length_take. lia.
    - apply find_byte_none in Ef. eauto. }
  case_bool_decide as Hat; [done|].
  apply bind_ok in Hp as ([host port] & Hhp & Hp).
  assert ((∀ c, c ∉ authority → c ∉ host) ∧ 0 ≤ port < 2 ^ 16) as [Hin Hb].
  { unfold rsplit_once in Hhp. destruct (rfind_byte 58 authority) as [i|] eqn:Er; cbn in Hhp.
    - apply bind_ok in Hhp as (q & Hq%ok_or_ok & [= <- <-]). split.
      + intros c Hc Hc'. apply Hc. rewrite <-(take_drop i authority). apply elem_of_app. by left.
      + by apply parse_unsigned_bound in Hq.
    - injection Hhp as <- <-. split; [done|lia]. }
  repeat case_bool_decide; try done. injection Hp as <-. split; cbn; try done; eauto; lia.
Qed.

(** ** Chunked bodies *)

(** A chunked body: each chunk after its size, then an empty one and trailers. *)
Definition chunk_encode (chunk : bytes) : bytes :=
  show_hex (Z.of_nat (length chunk)) ++ CRLF ++ chunk ++ CRLF.
Definition chunked_encode (chunks : list bytes) (trailers : bytes) : bytes :=
  concat (chunk_encode <$> chunks) ++ lit "0" ++ CRLF ++ trailers.

Lemma hex_plain z : 0 ≤ z → is_ascii (show_hex z) ∧ no_space (show_hex z) ∧ (13 ∉ show_hex z) ∧ (59 ∉ show_hex z).
Proof.
  intros Hz. pose proof (show_hex_chars (S (Z.to_nat (Z.log2 z))) z Hz) as Hc.
  fold (show_hex z) in Hc. rewrite Forall_forall in Hc. split_and!.
  - apply Forall_forall. intros c Hin. destruct (Hc c Hin); lia.
  - apply Forall_forall. intros c Hin%Hc. unfold is_whitespace. apply bool_decide_eq_false.
    unfold WHITESPACE. rewrite !elem_of_cons, elem_of_nil. intros Hw.
    repeat destruct Hw as [[=]|Hw]; try done; subst; lia.
  - intros ?%Hc. lia.
  - intros ?%Hc. lia.
Qed.

(** One size line, read from the front of a body. *)
Lemma size_line z rest :
  0 ≤ z < 2 ^ 64 →
  find_sub CRLF (show_hex z ++ CRLF ++ rest) = Some (length (show_hex z)) ∧
  from_utf8 (take (length (show_hex z)) (show_hex z ++ CRLF ++ rest)) = Some (show_hex z) ∧
  parse_hex (2 ^ 64) (trim (default [] (head (split_on 59 (show_hex z))))) = Some z ∧
  drop (length (show_hex z) + 2) (show_hex z ++ CRLF ++ rest) = rest.
Proof.
  intros Hz. destruct (hex_plain z) as (Ha & Hn & Hcr & Hsc); [lia|]. split_and!.
  - by apply (find_sub_app 13 [10]).
  - rewrite take_app_length. by apply ascii_from_utf8.
  - rewrite split_on_none by done. cbn [head default]. rewrite trim_none by done.
    by apply parse_show_hex.
  - by rewrite drop_app_add.
Qed.

Lemma decode_chunked_loop_ok mode fuel chunks trailers decoded :
  Forall (λ c, c ≠ [] ∧ Z.of_nat (length c) + 2 < 2 ^ 64) chunks → (length chunks < fuel)%nat →
  decode_chunked_loop mode fuel decoded (chunked_encode chunks trailers) =
    Ok (decoded ++ concat chunks).
Proof.
  intros Hc. revert fuel decoded. induction Hc as [|chunk chunks [Hne Hlt] _ IH]; intros fuel decoded Hf;
    (destruct fuel as [|fuel]; [cbn in Hf; lia|]); cbn [decode_chunked_loop].
  - change (chunked_encode [] trailers) with (show_hex 0 ++ CRLF ++ trailers).
    destruct (size_line 0 trailers) as (-> & Hu & Hp & Hd); [lia|]. osimpl. rewrite Hu. osimpl.
    rewrite Hp. osimpl. by rewrite app_nil_r.
  - assert (chunked_encode (chunk :: chunks) trailers =
            show_hex (Z.of_nat (length chunk)) ++ CRLF ++ chunk ++ CRLF ++ chunked_encode chunks trailers) as ->.
    { unfold chunked_encode, chunk_encode. cbn [fmap list_fmap concat]. by rewrite <-!app_assoc. }
    destruct (size_line (Z.of_nat (length chunk)) (chunk ++ CRLF ++ chunked_encode chunks trailers))
      as (-> & Hu & Hp & Hd); [lia|]. osimpl. rewrite Hu. osimpl. rewrite Hp. osimpl. rewrite Hd.
    rewrite (proj2 (Z.eqb_neq _ _)) by (destruct chunk; [done|cbn; lia]).
    unfold add_usize. rewrite (proj2 (Z.ltb_lt _ _)) by lia. osimpl.
    rewrite (proj2 (Z.ltb_ge _ _)) by (rewrite !length_app; cbn [CRLF length]; lia).
    unfold slice_to, slice_from. rewrite !(proj2 (Z.leb_le _ _)) by (rewrite !length_app; cbn [CRLF length]; lia).
    osimpl. rewrite Nat2Z.id, take_app_length.
    replace (Z.to_nat (Z.of_nat (length chunk) + 2)) with (length chunk + 2)%nat by lia.
    rewrite drop_app_add. change (drop 2 (CRLF ++ chunked_encode chunks trailers)) with (chunked_encode chunks trailers).
    rewrite IH by (cbn in Hf; lia). cbn [concat]. by rewrite <-app_assoc.
Qed.

Lemma decode_chunked_encode mode chunks trailers :
  Forall (λ c, c ≠ [] ∧ Z.of_nat (length c) + 2 < 2 ^ 64) chunks →
  decode_chunked mode (chunked_encode chunks trailers) = Ok (concat chunks).
Proof.
  intros Hc. unfold decode_chunked. rewrite decode_chunked_loop_ok by
    (done || (unfold chunked_encode; rewrite length_app;
      assert (length chunks ≤ length (concat (chunk_encode <$> chunks)))%nat;
      [clear; induction chunks as [|x chunks IH]; [done|]; cbn; rewrite !length_app; cbn; lia|lia])).
  done.
Qed.

(** A body is decoded in fewer rounds than it has bytes. *)
Lemma find_sub_bound p s k : p ≠ [] → find_sub p s = Some k → (k < length s)%nat.
Proof.
  intros Hp. revert k. induction s as [|x s IH]; intros k; cbn [find_sub].
  - destruct p; done.
  - destruct (starts_with _ _); [intros [= <-]; cbn; lia|].
    intros (j & Hj%IH & ->)%fmap_Some. cbn. lia.
Qed.
Lemma decode_chunked_loop_fuel mode fuel decoded body :
  (length body < fuel)%nat → decode_chunked_loop mode fuel decoded body ≠ Panic "out of fuel".
Proof.
  revert decoded body. induction fuel as [|fuel IH]; intros decoded body Hf; [lia|].
  cbn [decode_chunked_loop]. destruct (find_sub CRLF body) as [k|] eqn:Ek; [|done]. osimpl.
  apply find_sub_bound in Ek; [|done].
  destruct (from_utf8 _) as [l|]; [|done]. osimpl. destruct (parse_hex _ _) as [z|]; [|done]. osimpl.
  destruct (z =? 0); [done|]. unfold add_usize.
  destruct (z + 2 <? 2 ^ 64); [|destruct mode; [done|]]; osimpl.
  all: destruct (Z.of_nat _ <? _); [done|]; unfold slice_to, slice_from.
  all: destruct (z <=? _); [|done]; osimpl.
  all: destruct (_ <=? _); [|done]; osimpl; apply IH; rewrite !length_drop; lia.
Qed.
Lemma decode_chunked_total mode body : decode_chunked mode body ≠ Panic "out of fuel".
Proof. apply decode_chunked_loop_fuel. lia. Qed.

(** A chunk size whose sum with the two bytes of the line end overflows. *)
Lemma decode_chunked_overflow mode z rest :
  2 ^ 64 - 2 ≤ z < 2 ^ 64 → z + 2 - 2 ^ 64 ≤ Z.of_nat (length rest) < 2 ^ 64 - 2 →
  decode_chunked mode (show_hex z ++ CRLF ++ rest) =
    Panic (match mode with
           | Checked => "attempt to add with overflow"
           | Wrapping => "range end index out of range"
           end).
Proof.
  intros Hz Hr. unfold decode_chunked. cbn [decode_chunked_loop].
  destruct (size_line z rest) as (-> & Hu & Hp & Hd); [lia|]. osimpl. rewrite Hu. osimpl.
  rewrite Hp. osimpl. rewrite Hd. rewrite (proj2 (Z.eqb_neq _ _)) by lia.
  unfold add_usize. rewrite (proj2 (Z.ltb_ge _ _)) by lia. destruct mode; [done|]. osimpl.
  replace (wrap64 (z + 2)) with (z + 2 - 2 ^ 64)
    by (unfold wrap64; apply (Z.mod_unique _ _ 1); lia).
  rewrite (proj2 (Z.ltb_ge _ _)) by lia. unfold slice_to.
  by rewrite (proj2 (Z.leb_gt _ _)) by lia.
Qed.
