(* ===== verification/Config.v ===== *)
(** * The server's configuration

    [bindex-electrum/src/config.rs] (Bitcoin format): the options the modelled
    parts use with their defaults, their validation, and where broadcasts are
    pushed. Paths and addresses are strings; the options of the REST API are in
    [RestQuery]. What [clap] makes of a command line is not modelled: a
    configuration is any value of the record. *)

From S2P Require Import Prelude Text Utf8 HashIndex Chain Protocol TorPush.

Inductive BroadcastVia := ViaTor | ViaBitcoind.
#[export] Instance BroadcastVia_eq_dec : EqDecision BroadcastVia.
Proof. solve_decision. Defined.

Definition MEMPOOL_SPACE_ONION : str :=
  lit "mempoolhqx4isw62xs7abwphsq7ldayuidyx2v2oethdhhj6mlo2r6ad.onion".

Record Config := {
  cfg_network : network;
  cfg_db_name : option str;
  bindex_db_path : str;
  cfg_secondary_path : option str;
  bitcoind_rpc_user : option str;
  bitcoind_rpc_password : option str;
  bitcoind_rpc_cookie : option str;
  bitcoind_rpc_conf : option str;
  tls_listen : option str;
  tls_cert : option str;
  tls_key : option str;
  script_cache_refs : Z;
  cfg_monitor_path : option str;
  protocol_min : ProtocolVersion;
  protocol_max : ProtocolVersion;
  mempool_poll_secs : Z;
  secondary_refresh_ms : Z;
  zmq_rawtx : option str;
  zmq_rawblock : option str;
  max_batch_size : Z;
  max_subscriptions_per_session : Z;
  broadcast_via : BroadcastVia;
  tor_broadcast_url : option str;
  tor_package_url : option str;
  banner : str;
  cfg_peers : list str;
  donation_address : option str;
  http_addr : option str;
}.

Definition default_broadcast_via (fmt : chain_format) : BroadcastVia :=
  if bool_decide (FORMAT_NAME fmt = "bitcoin"%string) then ViaTor else ViaBitcoind.
(** The configuration when only the directory of the index is given. *)
Definition config_default (db_path : str) : Config := {|
  cfg_network := NetBitcoin; cfg_db_name := None; bindex_db_path := db_path;
  cfg_secondary_path := None; bitcoind_rpc_user := None; bitcoind_rpc_password := None;
  bitcoind_rpc_cookie := None; bitcoind_rpc_conf := None; tls_listen := None; tls_cert := None;
  tls_key := None; script_cache_refs := 200000; cfg_monitor_path := None;
  protocol_min := version_new 1 4; protocol_max := version_new 1 6;
  mempool_poll_secs := 5; secondary_refresh_ms := 30000; zmq_rawtx := None; zmq_rawblock := None;
  max_batch_size := 100; max_subscriptions_per_session := 1000;
  broadcast_via := default_broadcast_via Bitcoin; tor_broadcast_url := None;
  tor_package_url := None; banner := lit "bindex electrum"; cfg_peers := [];
  donation_address := None; http_addr := None;
|}.

Definition NANOS_PER_SEC : Z := 10 ^ 9.
Definition NANOS_PER_MILLI : Z := 10 ^ 6.
Definition mempool_poll_interval (c : Config) : Z := mempool_poll_secs c * NANOS_PER_SEC.
Definition secondary_refresh_interval (c : Config) : Z := secondary_refresh_ms c * NANOS_PER_MILLI.

(** What [validate] and the targets fail with. *)
Inductive config_error :=
| ProtocolRange | TlsFiles | RpcUserPassword | RpcCookieConf | BatchSize | Subscriptions
| RefreshInterval | ZmqEndpoint | NoDefaultOnion | NoPackageEndpoint
| Target (e : tor_error).

(** [Path::join] with a relative name. *)
Definition path_join (dir name : str) : str := dir ++ 47 :: name.

Definition cfg_db_name_or (c : Config) : str :=
  default (lit (network_to_string (cfg_network c))) (cfg_db_name c).
Definition monitor_path (c : Config) : str :=
  default (path_join (bindex_db_path c) (lit "electrum-monitor.json")) (cfg_monitor_path c).
Definition secondary_path_or (c : Config) : str :=
  default (path_join (bindex_db_path c) (cfg_db_name_or c ++ lit "-electrum-secondary"))
    (cfg_secondary_path c).

Definition onion_network_prefix (c : Config) : outcome config_error str :=
  match cfg_network c with
  | NetBitcoin => Ok []
  | NetTestnet => Ok (lit "/testnet")
  | NetTestnet4 => Ok (lit "/testnet4")
  | NetSignet => Ok (lit "/signet")
  | NetRegtest => Err NoDefaultOnion
  end.

Definition tor_broadcast_target (c : Config) : outcome config_error PushTarget :=
  url ← match tor_broadcast_url c with
        | Some url => Ok url
        | None =>
            prefix ← onion_network_prefix c;
            mret (lit "http://" ++ MEMPOOL_SPACE_ONION ++ prefix ++ lit "/api/tx")
        end;
  map_err Target (target_parse url).

Definition tor_package_target (c : Config) : outcome config_error PushTarget :=
  url ← match tor_package_url c, tor_broadcast_url c with
        | Some url, _ => Ok url
        | None, None =>
            prefix ← onion_network_prefix c;
            mret (lit "http://" ++ MEMPOOL_SPACE_ONION ++ prefix ++ lit "/api/v1/txs/package")
        | None, Some tx_url =>
            match strip_suffix (lit "/api/tx") tx_url with
            | Some base => Ok (base ++ lit "/api/v1/txs/package")
            | None => Err NoPackageEndpoint
            end
        end;
  map_err Target (target_parse url).

Definition bail_when (b : bool) (e : config_error) : outcome config_error () :=
  if b then Err e else Ok tt.
Definition is_some {A} (o : option A) : bool := match o with Some _ => true | None => false end.

Definition tcp_endpoint (endpoint : option str) : bool :=
  match endpoint with Some e => starts_with e (lit "tcp://") | None => true end.

(** What the REST API has to know about the network; on Bitcoin any will do. *)
Definition rest_params (n : network) : outcome config_error network := Ok n.

Definition validate (c : Config) : outcome config_error () :=
  _ ← bail_when (negb (version_le (protocol_min c) (protocol_max c))) ProtocolRange;
  _ ← bail_when (is_some (tls_listen c) && negb (is_some (tls_cert c) && is_some (tls_key c))) TlsFiles;
  _ ← bail_when (xorb (is_some (bitcoind_rpc_user c)) (is_some (bitcoind_rpc_password c)))
        RpcUserPassword;
  _ ← bail_when (is_some (bitcoind_rpc_cookie c) && is_some (bitcoind_rpc_conf c)) RpcCookieConf;
  _ ← bail_when (max_batch_size c =? 0) BatchSize;
  _ ← bail_when (max_subscriptions_per_session c =? 0) Subscriptions;
  _ ← bail_when (secondary_refresh_ms c =? 0) RefreshInterval;
  _ ← bail_when (negb (tcp_endpoint (zmq_rawtx c))) ZmqEndpoint;
  _ ← bail_when (negb (tcp_endpoint (zmq_rawblock c))) ZmqEndpoint;
  _ ← match http_addr c with
      | Some _ => _ ← rest_params (cfg_network c); mret tt
      | None => mret tt
      end;
  match broadcast_via c with
  | ViaTor => _ ← tor_broadcast_target c; _ ← tor_package_target c; mret tt
  | ViaBitcoind => mret tt
  end.

(** * Properties *)

(** The package endpoint beside a transaction endpoint [base/api/tx]. *)
Lemma package_target_beside c base :
  tor_package_url c = None → tor_broadcast_url c = Some (base ++ lit "/api/tx") →
  tor_package_target c = map_err Target (target_parse (base ++ lit "/api/v1/txs/package")).
Proof.
  intros Hp Hb. unfold tor_package_target. rewrite Hp, Hb. unfold strip_suffix.
  rewrite !bool_decide_eq_true_2; cbn [andb]; rewrite ?length_app; cbn [length].
  - replace (length base + length (lit "/api/tx") - length (lit "/api/tx"))%nat with (length base) by lia.
    by rewrite take_app_length.
  - replace (length base + length (lit "/api/tx") - length (lit "/api/tx"))%nat with (length base) by lia.
    by rewrite drop_app_length.
  - lia.
Qed.

Lemma validate_tor c :
  validate c = Ok tt → broadcast_via c = ViaTor →
  (∃ t, tor_broadcast_target c = Ok t) ∧ ∃ t, tor_package_target c = Ok t.
Proof.
  unfold validate. intros Hv Hvia. inv_ok. rewrite Hvia in Hv.
  apply bind_ok in Hv as (t & Ht & (t' & Ht' & _)%bind_ok). eauto.
Qed.

Lemma bail_when_ok b e u : bail_when b e = Ok u → b = false.
Proof. by destruct b. Qed.

Lemma validate_limits c :
  validate c = Ok tt →
  version_le (protocol_min c) (protocol_max c) = true ∧
  max_batch_size c ≠ 0 ∧ max_subscriptions_per_session c ≠ 0 ∧ secondary_refresh_ms c ≠ 0 ∧
  (tls_listen c ≠ None → tls_cert c ≠ None ∧ tls_key c ≠ None).
Proof.
  unfold validate.
  intros (? & Hr%bail_when_ok & (? & Ht%bail_when_ok & (? & _ & (? & _ & (? & Hb%bail_when_ok &
    (? & Hs%bail_when_ok & (? & Hi%bail_when_ok & _)%bind_ok)%bind_ok)%bind_ok)%bind_ok)%bind_ok)%bind_ok)%bind_ok.
  split_and!; [by apply negb_false_iff|by apply Z.eqb_neq..|].
  by destruct (tls_listen c), (tls_cert c), (tls_key c).
Qed.

(** The defaults are valid. *)
Lemma config_default_valid db_path : validate (config_default db_path) = Ok tt.
Proof. vm_compute. reflexivity. Qed.
