(* ===== verification/Bitcoind.v ===== *)
(** * The node's RPC interface

    [bindex-electrum/src/bitcoind.rs]: credentials, calls, and the calls the
    server makes. The HTTP POST and the file system are parameters. *)

From S2P Require Import Prelude Text Utf8 Protocol.

Inductive auth_failure := ReadCookie | InvalidCookie | ReadConf | MissingUserPassword | Refused.
Inductive rpc_error :=
| RpcTransport
| RpcDecode
| RpcFailed (message : str)
| RpcAuth (e : auth_failure).

(** One POST of a request with basic credentials: the transport fails, the
    body is not JSON, or it is. *)
Class RpcAgent (W : Type) := {
  rpc_post : W → option (str * str) → json → (rpc_error + json) * W;
}.
(** [fs::read_to_string]. *)
Class Files := { read_to_string : str → option str }.

(** [Value::to_string], and the [f64]s of JSON numbers. *)
Class JsonText := { json_to_string : json → str }.
Class JsonFloats := {
  f64 : Type;
  json_as_f64 : json → option f64;
  json_of_f64 : f64 → json;
  f64_of_Z : Z → f64;
  f64_milli : Z → f64;    (* [rate as f64 / 1000.0] *)
}.

(** [Value::get] with a key; the keys of a parsed object are distinct. *)
Definition json_get (v : json) (key : str) : option json :=
  match v with
  | JObject fields => snd <$> list_find (λ f, f.1 = key) fields ≫= λ r, Some r.2
  | _ => None
  end.

Record RpcClient := {
  rpc_user : option str; rpc_password : option str;
  cookie_path : option str; conf_path : option str;
}.

Section bitcoind.
Context {W : Type} `{RA : !RpcAgent W, FS : !Files, JT : !JsonText, JF : !JsonFloats}.
Abbreviation M := (stM W rpc_error).

(** The loop of [read_conf_credentials]. *)
Definition conf_line (acc : option str * option str) (line : str) : option str * option str :=
  let line := trim line in
  if bool_decide (line = []) || starts_with line [35] || starts_with line [91] then acc else
  match split_once 61 line with
  | None => acc
  | Some (key, value) =>
      let key := trim key in
      if bool_decide (key = lit "rpcuser") then (Some (trim value), acc.2)
      else if bool_decide (key = lit "rpcpassword") then (acc.1, Some (trim value))
      else acc
  end.
Definition read_conf_credentials (path : str) : outcome rpc_error (str * str) :=
  text ← ok_or (RpcAuth ReadConf) (read_to_string path);
  match foldl conf_line (None, None) (lines text) with
  | (Some user, Some password) => Ok (user, password)
  | _ => Err (RpcAuth MissingUserPassword)
  end.

Definition credentials (self : RpcClient) : outcome rpc_error (option (str * str)) :=
  match rpc_user self, rpc_password self with
  | Some user, Some password => Ok (Some (user, password))
  | _, _ =>
      match cookie_path self with
      | Some path =>
          cookie ← ok_or (RpcAuth ReadCookie) (read_to_string path);
          pair ← ok_or (RpcAuth InvalidCookie) (split_once 58 (trim cookie));
          mret (Some pair)
      | None =>
          match conf_path self with
          | Some path => Some <$> read_conf_credentials path
          | None => Ok None
          end
      end
  end.

Definition rpc_request (method : str) (params : json) : json :=
  JObject [(lit "jsonrpc", JString (lit "1.0")); (lit "id", JString (lit "bindex-electrum"));
           (lit "method", JString method); (lit "params", params)].

Definition rpc_call (self : RpcClient) (method : str) (params : json) : M json :=
  creds ← st_lift (credentials self);
  response ← (λ w, match rpc_post w creds (rpc_request method params) with
                   | (inr v, w) => (Ok v, w) | (inl e, w) => (Err e, w) end);
  st_lift match json_get response (lit "error") with
          | Some JNull | None =>
              ok_or (RpcFailed (lit "missing JSON-RPC result")) (json_get response (lit "result"))
          | Some err => Err (RpcFailed (json_to_string err))
          end.

Definition rpc_broadcast (self : RpcClient) (raw_tx_hex : str) : M str :=
  value ← rpc_call self (lit "sendrawtransaction") (JArray [JString raw_tx_hex]);
  st_lift (ok_or (RpcFailed (lit "sendrawtransaction returned non-string result")) (as_str value)).
Definition rpc_broadcast_package (self : RpcClient) (raw_txs : list str) : M json :=
  rpc_call self (lit "submitpackage") (JArray [JArray (JString <$> raw_txs)]).
Definition estimate_fee (self : RpcClient) (blocks : Z) : M f64 :=
  value ← rpc_call self (lit "estimatesmartfee") (JArray [JNumber blocks]);
  mret (default (f64_of_Z (-1)) (v ← json_get value (lit "feerate"); json_as_f64 v)).
Definition relay_fee (self : RpcClient) : M f64 :=
  value ← rpc_call self (lit "getnetworkinfo") (JArray []);
  mret (default (f64_of_Z 0) (v ← json_get value (lit "relayfee"); json_as_f64 v)).
End bitcoind.
