(* ===== verification/Monitor.v ===== *)
(** * The monitor's counters

    [bindex-electrum/src/monitor.rs]: sessions, requests and errors counted per
    client and method, the recent requests, and the reset. Times and durations
    are parameters ([F] stands for [f64] milliseconds); the snapshot file
    is modelled in [MonitorSnapshot]. The [u64] counters count requests and do not
    reach their width. *)

From S2P Require Import Prelude Text.

Definition RECENT_LIMIT : nat := 200.
Definition LATENCY_LIMIT : nat := 512.

(** The [f64] operations of the latency metrics. *)
Class Millis (F : Type) := { f_zero : F; f_add : F → F → F; f_max : F → F → F }.

Record ClientMetrics := {
  connected_at : Z; last_seen_at : Z; cl_requests : Z; cl_errors : Z;
  last_method : option str; last_error : option str;
}.
Record MethodMetrics (F : Type) := {
  mm_count : Z; mm_errors : Z; total_ms : F; max_ms : F; samples_ms : list F;
}.
Arguments Build_MethodMetrics {F} _ _ _ _ _.
Arguments mm_count {F} _.
Arguments mm_errors {F} _.
Arguments total_ms {F} _.
Arguments max_ms {F} _.
Arguments samples_ms {F} _.
Record RequestSample (F : Type) := {
  rs_unix : Z; rs_peer : str; rs_method : str; rs_ok : bool; rs_duration_ms : F;
  rs_error : option str;
}.
Arguments Build_RequestSample {F} _ _ _ _ _ _.
Record MonitorState (F : Type) := {
  active : gmap str ClientMetrics;
  methods : gmap str (MethodMetrics F);
  recent_requests : list (RequestSample F);
  total_sessions : Z; total_requests : Z; total_errors : Z;
}.
Arguments Build_MonitorState {F} _ _ _ _ _ _.
Arguments active {F} _.
Arguments methods {F} _.
Arguments recent_requests {F} _.
Arguments total_sessions {F} _.
Arguments total_requests {F} _.
Arguments total_errors {F} _.

Section monitor.
Context {F : Type} `{MS : !Millis F}.

Definition monitor_default : MonitorState F :=
  {| active := ∅; methods := ∅; recent_requests := []; total_sessions := 0; total_requests := 0;
     total_errors := 0 |}.
Definition metrics_default : MethodMetrics F :=
  {| mm_count := 0; mm_errors := 0; total_ms := f_zero; max_ms := f_zero; samples_ms := [] |}.

Definition monitor_session (peer : str) (now : Z) (state : MonitorState F) : MonitorState F :=
  {| active := <[peer := {| connected_at := now; last_seen_at := now; cl_requests := 0;
                            cl_errors := 0; last_method := None; last_error := None |}]>
                 (active state);
     methods := methods state; recent_requests := recent_requests state;
     total_sessions := total_sessions state + 1; total_requests := total_requests state;
     total_errors := total_errors state |}.

Definition count_error (ok : bool) (n : Z) : Z := if ok then n else n + 1.

(** [while len() > limit { pop_front() }] and [{ pop_back() }]. *)
Definition keep_last {A} (limit : nat) (l : list A) : list A := drop (length l - limit) l.
Definition keep_first {A} (limit : nat) (l : list A) : list A := take limit l.

Definition metrics_record (ok : bool) (duration_ms : F) (m : MethodMetrics F) : MethodMetrics F :=
  {| mm_count := mm_count m + 1; mm_errors := count_error ok (mm_errors m);
     total_ms := f_add (total_ms m) duration_ms; max_ms := f_max (max_ms m) duration_ms;
     samples_ms := keep_last LATENCY_LIMIT (samples_ms m ++ [duration_ms]) |}.
Definition client_record (method : str) (ok : bool) (error : option str) (now : Z)
    (c : ClientMetrics) : ClientMetrics :=
  {| connected_at := connected_at c; last_seen_at := now; cl_requests := cl_requests c + 1;
     cl_errors := count_error ok (cl_errors c); last_method := Some method; last_error := error |}.

Definition record_request (peer method : str) (ok : bool) (duration_ms : F) (error : option str)
    (now : Z) (state : MonitorState F) : MonitorState F :=
  {| total_requests := total_requests state + 1;
     total_errors := count_error ok (total_errors state);
     methods := <[method := metrics_record ok duration_ms
                              (default metrics_default (methods state !! method))]> (methods state);
     active := match active state !! peer with
               | Some c => <[peer := client_record method ok error now c]> (active state)
               | None => active state
               end;
     recent_requests :=
       keep_first RECENT_LIMIT
         ({| rs_unix := now; rs_peer := peer; rs_method := method; rs_ok := ok;
             rs_duration_ms := duration_ms; rs_error := error |} :: recent_requests state);
     total_sessions := total_sessions state |}.

Definition client_reset (now : Z) (c : ClientMetrics) : ClientMetrics :=
  {| connected_at := connected_at c; last_seen_at := now; cl_requests := 0; cl_errors := 0;
     last_method := None; last_error := None |}.
Definition monitor_reset (now : Z) (state : MonitorState F) : MonitorState F :=
  {| methods := ∅; recent_requests := []; total_sessions := Z.of_nat (size (active state));
     total_requests := 0; total_errors := 0; active := client_reset now <$> active state |}.

Definition end_session (peer : str) (state : MonitorState F) : MonitorState F :=
  {| active := base.delete peer (active state); methods := methods state;
     recent_requests := recent_requests state; total_sessions := total_sessions state;
     total_requests := total_requests state; total_errors := total_errors state |}.

(** ** The events of a monitor, and the states they lead to *)

Inductive monitor_step : MonitorState F → MonitorState F → Prop :=
| step_session peer now s : monitor_step s (monitor_session peer now s)
| step_record peer method ok d error now s :
    monitor_step s (record_request peer method ok d error now s)
| step_reset now s : monitor_step s (monitor_reset now s)
| step_end peer s : monitor_step s (end_session peer s).
Inductive monitor_reachable : MonitorState F → Prop :=
| reach_default : monitor_reachable monitor_default
| reach_step s s' : monitor_reachable s → monitor_step s s' → monitor_reachable s'.
End monitor.

(** * Properties *)

Section properties.
Context {F : Type} `{MS : !Millis F}.

Definition methods_sum (f : MethodMetrics F → Z) (s : MonitorState F) : Z :=
  sumZ (f <$> (map_to_list (methods s)).*2).

(** The totals are the sums over the methods; windows keep their size. *)
Record monitor_inv (s : MonitorState F) : Prop := {
  mi_requests : total_requests s = methods_sum mm_count s;
  mi_errors : total_errors s = methods_sum mm_errors s;
  mi_metrics m x : methods s !! m = Some x →
    0 ≤ mm_errors x ≤ mm_count x ∧
    Z.of_nat (length (samples_ms x)) = Z.min (mm_count x) (Z.of_nat LATENCY_LIMIT);
  mi_recent : (length (recent_requests s) ≤ RECENT_LIMIT)%nat ∧
    Z.of_nat (length (recent_requests s)) = Z.min (total_requests s) (Z.of_nat RECENT_LIMIT);
  mi_clients p c : active s !! p = Some c → 0 ≤ cl_errors c ≤ cl_requests c;
}.

Lemma methods_sum_insert (f : MethodMetrics F → Z) (m : gmap str (MethodMetrics F)) k x :
  f metrics_default = 0 →
  sumZ (f <$> (map_to_list (<[k := x]> m)).*2) =
  sumZ (f <$> (map_to_list m).*2) + f x - f (default metrics_default (m !! k)).
Proof.
  intros Hf. assert (∀ (m' : gmap str (MethodMetrics F)) y, m' !! k = None →
    sumZ (f <$> (map_to_list (<[k := y]> m')).*2) = f y + sumZ (f <$> (map_to_list m').*2)) as Hins.
  { intros m' y Hn. by rewrite (sumZ_perm _ _ (fmap_Permutation f _ _
      (fmap_Permutation snd _ _ (map_to_list_insert m' k y Hn)))). }
  destruct (m !! k) as [y|] eqn:Ek; cbn [default].
  - rewrite <-(insert_delete_id m k y Ek) at 2. rewrite <-insert_delete_eq.
    rewrite !Hins by apply lookup_delete_eq. unfold id. lia.
  - rewrite Hins by done. lia.
Qed.

Lemma record_request_inv peer method ok d error now s :
  monitor_inv s → monitor_inv (record_request peer method ok d error now s).
Proof.
  intros [Hr He Hm [Hl Hrec] Hc].
  assert (0 ≤ total_requests s) as Hpos by lia.
  split; cbn [record_request total_requests total_errors methods recent_requests active].
  - unfold methods_sum. cbn [record_request methods]. rewrite methods_sum_insert by done.
    fold (methods_sum mm_count s). cbn. lia.
  - unfold methods_sum. cbn [record_request methods]. rewrite methods_sum_insert by done.
    fold (methods_sum mm_errors s). cbn. destruct ok; cbn; lia.
  - intros m x [[<- <-]|[_ Hx]]%lookup_insert_Some; [|by eapply Hm].
    assert (let y := default metrics_default (methods s !! method) in
      0 ≤ mm_errors y ≤ mm_count y ∧
      Z.of_nat (length (samples_ms y)) = Z.min (mm_count y) (Z.of_nat LATENCY_LIMIT)) as Hy.
    { destruct (methods s !! method) as [y|] eqn:Ey; [by apply (Hm method)|]. cbn. lia. }
    cbn [metrics_record mm_errors mm_count samples_ms]. cbv zeta in Hy.
    unfold keep_last. rewrite length_drop, length_app. cbn [length]. destruct ok; cbn; lia.
  - unfold keep_first. rewrite length_take. cbn [length]. unfold RECENT_LIMIT in *. lia.
  - intros p c. destruct (active s !! peer) as [c0|] eqn:Ec; [|by apply Hc].
    intros [[<- <-]|[_ Hp]]%lookup_insert_Some; [|by eapply Hc].
    specialize (Hc _ _ Ec). destruct ok; cbn; lia.
Qed.

Lemma monitor_step_inv s s' : monitor_inv s → monitor_step s s' → monitor_inv s'.
Proof.
  intros Hi Hs. destruct Hs as [peer now s|peer method ok d error now s|now s|peer s].
  - destruct Hi as [Hr He Hm Hl Hc]. split; cbn; try done.
    intros p c [[<- <-]|[_ Hp]]%lookup_insert_Some; [done|by eapply Hc].
  - by apply record_request_inv.
  - split; cbn; try done; [unfold RECENT_LIMIT; lia|].
    intros p c. rewrite lookup_fmap. by intros (c0 & _ & ->)%fmap_Some.
  - destruct Hi as [Hr He Hm Hl Hc]. split; cbn; try done.
    intros p c [_ Hp]%lookup_delete_Some. by eapply Hc.
Qed.

Lemma monitor_reachable_inv s : monitor_reachable s → monitor_inv s.
Proof.
  induction 1 as [|s s' _ IH Hs]; [|by eapply monitor_step_inv].
  split; cbn; try done; [unfold RECENT_LIMIT; lia].
Qed.
End properties.
