(* ===== verification/MonitorSnapshot.v ===== *)
(** * The monitor's snapshot file

    [bindex-electrum/src/monitor.rs]: what a snapshot says, with its
    percentiles, and how it replaces the snapshot file. The file system is the
    contents of its files; each operation may fail, a failing write leaving a
    part of the contents. *)

From S2P Require Import Prelude Text Utf8 Protocol Bitcoind Monitor.

(** The [f64] operations of a snapshot: the quotient of a sum and a count, the
    order [total_cmp], the index [(n as f64 * p).round() as usize] for the two
    percentiles, and a float in JSON. *)
Inductive quantile := P50 | P95.
Class SnapshotFloats (F : Type) := {
  f_average : F → Z → F;
  f_le : relation F;
  f_le_dec :: RelDecision f_le;
  f_index : nat → quantile → nat;
  f_json : F → json;
}.
(** [total_cmp] is a total order; a float factor below one keeps the index in
    range. *)
Class SnapshotFloatsLaws (F : Type) `{SnapshotFloats F} := {
  f_le_trans :: Transitive f_le;
  f_le_total :: Total f_le;
  f_index_le n q : (f_index n q ≤ n)%nat;
}.

(** ** Files *)

(** A path: its directory, and the name of the file in it. *)
Record Path := { directory : str; file_name : str }.
#[export] Instance Path_eq_dec : EqDecision Path.
Proof. solve_decision. Defined.
#[export] Instance Path_countable : Countable Path.
Proof. refine (inj_countable' (λ p, (directory p, file_name p)) (λ '(d, f), Build_Path d f) _). by intros []. Defined.

Definition DOT : Z := 46.
(** The parts of a file name around its last dot; a name that only begins with
    a dot has no extension. *)
Definition stem_extension (p : Path) : str * option str :=
  match rsplit_once DOT (file_name p) with
  | Some ([], _) | None => (file_name p, None)
  | Some (stem, ext) => (stem, Some ext)
  end.
(** [Path::with_extension]. *)
Definition with_extension (p : Path) (ext : str) : Path :=
  {| directory := directory p; file_name := (stem_extension p).1 ++ DOT :: ext |}.

Abbreviation FileSystem := (gmap Path bytes).
(** How an operation on a file ends: done, or failed, for a write with what it
    left in the file. *)
Inductive io_fate := IoDone | IoFailed (left : option bytes).

Definition fs_write (fate : io_fate) (p : Path) (data : bytes) (fs : FileSystem) : bool * FileSystem :=
  match fate with
  | IoDone => (true, <[p := data]> fs)
  | IoFailed (Some part) => (false, <[p := part]> fs)
  | IoFailed None => (false, fs)
  end.
(** [rename] replaces the target at once; without a source it fails. *)
Definition fs_rename (fate : io_fate) (p q : Path) (fs : FileSystem) : bool * FileSystem :=
  match fate, fs !! p with
  | IoDone, Some data => (true, <[q := data]> (base.delete p fs))
  | _, _ => (false, fs)
  end.

(** The temporary file next to the snapshot. *)
Definition tmp_path (p : Path) : Path :=
  with_extension p (default (lit "json") ((stem_extension p).2 ≫= from_utf8) ++ lit ".tmp").
Definition write_atomic (fates : io_fate * io_fate) (p : Path) (data : bytes) (fs : FileSystem)
    : bool * FileSystem :=
  let '(ok, fs) := fs_write fates.1 (tmp_path p) data fs in
  if ok then fs_rename fates.2 (tmp_path p) p fs else (false, fs).

(** ** Snapshots *)

Record MethodSnapshot (F : Type) := {
  ms_method : str; ms_count : Z; ms_errors : Z; ms_avg : F; ms_p50 : F; ms_p95 : F; ms_max : F;
}.
Arguments Build_MethodSnapshot {F} _ _ _ _ _ _ _.
Arguments ms_method {F} _.
Arguments ms_count {F} _.
Arguments ms_errors {F} _.
Arguments ms_avg {F} _.
Arguments ms_p50 {F} _.
Arguments ms_p95 {F} _.
Arguments ms_max {F} _.
Record Snapshot (F : Type) := {
  sn_started_at : Z; sn_updated_at : Z; sn_uptime_secs : Z; sn_active_sessions : Z;
  sn_total_sessions : Z; sn_total_requests : Z; sn_total_errors : Z;
  sn_methods : list (MethodSnapshot F); sn_clients : list (str * ClientMetrics);
  sn_recent : list (RequestSample F);
}.
Arguments Build_Snapshot {F} _ _ _ _ _ _ _ _ _ _.
Arguments sn_active_sessions {F} _.
Arguments sn_total_sessions {F} _.
Arguments sn_total_requests {F} _.
Arguments sn_total_errors {F} _.
Arguments sn_methods {F} _.
Arguments sn_clients {F} _.
Arguments sn_recent {F} _.

Section snapshot.
Context {F : Type} `{MS : !Millis F, SF : !SnapshotFloats F}.

(** [sorted[index]] panics out of range. *)
Definition percentile {E} (sorted : list F) (q : quantile) : outcome E F :=
  match sorted with
  | [] => Ok f_zero
  | _ => expect "index out of bounds" (sorted !! f_index (length sorted - 1) q)
  end.

Definition method_snapshot {E} (entry : str * MethodMetrics F) : outcome E (MethodSnapshot F) :=
  let m := entry.2 in
  let samples := sort_by f_le id (samples_ms m) in
  p50 ← percentile samples P50;
  p95 ← percentile samples P95;
  mret {| ms_method := entry.1; ms_count := mm_count m; ms_errors := mm_errors m;
          ms_avg := if mm_count m =? 0 then f_zero else f_average (total_ms m) (mm_count m);
          ms_p50 := p50; ms_p95 := p95; ms_max := max_ms m |}.

(** A [BTreeMap] is read in the order of its keys. *)
Definition by_name {A} (m : gmap str A) : list (str * A) := sort_by bytes_le fst (map_to_list m).

Definition snapshot {E} (started_unix now uptime : Z) (state : MonitorState F) : outcome E (Snapshot F) :=
  methods ← mapM method_snapshot (by_name (methods state));
  mret {| sn_started_at := started_unix; sn_updated_at := now; sn_uptime_secs := uptime;
          sn_active_sessions := Z.of_nat (size (active state));
          sn_total_sessions := total_sessions state; sn_total_requests := total_requests state;
          sn_total_errors := total_errors state;
          sn_methods := sort_by Z.ge ms_count methods;
          sn_clients := by_name (active state); sn_recent := recent_requests state |}.

(** *** The derived serializers *)

Definition json_opt (s : option str) : json := from_option JString JNull s.
Definition method_snapshot_json (m : MethodSnapshot F) : json :=
  JObject [(lit "method", JString (ms_method m)); (lit "count", JNumber (ms_count m));
           (lit "errors", JNumber (ms_errors m)); (lit "avg_ms", f_json (ms_avg m));
           (lit "p50_ms", f_json (ms_p50 m)); (lit "p95_ms", f_json (ms_p95 m));
           (lit "max_ms", f_json (ms_max m))].
Definition client_snapshot_json (e : str * ClientMetrics) : json :=
  let c := e.2 in
  JObject [(lit "peer", JString e.1); (lit "connected_at", JNumber (connected_at c));
           (lit "last_seen_at", JNumber (last_seen_at c)); (lit "requests", JNumber (cl_requests c));
           (lit "errors", JNumber (cl_errors c)); (lit "last_method", json_opt (last_method c));
           (lit "last_error", json_opt (last_error c))].
Definition request_snapshot_json (r : RequestSample F) : json :=
  JObject [(lit "time", JNumber (rs_unix _ r)); (lit "peer", JString (rs_peer _ r));
           (lit "method", JString (rs_method _ r)); (lit "ok", JBool (rs_ok _ r));
           (lit "duration_ms", f_json (rs_duration_ms _ r)); (lit "error", json_opt (rs_error _ r))].
Definition snapshot_json (s : Snapshot F) : json :=
  JObject [(lit "ok", JBool true); (lit "started_at", JNumber (sn_started_at _ s));
           (lit "updated_at", JNumber (sn_updated_at _ s));
           (lit "uptime_secs", JNumber (sn_uptime_secs _ s));
           (lit "active_sessions", JNumber (sn_active_sessions s));
           (lit "total_sessions", JNumber (sn_total_sessions s));
           (lit "total_requests", JNumber (sn_total_requests s));
           (lit "total_errors", JNumber (sn_total_errors s));
           (lit "methods", JArray (method_snapshot_json <$> sn_methods s));
           (lit "clients", JArray (client_snapshot_json <$> sn_clients s));
           (lit "recent", JArray (request_snapshot_json <$> sn_recent s))].

(** ** The monitor *)

Context `{JT : !JsonText}.

Record MonitorFile := { mf_path : Path; mf_started_unix : Z }.

(** [write_snapshot] at the times given, with the fate of the two operations. *)
Definition write_snapshot (self : MonitorFile) (now uptime : Z) (fates : io_fate * io_fate)
    (state : MonitorState F) (fs : FileSystem) : outcome () () * FileSystem :=
  match snapshot (mf_started_unix self) now uptime state with
  | Ok s =>
      let '(ok, fs) := write_atomic fates (mf_path self) (json_to_string (snapshot_json s)) fs in
      (if ok then Ok tt else Err tt, fs)
  | Err e => (Err e, fs)
  | Panic m => (Panic m, fs)
  end.
(** An error is logged. *)
Definition write_snapshot_best_effort (self : MonitorFile) (now uptime : Z) (fates : io_fate * io_fate)
    (state : MonitorState F) (fs : FileSystem) : outcome () () * FileSystem :=
  let '(r, fs) := write_snapshot self now uptime fates state fs in
  (match r with Err _ => Ok tt | r => r end, fs).
(** [Monitor::new], the directory exists. *)
Definition monitor_new (path : Path) (now : Z) (fates : io_fate * io_fate) (fs : FileSystem)
    : outcome () MonitorFile * FileSystem :=
  let self := {| mf_path := path; mf_started_unix := now |} in
  let '(r, fs) := write_snapshot self now 0 fates (monitor_default (F := F)) fs in
  ((λ _, self) <$> r, fs).
End snapshot.

(** * Properties *)

(** ** Files *)

Lemma rsplit_once_app c s a b : rsplit_once c s = Some (a, b) → s = a ++ c :: b.
Proof. unfold rsplit_once. intros (i & (H & _)%rfind_byte_Some & [= <- <-])%bind_Some. exact H. Qed.

Lemma tmp_path_ne p : tmp_path p ≠ p.
Proof.
  intros H. apply (f_equal file_name) in H. revert H. unfold tmp_path, with_extension, stem_extension.
  destruct (rsplit_once DOT (file_name p)) as [[[|c stem] ext]|] eqn:E;
    cbn [fst snd default file_name mbind option_bind].
  1, 3: intros H; apply (f_equal length) in H; rewrite length_app in H; cbn in H; lia.
  apply rsplit_once_app in E. rewrite E. cbn. intros [= H]. simplify_list_eq.
  unfold from_utf8 in H. destruct (forallb _ _) eqn:Hv; cbn in H.
  - apply (f_equal length) in H. rewrite length_app in H. cbn in H. lia.
  - subst ext. vm_compute in Hv. done.
Qed.

(** Whatever fails, the file holds its old contents or all of the new, also
    between the two operations; only it and its temporary file change. *)
Lemma write_atomic_ok fates p data fs ok fs' :
  write_atomic fates p data fs = (ok, fs') →
  (if ok then fs' !! p = Some data else fs' !! p = fs !! p) ∧
  (fs_write fates.1 (tmp_path p) data fs).2 !! p = fs !! p ∧
  ∀ q, q ≠ p → q ≠ tmp_path p → fs' !! q = fs !! q.
Proof.
  pose proof (tmp_path_ne p) as Hne. unfold write_atomic. destruct fates as [f1 f2]. cbn [fst snd].
  assert (∀ ok1 fs1, fs_write f1 (tmp_path p) data fs = (ok1, fs1) →
    (ok1 = true → fs1 !! tmp_path p = Some data) ∧ ∀ q, q ≠ tmp_path p → fs1 !! q = fs !! q) as Hw.
  { intros ok1 fs1. destruct f1 as [|[part|]]; intros [= <- <-].
    - split; [intros _; apply lookup_insert_eq|]. intros. by rewrite lookup_insert_ne.
    - split; [done|]. intros. by rewrite lookup_insert_ne.
    - done. }
  destruct (fs_write f1 (tmp_path p) data fs) as [ok1 fs1]. cbn [snd].
  destruct (Hw ok1 fs1 eq_refl) as [Ht Ho]. destruct ok1.
  - unfold fs_rename. destruct f2 as [|l].
    + rewrite (Ht eq_refl). intros [= <- <-]. split; [apply lookup_insert_eq|]. split; [by apply Ho|].
      intros q H1 H2. by rewrite lookup_insert_ne, lookup_delete_ne, Ho.
    + intros [= <- <-]. auto.
  - intros [= <- <-]. auto.
Qed.

(** ** Percentiles *)

Section properties.
Context {F : Type} `{MS : !Millis F, SF : !SnapshotFloats F, SL : !SnapshotFloatsLaws F}.

(** [x] is the element of [l] that the index of the quantile selects: it splits
    the others into those not above it and those not below it. *)
Definition quantile_of (l : list F) (q : quantile) (x : F) : Prop :=
  ∃ below above, l ≡ₚ below ++ x :: above ∧ length below = f_index (length l - 1) q ∧
    Forall (λ y, f_le y x) below ∧ Forall (f_le x) above.

Lemma percentile_ok {E} (l : list F) q :
  ∃ x, percentile (E := E) (sort_by f_le id l) q = Ok x ∧
    (l = [] ∧ x = f_zero ∨ quantile_of l q x).
Proof using SL.
  pose proof (sort_by_perm f_le id l) as Hp.
  pose proof (sort_by_sorted f_le id l f_le_trans f_le_total) as Hs. rewrite list_fmap_id in Hs.
  set (s := sort_by f_le id l) in *. destruct l as [|y l].
  { apply Permutation_nil_r in Hp. rewrite Hp. cbn. eauto. }
  pose proof (Permutation_length Hp) as Hlen. pose proof (f_index_le (length s - 1) q) as Hi.
  destruct (lookup_lt_is_Some_2 s (f_index (length s - 1) q)) as [x Hx].
  { cbn [length] in Hlen. lia. }
  exists x. unfold percentile. split; [destruct s; [done|by rewrite Hx]|]. right.
  exists (take (f_index (length s - 1) q) s), (drop (S (f_index (length s - 1) q)) s).
  pose proof (take_drop_middle _ _ _ Hx) as Htd. rewrite <-Htd in Hs.
  apply StronglySorted_app in Hs as (Hlt & _ & Hs). apply StronglySorted_inv in Hs as [_ Hs].
  split_and!; [by rewrite Htd| |apply Forall_forall; intros; apply Hlt; [done|left]|done].
  rewrite <-Hlen, length_take. cbn [length] in *. lia.
Qed.

(** ** Snapshots *)

Record method_row (name : str) (x : MethodMetrics F) (m : MethodSnapshot F) : Prop := {
  mr_name : ms_method m = name;
  mr_count : ms_count m = mm_count x;
  mr_errors : ms_errors m = mm_errors x;
  mr_max : ms_max m = max_ms x;
  mr_avg : ms_avg m = if mm_count x =? 0 then f_zero else f_average (total_ms x) (mm_count x);
  mr_p50 : samples_ms x = [] ∧ ms_p50 m = f_zero ∨ quantile_of (samples_ms x) P50 (ms_p50 m);
  mr_p95 : samples_ms x = [] ∧ ms_p95 m = f_zero ∨ quantile_of (samples_ms x) P95 (ms_p95 m);
}.

Lemma method_snapshot_ok {E} name x :
  ∃ m, method_snapshot (E := E) (name, x) = Ok m ∧ method_row name x m.
Proof using SL.
  unfold method_snapshot. cbn [fst snd].
  destruct (percentile_ok (E := E) (samples_ms x) P50) as (p50 & -> & H50).
  destruct (percentile_ok (E := E) (samples_ms x) P95) as (p95 & Hp & H95). osimpl. rewrite Hp. osimpl.
  eexists. split; [done|]. by split.
Qed.

Lemma by_name_perm {A} (m : gmap str A) : by_name m ≡ₚ map_to_list m.
Proof using Type. apply sort_by_perm. Qed.

(** A snapshot can always be taken. It has the totals, one row for each method,
    by falling count, and one for each client. *)
Lemma snapshot_ok {E} started now uptime (state : MonitorState F) :
  ∃ s, snapshot (E := E) started now uptime state = Ok s ∧
    sn_total_requests s = total_requests state ∧ sn_total_errors s = total_errors state ∧
    sn_total_sessions s = total_sessions state ∧ sn_recent s = recent_requests state ∧
    sn_clients s ≡ₚ map_to_list (active state) ∧
    StronglySorted Z.ge (ms_count <$> sn_methods s) ∧
    ∃ rows, rows ≡ₚ sn_methods s ∧
      Forall2 (λ (e : str * MethodMetrics F) m, method_row e.1 e.2 m) (by_name (methods state)) rows.
Proof using SL.
  unfold snapshot.
  assert (∃ rows, mapM (M := outcome E) method_snapshot (by_name (methods state)) = Ok rows ∧
    Forall2 (λ (e : str * MethodMetrics F) m, method_row e.1 e.2 m) (by_name (methods state)) rows)
    as (rows & -> & Hrows).
  { induction (by_name (methods state)) as [|[name x] l (rows & Hm & IH)]; [by exists []|].
    destruct (method_snapshot_ok (E := E) name x) as (m & Hx & Hr). exists (m :: rows). cbn [mapM].
    rewrite Hx. osimpl. rewrite Hm. osimpl. split; [done|by constructor]. }
  osimpl. eexists. split; [done|]. cbn. split_and!; try done.
  - apply by_name_perm.
  - apply sort_by_sorted; [intros ???; lia|intros ??; lia].
  - exists rows. split; [|done]. symmetry. apply sort_by_perm.
Qed.

(** In a reachable state the counts of the rows add up to the totals. *)
Lemma snapshot_sums started now uptime (state : MonitorState F) (s : Snapshot F) :
  monitor_inv state → snapshot (E := ()) started now uptime state = Ok s →
  sumZ (ms_count <$> sn_methods s) = sn_total_requests s ∧
  sumZ (ms_errors <$> sn_methods s) = sn_total_errors s.
Proof using SL.
  intros Hi Hs. destruct (snapshot_ok (E := ()) started now uptime state)
    as (s' & Hs' & Hr & He & _ & _ & _ & _ & rows & Hp & Hrows).
  rewrite Hs in Hs'. injection Hs' as <-. rewrite Hr, He, (mi_requests _ Hi), (mi_errors _ Hi).
  unfold methods_sum. rewrite <-!(sumZ_perm _ _ (fmap_Permutation _ _ _ Hp)).
  rewrite <-!(sumZ_perm _ _ (fmap_Permutation _ _ _ (fmap_Permutation snd _ _ (by_name_perm _)))).
  clear -Hrows. induction Hrows as [|[name x] m l rows Hm _ [IH1 IH2]]; [done|].
  destruct Hm as [_ Hc He _ _ _ _]. cbn in *. lia.
Qed.
End properties.
