(* ===== verification/Server.v ===== *)
(** * The Electrum server

    [bindex-electrum/src/server.rs] and [session.rs] (Bitcoin format): the
    methods a client can call, the notifications it is owed, and where its
    transactions are broadcast. A handler runs on the state of one session; what
    runs beside it (the tasks are in [Tasks]) is in [interfere] and in the
    mempool it finds at each synchronization point.
    JSON is built as a value; its text is the serializer's. *)

From S2P Require Import Prelude External Text Utf8 Index Fmt Headers Batch Store Client Chain.
From S2P Require Import Merkle Protocol Mempool CoreRest ScriptFold Adapter TorPush Config Bitcoind.
From S2P Require Import Monitor.

(** ** Sessions *)

Record ScriptState := { ss_confirmed : ScriptHistory; ss_status : option str }.
Record Session := {
  negotiated_protocol : ProtocolVersion;
  header_subscribed : bool;
  last_header : option HeaderNotification;
  checked_tip : option HeaderNotification;
  scripthashes : gmap ElectrumScripthash ScriptState;
  peers_seen : gset str;
}.
Definition session_new (protocol : ProtocolVersion) : Session :=
  {| negotiated_protocol := protocol; header_subscribed := false; last_header := None;
     checked_tip := None; scripthashes := ∅; peers_seen := ∅ |}.

(** [Changes]: the tip and the counter of mempool changes. *)
Record Changes := { ch_tip : option HeaderNotification; ch_mempool : Z }.
#[export] Instance HeaderNotification_eq_dec : EqDecision HeaderNotification.
Proof. solve_decision. Defined.

(** Both onion endpoints. *)
Record TorTargets := { tor_tx : PushTarget; tor_package : PushTarget }.

(** [Server::new]: where broadcasts go is fixed when the server starts. *)
Definition server_tor_push (config : Config) : outcome config_error (option TorTargets) :=
  match broadcast_via config with
  | ViaTor =>
      tx ← tor_broadcast_target config;
      package ← tor_package_target config;
      mret (Some {| tor_tx := tx; tor_package := package |})
  | ViaBitcoind => mret None
  end.

(** [Txid::from_str]. *)
Class TxidParse := { txid_from_str : str → option hash32 }.

(** What happens around a push: the time limit, the connection to the proxy
    and the credentials' ingredients. *)
Record PushEnv := { pe_timeout : bool; pe_conn : option Conn; pe_iso : Isolation }.

(** What a session's handler works on; [pr_pushed] is what was written to the
    connections of its pushes. *)
Record Peer (S W F : Type) := {
  pr_session : Session;
  pr_monitor : MonitorState F;
  pr_world : World S W;
  pr_pushed : list (list bytes);
}.
Arguments Build_Peer {S W F} _ _ _ _.
Arguments pr_session {S W F} _.
Arguments pr_monitor {S W F} _.
Arguments pr_world {S W F} _.
Arguments pr_pushed {S W F} _.

Inductive outgoing :=
| OutSingle (r : Response)
| OutBatch (rs : list Response).

(** ** Parameters of requests *)

Section params.
Context `{TP : !TxidParse, HX : !Hex}.

(** [Value::as_i64], [as_bool] and [as_array]. *)
Definition as_i64_value (v : json) : option Z :=
  match v with
  | JNumber n => if (- 2 ^ 63 <=? n) && (n <? 2 ^ 63) then Some n else None
  | _ => None
  end.
Definition as_bool (v : json) : option bool := match v with JBool b => Some b | _ => None end.
Definition as_array (v : json) : option (list json) :=
  match v with JArray vs => Some vs | _ => None end.

Definition parse_scripthash (params : Params) : outcome protocol_error ElectrumScripthash :=
  s ← string_param params 0 (lit "scripthash"); esh_parse s.

Definition integer_param (params : Params) (index : nat) (name : str) : outcome protocol_error Z :=
  values ← params_array params;
  ok_or (InvalidParams (lit "missing integer param " ++ name)) (values !! index ≫= as_i64_value).
Definition nonnegative_integer_param (params : Params) (index : nat) (name : str)
    : outcome protocol_error Z :=
  value ← integer_param params index name;
  if value <? 0 then Err (InvalidParams (name ++ lit " must be non-negative")) else mret value.
Definition optional_integer_param (params : Params) (index : nat) : outcome protocol_error Z :=
  values ← params_array params; mret (default 0 (values !! index ≫= as_i64_value)).
Definition optional_bool_param (params : Params) (index : nat) : outcome protocol_error bool :=
  values ← params_array params; mret (default false (values !! index ≫= as_bool)).
Definition txid_param (params : Params) (index : nat) : outcome protocol_error hash32 :=
  s ← string_param params index (lit "txid");
  ok_or (InvalidParams (lit "invalid txid")) (txid_from_str s).

(** [i64 as usize] *)
Definition as_usize (z : Z) : Z := wrap64 z.
End params.

(** ** Values *)

Definition jfield (name : string) (v : json) : str * json := (lit name, v).
Definition jopt (name : string) (v : option json) : list (str * json) :=
  match v with Some v => [jfield name v] | None => [] end.

Definition header_json (h : HeaderNotification) : json :=
  JObject [jfield "height" (JNumber (hn_height h)); jfield "hex" (JString (hn_hex h))].
Definition block_headers_json (b : BlockHeaders) : json :=
  JObject ([jfield "count" (JNumber (bh_count b)); jfield "hex" (JString (bh_hex b))] ++
           jopt "max" (JNumber <$> bh_max b) ++
           jopt "branch" ((λ bs, JArray (JString <$> bs)) <$> bh_branch b) ++
           jopt "root" (JString <$> bh_root b)).
Definition history_entry_json (e : HistoryEntry) : json :=
  JObject ([jfield "tx_hash" (JString (he_tx_hash e)); jfield "height" (JNumber (he_height e))] ++
           jopt "fee" (JNumber <$> he_fee e)).
Definition mempool_entry_json (e : MempoolEntry) : json :=
  JObject [jfield "tx_hash" (JString (me_tx_hash e)); jfield "height" (JNumber (me_height e));
           jfield "fee" (JNumber (me_fee e))].
Definition status_json (status : option str) : json :=
  match status with Some s => JString s | None => JNull end.

(** A server-to-client notification: a request with no id. *)
Definition notification (method : str) (params : json) : json :=
  JObject [jfield "jsonrpc" (JString (lit "2.0")); jfield "method" (JString method);
           jfield "params" params].

Definition server_features `{HT : !HashText} (genesis_hash : hash32) (min max : ProtocolVersion) : json :=
  JObject [jfield "genesis_hash" (JString (hash_to_string genesis_hash));
           jfield "hosts" (JObject []);
           jfield "protocol_min" (JString (version_to_string min));
           jfield "protocol_max" (JString (version_to_string max));
           jfield "server_version" (JString VERSION);
           jfield "hash_function" (JString (lit "sha256"))].

Section values.
Context `{HX : !Hex, TT : !TxidText, HT : !HashText, HS : !Hashes}.

Definition tx_value (raw : bytes) (verbose : bool) : json :=
  if verbose then JObject [jfield "hex" (JString (hex_encode raw))] else JString (hex_encode raw).

Definition merkle_fields (height : Z) (txids : list hash32) (pos : nat)
    : outcome protocol_error (list (str * json)) :=
  proof ← branch_and_root txids pos;
  mret [jfield "block_height" (JNumber height);
        jfield "merkle" (JArray (JString ∘ hash_to_string <$> branch proof));
        jfield "pos" (JNumber (Z.of_nat pos))].

(** Confirmed transactions in chain order, then the mempool's. *)
Definition server_history (confirmed : ScriptHistory) (mempool : ScriptMempool)
    : list HistoryEntry :=
  ((λ row, {| he_tx_hash := txid_to_string (shr_txid row); he_height := shr_height row;
              he_fee := None |}) <$> sh_rows confirmed) ++
  ((λ e, {| he_tx_hash := me_tx_hash e; he_height := me_height e; he_fee := Some (me_fee e) |})
     <$> sm_entries mempool).

Definition utxo_json (txid : hash32) (vout height value : Z) : json :=
  JObject [jfield "tx_hash" (JString (txid_to_string txid)); jfield "tx_pos" (JNumber vout);
           jfield "height" (JNumber height); jfield "value" (JNumber value)].

(** Confirmed outputs in chain order, less those the mempool spends, then the
    mempool's own. *)
Definition unspent_json (confirmed : ScriptHistory) (mempool : ScriptMempool) : list json :=
  let utxos := filter (λ u, su_outpoint u ∉ spent_confirmed mempool) (sh_utxos confirmed) in
  let utxos := sort_by (lex_le Z.lt (lex_le Z.lt Z.le))
                 (λ u, (su_height u, (su_position u, op_vout (su_outpoint u)))) utxos in
  ((λ u, utxo_json (op_txid (su_outpoint u)) (op_vout (su_outpoint u)) (su_height u) (su_value u))
     <$> utxos) ++
  ((λ o : OutPoint * Z, utxo_json (op_txid o.1) (op_vout o.1) 0 o.2) <$> sm_utxos mempool).
End values.

(** ** The handlers *)

Section server.
Context {S W F : Type} `{HS : !Hashes, HX : !Hex, HT : !HashText, ST : !ScriptHashText,
  TT : !TxidText, TP : !TxidParse, SO : !ScriptOps, VI : !VarInt, SL : !Slices, CS : !Consensus,
  RD : !RocksDB S, HA : !HttpAgent W, RH : !RawHeaders S W, RA : !RpcAgent W, FS : !Files, JT : !JsonText,
  JF : !JsonFloats, SD : !Serde, MS : !Millis F}.
Context (config : Config) (rpc : RpcClient) (tor_push : option TorTargets).
(** The texts of errors, and the serializer's text of a list of strings. *)
Context (adapter_error_text : adapter_error slices_error → str) (rpc_error_text : rpc_error → str)
  (tor_error_text : tor_error → str) (version_error_text : version_error → str)
  (protocol_error_text : protocol_error → str) (strings_to_vec : list str → bytes).
(** What runs beside the handler, by synchronization point. *)
Context (interfere : nat → Adapter S → Adapter S) (mempool_at : nat → MempoolIndex)
  (push_env : nat → PushEnv) (mode : overflow_mode) (now : nat → Z) (elapsed : nat → F).

Abbreviation PW := (Peer S W F).
Abbreviation M := (stM PW protocol_error).

Definition with_session (s : Session) (p : PW) : PW :=
  {| pr_session := s; pr_monitor := pr_monitor p; pr_world := pr_world p; pr_pushed := pr_pushed p |}.
Definition with_monitor (m : MonitorState F) (p : PW) : PW :=
  {| pr_session := pr_session p; pr_monitor := m; pr_world := pr_world p; pr_pushed := pr_pushed p |}.
Definition with_world (w : World S W) (p : PW) : PW :=
  {| pr_session := pr_session p; pr_monitor := pr_monitor p; pr_world := w; pr_pushed := pr_pushed p |}.

Definition get_session {E} : stM PW E Session := λ p, (Ok (pr_session p), p).
Definition put_session {E} (s : Session) : stM PW E () := λ p, (Ok tt, with_session s p).

(** Calls to the adapter and to the node, with errors as server errors. *)
Definition on_world {E A} (m : stM (World S W) E A) : stM PW E A := λ p,
  let '(r, w) := m (pr_world p) in (r, with_world w p).
Definition adapter {A} (m : stM (World S W) (adapter_error slices_error) A) : M A :=
  st_map_err (λ e, ServerError (adapter_error_text e)) (on_world m).
Definition node_rpc {A} (m : stM W rpc_error A) : M A :=
  st_map_err (λ e, ServerError (rpc_error_text e))
    (on_world (λ w, let '(r, n) := m (wd_node w) in
                    (r, {| wd_adapter := wd_adapter w; wd_tick := wd_tick w; wd_node := n |}))).

(** [self.state.mempool.read()]: the index as other tasks left it. *)
Definition read_mempool {E} : stM PW E MempoolIndex :=
  on_world (λ w, let w := next_tick interfere w in (Ok (mempool_at (wd_tick w)), w)).

(** The deadline of these queries never expires. *)
Definition never : nat → bool := λ _, false.

Definition confirmed (scripthash : ElectrumScripthash) : M ScriptHistory :=
  adapter (script_history interfere never scripthash).

Definition mempool_view {E} (scripthash : ElectrumScripthash) (confirmed : ScriptHistory)
    : stM PW E ScriptMempool :=
  mempool ← read_mempool;
  mret (script_view mempool scripthash
          ((λ u, (su_outpoint u, su_value u)) <$> sh_utxos confirmed)
          (list_to_set (shr_txid <$> sh_rows confirmed))).

Definition script_status {E} (scripthash : ElectrumScripthash) (confirmed : ScriptHistory)
    : stM PW E (option str) :=
  mempool ← mempool_view scripthash confirmed;
  mret (scripthash_status (server_history confirmed mempool)).

(** *** Script methods *)

Definition scripthash_history (params : Params) : M json :=
  scripthash ← st_lift (parse_scripthash params);
  confirmed ← confirmed scripthash;
  mempool ← mempool_view scripthash confirmed;
  mret (JArray (history_entry_json <$> server_history confirmed mempool)).

Definition scripthash_balance (params : Params) : M json :=
  scripthash ← st_lift (parse_scripthash params);
  confirmed ← confirmed scripthash;
  mempool ← mempool_view scripthash confirmed;
  let balance := wrap64 (sumZ (su_value <$> sh_utxos confirmed)) in
  mret (JObject [jfield "confirmed" (JNumber balance);
                 jfield "unconfirmed" (JNumber (balance_delta mempool))]).

Definition scripthash_listunspent (params : Params) : M json :=
  scripthash ← st_lift (parse_scripthash params);
  confirmed ← confirmed scripthash;
  mempool ← mempool_view scripthash confirmed;
  mret (JArray (unspent_json confirmed mempool)).

Definition scripthash_mempool (params : Params) : M json :=
  scripthash ← st_lift (parse_scripthash params);
  confirmed ← confirmed scripthash;
  mempool ← mempool_view scripthash confirmed;
  mret (JArray (mempool_entry_json <$> sm_entries mempool)).

Definition with_scripthashes (m : gmap ElectrumScripthash ScriptState) (s : Session) : Session :=
  {| negotiated_protocol := negotiated_protocol s; header_subscribed := header_subscribed s;
     last_header := last_header s; checked_tip := checked_tip s; scripthashes := m;
     peers_seen := peers_seen s |}.

Definition scripthash_subscribe (params : Params) : M json :=
  scripthash ← st_lift (parse_scripthash params);
  session ← get_session;
  if bool_decide (scripthashes session !! scripthash = None) &&
     (max_subscriptions_per_session config <=? Z.of_nat (size (scripthashes session)))
  then st_lift (Err (ServerError (lit "subscription limit exceeded")))
  else
    confirmed ← confirmed scripthash;
    status ← script_status scripthash confirmed;
    session ← get_session;
    _ ← put_session (with_scripthashes
          (<[scripthash := {| ss_confirmed := confirmed; ss_status := status |}]>
             (scripthashes session)) session);
    mret (status_json status).

Definition scripthash_unsubscribe (params : Params) : M json :=
  scripthash ← st_lift (parse_scripthash params);
  session ← get_session;
  _ ← put_session (with_scripthashes (base.delete scripthash (scripthashes session)) session);
  mret (JBool (bool_decide (is_Some (scripthashes session !! scripthash)))).

(** *** Transactions *)

Definition transaction_get (params : Params) : M json :=
  txid ← st_lift (txid_param params 0);
  verbose ← st_lift (optional_bool_param params 1);
  mempool ← read_mempool;
  match raw_transaction mempool txid with
  | Some raw => mret (tx_value raw verbose)
  | None =>
      located ← adapter (located_transaction_by_txid interfere txid);
      located ← st_lift (ok_or (ServerError (lit "transaction not found")) located);
      mret (if verbose : bool then
              JObject [jfield "hex" (JString (hex_encode (lt_raw located)));
                       jfield "txid" (JString (txid_to_string txid));
                       jfield "height" (JNumber (lt_height located));
                       jfield "blockhash" (JString (lt_block_hash located));
                       jfield "confirmations" (JNumber (lt_confirmations located));
                       jfield "position" (JNumber (lt_position located))]
            else tx_value (lt_raw located) verbose)
  end.

Definition transaction_get_merkle (params : Params) : M json :=
  txid ← st_lift (txid_param params 0);
  height ← st_lift (nonnegative_integer_param params 1 (lit "height"));
  txids ← adapter (block_txids interfere (as_usize height));
  pos ← st_lift (ok_or (ServerError (lit "transaction not found in block"))
                   (position (λ item, bool_decide (item = txid)) txids));
  fields ← st_lift (merkle_fields (as_usize height) txids pos);
  mret (JObject fields).

Definition transaction_id_from_pos (params : Params) : M json :=
  height ← st_lift (nonnegative_integer_param params 0 (lit "height"));
  pos ← st_lift (nonnegative_integer_param params 1 (lit "tx_pos"));
  include_merkle ← st_lift (optional_bool_param params 2);
  txids ← adapter (block_txids interfere (as_usize height));
  txid ← st_lift (ok_or (InvalidParams (lit "tx_pos out of range")) (txids !! Z.to_nat pos));
  if include_merkle : bool then
    fields ← st_lift (merkle_fields (as_usize height) txids (Z.to_nat pos));
    mret (JObject (fields ++ [jfield "tx_hash" (JString (txid_to_string txid))]))
  else mret (JString (txid_to_string txid)).

(** A push on a connection of its own. *)
Definition tor {A} (f : PushEnv → outcome tor_error A * list bytes) : M A := λ p,
  let w := next_tick interfere (pr_world p) in
  let '(r, sent) := f (push_env (wd_tick w)) in
  (map_err (λ e, ServerError (tor_error_text e)) r,
   {| pr_session := pr_session p; pr_monitor := pr_monitor p; pr_world := w;
      pr_pushed := pr_pushed p ++ [sent] |}).

Definition broadcast (raw_tx_hex : str) : M json :=
  match tor_push with
  | None => txid ← node_rpc (rpc_broadcast rpc raw_tx_hex); mret (JString txid)
  | Some targets =>
      raw ← st_lift (ok_or (InvalidParams (lit "raw_tx must be hex")) (hex_decode raw_tx_hex));
      id ← st_lift (map_err (λ _, InvalidParams (lit "raw_tx is not a valid transaction"))
                      (txid raw));
      _ ← tor (λ env, push_tx mode (pe_timeout env) (pe_conn env) (pe_iso env) (tor_tx targets)
                        raw_tx_hex);
      mret (JString (txid_to_string id))
  end.

Definition broadcast_package (raw_txs : list str) : M json :=
  match tor_push with
  | Some targets =>
      tor (λ env, push_package strings_to_vec mode (pe_timeout env) (pe_conn env) (pe_iso env)
                    (tor_package targets) raw_txs)
  | None => node_rpc (rpc_broadcast_package rpc raw_txs)
  end.

(** The array of transactions of [broadcast_package]. *)
Definition package_param (params : Params) : outcome protocol_error (list str) :=
  values ← params_array params;
  values ← ok_or (InvalidParams (lit "raw transaction array required")) (head values ≫= as_array);
  mapM (λ v, ok_or (InvalidParams (lit "raw transaction must be hex")) (as_str v)) values.

(** *** The server *)

Definition range_version (v : json) (what : str) : outcome protocol_error ProtocolVersion :=
  s ← ok_or (InvalidParams what) (as_str v);
  map_err (λ e, InvalidParams (version_error_text e)) (version_from_str s).

(** The client's range of versions. *)
Definition client_range (params : Params)
    : outcome protocol_error (option ProtocolVersion * option ProtocolVersion) :=
  values ← params_array params;
  match values !! 1%nat with
  | Some (JArray [min; max]) =>
      min ← range_version min (lit "protocol min must be string");
      max ← range_version max (lit "protocol max must be string");
      mret (Some min, Some max)
  | Some (JString _) => max ← optional_protocol_param version_error_text params 1; mret (None, max)
  | None => mret (None, None)
  | _ => Err (InvalidParams (lit "protocol version must be string or [min, max]"))
  end.

Definition server_version (params : Params) : M json :=
  range ← st_lift (client_range params);
  negotiated ← st_lift (ok_or (ServerError (lit "unsupported protocol version"))
                  (negotiate range.1 range.2 (protocol_min config) (protocol_max config)));
  session ← get_session;
  _ ← put_session {| negotiated_protocol := negotiated;
                     header_subscribed := header_subscribed session;
                     last_header := last_header session; checked_tip := checked_tip session;
                     scripthashes := scripthashes session; peers_seen := peers_seen session |};
  mret (JArray [JString (lit "bindex-electrum"); JString (version_to_string negotiated)]).

Definition features : M json :=
  genesis ← adapter (ad_genesis_hash interfere);
  genesis ← st_lift (ok_or (ServerError (lit "chain has no genesis header")) genesis);
  mret (server_features genesis (protocol_min config) (protocol_max config)).

Definition headers_subscribe : M json :=
  tip ← adapter (ad_tip interfere);
  tip ← st_lift (ok_or (ServerError (lit "chain has no headers")) tip);
  session ← get_session;
  _ ← put_session {| negotiated_protocol := negotiated_protocol session; header_subscribed := true;
                     last_header := Some tip; checked_tip := checked_tip session;
                     scripthashes := scripthashes session; peers_seen := peers_seen session |};
  mret (header_json tip).

Definition add_peer (params : Params) : M json :=
  values ← st_lift (params_array params);
  let peer := from_option json_to_string [] (head values) in
  session ← get_session;
  _ ← put_session {| negotiated_protocol := negotiated_protocol session;
                     header_subscribed := header_subscribed session;
                     last_header := last_header session; checked_tip := checked_tip session;
                     scripthashes := scripthashes session;
                     peers_seen := {[peer]} ∪ peers_seen session |};
  mret (JBool false).

Definition reset_monitor : M json := λ p,
  (Ok (JBool true), with_monitor (monitor_reset (now (wd_tick (pr_world p))) (pr_monitor p)) p).

Definition fee_histogram_json : M json :=
  mempool ← read_mempool;
  mret (JArray ((λ b, JArray [json_of_f64 b.1; JNumber b.2]) <$> fee_histogram f64_milli mempool)).

(** [dispatch]; the names in the order of the source's [match]. *)
Definition dispatch (request : Request) : M json :=
  let method := req_method request in
  let params := req_params request in
  let named (name : string) := bool_decide (method = lit name) in
  if named "server.version" then server_version params
  else if named "server.features" then features
  else if named "server.banner" then mret (JString (banner config))
  else if named "server.donation_address" then mret (status_json (donation_address config))
  else if named "server.peers.subscribe" then mret (JArray (JString <$> cfg_peers config))
  else if named "server.ping" then mret JNull
  else if named "server.reset_monitor" then reset_monitor
  else if named "server.add_peer" then add_peer params
  else if named "blockchain.headers.subscribe" then headers_subscribe
  else if named "blockchain.block.header" then
    height ← st_lift (integer_param params 0 (lit "height"));
    hex ← adapter (block_header_hex interfere (as_usize height));
    mret (JString hex)
  else if named "blockchain.block.headers" then
    start ← st_lift (integer_param params 0 (lit "start_height"));
    count ← st_lift (integer_param params 1 (lit "count"));
    cp_height ← st_lift (optional_integer_param params 2);
    headers ← adapter (block_headers interfere (as_usize start) (as_usize count)
                         (as_usize cp_height));
    mret (block_headers_json headers)
  else if named "blockchain.scripthash.get_history" then scripthash_history params
  else if named "blockchain.scripthash.get_balance" then scripthash_balance params
  else if named "blockchain.scripthash.listunspent" then scripthash_listunspent params
  else if named "blockchain.scripthash.get_mempool" then scripthash_mempool params
  else if named "blockchain.scripthash.subscribe" then scripthash_subscribe params
  else if named "blockchain.scripthash.unsubscribe" then scripthash_unsubscribe params
  else if named "blockchain.transaction.get" then transaction_get params
  else if named "blockchain.transaction.broadcast" then
    raw ← st_lift (string_param params 0 (lit "raw_tx"));
    broadcast (trim raw)
  else if named "blockchain.transaction.broadcast_package" then
    raw ← st_lift (package_param params);
    broadcast_package raw
  else if named "blockchain.transaction.get_merkle" then transaction_get_merkle params
  else if named "blockchain.transaction.id_from_pos" then transaction_id_from_pos params
  else if named "blockchain.estimatefee" then
    blocks ← st_lift (integer_param params 0 (lit "blocks"));
    fee ← node_rpc (estimate_fee rpc (as_usize blocks));
    mret (json_of_f64 fee)
  else if named "mempool.get_fee_histogram" then fee_histogram_json
  else if named "mempool.get_info" then
    histogram ← fee_histogram_json;
    mret (JObject [jfield "loaded" (JBool true); jfield "fee_histogram" histogram])
  else
    session ← get_session;
    if named "blockchain.relayfee" && negb (supports_1_6 (negotiated_protocol session)) then
      fee ← node_rpc (relay_fee rpc); mret (json_of_f64 fee)
    else st_lift (Err (MethodNotFound method)).

(** *** Requests *)

(** An error of the dispatch becomes the response. *)
Definition handle_request (request : Request) : M Response :=
  result ← st_try (dispatch request);
  mret (match result with
        | inr value => response_result (req_id request) value
        | inl err => response_from_error (req_id request) err
        end).

Definition record (peer method : str) (ok : bool) (error : option str) : M () := λ p,
  let t := wd_tick (pr_world p) in
  (Ok tt, with_monitor (record_request peer method ok (elapsed t) error (now t) (pr_monitor p)) p).

Definition handle_tracked_request (peer : str) (request : Request) : M Response :=
  response ← handle_request request;
  _ ← record peer (req_method request) (bool_decide (resp_error response = None))
        (rpc_message <$> resp_error response);
  mret response.

(** The loop over a batch: requests without an id are answered by nothing. *)
Fixpoint handle_batch (peer : str) (requests : list Request) : M (list Response) :=
  match requests with
  | [] => mret []
  | request :: requests =>
      response ← handle_tracked_request peer request;
      rest ← handle_batch peer requests;
      mret (if is_some (req_id request) then response :: rest else rest)
  end.

Definition handle_line (peer : str) (line : str) : M (option outgoing) :=
  if bool_decide (trim line = []) then mret None else
  match parse_line line with
  | Ok (Single request) =>
      response ← handle_tracked_request peer request;
      mret (if is_some (req_id request) then Some (OutSingle response) else None)
  | Ok (BatchFrame requests) =>
      if max_batch_size config <? Z.of_nat (length requests) then
        _ ← record peer (lit "batch") false (Some (lit "batch too large"));
        mret (Some (OutSingle (response_error None (-32600) (lit "batch too large"))))
      else
        responses ← handle_batch peer requests;
        mret (Some (OutBatch responses))
  | Err err =>
      _ ← record peer (lit "parse_error") false (Some (protocol_error_text err));
      mret (Some (OutSingle (response_from_error None err)))
  | Panic msg => st_lift (Panic msg)
  end.

(** *** Notifications *)

(** The loop over the subscribed scripts, in the order of the map. A script
    whose history cannot be refreshed is skipped. *)
Fixpoint notify_scripts (tip_changed : bool) (scripts : list (ElectrumScripthash * ScriptState))
    : M (list json) :=
  match scripts with
  | [] => mret []
  | (scripthash, state) :: scripts =>
      refreshed ← (if tip_changed then st_try (confirmed scripthash)
                   else mret (inr (ss_confirmed state)));
      match refreshed with
      | inl _ => notify_scripts tip_changed scripts
      | inr conf =>
          status ← script_status scripthash conf;
          session ← get_session;
          _ ← put_session (with_scripthashes
                (<[scripthash := {| ss_confirmed := conf; ss_status := status |}]>
                   (scripthashes session)) session);
          rest ← notify_scripts tip_changed scripts;
          mret (if bool_decide (status = ss_status state) then rest
                else notification (lit "blockchain.scripthash.subscribe")
                       (JArray [JString (esh_to_string scripthash); status_json status]) :: rest)
      end
  end.

Definition with_headers_sent (tip : HeaderNotification) (s : Session) : Session :=
  {| negotiated_protocol := negotiated_protocol s; header_subscribed := header_subscribed s;
     last_header := Some tip; checked_tip := checked_tip s; scripthashes := scripthashes s;
     peers_seen := peers_seen s |}.
Definition with_checked_tip (tip : option HeaderNotification) (s : Session) : Session :=
  {| negotiated_protocol := negotiated_protocol s; header_subscribed := header_subscribed s;
     last_header := last_header s; checked_tip := tip; scripthashes := scripthashes s;
     peers_seen := peers_seen s |}.

Definition notify_header (changes : Changes) : M (list json) :=
  session ← get_session;
  match ch_tip changes with
  | Some tip =>
      if header_subscribed session && negb (bool_decide (ch_tip changes = last_header session)) then
        _ ← put_session (with_headers_sent tip session);
        mret [notification (lit "blockchain.headers.subscribe") (JArray [header_json tip])]
      else mret []
  | None => mret []
  end.

Definition notifications (changes : Changes) : M (list json) :=
  header ← notify_header changes;
  session ← get_session;
  let tip_changed := negb (bool_decide (ch_tip changes = checked_tip session)) in
  scripts ← notify_scripts tip_changed (map_to_list (scripthashes session));
  session ← get_session;
  _ ← put_session (with_checked_tip (ch_tip changes) session);
  mret (header ++ scripts).
End server.
