(* ===== verification/ServerSpec.v ===== *)
(** * What the server tells its clients

    Responses answer requests; a session is told of every change of a script's
    status; subscriptions stay within the limit; a server that broadcasts
    through Tor never hands a transaction to its node; and the balance agrees
    with the list of unspent outputs. *)

From S2P Require Import Prelude External Text Utf8 Index Fmt Headers Batch Store Client Chain.
From S2P Require Import Merkle Protocol ProtocolSpec Mempool MempoolSpec CoreRest ScriptFold.
From S2P Require Import ScriptFoldSpec Adapter TorPush TorPushSpec Config Bitcoind Monitor Server.

(** ** Balances *)

Section balance.
Context `{HX : !Hex, TT : !TxidText}.
Implicit Types (confirmed : ScriptHistory) (self : MempoolIndex).

(** The values of the outputs [listunspent] lists. *)
Definition unspent_values confirmed (mempool : ScriptMempool) : list Z :=
  (su_value <$> filter (λ u, su_outpoint u ∉ spent_confirmed mempool) (sh_utxos confirmed)) ++
  (sm_utxos mempool).*2.

Definition value_of (v : json) : Z :=
  match json_get v (lit "value") with Some (JNumber n) => n | _ => 0 end.

Lemma unspent_json_values confirmed mempool :
  value_of <$> unspent_json confirmed mempool ≡ₚ unspent_values confirmed mempool.
Proof.
  unfold unspent_json, unspent_values. rewrite fmap_app, <-!list_fmap_compose.
  apply Permutation_app; [|apply reflexive_eq; by apply list_fmap_ext].
  rewrite (fmap_Permutation _ _ _ (sort_by_perm _ _ _)). done.
Qed.

Definition confirmed_outputs confirmed : list (OutPoint * Z) :=
  (λ u, (su_outpoint u, su_value u)) <$> sh_utxos confirmed.

Lemma wrap64_add_as_i64 a b : wrap64 (wrap64 a + as_i64 b) = wrap64 (a + b).
Proof.
  unfold wrap64, as_i64.
  replace (a mod 2 ^ 64 + ((b + 2 ^ 63) mod 2 ^ 64 - 2 ^ 63))
    with (a mod 2 ^ 64 + (b + 2 ^ 63) mod 2 ^ 64 - 2 ^ 63) by lia.
  rewrite Zminus_mod, <-Zplus_mod, <-Zminus_mod. f_equal. lia.
Qed.

Lemma sumZ_filter_out {A} (P : A → Prop) `{∀ x, Decision (P x)} (f : A → Z) l :
  sumZ (f <$> filter P l) + sumZ (f <$> filter (λ x, ¬ P x) l) = sumZ (f <$> l).
Proof.
  induction l as [|x l IH]; [done|]. rewrite !filter_cons.
  repeat case_decide; try done; cbn [fmap list_fmap sumZ] in *; lia.
Qed.

(** The confirmed balance and the mempool's effect add up to what is listed. *)
Lemma balance_listunspent self sh confirmed mined :
  let view := script_view self sh (confirmed_outputs confirmed) mined in
  wrap64 (wrap64 (sumZ (su_value <$> sh_utxos confirmed)) + balance_delta view) =
  wrap64 (sumZ (value_of <$> unspent_json confirmed view)).
Proof.
  cbv zeta. set (view := script_view self sh (confirmed_outputs confirmed) mined).
  rewrite (sumZ_perm _ _ (unspent_json_values _ _)). unfold unspent_values.
  pose proof (view_balance self sh (confirmed_outputs confirmed) mined) as Hb. cbv zeta in Hb.
  fold view in Hb. rewrite Hb.
  rewrite wrap64_add_as_i64. f_equal. rewrite sumZ_app.
  set (spent := λ o : OutPoint * Z, spent_unmined self mined o.1 = true).
  assert (sumZ (su_value <$> filter (λ u, su_outpoint u ∉ spent_confirmed view) (sh_utxos confirmed)) +
          sumZ (su_value <$> filter (λ u, ¬ (su_outpoint u ∉ spent_confirmed view)) (sh_utxos confirmed)) =
          sumZ (su_value <$> sh_utxos confirmed)) as Hsplit by apply sumZ_filter_out.
  assert (sumZ (filter spent (confirmed_outputs confirmed)).*2 =
          sumZ (su_value <$> filter (λ u, ¬ (su_outpoint u ∉ spent_confirmed view)) (sh_utxos confirmed)))
    as Hspent; [|rewrite <-Hsplit, Hspent; lia].
  assert (∀ u, u ∈ sh_utxos confirmed →
            (¬ (su_outpoint u ∉ spent_confirmed view)) ↔ spent (su_outpoint u, su_value u)) as Hiff.
  { intros u Hu. unfold view. cbn [script_view spent_confirmed]. rewrite elem_of_list_to_set.
    rewrite list_elem_of_fmap. split.
    - intros Hn. destruct (decide (spent (su_outpoint u, su_value u))) as [?|Hs]; [done|].
      exfalso. apply Hn. intros ([o v] & Ho & [Hsp _]%list_elem_of_filter).
      apply Hs. unfold spent in *. cbn in *. by rewrite Ho.
    - intros Hs Hn. apply Hn. exists (su_outpoint u, su_value u). split; [done|].
      apply list_elem_of_filter. split; [done|]. apply list_elem_of_fmap. eauto. }
  unfold confirmed_outputs. clear -Hiff. induction (sh_utxos confirmed) as [|u l IH]; [done|].
  cbn [fmap list_fmap]. rewrite !filter_cons.
  specialize (IH (λ u Hu, Hiff u (list_elem_of_further _ _ _ Hu))).
  pose proof (Hiff u (list_elem_of_here _ _)) as Hu.
  repeat case_decide; try tauto; cbn [fmap list_fmap sumZ snd]; by f_equal.
Qed.
End balance.

(** *** Targets of broadcasts *)

Lemma broadcast_target_wf c t : tor_broadcast_target c = Ok t → target_wf t.
Proof. intros (url & _ & Ht%map_err_ok)%bind_ok. by eapply target_parse_wf. Qed.
Lemma package_target_wf c t : tor_package_target c = Ok t → target_wf t.
Proof. intros (url & _ & Ht%map_err_ok)%bind_ok. by eapply target_parse_wf. Qed.

Section server.
Context {S W F : Type} `{HS : !Hashes, HX : !Hex, HT : !HashText, ST : !ScriptHashText,
  TT : !TxidText, TP : !TxidParse, SO : !ScriptOps, VI : !VarInt, SL : !Slices, CS : !Consensus,
  RD : !RocksDB S, HA : !HttpAgent W, RH : !RawHeaders S W, RA : !RpcAgent W, FS : !Files, JT : !JsonText,
  JF : !JsonFloats, SD : !Serde, MS : !Millis F}.
Context (config : Config) (rpc : RpcClient) (tor_push : option TorTargets)
  (adapter_error_text : adapter_error slices_error → str) (rpc_error_text : rpc_error → str)
  (tor_error_text : tor_error → str) (version_error_text : version_error → str)
  (protocol_error_text : protocol_error → str) (strings_to_vec : list str → bytes)
  (interfere : nat → Adapter S → Adapter S) (mempool_at : nat → MempoolIndex)
  (push_env : nat → PushEnv) (mode : overflow_mode) (now : nat → Z) (elapsed : nat → F).
Implicit Types (p : Peer S W F).

Abbreviation dispatch' := (dispatch config rpc tor_push adapter_error_text rpc_error_text
  tor_error_text version_error_text strings_to_vec interfere mempool_at push_env mode now).
Abbreviation handle_request' := (handle_request config rpc tor_push adapter_error_text
  rpc_error_text tor_error_text version_error_text strings_to_vec interfere mempool_at push_env
  mode now).
Abbreviation tracked' := (handle_tracked_request config rpc tor_push adapter_error_text
  rpc_error_text tor_error_text version_error_text strings_to_vec interfere mempool_at push_env
  mode now elapsed).
Abbreviation batch' := (handle_batch config rpc tor_push adapter_error_text
  rpc_error_text tor_error_text version_error_text strings_to_vec interfere mempool_at push_env
  mode now elapsed).
Abbreviation handle_line' := (handle_line config rpc tor_push adapter_error_text
  rpc_error_text tor_error_text version_error_text protocol_error_text strings_to_vec interfere
  mempool_at push_env mode now elapsed).
Abbreviation notifications' := (notifications adapter_error_text interfere mempool_at).
Abbreviation notify_scripts' := (notify_scripts adapter_error_text interfere mempool_at).
Abbreviation confirmed' := (confirmed adapter_error_text interfere).

(** *** Responses *)

Lemma handle_request_id request p r p' :
  handle_request' request p = (Ok r, p') → resp_id r = req_id request.
Proof.
  unfold handle_request. intros (res & p1 & _ & [-> _]%st_ret_ok)%st_bind_ok.
  destruct res as [err|v]; [|done]. by destruct err.
Qed.

Lemma tracked_id peer request p r p' :
  tracked' peer request p = (Ok r, p') → resp_id r = req_id request.
Proof.
  unfold handle_tracked_request.
  intros (r1 & p1 & Hr & (u & p2 & _ & [-> _]%st_ret_ok)%st_bind_ok)%st_bind_ok.
  by eapply handle_request_id.
Qed.

Lemma handle_batch_ids peer requests p rs p' :
  batch' peer requests p = (Ok rs, p') →
  resp_id <$> rs = req_id <$> filter (λ r, is_some (req_id r) = true) requests.
Proof.
  revert p rs. induction requests as [|request requests IH]; intros p rs; cbn [handle_batch].
  - by intros [-> _]%st_ret_ok.
  - intros (r & p1 & Hr & (rest & p2 & Hb & [-> ->]%st_ret_ok)%st_bind_ok)%st_bind_ok.
    apply tracked_id in Hr. apply IH in Hb. rewrite filter_cons.
    destruct (is_some (req_id request)) eqn:Ei.
    + rewrite decide_True by done. cbn [fmap list_fmap]. by f_equal.
    + by rewrite decide_False.
Qed.

(** An id is answered once, in the order of the requests. *)
Lemma handle_line_ids peer line p out p' :
  handle_line' peer line p = (Ok out, p') →
  match parse_line line with
  | Ok (Single request) =>
      trim line ≠ [] →
      match out with
      | Some (OutSingle r) => resp_id r = req_id request ∧ is_Some (req_id request)
      | Some (OutBatch _) => False
      | None => req_id request = None
      end
  | Ok (BatchFrame requests) =>
      trim line ≠ [] → Z.of_nat (length requests) ≤ max_batch_size config →
      ∃ rs, out = Some (OutBatch rs) ∧
        resp_id <$> rs = req_id <$> filter (λ r, is_some (req_id r) = true) requests
  | _ => True
  end.
Proof.
  unfold handle_line. case_bool_decide as Htrim; [by repeat case_match|].
  destruct (parse_line line) as [[request|requests]|e|m]; [| |done..].
  - intros (r & p1 & Hr & [-> ->]%st_ret_ok)%st_bind_ok _. apply tracked_id in Hr.
    destruct (req_id request) as [i|] eqn:Ei; cbn [is_some]; [|done]. split; [done|eauto].
  - intros Hl _ Hlen. rewrite (proj2 (Z.ltb_ge _ _)) in Hl by done.
    apply st_bind_ok in Hl as (rs & p1 & Hb & [-> ->]%st_ret_ok).
    exists rs. split; [done|]. by eapply handle_batch_ids.
Qed.

(** *** Broadcasting through Tor *)

(** The writes of the pushes after [p], each on its own connection. *)
Definition pushed_since p p' (P : list bytes → Prop) : Prop :=
  ∃ new, pr_pushed p' = pr_pushed p ++ new ∧ Forall P new.

Lemma tor_ok {A} (f : PushEnv → outcome tor_error A * list bytes) p r p' (P : list bytes → Prop) :
  (∀ n, P (f (push_env n)).2) →
  tor tor_error_text interfere push_env f p = (r, p') →
  wd_node (pr_world p') = wd_node (pr_world p) ∧ pushed_since p p' P.
Proof.
  intros HP. unfold tor. set (w := next_tick interfere (pr_world p)).
  specialize (HP (wd_tick w)). destruct (f (push_env (wd_tick w))) as [res sent].
  intros [= <- <-]. split; [done|]. exists [sent]. cbn. split; [done|]. by constructor.
Qed.

(** A fresh connection per push. *)
Definition fresh_connections : Prop :=
  ∀ n c, pe_conn (push_env n) = Some c → sent c = [].

(** What one push of [payload] to [target] wrote, if anything. *)
Definition private_push (target : PushTarget) (content_type : str) (payload : bytes)
    (s : list bytes) : Prop :=
  s = [] ∨ ∃ n c, pe_conn (push_env n) = Some c ∧
    isolated (pe_iso (push_env n)) target content_type payload (incoming c) s.

Lemma push_private n target content_type payload :
  fresh_connections →
  private_push target content_type payload
    (push mode (pe_timeout (push_env n)) (pe_conn (push_env n)) (pe_iso (push_env n)) target
       content_type payload).2.
Proof.
  intros Hf. destruct (pe_conn (push_env n)) as [c|] eqn:Ec; [|by left].
  right. exists n, c. split; [done|].
  destruct (push mode (pe_timeout (push_env n)) (Some c) (pe_iso (push_env n)) target content_type
              payload) as [r s] eqn:Ep.
  eapply push_isolated; [|done]. by eapply Hf.
Qed.

Lemma broadcast_private targets raw_tx_hex p r p' :
  fresh_connections → tor_push = Some targets →
  broadcast rpc tor_push rpc_error_text tor_error_text interfere push_env mode raw_tx_hex p = (r, p') →
  wd_node (pr_world p') = wd_node (pr_world p) ∧
  pushed_since p p' (private_push (tor_tx targets) (lit "text/plain") raw_tx_hex).
Proof.
  intros Hf -> Hb. unfold broadcast in Hb.
  assert (pushed_since p p (private_push (tor_tx targets) (lit "text/plain") raw_tx_hex)) as Hnone
    by (exists []; by rewrite app_nil_r).
  unfold st_lift, mbind, stM_bind in Hb.
  destruct (ok_or _ (hex_decode raw_tx_hex)) as [raw|e|m]; [|by injection Hb as <- <-..].
  destruct (map_err _ (txid raw)) as [id|e|m]; [|by injection Hb as <- <-..].
  destruct (tor _ _ _ _ p) as [res p1] eqn:Et.
  apply (tor_ok _ _ _ _ (private_push (tor_tx targets) (lit "text/plain") raw_tx_hex)) in Et.
  - destruct res; injection Hb as <- <-; done.
  - intros n. unfold push_tx. pose proof (push_private n (tor_tx targets) (lit "text/plain") raw_tx_hex Hf).
    by destruct (push _ _ _ _ _ _ _).
Qed.

Lemma broadcast_package_private targets raw_txs p r p' :
  fresh_connections → tor_push = Some targets →
  broadcast_package rpc tor_push rpc_error_text tor_error_text strings_to_vec interfere push_env
    mode raw_txs p = (r, p') →
  wd_node (pr_world p') = wd_node (pr_world p) ∧
  pushed_since p p' (private_push (tor_package targets) (lit "application/json")
                       (strings_to_vec raw_txs)).
Proof.
  intros Hf -> Hb. unfold broadcast_package in Hb. eapply tor_ok; [|done].
  intros n. unfold push_package.
  pose proof (push_private n (tor_package targets) (lit "application/json") (strings_to_vec raw_txs) Hf).
  by destruct (push _ _ _ _ _ _ _).
Qed.

(** *** Merkle proofs of transactions *)

Lemma get_merkle_verifies params p v p' :
  transaction_get_merkle adapter_error_text interfere params p = (Ok v, p') →
  ∃ height id txids pos br r p1,
    txid_param params 0 = Ok id ∧ nonnegative_integer_param params 1 (lit "height") = Ok height ∧
    adapter adapter_error_text (block_txids interfere (as_usize height)) p = (Ok txids, p1) ∧
    txids !! pos = Some id ∧ fold_branch id pos br = r ∧ merkle_root txids r ∧
    v = JObject [jfield "block_height" (JNumber (as_usize height));
                 jfield "merkle" (JArray (JString ∘ hash_to_string <$> br));
                 jfield "pos" (JNumber (Z.of_nat pos))].
Proof.
  unfold transaction_get_merkle.
  intros (id & p0 & [Hid ->]%st_lift_ok & (height & p0' & [Hh ->]%st_lift_ok & Hm)%st_bind_ok)%st_bind_ok.
  apply st_bind_ok in Hm as (txids & p1 & Ht & Hm).
  apply st_bind_ok in Hm as (pos & p2 & [Hpos%ok_or_ok ->]%st_lift_ok & Hm).
  apply st_bind_ok in Hm as (fields & p3 & [Hf ->]%st_lift_ok & [-> ->]%st_ret_ok).
  apply position_Some in Hpos as (x & Hx & Heq%bool_decide_eq_true & _). subst x.
  unfold merkle_fields, branch_and_root in Hf.
  destruct (branch_loop_spec (E := protocol_error) (length txids) txids pos id [])
    as (br & r & Hbr & Hfold & Hroot & _); [lia|done|].
  rewrite (bool_decide_eq_true_2 (txids ≠ [])) in Hf by (by intros ->).
  rewrite bool_decide_eq_true_2 in Hf by (by eapply lookup_lt_Some).
  osimpl in Hf. rewrite Hbr in Hf. injection Hf as <-.
  exists height, id, txids, pos, br, r, p1. done.
Qed.

(** *** Notifications *)

(** A script's state after a look at the mempool. *)
Definition current sh (st : ScriptState) : Prop :=
  ∃ n, ss_status st = scripthash_status (server_history (ss_confirmed st)
         (script_view (mempool_at n) sh (confirmed_outputs (ss_confirmed st))
            (list_to_set (shr_txid <$> sh_rows (ss_confirmed st))))).

Lemma script_status_ok {E} sh conf p status p' :
  script_status (E := E) interfere mempool_at sh conf p = (Ok status, p') →
  pr_session p' = pr_session p ∧ current sh {| ss_confirmed := conf; ss_status := status |}.
Proof.
  unfold script_status, mempool_view. intros (view & p1 & Hv & [-> ->]%st_ret_ok)%st_bind_ok.
  apply st_bind_ok in Hv as (m & p2 & Hm & [-> ->]%st_ret_ok).
  unfold read_mempool, on_world in Hm. injection Hm as <- <-. split; [done|]. by eexists.
Qed.

Lemma on_world_session {E A} (m : stM (World S W) E A) p :
  pr_session (on_world m p).2 = pr_session p ∧ pr_pushed (on_world m p).2 = pr_pushed p ∧
  pr_monitor (on_world m p).2 = pr_monitor p.
Proof. unfold on_world. by destruct (m (pr_world p)). Qed.

Lemma confirmed_session sh p : pr_session (confirmed' sh p).2 = pr_session p.
Proof.
  unfold confirmed, adapter, st_map_err.
  pose proof (on_world_session (script_history interfere never sh) p) as [Hs _].
  by destruct (on_world _ p).
Qed.

(** What became of one script in a round of notifications: [None] when its
    history could not be refreshed. *)
Definition outcome_of (tip_changed : bool) sh (st : ScriptState) (res : option ScriptState) : Prop :=
  match res with
  | Some st' => current sh st' ∧
      if tip_changed then ∃ (q q' : Peer S W F), confirmed' sh q = (Ok (ss_confirmed st'), q')
      else ss_confirmed st' = ss_confirmed st
  | None => tip_changed = true ∧ ∃ (q : Peer S W F) e q', confirmed' sh q = (Err e, q')
  end.
Definition notes_of (items : list (ElectrumScripthash * ScriptState * option ScriptState)) : list json :=
  omap (λ x, match x.2 with
             | Some st' =>
                 if bool_decide (ss_status st' = ss_status x.1.2) then None
                 else Some (notification (lit "blockchain.scripthash.subscribe")
                              (JArray [JString (esh_to_string x.1.1); status_json (ss_status st')]))
             | None => None
             end) items.
Definition update_scripts (m : gmap ElectrumScripthash ScriptState)
    (items : list (ElectrumScripthash * ScriptState * option ScriptState)) :=
  foldl (λ m x, match x.2 with Some st' => <[x.1.1 := st']> m | None => m end) m items.

Lemma notify_scripts_ok tip_changed scripts p out p' :
  notify_scripts' tip_changed scripts p = (Ok out, p') →
  ∃ items, items.*1 = scripts ∧
    Forall (λ x, outcome_of tip_changed x.1.1 x.1.2 x.2) items ∧
    out = notes_of items ∧
    pr_session p' = with_scripthashes (update_scripts (scripthashes (pr_session p)) items)
                      (pr_session p).
Proof.
  revert p out. induction scripts as [|[sh st] scripts IH]; intros p out; cbn [notify_scripts].
  { intros [-> ->]%st_ret_ok. exists []. split_and!; [done|constructor|done|].
    by destruct (pr_session p). }
  intros (res & p1 & Hres & Hn)%st_bind_ok.
  assert (pr_session p1 = pr_session p ∧ match res with
    | inl _ => tip_changed = true ∧ ∃ (q : Peer S W F) e q', confirmed' sh q = (Err e, q')
    | inr conf => if tip_changed then ∃ (q q' : Peer S W F), confirmed' sh q = (Ok conf, q')
                  else conf = ss_confirmed st end) as [Hs1 Hconf].
  { destruct tip_changed.
    - pose proof (confirmed_session sh p) as Hs. unfold st_try in Hres.
      destruct (confirmed' sh p) as [[c|e|m] p2] eqn:Ec; [injection Hres as <- <-..|done].
      + split; [done|]. eauto.
      + split; [done|]. eauto.
    - apply st_ret_ok in Hres as [-> ->]. done. }
  destruct res as [e|conf].
  - destruct (IH _ _ Hn) as (items & <- & Hall & -> & Hs').
    exists ((sh, st, None) :: items). split_and!; [done|by constructor|done|].
    by rewrite Hs', Hs1.
  - apply st_bind_ok in Hn as (status & p2 & Hst & Hn). apply script_status_ok in Hst as [Hs2 Hcur].
    apply st_bind_ok in Hn as (s & p3 & [= <- <-] & Hn).
    apply st_bind_ok in Hn as (u & p4 & [= <- <-] & Hn).
    apply st_bind_ok in Hn as (rest & p5 & Hr & [-> ->]%st_ret_ok).
    destruct (IH _ _ Hr) as (items & <- & Hall & -> & Hs').
    set (st' := {| ss_confirmed := conf; ss_status := status |}) in *.
    exists ((sh, st, Some st') :: items). split_and!; [done| | |].
    + constructor; [|done]. by split.
    + unfold notes_of, st'. cbn [omap list_omap fst snd ss_status].
      repeat case_bool_decide; done.
    + rewrite Hs'. cbn [pr_session with_session scripthashes with_scripthashes].
      by rewrite Hs2, Hs1.
Qed.

Lemma update_scripts_lookup items m sh st res :
  NoDup items.*1.*1 → (sh, st, res) ∈ items → m !! sh = Some st →
  update_scripts m items !! sh = Some (default st res).
Proof.
  assert (∀ items m sh, sh ∉ items.*1.*1 → update_scripts m items !! sh = m !! sh) as Hother.
  { clear. induction items as [|[[sh' st'] res'] items IH]; intros m sh Hn; [done|].
    cbn [fmap list_fmap fst] in Hn. apply not_elem_of_cons in Hn as [Hne Hn].
    cbn [update_scripts foldl fst snd]. fold (update_scripts (match res' with Some st' => <[sh':=st']> m | None => m end) items).
    rewrite IH by done. destruct res'; [|done]. by rewrite lookup_insert_ne. }
  revert m. induction items as [|[[sh' st'] res'] items IH]; intros m Hnd Hin Hm;
    [by apply elem_of_nil in Hin|].
  cbn [fmap list_fmap fst] in Hnd. apply NoDup_cons in Hnd as [Hn Hnd].
  cbn [update_scripts foldl fst snd]. fold (update_scripts (match res' with Some st' => <[sh':=st']> m | None => m end) items).
  apply elem_of_cons in Hin as [[= <- <- <-]|Hin].
  - rewrite Hother by done. destruct res; [by rewrite lookup_insert_eq|done].
  - apply IH; [done..|]. assert (sh' ≠ sh) as Hne.
    { intros ->. apply Hn. apply list_elem_of_fmap. exists (sh, st). split; [done|].
      apply list_elem_of_fmap. by exists (sh, st, res). }
    destruct res'; [by rewrite lookup_insert_ne|done].
Qed.

Lemma update_scripts_dom m items :
  (∀ x, x ∈ items → x.1.1 ∈ dom m) → dom (update_scripts m items) = dom m.
Proof.
  revert m. induction items as [|[[sh st] res] items IH]; intros m Hin; [done|].
  cbn [update_scripts foldl fst snd].
  fold (update_scripts (match res with Some st' => <[sh:=st']> m | None => m end) items).
  assert (dom (match res with Some st' => <[sh:=st']> m | None => m end) = dom m) as Hd.
  { destruct res; [|done]. rewrite dom_insert_L.
    specialize (Hin _ (list_elem_of_here _ _)). cbn in Hin. set_solver. }
  rewrite IH; [done|]. intros x Hx. rewrite Hd. apply Hin. by right.
Qed.

Lemma notifications_ok changes p out p' :
  notifications' changes p = (Ok out, p') →
  let s := pr_session p in let s' := pr_session p' in
  let tip_changed := negb (bool_decide (ch_tip changes = checked_tip s)) in
  ∃ items,
    items.*1 = map_to_list (scripthashes s) ∧
    Forall (λ x, outcome_of tip_changed x.1.1 x.1.2 x.2) items ∧
    (∀ sh st res, (sh, st, res) ∈ items → scripthashes s' !! sh = Some (default st res)) ∧
    dom (scripthashes s') = dom (scripthashes s) ∧
    checked_tip s' = ch_tip changes ∧
    out = (if header_subscribed s && negb (bool_decide (ch_tip changes = last_header s))
           then from_option (λ tip, [notification (lit "blockchain.headers.subscribe")
                                       (JArray [header_json tip])]) [] (ch_tip changes)
           else []) ++ notes_of items.
Proof.
  cbv zeta. unfold notifications. intros (hd & p1 & Hh & Hn)%st_bind_ok.
  assert (hd = (if header_subscribed (pr_session p) &&
                   negb (bool_decide (ch_tip changes = last_header (pr_session p)))
           then from_option (λ tip, [notification (lit "blockchain.headers.subscribe")
                                       (JArray [header_json tip])]) [] (ch_tip changes)
           else []) ∧ scripthashes (pr_session p1) = scripthashes (pr_session p) ∧
           checked_tip (pr_session p1) = checked_tip (pr_session p)) as (-> & Hsc & Hct).
  { unfold notify_header in Hh. apply st_bind_ok in Hh as (s & p2 & [= <- <-] & Hh).
    destruct (ch_tip changes) as [tip|].
    - destruct (header_subscribed _ && _).
      + apply st_bind_ok in Hh as (u & p3 & [= <- <-] & [-> ->]%st_ret_ok). done.
      + apply st_ret_ok in Hh as [-> ->]. done.
    - apply st_ret_ok in Hh as [-> ->]. by destruct (header_subscribed _ && _). }
  apply st_bind_ok in Hn as (s & p2 & [= <- <-] & Hn).
  apply st_bind_ok in Hn as (notes & p3 & Hns & Hn).
  apply st_bind_ok in Hn as (s & p4 & [= <- <-] & Hn).
  apply st_bind_ok in Hn as (u & p5 & [= <- <-] & [-> ->]%st_ret_ok).
  destruct (notify_scripts_ok _ _ _ _ _ Hns) as (items & Hfst & Hall & -> & Hs).
  rewrite Hsc, Hct in *. exists items. split_and!; [done|done| | |done|done].
  2: { cbn [pr_session with_session scripthashes with_checked_tip]. rewrite Hs.
       cbn [scripthashes with_scripthashes]. apply update_scripts_dom. intros [[sh st] res] Hin.
       apply elem_of_dom. exists st. apply elem_of_map_to_list. rewrite <-Hfst.
       apply list_elem_of_fmap. by exists (sh, st, res). }
  intros sh st res Hin. cbn [pr_session with_session scripthashes with_checked_tip].
  rewrite Hs. cbn [scripthashes with_scripthashes].
  apply update_scripts_lookup.
  - rewrite Hfst. apply NoDup_fst_map_to_list.
  - done.
  - apply elem_of_map_to_list. rewrite <-Hfst. apply list_elem_of_fmap. by exists (sh, st, res).
Qed.

(** *** The subscription limit *)

Definition within_limit (s : Session) : Prop :=
  Z.of_nat (size (scripthashes s)) ≤ max_subscriptions_per_session config.

(** Subscribing and unsubscribing: what they answer and do to the session. *)
Lemma scripthash_subscribe_spec params p :
  match scripthash_subscribe config adapter_error_text interfere mempool_at params p with
  | (Ok v, p') =>
      ∃ sh st, parse_scripthash params = Ok sh ∧ v = status_json (ss_status st) ∧
        pr_session p' = with_scripthashes (<[sh := st]> (scripthashes (pr_session p))) (pr_session p) ∧
        (is_Some (scripthashes (pr_session p) !! sh) ∨
         Z.of_nat (size (scripthashes (pr_session p))) < max_subscriptions_per_session config)
  | (_, p') => pr_session p' = pr_session p
  end.
Proof.
  unfold scripthash_subscribe, mbind, stM_bind, st_lift, get_session, put_session.
  destruct (parse_scripthash params) as [sh|e|m]; [|done..].
  destruct (bool_decide _ && _) eqn:Efull; [done|].
  assert (is_Some (scripthashes (pr_session p) !! sh) ∨
    Z.of_nat (size (scripthashes (pr_session p))) < max_subscriptions_per_session config) as Hroom.
  { apply andb_false_iff in Efull as [Hin%bool_decide_eq_false|Hlt%Z.leb_gt]; [left|by right].
    destruct (scripthashes (pr_session p) !! sh) eqn:E; [by eexists|by destruct Hin]. }
  pose proof (confirmed_session sh p) as Hs. destruct (confirmed' sh p) as [[conf|e|m] p1]; [|done..].
  cbn [snd] in Hs. destruct (script_status interfere mempool_at sh conf p1) as [[status|e|m] p2] eqn:Est.
  - apply script_status_ok in Est as [Hs2 _]. cbn [fst snd].
    exists sh, {| ss_confirmed := conf; ss_status := status |}.
    split_and!; [done|done| |done]. cbn [pr_session with_session]. by rewrite Hs2, Hs.
  - unfold script_status, mempool_view, read_mempool, on_world in Est. cbn in Est. done.
  - unfold script_status, mempool_view, read_mempool, on_world in Est. cbn in Est. done.
Qed.

Lemma scripthash_unsubscribe_spec params p :
  match scripthash_unsubscribe (S := S) (W := W) (F := F) params p with
  | (Ok _, p') =>
      ∃ sh, parse_scripthash params = Ok sh ∧
        pr_session p' = with_scripthashes (base.delete sh (scripthashes (pr_session p))) (pr_session p)
  | (_, p') => pr_session p' = pr_session p
  end.
Proof.
  unfold scripthash_unsubscribe, mbind, stM_bind, st_lift, get_session, put_session.
  destruct (parse_scripthash params) as [sh|e|m]; [|done..]. by exists sh.
Qed.

(** What requests leave alone: [session_ok] is any property of the subscriptions
    and of the tip at which they were checked. Only subscribing and unsubscribing
    touch the former, and only [notifications] the latter. *)
Section keeps.
Context (session_ok : Session → Prop).
Context (session_ok_same : ∀ s s',
  scripthashes s' = scripthashes s → checked_tip s' = checked_tip s → session_ok s → session_ok s').
Definition peer_ok p : Prop := session_ok (pr_session p).
(** [m] keeps the session so, however it ends. *)
Definition keeps {E A} (m : stM (Peer S W F) E A) : Prop := triple peer_ok m (λ _, peer_ok) peer_ok.

Lemma keeps_bind {E A B} (m : stM (Peer S W F) E A) (f : A → stM (Peer S W F) E B) :
  keeps m → (∀ a, keeps (f a)) → keeps (m ≫= f).
Proof. intros Hm Hf. eapply triple_bind; [apply Hm|apply Hf]. Qed.
Lemma keeps_ret {E A} (a : A) : keeps (mret a : stM (Peer S W F) E A).
Proof. by apply triple_ret. Qed.
Lemma keeps_lift {E A} (m : outcome E A) : keeps (st_lift m).
Proof. apply triple_lift. by intros; destruct m. Qed.
Lemma keeps_world {E A} (m : stM (World S W) E A) : keeps (on_world m).
Proof.
  intros p Hp. pose proof (on_world_session m p) as [Hs _]. unfold peer_ok in *.
  destruct (on_world m p) as [[]]; cbn in Hs; by rewrite Hs.
Qed.
Lemma keeps_map_err {E E' A} (f : E → E') (m : stM (Peer S W F) E A) :
  keeps m → keeps (st_map_err f m).
Proof. intros Hm p Hp. specialize (Hm p Hp). unfold st_map_err. by destruct (m p) as [[]]. Qed.
Lemma keeps_try {E E' A} (m : stM (Peer S W F) E A) : keeps m → keeps (st_try (F := E') m).
Proof. intros Hm p Hp. specialize (Hm p Hp). unfold st_try. by destruct (m p) as [[]]. Qed.
Lemma keeps_adapter {A} (m : stM (World S W) (adapter_error slices_error) A) :
  keeps (adapter adapter_error_text m).
Proof. apply keeps_map_err, keeps_world. Qed.
Lemma keeps_rpc {A} (m : stM W rpc_error A) : keeps (node_rpc (F := F) (S := S) rpc_error_text m).
Proof. apply keeps_map_err, keeps_world. Qed.
Lemma keeps_mempool {E} : keeps (read_mempool (E := E) interfere mempool_at).
Proof. apply keeps_world. Qed.
Lemma keeps_tor {A} (f : PushEnv → outcome tor_error A * list bytes) :
  keeps (tor tor_error_text interfere push_env f).
Proof. intros p Hp. unfold tor. destruct (f _) as [res sent]. by destruct res. Qed.
Lemma keeps_record peer method ok error : keeps (record now elapsed peer method ok error).
Proof. by intros p Hp. Qed.
(** A session read, changed and stored. *)
Lemma keeps_update {E A} (f : Session → Session) (k : Session → stM (Peer S W F) E A) :
  (∀ s, session_ok s → session_ok (f s)) → (∀ s, keeps (k s)) →
  keeps (s ← get_session; _ ← put_session (f s); k s).
Proof. intros Hf Hk p Hp. by apply (Hk (pr_session p)), Hf. Qed.
Lemma keeps_get {E A} (k : Session → stM (Peer S W F) E A) :
  (∀ s, keeps (k s)) → keeps (s ← get_session; k s).
Proof. intros Hk p Hp. by apply (Hk (pr_session p)). Qed.

Create HintDb keeps.
#[local] Hint Resolve keeps_ret keeps_lift keeps_world keeps_adapter keeps_rpc keeps_mempool
  keeps_tor keeps_record : keeps.
Ltac keeps_step :=
  match goal with
  | |- keeps (get_session ≫= λ s, put_session _ ≫= _) =>
      apply keeps_update; [intros ? Hok; eapply session_ok_same; [| |exact Hok]; done|intros ?]
  | |- keeps (get_session ≫= _) => apply keeps_get; intros ?
  | |- keeps (_ ≫= _) => apply keeps_bind; [|intros ?]
  | |- keeps (match ?x with _ => _ end) => destruct x
  | |- keeps _ => solve [auto with keeps]
  end.
Ltac keeps_auto := repeat keeps_step.

Lemma keeps_confirmed sh : keeps (confirmed' sh).
Proof. apply keeps_adapter. Qed.
Lemma keeps_view {E} sh conf : keeps (mempool_view (E := E) interfere mempool_at sh conf).
Proof. unfold mempool_view. keeps_auto. Qed.
Lemma keeps_reset : keeps (reset_monitor now).
Proof. by intros p Hp. Qed.
#[local] Hint Resolve keeps_confirmed keeps_view keeps_reset : keeps.

(** The requests that may not keep it. *)
Definition subscribing (request : Request) : Prop :=
  req_method request = lit "blockchain.scripthash.subscribe" →
  keeps (scripthash_subscribe config adapter_error_text interfere mempool_at (req_params request)).
Definition unsubscribing (request : Request) : Prop :=
  req_method request = lit "blockchain.scripthash.unsubscribe" →
  keeps (scripthash_unsubscribe (S := S) (W := W) (F := F) (req_params request)).

Lemma keeps_dispatch request : subscribing request → unsubscribing request → keeps (dispatch' request).
Proof.
  intros Hsub Hun. unfold dispatch. repeat (case_match; [solve [
    by eapply Hsub, bool_decide_eq_true | by eapply Hun, bool_decide_eq_true |
    unfold server_version, features, add_peer, headers_subscribe,
      scripthash_history, scripthash_balance, scripthash_listunspent, scripthash_mempool,
      transaction_get, broadcast, broadcast_package, transaction_get_merkle,
      transaction_id_from_pos, fee_histogram_json;
    keeps_auto]|]).
  keeps_auto.
Qed.

Lemma keeps_tracked peer request :
  subscribing request → unsubscribing request → keeps (tracked' peer request).
Proof.
  intros Hsub Hun. unfold handle_tracked_request, handle_request.
  apply keeps_bind; [|intros r; keeps_auto].
  apply keeps_bind; [|intros r; apply keeps_ret]. by apply keeps_try, keeps_dispatch.
Qed.
Lemma keeps_batch peer requests :
  (∀ request, subscribing request) → (∀ request, unsubscribing request) → keeps (batch' peer requests).
Proof.
  intros Hsub Hun. induction requests as [|request requests IH]; cbn [handle_batch]; [apply keeps_ret|].
  apply keeps_bind; [by apply keeps_tracked|intros r]. apply keeps_bind; [done|intros rs].
  apply keeps_ret.
Qed.
#[local] Hint Resolve keeps_tracked keeps_batch : keeps.
Lemma keeps_line peer line :
  (∀ request, subscribing request) → (∀ request, unsubscribing request) → keeps (handle_line' peer line).
Proof. intros Hsub Hun. unfold handle_line. keeps_auto. Qed.
End keeps.

(** The limit, at an unchanged tip. *)
Section limit.
Context (tip : option HeaderNotification).
Definition limit_ok (s : Session) : Prop := within_limit s ∧ checked_tip s = tip.
Lemma limit_ok_same s s' :
  scripthashes s' = scripthashes s → checked_tip s' = checked_tip s → limit_ok s → limit_ok s'.
Proof. unfold limit_ok, within_limit. by intros -> ->. Qed.

Lemma size_insert_le {A} (m : gmap ElectrumScripthash A) k x :
  (size (<[k := x]> m) ≤ size m + 1)%nat.
Proof.
  destruct (m !! k) eqn:E; [rewrite map_size_insert_Some by done; lia|].
  rewrite map_size_insert_None by done. lia.
Qed.

Lemma limit_subscribe params :
  keeps limit_ok (scripthash_subscribe config adapter_error_text interfere mempool_at params).
Proof.
  intros p [Hw Ht]. pose proof (scripthash_subscribe_spec params p) as Hs.
  destruct (scripthash_subscribe _ _ _ _ params p) as [[v|e|m] p'] eqn:E;
    unfold peer_ok; [|by rewrite Hs|by rewrite Hs].
  destruct Hs as (sh & st & _ & _ & -> & Hroom). split; [|exact Ht].
  unfold within_limit in *. cbn [scripthashes with_scripthashes].
  destruct Hroom as [[st' Hin]|Hlt]; [by rewrite map_size_insert_Some|].
  pose proof (size_insert_le (scripthashes (pr_session p)) sh st). lia.
Qed.

Lemma limit_unsubscribe params :
  keeps limit_ok (scripthash_unsubscribe (S := S) (W := W) (F := F) params).
Proof.
  intros p [Hw Ht]. pose proof (scripthash_unsubscribe_spec params p) as Hs.
  destruct (scripthash_unsubscribe params p) as [[v|e|m] p'] eqn:E; unfold peer_ok; [|by rewrite Hs|by rewrite Hs].
  destruct Hs as (sh & _ & ->). split; [|exact Ht].
  unfold within_limit in *. cbn [scripthashes with_scripthashes].
  assert (size (base.delete sh (scripthashes (pr_session p))) ≤ size (scripthashes (pr_session p)))%nat; [|lia].
  apply map_subseteq_size, delete_subseteq.
Qed.
Lemma limit_line peer line : keeps limit_ok (handle_line' peer line).
Proof.
  apply keeps_line; [exact limit_ok_same|intros r _; apply limit_subscribe|intros r _; apply limit_unsubscribe].
Qed.
End limit.

Lemma handle_line_session peer line p out p' :
  handle_line' peer line p = (Ok out, p') → within_limit (pr_session p) →
  within_limit (pr_session p') ∧ checked_tip (pr_session p') = checked_tip (pr_session p).
Proof.
  intros Hl Hw. pose proof (limit_line (checked_tip (pr_session p)) peer line p (conj Hw eq_refl)) as Hk.
  by rewrite Hl in Hk.
Qed.
Lemma notifications_session changes p out p' :
  notifications' changes p = (Ok out, p') → within_limit (pr_session p) →
  within_limit (pr_session p') ∧ checked_tip (pr_session p') = ch_tip changes.
Proof.
  intros (items & _ & _ & _ & Hd & Hc & _)%notifications_ok Hw. split; [|done].
  unfold within_limit in *. by rewrite <-size_dom, Hd, size_dom.
Qed.

(** *** A session's life *)

(** The events of the loop of [handle_stream]: a line, or a change of the
    server's state. *)
Inductive session_step : Peer S W F → Peer S W F → Prop :=
| step_line peer line p out p' :
    handle_line' peer line p = (Ok out, p') → session_step p p'
| step_changed changes p out p' :
    notifications' changes p = (Ok out, p') → session_step p p'.

Lemma session_step_limit p p' :
  session_step p p' → within_limit (pr_session p) → within_limit (pr_session p').
Proof.
  destruct 1 as [peer line p out p' Hl|changes p out p' Hn]; intros Hp.
  - by eapply handle_line_session.
  - by eapply notifications_session.
Qed.
End server.
