(* ===== verification/Deadline.v ===== *)
(** * Request deadlines

    [bindex-electrum/src/deadline.rs]. An instant is the number of nanoseconds of
    the monotonic clock, a duration a number of them; [Instant::now()] is the
    argument [now] of the call that reads the clock. *)

From S2P Require Import Prelude.

Record Deadline := { expires_at : option Z }.

#[export] Instance Deadline_eq_dec : EqDecision Deadline.
Proof. solve_decision. Defined.

Definition after (now timeout : Z) : Deadline :=
  {| expires_at := if negb (timeout =? 0) then Some (now + timeout) else None |}.
Definition never : Deadline := {| expires_at := None |}.
Definition expired (self : Deadline) (now : Z) : bool :=
  match expires_at self with Some at_ => at_ <=? now | None => false end.
(** [saturating_duration_since]. *)
Definition remaining (self : Deadline) (now : Z) : option Z :=
  (λ at_, if at_ <=? now then 0 else at_ - now) <$> expires_at self.
#[export] Instance deadline_default : Inhabited Deadline := populate never.

(** ** Properties *)

Lemma expired_never now : expired never now = false.
Proof. done. Qed.
Lemma expired_zero start now : expired (after start 0) now = false.
Proof. done. Qed.

(** Once expired a deadline stays expired: the clock is monotonic. *)
Lemma expired_mono d now later : now ≤ later → expired d now = true → expired d later = true.
Proof.
  unfold expired. intros Hle. destruct (expires_at d); [|done]. rewrite !Z.leb_le. lia.
Qed.

Lemma expired_after start timeout now :
  timeout ≠ 0 → expired (after start timeout) now = true ↔ start + timeout ≤ now.
Proof.
  intros Ht. unfold expired, after. cbn [expires_at].
  rewrite (proj2 (Z.eqb_neq _ _)) by done. cbn [negb]. apply Z.leb_le.
Qed.

(** What remains is never negative, and nothing remains exactly when the
    deadline has expired. *)
Lemma remaining_expired d now r :
  remaining d now = Some r → 0 ≤ r ∧ (r = 0 ↔ expired d now = true).
Proof.
  unfold remaining, expired. destruct (expires_at d) as [t|]; [|done]. intros [= <-].
  destruct (Z.leb_spec t now); split; try lia; split; (done || lia).
Qed.
