(* ===== verification/Http.v ===== *)
(** * The HTTP server of the REST API

    [bindex-electrum/src/rest/http.rs]: framing of requests read from a
    connection, and the responses written to it. The reading half of a
    connection is the bytes the peer still sends, ending cleanly or with an
    error; the writing half is what has been written. *)

From S2P Require Import Prelude Text Utf8.

Definition MAX_BODY : Z := 20000200.
Definition MAX_LINE : nat := Z.to_nat (Z.shiftl 64 10).
Definition MAX_HEADERS : nat := 100.
#[global] Arguments MAX_LINE : simpl never.
Lemma MAX_LINE_eq : Z.of_nat MAX_LINE = 65536.
Proof. unfold MAX_LINE. by rewrite Z2Nat.id. Qed.
#[global] Opaque MAX_LINE.

Inductive http_io_error := PeerReset | PeerGone.

Record Reader := { rd_data : bytes; rd_clean : bool }.
Record Writer := { wr_sent : bytes; wr_left : nat (* writes before one fails *) }.

Record HttpRequest := {
  rq_method : str; rq_path : str; rq_raw_target : str; rq_query : gmap str str;
  rq_body : bytes; rq_keep_alive : bool;
}.

(** Path split into non-empty segments. *)
Definition segments (self : HttpRequest) : list str :=
  filter (λ s, s ≠ []) (split_on 47 (rq_path self)).
Definition param (self : HttpRequest) (name : str) : option str := rq_query self !! name.

Inductive ReadOutcome :=
| RoRequest (r : HttpRequest)
| RoClosed
| RoInvalid (status : Z) (message : str).

(** How the body of [read_request] is left early: [return Ok(outcome)] or [?]. *)
Inductive http_exit := Return (o : ReadOutcome) | IoFailed (e : http_io_error).
Abbreviation R := (stM Reader http_exit).

Definition invalid {A} (status : Z) (message : str) : R A :=
  st_lift (Err (Return (RoInvalid status message))).
Definition closed {A} : R A := st_lift (Err (Return RoClosed)).

(** ** Lines *)

Inductive Line := LineRead (l : str) | LineTooLong | LineEof.

Definition with_data (rd : Reader) (b : bytes) : Reader :=
  {| rd_data := b; rd_clean := rd_clean rd |}.

(** [take(MAX_LINE).read_until(b'\n')]: the line feed is looked for in the first
    [MAX_LINE] bytes, and the peer is only waited for while there are fewer. *)
Definition read_line : R Line := λ rd,
  let window := take MAX_LINE (rd_data rd) in
  match find_byte 10 window with
  | Some i =>
      (Ok (LineRead (from_utf8_lossy (take (S i) window))), with_data rd (drop (S i) (rd_data rd)))
  | None =>
      if bool_decide (MAX_LINE ≤ length (rd_data rd))%nat then
        (Ok LineTooLong, with_data rd (drop MAX_LINE (rd_data rd)))
      else if rd_clean rd then
        (Ok (if bool_decide (rd_data rd = []) then LineEof else LineTooLong), with_data rd [])
      else (Err (IoFailed PeerReset), with_data rd [])
  end.

Definition trim_end (s : str) : str := concat (rev (drop_while is_whitespace (rev (chars s)))).
(** [trim_end_matches(['\r', '\n'])]. *)
Definition is_eol (c : Z) : bool := (c =? 13) || (c =? 10).
Definition trim_eol (s : str) : str := rev (drop_while is_eol (rev s)).

(** A line of the head; the end of the stream closes the connection. *)
Definition head_line (too_long : str) : R str :=
  line ← read_line;
  match line with
  | LineEof => closed
  | LineTooLong => invalid 400 too_long
  | LineRead l => mret l
  end.

(** ** The request line and the headers *)

Definition is_alphabetic (c : Z) : bool := in_range 65 90 c || in_range 97 122 c.

Definition parse_request_line (line : str) : R (str * str * str) :=
  '(method, target, version) ←
    match split_on 32 (trim_end line) with
    | [method; target; version] => mret (method, target, version)
    | [method; target] => mret (method, target, lit "HTTP/1.1")
    | _ => invalid 400 (lit "malformed request line")
    end;
  if bool_decide (method = []) || bool_decide (target = []) ||
     negb (forallb is_alphabetic method) || negb (starts_with version (lit "HTTP/"))
  then invalid 400 (lit "malformed request line")
  else mret (method, target, version).

Definition read_request_line : R str :=
  request_line ← head_line (lit "request line too long");
  if bool_decide (trim request_line = [])
  then head_line (lit "request line too long")
  else mret request_line.

(** The header loop. A round pushes a header or stops, and none runs with
    [MAX_HEADERS] of them, so [MAX_HEADERS + 1] rounds are enough. *)
Fixpoint read_headers (fuel : nat) (headers : list (str * str)) : R (list (str * str)) :=
  match fuel with
  | O => st_lift (Panic "out of fuel")
  | S fuel =>
      if bool_decide (MAX_HEADERS ≤ length headers)%nat
      then invalid 400 (lit "too many request headers") else
      line ← head_line (lit "request header too long");
      let line := trim_eol line in
      if bool_decide (line = []) then mret headers else
      match split_once 58 line with
      | None => invalid 400 (lit "malformed request header")
      | Some (name, value) =>
          if bool_decide (name = []) || existsb is_whitespace (chars name)
          then invalid 400 (lit "malformed request header")
          else read_headers fuel (headers ++ [(to_ascii_lowercase name, trim value)])
      end
  end.

(** One field of a [Content-Length], against the length seen so far. *)
Definition length_field (length : option Z) (field : str) : outcome str (option Z) :=
  let field := trim field in
  value ← ok_or (lit "invalid Content-Length") (parse_unsigned (2 ^ 64) field);
  if negb (forallb is_digit field) then Err (lit "invalid Content-Length") else
  match length with
  | Some seen =>
      if negb (seen =? value) then Err (lit "conflicting Content-Length") else mret (Some value)
  | None => mret (Some value)
  end.
Definition content_length (headers : list (str * str)) : outcome str Z :=
  length ← foldM (λ length (h : str * str), foldM length_field length (split_on 44 h.2)) None
             (filter (λ h : str * str, h.1 = lit "content-length") headers);
  mret (default 0 length).

Definition connection_header (headers : list (str * str)) : option str :=
  h ← head (filter (λ h : str * str, h.1 = lit "connection") headers);
  Some (to_ascii_lowercase h.2).

(** ** The body *)

(** [take(n).read_to_end]: [None] when the peer closes before [n] bytes. *)
Definition read_body (n : nat) : R (option bytes) := λ rd,
  if bool_decide (n ≤ length (rd_data rd))%nat
  then (Ok (Some (take n (rd_data rd))), with_data rd (drop n (rd_data rd)))
  else if rd_clean rd then (Ok None, with_data rd [])
  else (Err (IoFailed PeerReset), with_data rd []).

(** ** The target *)

(** The loop of [percent_decode]: an escape needs two more bytes. *)
Fixpoint percent_bytes (s : bytes) : bytes :=
  match s with
  | [] => []
  | c :: s' =>
      let plain := c :: percent_bytes s' in
      match s' with
      | hi :: lo :: rest =>
          if c =? 37 then
            match hex_digit hi, hex_digit lo with
            | Some hi, Some lo => hi * 16 + lo :: percent_bytes rest
            | _, _ => plain
            end
          else plain
      | _ => plain
      end
  end.
Definition percent_decode (input : str) : str :=
  if bool_decide (37 ∈ input) then from_utf8_lossy (percent_bytes input) else input.

Definition query_pair (pair : str) : str * str :=
  match split_once 61 pair with
  | Some (key, value) => (percent_decode key, percent_decode value)
  | None => (percent_decode pair, [])
  end.
(** [collect] into a [HashMap]: a later pair replaces an earlier one. *)
Definition parse_query (query : str) : gmap str str :=
  foldl (λ m pair, let '(key, value) := query_pair pair in <[key:=value]> m) ∅
    (filter (λ pair, pair ≠ []) (split_on 38 query)).

(** ** [read_request] *)

Definition keep_alive_of (headers : list (str * str)) (version : str) : bool :=
  match connection_header headers with
  | Some value =>
      if contains (lit "close") value then false
      else if contains (lit "keep-alive") value then true
      else negb (bool_decide (version = lit "HTTP/1.0"))
  | None => negb (bool_decide (version = lit "HTTP/1.0"))
  end.

Definition build_request (method target version : str) (headers : list (str * str))
    (body : bytes) : HttpRequest :=
  let '(raw_path, raw_query) :=
    match split_once 63 target with
    | Some (path, query) => (path, Some query)
    | None => (target, None)
    end in
  {| rq_method := method; rq_path := percent_decode raw_path; rq_raw_target := raw_path;
     rq_query := default ∅ (parse_query <$> raw_query); rq_body := body;
     rq_keep_alive := keep_alive_of headers version |}.

Definition read_request_body (max_body : Z) : R ReadOutcome :=
  request_line ← read_request_line;
  '(method, target, version) ← parse_request_line request_line;
  headers ← read_headers (S MAX_HEADERS) [];
  if bool_decide (lit "transfer-encoding" ∈ headers.*1)
  then invalid 501 (lit "transfer-encoding is not supported") else
  length ← match content_length headers with
           | Ok length => mret length
           | Err message => invalid 400 message
           | Panic m => st_lift (Panic m)
           end;
  if max_body <? length then invalid 400 (lit "request body too large") else
  body ← (if 0 <? length then read_body (Z.to_nat length) else mret (Some []));
  match body with
  | None => closed
  | Some body => mret (RoRequest (build_request method target version headers body))
  end.

(** The early returns become the result. *)
Definition read_request (max_body : Z) : stM Reader http_io_error ReadOutcome := λ rd,
  match read_request_body max_body rd with
  | (Ok o, rd) | (Err (Return o), rd) => (Ok o, rd)
  | (Err (IoFailed e), rd) => (Err e, rd)
  | (Panic m, rd) => (Panic m, rd)
  end.

(** ** Responses *)

Record HttpResponse := {
  rs_status : Z; rs_content_type : str; rs_body : bytes; rs_cache_max_age : option Z;
  rs_extra_headers : list (str * str);
}.

Definition response_text (status : Z) (body : str) (cache_max_age : option Z) : HttpResponse :=
  {| rs_status := status; rs_content_type := lit "text/plain"; rs_body := body;
     rs_cache_max_age := cache_max_age; rs_extra_headers := [] |}.
Definition response_json (body : bytes) (cache_max_age : option Z) : HttpResponse :=
  {| rs_status := 200; rs_content_type := lit "application/json"; rs_body := body;
     rs_cache_max_age := cache_max_age; rs_extra_headers := [] |}.
Definition response_binary (body : bytes) (cache_max_age : option Z) : HttpResponse :=
  {| rs_status := 200; rs_content_type := lit "application/octet-stream"; rs_body := body;
     rs_cache_max_age := cache_max_age; rs_extra_headers := [] |}.

Definition reason (status : Z) : str :=
  match status with
  | 200 => lit "OK"
  | 400 => lit "Bad Request"
  | 403 => lit "Forbidden"
  | 404 => lit "Not Found"
  | 408 => lit "Request Timeout"
  | 422 => lit "Unprocessable Entity"
  | 429 => lit "Too Many Requests"
  | 500 => lit "Internal Server Error"
  | 501 => lit "Not Implemented"
  | 502 => lit "Bad Gateway"
  | 503 => lit "Service Unavailable"
  | 504 => lit "Gateway Timeout"
  | _ => lit "Unknown"
  end.

Record IdentityHeaders := {
  id_powered_by : str; id_cors : bool; id_bitcoin_version : option str;
}.

(** [write_all], on an empty slice nothing; a failed write sends nothing. *)
Abbreviation W := (stM Writer http_io_error).
Definition write_bytes (b : bytes) : W () := λ w,
  match b, wr_left w with
  | [], _ => (Ok tt, w)
  | _, O => (Err PeerGone, w)
  | _, S n => (Ok tt, {| wr_sent := wr_sent w ++ b; wr_left := n |})
  end.

Definition extra_header (header : str * str) : str :=
  if bool_decide (13 ∈ header.2) || bool_decide (10 ∈ header.2) then []
  else header.1 ++ lit ": " ++ header.2 ++ CRLF.

Definition response_head (response : HttpResponse) (identity : IdentityHeaders)
    (keep_alive : bool) : str :=
  lit "HTTP/1.1 " ++ show_unsigned (rs_status response) ++ lit " " ++
    reason (rs_status response) ++ CRLF ++
  lit "Content-Type: " ++ rs_content_type response ++ CRLF ++
  lit "Content-Length: " ++ show_unsigned (Z.of_nat (length (rs_body response))) ++ CRLF ++
  lit "X-Powered-By: " ++ id_powered_by identity ++ CRLF ++
  (if id_cors identity then lit "Access-Control-Allow-Origin: *" ++ CRLF else []) ++
  match id_bitcoin_version identity with
  | Some version => lit "X-Bitcoin-Version: " ++ version ++ CRLF
  | None => []
  end ++
  match rs_cache_max_age response with
  | Some ttl => lit "Cache-Control: public, max-age=" ++ show_unsigned ttl ++ CRLF
  | None => []
  end ++
  concat (extra_header <$> rs_extra_headers response) ++
  (if keep_alive then lit "Connection: keep-alive" ++ CRLF ++ CRLF
   else lit "Connection: close" ++ CRLF ++ CRLF).

(** The flush of a socket does nothing. *)
Definition write_response (response : HttpResponse) (identity : IdentityHeaders)
    (keep_alive : bool) : W () :=
  _ ← write_bytes (response_head response identity keep_alive);
  write_bytes (rs_body response).
