(* ===== verification/HttpSpec.v ===== *)
(** * The HTTP server: framing

    What [Http] promises: an accepted request is a prefix of the stream cut into
    head lines and exactly the declared body; every request a client renders is
    read back, with the stream left at the next one; a response is read back by
    an HTTP client whatever its relayed headers hold. *)

From S2P Require Import Prelude Text Utf8 Http.

(** ** Lines *)

Definition is_line (line : bytes) : Prop :=
  ∃ s, line = s ++ [10] ∧ (10 ∉ s) ∧ (length line ≤ MAX_LINE)%nat.

Lemma reader_eta rd : {| rd_data := rd_data rd; rd_clean := rd_clean rd |} = rd.
Proof. by destruct rd. Qed.

Lemma read_line_inv rd l rd' :
  read_line rd = (Ok (LineRead l), rd') →
  ∃ line, rd_data rd = line ++ rd_data rd' ∧ is_line line ∧ l = from_utf8_lossy line ∧
    rd_clean rd' = rd_clean rd.
Proof.
  unfold read_line. destruct (find_byte 10 (take MAX_LINE (rd_data rd))) as [i|] eqn:Ei.
  - apply find_byte_Some in Ei as (Heq & Hn & Hi). intros [= <- <-].
    set (window := take MAX_LINE (rd_data rd)) in *.
    assert (length (take i window) = i) as Hti by (rewrite length_take; lia).
    assert (take (Datatypes.S i) window = take i window ++ [10]) as Hline.
    { rewrite Heq at 1. rewrite take_app_ge, Hti by lia. by replace (Datatypes.S i - i)%nat with 1%nat by lia. }
    exists (take (Datatypes.S i) window). cbn. split_and!; [|..|done|done].
    + assert (take (Datatypes.S i) window = take (Datatypes.S i) (rd_data rd)) as ->.
      { unfold window. rewrite take_take. f_equal. unfold window in Hi. rewrite length_take in Hi. lia. }
      by rewrite take_drop.
    + exists (take i window). split_and!; [done..|].
      rewrite Hline, length_app, Hti. cbn [length]. unfold window in Hi. rewrite length_take in Hi. lia.
  - case_bool_decide; [done|]. destruct (rd_clean rd); [|done]. by case_bool_decide.
Qed.

Lemma read_line_line line rest clean :
  is_line line →
  read_line {| rd_data := line ++ rest; rd_clean := clean |} =
  (Ok (LineRead (from_utf8_lossy line)), {| rd_data := rest; rd_clean := clean |}).
Proof.
  intros (s & -> & Hs & Hlen). rewrite length_app in Hlen. cbn [length] in Hlen.
  unfold read_line, with_data. cbn [rd_data rd_clean].
  rewrite <-app_assoc. cbn [app]. rewrite take_app_ge by lia.
  destruct (MAX_LINE - length s)%nat as [|k] eqn:Ek; [lia|]. cbn [take].
  rewrite find_byte_app by done. repeat f_equal.
  - rewrite take_app_ge by lia. by replace (Datatypes.S (length s) - length s)%nat with 1%nat by lia.
  - apply drop_S_app.
Qed.

(** ** The head of an accepted request *)

(** What the header loop makes of a line. *)
Definition header_of (line : bytes) : option (str * str) :=
  let line := trim_eol (from_utf8_lossy line) in
  if bool_decide (line = []) then None else
  '(name, value) ← split_once 58 line;
  if bool_decide (name = []) || existsb is_whitespace (chars name) then None
  else Some (to_ascii_lowercase name, trim value).
Definition is_blank (line : bytes) : Prop := trim_eol (from_utf8_lossy line) = [].

Lemma head_line_inv msg rd l rd' :
  head_line msg rd = (Ok l, rd') →
  ∃ line, rd_data rd = line ++ rd_data rd' ∧ is_line line ∧ l = from_utf8_lossy line ∧
    rd_clean rd' = rd_clean rd.
Proof.
  unfold head_line. intros (r & rd1 & Hr & Hl)%st_bind_ok.
  destruct r; [|done..]. apply st_ret_ok in Hl as [-> ->]. by apply read_line_inv.
Qed.

Lemma head_line_line msg line rest clean :
  is_line line →
  head_line msg {| rd_data := line ++ rest; rd_clean := clean |} =
  (Ok (from_utf8_lossy line), {| rd_data := rest; rd_clean := clean |}).
Proof. intros Hl. unfold head_line, mbind, stM_bind. by rewrite read_line_line. Qed.

Lemma read_headers_inv fuel acc rd headers rd' :
  read_headers fuel acc rd = (Ok headers, rd') →
  ∃ lines blank new,
    rd_data rd = concat lines ++ blank ++ rd_data rd' ∧ Forall is_line lines ∧
    is_line blank ∧ is_blank blank ∧ headers = acc ++ new ∧
    Forall2 (λ line h, header_of line = Some h) lines new ∧
    (length headers < MAX_HEADERS)%nat ∧ rd_clean rd' = rd_clean rd.
Proof.
  revert acc rd. induction fuel as [|fuel IH]; intros acc rd; cbn [read_headers]; [done|].
  case_bool_decide as Hmax; [done|].
  intros (l & rd1 & Hl & Hrest)%st_bind_ok.
  apply head_line_inv in Hl as (line & Hd & Hline & -> & Hc).
  destruct (bool_decide_reflect (trim_eol (from_utf8_lossy line) = [])) as [Hb|Hb].
  - apply st_ret_ok in Hrest as [-> ->]. exists [], line, []. cbn [concat app].
    split_and!; try done; [by rewrite app_nil_r|lia].
  - destruct (split_once 58 (trim_eol (from_utf8_lossy line))) as [[name value]|] eqn:Es; [|done].
    destruct (bool_decide (name = []) || existsb is_whitespace (chars name)) eqn:En; [done|].
    apply IH in Hrest as (lines & blank & new & Hd1 & Hlines & Hbl & Hblank & -> & Hnew & Hlen & Hc1).
    exists (line :: lines), blank, ((to_ascii_lowercase name, trim value) :: new).
    rewrite <-app_assoc in *. cbn [concat app].
    split_and!; try done.
    + by rewrite Hd, Hd1, <-app_assoc.
    + by constructor.
    + constructor; [|done]. unfold header_of. rewrite bool_decide_eq_false_2 by done.
      rewrite Es. cbn. by rewrite En.
    + congruence.
Qed.

(** ** The declared length *)

Definition field_is (n : Z) (field : str) : Prop :=
  Forall (λ c, is_digit c = true) (trim field) ∧ parse_unsigned (2 ^ 64) (trim field) = Some n.
Definition is_length (h : str * str) : Prop := h.1 = lit "content-length".
#[export] Instance is_length_dec h : Decision (is_length h).
Proof. unfold is_length. apply _. Defined.
(** Every field of every [Content-Length] header says [n]; without one the
    length is 0. *)
Definition declares (headers : list (str * str)) (n : Z) : Prop :=
  0 ≤ n < 2 ^ 64 ∧
  (∀ h field, h ∈ headers → is_length h → field ∈ split_on 44 h.2 → field_is n field) ∧
  (Forall (λ h, ¬ is_length h) headers → n = 0).

Lemma forallb_digits s : forallb is_digit s = true ↔ Forall (λ c, is_digit c = true) s.
Proof. rewrite forallb_forall, Forall_forall. by setoid_rewrite list_elem_of_In. Qed.

Lemma length_field_inv seen field r :
  length_field seen field = Ok r →
  ∃ n, r = Some n ∧ (seen = None ∨ seen = Some n) ∧ field_is n field.
Proof.
  unfold length_field, field_is. intros H. inv_ok. rename x into n. exists n.
  destruct (forallb is_digit (trim field)) eqn:Ed; [|done]. apply forallb_digits in Ed.
  cbn [negb] in H. destruct seen as [m|]; [destruct (Z.eqb_spec m n); [subst|done]|];
    cbn in H; injection H as <-; auto.
Qed.
Lemma length_field_ok seen field n :
  (seen = None ∨ seen = Some n) → field_is n field → length_field seen field = Ok (Some n).
Proof.
  unfold length_field. intros Hs [Hd%forallb_digits Hp]. rewrite Hp. cbn. rewrite Hd. cbn.
  destruct Hs as [->| ->]; [done|]. by rewrite Z.eqb_refl.
Qed.

Lemma length_fields_inv fields seen r :
  foldM length_field seen fields = Ok r → fields ≠ [] →
  ∃ n, r = Some n ∧ (seen = None ∨ seen = Some n) ∧ Forall (field_is n) fields.
Proof.
  revert seen. induction fields as [|f fields IH]; intros seen; [done|]. cbn [foldM].
  intros (r1 & Hf & Hrest)%bind_ok _. apply length_field_inv in Hf as (n & -> & Hs & Hn).
  destruct fields as [|f2 fields].
  - cbn in Hrest. injection Hrest as <-. exists n. auto.
  - apply IH in Hrest as (m & -> & [[=]|[= ->]] & Hall); [|done]. exists m. auto.
Qed.
Lemma length_fields_ok fields seen n :
  fields ≠ [] → (seen = None ∨ seen = Some n) → Forall (field_is n) fields →
  foldM length_field seen fields = Ok (Some n).
Proof.
  intros Hne Hs Hall. revert seen Hs Hne.
  induction Hall as [|f fields Hf Hall IH]; intros seen Hs Hne; [done|]. cbn [foldM].
  rewrite (length_field_ok seen f n) by done. osimpl.
  destruct fields as [|f2 fields]; [done|]. apply IH; [by right|done].
Qed.

Lemma length_headers_inv headers seen r :
  foldM (λ length (h : str * str), foldM length_field length (split_on 44 h.2)) seen headers = Ok r →
  (headers = [] ∧ r = seen) ∨
  headers ≠ [] ∧ ∃ n, r = Some n ∧ (seen = None ∨ seen = Some n) ∧
    Forall (λ h, Forall (field_is n) (split_on 44 h.2)) headers.
Proof.
  revert seen. induction headers as [|h headers IH]; intros seen; cbn [foldM].
  - intros [= <-]. by left.
  - intros (r1 & Hh & Hrest)%bind_ok. right.
    apply length_fields_inv in Hh as (n & -> & Hs & Hn); [|apply split_on_nonempty].
    split; [done|].
    apply IH in Hrest as [[-> ->]|(_ & m & -> & [[=]|[= ->]] & Hall)]; [exists n|exists m]; auto.
Qed.
Lemma length_headers_ok headers seen n :
  (seen = None ∨ seen = Some n) → Forall (λ h, Forall (field_is n) (split_on 44 h.2)) headers →
  foldM (λ length (h : str * str), foldM length_field length (split_on 44 h.2)) seen headers =
  Ok (match headers with [] => seen | _ => Some n end).
Proof.
  intros Hs Hall. revert seen Hs. induction Hall as [|h headers Hh Hall IH]; intros seen Hs; [done|].
  cbn [foldM]. rewrite (length_fields_ok _ seen n) by auto using split_on_nonempty. osimpl.
  rewrite (IH (Some n)) by auto. by destruct headers.
Qed.

Lemma field_is_bound n field : field_is n field → 0 ≤ n < 2 ^ 64.
Proof.
  intros [Hd Hp]. destruct (trim field) as [|c s] eqn:E; [done|].
  rewrite parse_unsigned_digits in Hp by done. by apply parse_digits_bound in Hp.
Qed.

Lemma lengths_split headers n :
  Forall (λ h, Forall (field_is n) (split_on 44 h.2)) (filter is_length headers) ↔
  ∀ h field, h ∈ headers → is_length h → field ∈ split_on 44 h.2 → field_is n field.
Proof.
  rewrite Forall_forall. setoid_rewrite Forall_forall. setoid_rewrite list_elem_of_filter. naive_solver.
Qed.
Lemma no_lengths headers : filter is_length headers = [] ↔ Forall (λ h, ¬ is_length h) headers.
Proof.
  induction headers as [|h headers IH]; [done|]. rewrite filter_cons, Forall_cons, <-IH.
  case_decide; naive_solver.
Qed.

Lemma content_length_spec headers n : content_length headers = Ok n ↔ declares headers n.
Proof.
  unfold content_length. fold is_length. unfold declares. rewrite <-lengths_split, <-no_lengths.
  split.
  - intros (r & Hr & Hn)%bind_ok. injection Hn as <-.
    change (filter _ headers) with (filter is_length headers) in Hr.
    apply length_headers_inv in Hr as [[-> ->]|(Hne & n & -> & _ & Hall)]; cbn [default].
    { by split_and!. }
    split; [|split; [done|by intros]]. destruct Hall as [|h hs Hh _]; [done|].
    pose proof (split_on_nonempty 44 h.2). destruct Hh as [|f fs Hf _]; [done|].
    by eapply field_is_bound.
  - intros (Hb & Hall & Hz).
    change (filter _ headers) with (filter is_length headers).
    rewrite (length_headers_ok _ None n) by auto. osimpl.
    destruct (filter is_length headers); [by rewrite Hz|done].
Qed.

(** ** Accepted requests *)

(** Early exits never carry a request. *)
Definition refuses {A} (m : R A) : Prop :=
  ∀ rd r rd', m rd ≠ (Err (Return (RoRequest r)), rd').

Section refuses.
Context {A B : Type}.

Lemma refuses_bind (m : R A) (f : A → R B) :
  refuses m → (∀ a, refuses (f a)) → refuses (m ≫= f).
Proof.
  intros Hm Hf rd r rd'. unfold mbind, stM_bind. destruct (m rd) as [[a|e|p] rd1] eqn:E; [apply Hf|..|done].
  intros [= -> ->]. by eapply Hm.
Qed.
Lemma refuses_ret (a : A) : refuses (mret a).
Proof. by intros rd r rd'. Qed.
Lemma refuses_invalid status msg : refuses (invalid (A := A) status msg).
Proof. by intros rd r rd'. Qed.
Lemma refuses_closed : refuses (closed (A := A)).
Proof. by intros rd r rd'. Qed.
Lemma refuses_panic m : refuses (A := A) (st_lift (Panic m)).
Proof. by intros rd r rd'. Qed.
End refuses.
#[local] Create HintDb refuses.
#[local] Hint Resolve refuses_bind refuses_ret refuses_invalid refuses_closed refuses_panic : refuses.

Lemma refuses_read_line : refuses read_line.
Proof.
  intros rd r rd'. unfold read_line. case_match; [done|]. case_bool_decide; [done|]. by destruct (rd_clean rd).
Qed.
#[local] Hint Resolve refuses_read_line : refuses.
Lemma refuses_head_line msg : refuses (head_line msg).
Proof. unfold head_line. apply refuses_bind; [auto with refuses|]. intros []; auto with refuses. Qed.
#[local] Hint Resolve refuses_head_line : refuses.
Lemma refuses_read_headers fuel acc : refuses (read_headers fuel acc).
Proof.
  revert acc. induction fuel as [|fuel IH]; intros acc; cbn [read_headers]; [auto with refuses|].
  case_bool_decide; [auto with refuses|]. apply refuses_bind; [auto with refuses|]. intros l.
  case_bool_decide; [auto with refuses|]. destruct (split_once _ _) as [[name value]|];
    [|auto with refuses]. case_match; auto with refuses.
Qed.
#[local] Hint Resolve refuses_read_headers : refuses.

Lemma refuses_body max : refuses (read_request_body max).
Proof.
  unfold read_request_body. apply refuses_bind.
  { unfold read_request_line. apply refuses_bind; [auto with refuses|]. intros. case_bool_decide; auto with refuses. }
  intros line. apply refuses_bind.
  { unfold parse_request_line. apply refuses_bind; [repeat case_match; auto with refuses|].
    intros [[??]?]. case_match; auto with refuses. }
  intros [[method target] version]. apply refuses_bind; [auto with refuses|]. intros headers.
  case_bool_decide; [auto with refuses|]. apply refuses_bind; [case_match; auto with refuses|].
  intros n. case_match; [auto with refuses|]. apply refuses_bind.
  { case_match; [|auto with refuses]. intros rd r rd'. unfold read_body.
    case_bool_decide; [done|]. by destruct (rd_clean rd). }
  intros []; auto with refuses.
Qed.

Lemma read_request_ok max rd r rd' :
  read_request max rd = (Ok (RoRequest r), rd') ↔ read_request_body max rd = (Ok (RoRequest r), rd').
Proof.
  unfold read_request. destruct (read_request_body max rd) as [[o|[o|e]|p] rd1] eqn:E.
  all: split; intros [=]; simplify_eq; try done. by apply refuses_body in E.
Qed.

(** The request line, without the effects. *)
Definition request_line_of (line : str) : option (str * str * str) :=
  '(method, target, version) ←
    match split_on 32 (trim_end line) with
    | [method; target; version] => Some (method, target, version)
    | [method; target] => Some (method, target, lit "HTTP/1.1")
    | _ => None
    end;
  if bool_decide (method = []) || bool_decide (target = []) ||
     negb (forallb is_alphabetic method) || negb (starts_with version (lit "HTTP/"))
  then None else Some (method, target, version).

Lemma parse_request_line_spec line rd :
  parse_request_line line rd =
  match request_line_of line with
  | Some p => (Ok p, rd)
  | None => (Err (Return (RoInvalid 400 (lit "malformed request line"))), rd)
  end.
Proof.
  unfold parse_request_line, request_line_of. unfold mbind, stM_bind, option_bind.
  destruct (split_on 32 (trim_end line)) as [|m [|t [|v []]]]; cbn; try done; by destruct (_ || _).
Qed.

(** The stream of an accepted request: perhaps a blank line, the request line,
    the header lines, a blank line, the body, and what is left. *)
Definition framed (max_body : Z) (stream : bytes) (r : HttpRequest) (rest : bytes) : Prop :=
  ∃ skip start lines blank headers method target version,
    stream = concat skip ++ start ++ concat lines ++ blank ++ rq_body r ++ rest ∧
    (length skip ≤ 1)%nat ∧ Forall is_line (skip ++ start :: lines ++ [blank]) ∧
    Forall (λ line, trim (from_utf8_lossy line) = []) skip ∧
    (skip = [] → trim (from_utf8_lossy start) ≠ []) ∧
    request_line_of (from_utf8_lossy start) = Some (method, target, version) ∧ is_blank blank ∧
    Forall2 (λ line h, header_of line = Some h) lines headers ∧
    (length headers < MAX_HEADERS)%nat ∧ (lit "transfer-encoding" ∉ headers.*1) ∧
    declares headers (Z.of_nat (length (rq_body r))) ∧ Z.of_nat (length (rq_body r)) ≤ max_body ∧
    r = build_request method target version headers (rq_body r).

Lemma build_request_body method target version headers body :
  rq_body (build_request method target version headers body) = body.
Proof. unfold build_request. by destruct (split_once 63 target) as [[??]|]. Qed.

Lemma read_request_line_inv rd l rd' :
  read_request_line rd = (Ok l, rd') →
  ∃ skip start, rd_data rd = concat skip ++ start ++ rd_data rd' ∧ (length skip ≤ 1)%nat ∧
    Forall is_line (skip ++ [start]) ∧ Forall (λ line, trim (from_utf8_lossy line) = []) skip ∧
    (skip = [] → trim (from_utf8_lossy start) ≠ []) ∧ l = from_utf8_lossy start ∧ rd_clean rd' = rd_clean rd.
Proof.
  unfold read_request_line. intros (l1 & rd1 & Hl1 & H)%st_bind_ok.
  apply head_line_inv in Hl1 as (line & Hd & Hline & -> & Hc). case_bool_decide as Hb.
  - apply head_line_inv in H as (line2 & Hd2 & Hline2 & -> & Hc2). exists [line], line2.
    cbn [concat app length]. rewrite app_nil_r, Hd, Hd2, Hc2. split_and!; eauto.
  - apply st_ret_ok in H as [-> ->]. exists [], line. cbn. split_and!; eauto with lia.
Qed.

Lemma read_body_inv n rd body rd' :
  read_body n rd = (Ok (Some body), rd') →
  rd_data rd = body ++ rd_data rd' ∧ length body = n ∧ rd_clean rd' = rd_clean rd.
Proof.
  unfold read_body. case_bool_decide; [|by destruct (rd_clean rd)]. intros [= <- <-]. cbn.
  by rewrite take_drop, length_take, Nat.min_l.
Qed.
Lemma read_body_app body rest clean :
  read_body (length body) {| rd_data := body ++ rest; rd_clean := clean |} =
  (Ok (Some body), {| rd_data := rest; rd_clean := clean |}).
Proof.
  unfold read_body, with_data. cbn [rd_data rd_clean]. rewrite bool_decide_eq_true_2
    by (rewrite length_app; lia). by rewrite take_app_length, drop_app_length.
Qed.

Lemma read_request_framed max rd r rd' :
  read_request max rd = (Ok (RoRequest r), rd') →
  framed max (rd_data rd) r (rd_data rd') ∧ rd_clean rd' = rd_clean rd.
Proof.
  rewrite read_request_ok. unfold read_request_body.
  intros (l & rd1 & Hl & H)%st_bind_ok.
  apply read_request_line_inv in Hl as (skip & start & Hd & Hskip & Hlines & Hempty & Hnb & -> & Hc).
  apply st_bind_ok in H as ([[method target] version] & rd2 & Hp & H).
  rewrite parse_request_line_spec in Hp.
  destruct (request_line_of (from_utf8_lossy start)) as [p|] eqn:Eline; [|done].
  injection Hp as -> <-.
  apply st_bind_ok in H as (headers & rd3 & Hh & H).
  apply read_headers_inv in Hh as (lines & blank & new & Hd2 & Hl2 & Hbl & Hblank & -> & Hnew & Hlen & Hc2).
  cbn [app] in *. case_bool_decide as Hte; [done|].
  apply st_bind_ok in H as (n & rd4 & Hn & H).
  destruct (content_length new) as [n'| |] eqn:Ec; [|done..]. apply st_ret_ok in Hn as [-> ->].
  apply content_length_spec in Ec.
  destruct (Z.ltb_spec max n') as [|Hmax]; [done|].
  apply st_bind_ok in H as (body & rd5 & Hbody & H). destruct body as [body|]; [|done].
  apply st_ret_ok in H as [[= ->] ->].
  assert (rd_data rd3 = body ++ rd_data rd5 ∧ Z.of_nat (length body) = n' ∧
          rd_clean rd5 = rd_clean rd3) as (Hd3 & <- & Hc3).
  { pose proof (proj1 Ec). destruct (Z.ltb_spec 0 n').
    - apply read_body_inv in Hbody as (? & ? & ?). split_and!; [done|lia|done].
    - apply st_ret_ok in Hbody as [[= ->] ->]. split_and!; [done|cbn; lia|done]. }
  split; [|congruence].
  exists skip, start, lines, blank, new, method, target, version.
  rewrite build_request_body. split_and!; try done.
  - by rewrite Hd, Hd2, Hd3.
  - rewrite Forall_app in Hlines. destruct Hlines as [? Hs]. apply Forall_app. split; [done|].
    apply Forall_cons in Hs as [? _]. constructor; [done|]. apply Forall_app. auto.
Qed.

Lemma read_headers_lines fuel acc lines blank new rest clean :
  Forall is_line lines → is_line blank → is_blank blank →
  Forall2 (λ line h, header_of line = Some h) lines new →
  (length (acc ++ new) < MAX_HEADERS)%nat → (length lines < fuel)%nat →
  read_headers fuel acc {| rd_data := concat lines ++ blank ++ rest; rd_clean := clean |} =
  (Ok (acc ++ new), {| rd_data := rest; rd_clean := clean |}).
Proof.
  intros Hlines Hbl Hblank Hnew. revert fuel acc Hlines.
  induction Hnew as [|line h lines new Hh Hnew IH]; intros fuel acc Hlines Hlen Hf;
    destruct fuel as [|fuel]; try (cbn in Hf; lia); cbn [read_headers];
    rewrite bool_decide_eq_false_2 by (rewrite length_app in Hlen; lia); unfold mbind, stM_bind.
  - cbn [concat app]. rewrite head_line_line by done. rewrite bool_decide_eq_true_2 by done.
    by rewrite app_nil_r.
  - apply Forall_cons in Hlines as [Hline Hlines]. cbn [concat]. rewrite <-app_assoc, head_line_line by done.
    unfold header_of in Hh. case_bool_decide; [done|].
    destruct (split_once 58 _) as [[name value]|]; [|done]. cbn in Hh.
    destruct (bool_decide (name = []) || _); [done|]. injection Hh as <-.
    rewrite IH; [|done|rewrite <-app_assoc; done|cbn in Hf; lia]. by rewrite <-app_assoc.
Qed.

Lemma read_request_line_lines skip start rest clean :
  (length skip ≤ 1)%nat → Forall is_line (skip ++ [start]) →
  Forall (λ line, trim (from_utf8_lossy line) = []) skip →
  (skip = [] → trim (from_utf8_lossy start) ≠ []) →
  read_request_line {| rd_data := concat skip ++ start ++ rest; rd_clean := clean |} =
  (Ok (from_utf8_lossy start), {| rd_data := rest; rd_clean := clean |}).
Proof.
  intros Hlen Hlines Hempty Hnb. apply Forall_app in Hlines as [Hskip [Hstart _]%Forall_cons].
  unfold read_request_line, mbind, stM_bind. destruct skip as [|s [|]]; [..|cbn in Hlen; lia].
  - cbn [concat app]. rewrite head_line_line by done. by rewrite bool_decide_eq_false_2 by auto.
  - apply Forall_cons in Hskip as [Hs _]. apply Forall_cons in Hempty as [He _].
    cbn [concat]. rewrite app_nil_r, head_line_line, bool_decide_eq_true_2 by done.
    by rewrite head_line_line.
Qed.

Lemma framed_read_request max stream r rest clean :
  framed max stream r rest →
  read_request max {| rd_data := stream; rd_clean := clean |} =
  (Ok (RoRequest r), {| rd_data := rest; rd_clean := clean |}).
Proof.
  intros (skip & start & lines & blank & headers & method & target & version & -> & Hskip & Hl &
    Hempty & Hnb & Hline & Hblank & Hh & Hlen & Hte & Hdecl & Hmax & Hr).
  apply Forall_app in Hl as [? [? [? [? _]%Forall_cons]%Forall_app]%Forall_cons].
  apply read_request_ok. unfold read_request_body, mbind, stM_bind.
  rewrite read_request_line_lines by (done || (apply Forall_app; auto)).
  rewrite parse_request_line_spec, Hline.
  rewrite (read_headers_lines _ [] lines blank headers)
    by (done || (cbn; apply Forall2_length in Hh; lia)). cbn [app].
  rewrite bool_decide_eq_false_2, (proj2 (content_length_spec _ _) Hdecl) by done.
  unfold mret, stM_ret. rewrite (proj2 (Z.ltb_ge _ _)) by done.
  rewrite Hr. rewrite build_request_body. destruct (Z.ltb_spec 0 (Z.of_nat (length (rq_body r)))).
  - by rewrite Nat2Z.id, read_body_app.
  - destruct (rq_body r); [done|cbn in *; lia].
Qed.

Lemma read_request_spec max rd r rd' :
  read_request max rd = (Ok (RoRequest r), rd') ↔
  framed max (rd_data rd) r (rd_data rd') ∧ rd_clean rd' = rd_clean rd.
Proof.
  split; [apply read_request_framed|]. intros [Hf Hc]. rewrite <-(reader_eta rd).
  rewrite (framed_read_request _ _ _ _ _ Hf), <-Hc. by rewrite reader_eta.
Qed.

(** ** Rendered requests *)

Definition visible (c : Z) : Prop := 33 ≤ c ≤ 126.
(** Header values: visible characters, spaces and tabs. *)
Definition field_char (c : Z) : Prop := c = 9 ∨ 32 ≤ c ≤ 126.

Lemma visible_not_space c : visible c → is_whitespace [c] = false.
Proof.
  unfold visible. intros Hc. unfold is_whitespace. apply bool_decide_eq_false. unfold WHITESPACE.
  rewrite !elem_of_cons, elem_of_nil. naive_solver lia.
Qed.
Lemma visible_field s : Forall visible s → Forall field_char s.
Proof. intros Hs. eapply Forall_impl; [done|]. unfold visible, field_char. lia. Qed.
Lemma field_ascii s : Forall field_char s → is_ascii s.
Proof. intros Hs. eapply Forall_impl; [done|]. unfold field_char. lia. Qed.
Lemma field_no c s : c = 10 ∨ c = 13 → Forall field_char s → c ∉ s.
Proof. rewrite Forall_forall. unfold field_char. intros Hc Hs Hin%Hs. lia. Qed.

Lemma drop_while_all {A} (p : A → bool) a l :
  Forall (λ x, p x = true) a → drop_while p (a ++ l) = drop_while p l.
Proof. induction 1 as [|x a Hx _ IH]; [done|]. cbn. by rewrite Hx. Qed.
Lemma drop_while_last {A} (p : A → bool) l x :
  p x = false → drop_while p (l ++ [x]) = drop_while p l ++ [x].
Proof.
  intros Hx. induction l as [|y l IH]; cbn; [by rewrite Hx|]. by destruct (p y).
Qed.

Lemma trim_end_ascii s c t :
  is_ascii (s ++ c :: t) → visible c → Forall (λ c, is_whitespace [c] = true) t →
  trim_end (s ++ c :: t) = s ++ [c].
Proof.
  intros Ha Hc Ht. unfold trim_end. rewrite ascii_chars by done.
  rewrite fmap_app, fmap_cons, rev_app_distr. cbn [rev].
  rewrite <-!app_assoc, drop_while_all.
  - cbn [app drop_while]. rewrite visible_not_space by done. cbn [rev].
    by rewrite rev_involutive, concat_app, concat_singletons.
  - apply List.Forall_rev, Forall_fmap, Ht.
Qed.

Lemma trim_nonempty c s : is_ascii (c :: s) → visible c → trim (c :: s) ≠ [].
Proof.
  intros Ha Hc. unfold trim. rewrite ascii_chars by done. cbn [fmap list_fmap drop_while].
  rewrite visible_not_space by done. cbn [rev].
  rewrite drop_while_last by by apply visible_not_space. by rewrite rev_app_distr.
Qed.

Lemma trim_space s : is_ascii s → trim (32 :: s) = trim s.
Proof.
  intros Ha. unfold trim. rewrite !ascii_chars by (done || by constructor).
  cbn [fmap list_fmap drop_while]. by change (is_whitespace [32]) with true.
Qed.

Lemma trim_eol_crlf s : 13 ∉ s → 10 ∉ s → trim_eol (s ++ CRLF) = s.
Proof.
  intros H13 H10. unfold trim_eol. rewrite rev_app_distr.
  change (rev CRLF ++ rev s) with ([10; 13] ++ rev s).
  rewrite drop_while_all, drop_while_none, rev_involutive; [done|..|by repeat constructor].
  apply Forall_forall. intros c Hc%list_elem_of_In%in_rev%list_elem_of_In.
  unfold is_eol. apply orb_false_iff. rewrite !Z.eqb_neq. split; intros ->; done.
Qed.

(** A client's request: what it sends for a method, a target, headers and a
    body. *)
Definition header_text (h : str * str) : str := h.1 ++ 58 :: 32 :: h.2.
Definition render_header (h : str * str) : bytes := header_text h ++ CRLF.
Definition start_text (method target : str) : str := method ++ 32 :: target ++ lit " HTTP/1.1".
Definition render_start (method target : str) : bytes := start_text method target ++ CRLF.
Definition render_request (method target : str) (headers : list (str * str)) (body : bytes) : bytes :=
  render_start method target ++ concat (render_header <$> headers) ++ CRLF ++ body.

(** The headers the server makes of them. *)
Definition received (headers : list (str * str)) : list (str * str) :=
  (λ h : str * str, (to_ascii_lowercase h.1, trim h.2)) <$> headers.

Record renders (max_body : Z) (method target : str) (headers : list (str * str)) (body : bytes)
    : Prop := {
  rn_method : method ≠ [] ∧ Forall (λ c, is_alphabetic c = true) method;
  rn_target : target ≠ [] ∧ Forall visible target;
  rn_names : Forall (λ h : str * str, h.1 ≠ [] ∧ Forall visible h.1 ∧ (58 ∉ h.1)) headers;
  rn_values : Forall (λ h : str * str, Forall field_char h.2) headers;
  rn_start : (length (render_start method target) ≤ MAX_LINE)%nat;
  rn_lines : Forall (λ h, length (render_header h) ≤ MAX_LINE)%nat headers;
  rn_count : (length headers < MAX_HEADERS)%nat;
  rn_plain : lit "transfer-encoding" ∉ (received headers).*1;
  rn_length : declares (received headers) (Z.of_nat (length body));
  rn_body : Z.of_nat (length body) ≤ max_body;
}.

Lemma alphabetic_visible c : is_alphabetic c = true → visible c.
Proof.
  unfold is_alphabetic, in_range, visible. rewrite orb_true_iff, !andb_true_iff, !Z.leb_le. lia.
Qed.

Lemma http_version_fields : Forall field_char (lit " HTTP/1.1").
Proof. repeat constructor; unfold field_char; cbn; lia. Qed.

Lemma crlf_ascii s : Forall field_char s → is_ascii (s ++ CRLF).
Proof. intros Hs. apply Forall_app. split; [by apply field_ascii|]. repeat constructor; lia. Qed.

Lemma is_line_crlf s :
  Forall field_char s → (length (s ++ CRLF) ≤ MAX_LINE)%nat → is_line (s ++ CRLF).
Proof.
  intros Hs Hlen. exists (s ++ [13]). split_and!; [by rewrite <-app_assoc| |done].
  apply not_elem_of_app. split; [by apply field_no; [left|]|]. by intros ?%list_elem_of_singleton.
Qed.

Lemma header_text_fields h :
  Forall visible h.1 → Forall field_char h.2 → Forall field_char (header_text h).
Proof.
  intros Hv Hf. apply Forall_app. split; [by apply visible_field|].
  repeat constructor; unfold field_char; try lia; done.
Qed.
Lemma start_text_fields method target :
  Forall (λ c, is_alphabetic c = true) method → Forall visible target →
  Forall field_char (start_text method target).
Proof.
  intros Hm Ht. apply Forall_app. split.
  { apply visible_field. eapply Forall_impl; [done|]. apply alphabetic_visible. }
  constructor; [unfold field_char; lia|]. apply Forall_app.
  split; [by apply visible_field|apply http_version_fields].
Qed.

Lemma header_of_render h :
  h.1 ≠ [] → Forall visible h.1 → (58 ∉ h.1) → Forall field_char h.2 →
  header_of (render_header h) = Some (to_ascii_lowercase h.1, trim h.2).
Proof.
  intros Hne Hv H58 Hf. pose proof (header_text_fields h Hv Hf) as Hall.
  unfold header_of, render_header. rewrite ascii_lossy by by apply crlf_ascii.
  rewrite trim_eol_crlf by (apply field_no; auto).
  destruct h as [name value]. unfold header_text. cbn [fst snd] in *.
  rewrite bool_decide_eq_false_2 by (by destruct name).
  unfold split_once. rewrite find_byte_app by done. cbn [mbind option_bind].
  rewrite take_app_length, drop_S_app, bool_decide_eq_false_2 by done. cbn [orb].
  rewrite ascii_chars by (by apply field_ascii, visible_field).
  assert (existsb is_whitespace ((λ c, [c]) <$> name) = false) as ->.
  { clear -Hv. induction Hv as [|c s Hc _ IH]; [done|]. cbn. by rewrite visible_not_space. }
  by rewrite trim_space by by apply field_ascii.
Qed.

Lemma visible_no_space s : Forall visible s → 32 ∉ s.
Proof. rewrite Forall_forall. unfold visible. intros Hs Hin%Hs. lia. Qed.

Lemma request_line_render method target :
  method ≠ [] → Forall (λ c, is_alphabetic c = true) method →
  target ≠ [] → Forall visible target →
  from_utf8_lossy (render_start method target) = render_start method target ∧
  trim (render_start method target) ≠ [] ∧
  request_line_of (render_start method target) = Some (method, target, lit "HTTP/1.1").
Proof.
  intros Hm Hma Ht Htv. unfold render_start.
  assert (Forall visible method) as Hmv by (eapply Forall_impl; [done|]; apply alphabetic_visible).
  assert (is_ascii (start_text method target ++ CRLF)) as Ha by by apply crlf_ascii, start_text_fields.
  split_and!; [by apply ascii_lossy|..].
  - unfold start_text in *. destruct method as [|c method]; [done|]. apply Forall_cons in Hmv as [Hc _].
    by apply (trim_nonempty c).
  - unfold request_line_of.
    assert (trim_end (start_text method target ++ CRLF) = start_text method target) as ->.
    { assert (start_text method target = (method ++ 32 :: target ++ lit " HTTP/1.") ++ [49]) as Heq.
      { unfold start_text. rewrite <-app_assoc. cbn [app]. by rewrite <-app_assoc. }
      rewrite Heq in *. rewrite <-app_assoc in *. by apply trim_end_ascii; [..|repeat constructor]. }
    assert (Forall visible (lit "HTTP/1.1")) by (repeat constructor; unfold visible; cbn; lia).
    unfold start_text. change (lit " HTTP/1.1") with (32 :: lit "HTTP/1.1").
    rewrite split_on_app, split_on_app, split_on_none by by apply visible_no_space.
    cbn [mbind option_bind]. rewrite !bool_decide_eq_false_2 by done. cbn [orb].
    rewrite (proj2 (forallb_forall is_alphabetic method)); [done|].
    rewrite Forall_forall in Hma. intros c Hc. apply Hma. by apply list_elem_of_In.
Qed.

Lemma render_request_framed max method target headers body rest :
  renders max method target headers body →
  framed max (render_request method target headers body ++ rest)
    (build_request method target (lit "HTTP/1.1") (received headers) body) rest.
Proof.
  intros [[Hm Hma] [Ht Htv] Hn Hv Hs Hl Hc Hp Hd Hb].
  destruct (request_line_render method target) as (Hlossy & Htrim & Hline); [done..|].
  exists [], (render_start method target), (render_header <$> headers), CRLF, (received headers),
    method, target, (lit "HTTP/1.1"). rewrite build_request_body, Hlossy.
  assert (is_line CRLF) as Hcrlf by (apply (is_line_crlf []); [constructor|cbn; pose proof MAX_LINE_eq; lia]).
  assert (Forall is_line ((render_header <$> headers) ++ [CRLF])) as Hlines.
  { apply Forall_app. split; [|by constructor]. apply Forall_fmap, Forall_forall. intros h Hh.
    rewrite Forall_forall in Hn, Hv, Hl. destruct (Hn h Hh) as (_ & Hvis & _).
    apply is_line_crlf; [apply header_text_fields; auto|by apply Hl]. }
  split_and!; try done.
  - unfold render_request. by rewrite <-!app_assoc.
  - cbn; lia.
  - cbn [app]. constructor; [|done]. apply is_line_crlf; [by apply start_text_fields|done].
  - clear -Hn Hv. unfold received. apply Forall2_fmap. induction headers as [|h headers IH]; [done|].
    apply Forall_cons in Hn as [(? & ? & ?) Hn], Hv as [? Hv]. constructor; [|auto].
    by apply header_of_render.
  - unfold received. by rewrite length_fmap.
Qed.

(** ** How much a request takes *)

(** [takes n m]: whatever its outcome, [m] takes at most [n] bytes. *)
Definition takes {E A} (n : nat) (m : stM Reader E A) : Prop :=
  ∀ rd r rd', m rd = (r, rd') → ∃ p, rd_data rd = p ++ rd_data rd' ∧ (length p ≤ n)%nat.

Lemma takes_bind {E A B} n k (m : stM Reader E A) (f : A → stM Reader E B) :
  takes n m → (∀ a, takes k (f a)) → takes (n + k) (m ≫= f).
Proof.
  intros Hm Hf rd r rd'. unfold mbind, stM_bind. destruct (m rd) as [[a|e|q] rd1] eqn:Em;
    apply Hm in Em as (p & Hp & Hlen); [|intros [= _ <-]; exists p; split; [done|lia]..].
  intros (p2 & Hp2 & Hlen2)%Hf. exists (p ++ p2). rewrite Hp, Hp2, app_assoc, length_app. split; [done|lia].
Qed.
Lemma takes_lift {E A} (o : outcome E A) : takes 0 (st_lift o).
Proof. intros rd r rd' [= _ <-]. by exists []. Qed.
Lemma takes_weaken {E A} n k (m : stM Reader E A) : takes n m → (n ≤ k)%nat → takes k m.
Proof. intros Hm Hle rd r rd' (p & Hp & Hlen)%Hm. exists p. split; [done|lia]. Qed.
Lemma takes_ret {E A} (a : A) : takes (E := E) 0 (mret a).
Proof. apply takes_lift. Qed.

Lemma takes_read_line : takes MAX_LINE read_line.
Proof.
  intros rd r rd'. unfold read_line.
  destruct (find_byte 10 (take MAX_LINE (rd_data rd))) as [i|] eqn:Ei.
  - intros [= _ <-]. apply find_byte_Some in Ei as (_ & _ & Hi). rewrite length_take in Hi.
    exists (take (Datatypes.S i) (rd_data rd)). cbn. rewrite take_drop, length_take. split; [done|lia].
  - case_bool_decide as Hlen.
    + intros [= _ <-]. exists (take MAX_LINE (rd_data rd)). cbn. rewrite take_drop, length_take. split; [done|lia].
    + destruct (rd_clean rd); intros [= _ <-]; exists (rd_data rd); cbn; rewrite app_nil_r; split; (done || lia).
Qed.
Lemma takes_head_line msg : takes MAX_LINE (head_line msg).
Proof.
  unfold head_line. rewrite <-(Nat.add_0_r MAX_LINE). apply takes_bind; [apply takes_read_line|].
  intros []; apply takes_lift || apply takes_ret.
Qed.
Lemma takes_headers fuel acc : takes (fuel * MAX_LINE) (read_headers fuel acc).
Proof.
  revert acc. induction fuel as [|fuel IH]; intros acc; cbn [read_headers]; [apply takes_lift|].
  case_bool_decide; [eapply takes_weaken; [apply takes_lift|lia]|]. cbn [Nat.mul].
  apply takes_bind; [apply takes_head_line|]. intros l.
  case_bool_decide; [eapply takes_weaken; [apply takes_ret|lia]|].
  destruct (split_once _ _) as [[??]|]; [|eapply takes_weaken; [apply takes_lift|lia]].
  case_match; [eapply takes_weaken; [apply takes_lift|lia]|apply IH].
Qed.
Lemma takes_body n : takes n (read_body n).
Proof.
  intros rd r rd'. unfold read_body. case_bool_decide.
  - intros [= _ <-]. exists (take n (rd_data rd)). cbn. rewrite take_drop, length_take. split; [done|lia].
  - destruct (rd_clean rd); intros [= _ <-]; exists (rd_data rd); cbn; rewrite app_nil_r; split; (done || lia).
Qed.

Lemma takes_seq {E A B} n k t (m : stM Reader E A) (f : A → stM Reader E B) :
  takes n m → (∀ a, takes k (f a)) → (n + k ≤ t)%nat → takes t (m ≫= f).
Proof. intros Hm Hf Hle. by eapply takes_weaken; [apply takes_bind|]. Qed.

#[local] Opaque takes.

Lemma takes_request_line : takes (2 * MAX_LINE) read_request_line.
Proof.
  unfold read_request_line. eapply (takes_seq MAX_LINE MAX_LINE); [apply takes_head_line| |lia].
  intros l. case_bool_decide; [apply takes_head_line|]. eapply takes_weaken; [apply takes_ret|lia].
Qed.
Lemma takes_parse_request_line l : takes 0 (parse_request_line l).
Proof.
  #[local] Transparent takes.
  intros rd r rd'. rewrite parse_request_line_spec. destruct (request_line_of l);
    intros [= _ <-]; by exists [].
Qed.

#[local] Opaque takes.

Lemma takes_request_body max :
  takes ((2 + Datatypes.S MAX_HEADERS) * MAX_LINE + Z.to_nat max) (read_request_body max).
Proof.
  set (h := (Datatypes.S MAX_HEADERS * MAX_LINE)%nat). unfold read_request_body.
  eapply (takes_seq (2 * MAX_LINE) (h + Z.to_nat max)); [apply takes_request_line| |unfold h; lia].
  intros l. eapply (takes_seq 0 (h + Z.to_nat max)); [apply takes_parse_request_line| |lia].
  intros [[??]?]. eapply (takes_seq h (Z.to_nat max)); [apply takes_headers| |lia]. intros hs.
  case_bool_decide; [eapply takes_weaken; [apply takes_lift|lia]|].
  eapply (takes_seq 0 (Z.to_nat max)); [case_match; apply takes_lift || apply takes_ret| |lia]. intros n.
  destruct (Z.ltb_spec max n); [eapply takes_weaken; [apply takes_lift|lia]|].
  eapply (takes_seq (Z.to_nat max) 0); [| |lia].
  - case_match; eapply takes_weaken; [apply takes_body|lia|apply takes_ret|lia].
  - intros []; apply takes_lift || apply takes_ret.
Qed.

#[local] Transparent takes.

Lemma takes_request max :
  takes ((2 + Datatypes.S MAX_HEADERS) * MAX_LINE + Z.to_nat max) (read_request max).
Proof.
  intros rd r rd'. unfold read_request. destruct (read_request_body max rd) as [o rd1] eqn:Er.
  apply takes_request_body in Er. destruct o as [|[]|]; by intros [= _ <-].
Qed.
