(* ===== verification/HttpResponseSpec.v ===== *)
(** * The HTTP server: responses

    A response written by [Http.write_response] is read back by the HTTP client
    of [torpush.rs], with its status and exactly its body, whatever the values
    of the headers it relays: the written head has the lines the code means and
    no others. *)

From S2P Require Import Prelude Text Utf8 Protocol TorPush TorPushSpec Http HttpSpec.

(** ** Heads as lines *)

Fixpoint crlf_join (lines : list str) : str :=
  match lines with
  | [] => []
  | [l] => l
  | l :: lines => l ++ CRLF ++ crlf_join lines
  end.

Lemma crlf_join_cons l m lines : crlf_join (l :: m :: lines) = l ++ CRLF ++ crlf_join (m :: lines).
Proof. done. Qed.

Lemma crlf_concat lines :
  lines ≠ [] → concat ((λ l, l ++ CRLF) <$> lines) = crlf_join lines ++ CRLF.
Proof.
  induction lines as [|l [|m lines] IH]; intros Hne; [done|cbn; by rewrite app_nil_r|].
  rewrite fmap_cons, crlf_join_cons. cbn [concat]. rewrite IH by done. by rewrite <-!app_assoc.
Qed.

Lemma find_sub_none c p s : c ∉ s → find_sub (c :: p) s = None.
Proof.
  induction s as [|x s IH]; intros Hc; cbn [find_sub].
  - unfold starts_with. by rewrite bool_decide_eq_false_2.
  - apply not_elem_of_cons in Hc as [Hx Hc]. rewrite IH by done.
    destruct (starts_with (x :: s) (c :: p)) eqn:E; [|done]. apply starts_with_spec in E as [t Ht].
    by injection Ht as ->.
Qed.

Lemma find_sub_skip p a s :
  (∀ k, (k < length a)%nat → starts_with (drop k a ++ s) p = false) →
  find_sub p (a ++ s) = (λ k, length a + k)%nat <$> find_sub p s.
Proof.
  induction a as [|x a IH]; intros Hk; cbn [app length].
  - by destruct (find_sub p s).
  - cbn [find_sub]. pose proof (Hk 0%nat ltac:(cbn; lia)) as H0. cbn in H0. rewrite H0.
    rewrite IH; [by destruct (find_sub p s)|]. intros k Hlt. apply (Hk (Datatypes.S k)). cbn. lia.
Qed.

Lemma starts_with_head c p x s : x ≠ c → starts_with (x :: s) (c :: p) = false.
Proof.
  intros Hx. destruct (starts_with (x :: s) (c :: p)) eqn:E; [|done].
  apply starts_with_spec in E as [t Ht]. by injection Ht as ->.
Qed.

Definition head_line_ok (l : str) : Prop := l ≠ [] ∧ 13 ∉ l.

Lemma head_line_cons l : head_line_ok l → ∃ c t, l = c :: t ∧ c ≠ 13.
Proof. intros [Hne H13]. destruct l as [|c l]; [done|]. exists c, l. set_solver. Qed.
Lemma crlf_join_head l lines rest :
  head_line_ok l → ∃ c t, crlf_join (l :: lines) ++ rest = c :: t ∧ c ≠ 13.
Proof.
  intros (c & t & -> & Hc)%head_line_cons. destruct lines; eexists c, _; by split.
Qed.

(** The head ends at the first empty line. *)
Lemma find_head_end lines rest :
  lines ≠ [] → Forall head_line_ok lines →
  find_sub (CRLF ++ CRLF) (crlf_join lines ++ CRLF ++ CRLF ++ rest) = Some (length (crlf_join lines)).
Proof.
  intros Hne Hl. induction Hl as [|l lines [Hlne H13] Hl IH]; [done|].
  destruct lines as [|m lines]; [by apply (find_sub_app 13 [10; 13; 10])|].
  rewrite crlf_join_cons, <-!app_assoc, (app_assoc l CRLF), find_sub_skip.
  - rewrite IH by done. cbn [fmap option_fmap option_map]. rewrite !length_app. f_equal. lia.
  - apply Forall_cons in Hl as [Hm _].
    destruct (crlf_join_head m lines (CRLF ++ CRLF ++ rest) Hm) as (c & t & -> & Hc).
    intros k Hk. rewrite length_app in Hk. cbn [length CRLF] in Hk.
    destruct (decide (k < length l)%nat) as [Hlt|Hge].
    + rewrite drop_app_le by lia. destruct (drop k l) as [|x u] eqn:E.
      { apply (f_equal length) in E. rewrite length_drop in E. cbn in E. lia. }
      apply starts_with_head. intros ->. apply H13. rewrite <-(take_drop k l), E. set_solver.
    + rewrite drop_app_ge by lia. unfold starts_with. apply bool_decide_eq_false.
      assert (k - length l = 0 ∨ k - length l = 1)%nat as [-> | ->] by lia;
        cbn; intros [=]; congruence.
Qed.

Lemma split_head_lines fuel lines :
  lines ≠ [] → Forall head_line_ok lines → (length lines ≤ S fuel)%nat →
  split_sub fuel CRLF (crlf_join lines) = lines.
Proof.
  intros Hne Hl. revert fuel. induction Hl as [|l lines [Hlne H13] Hl IH]; intros fuel Hf; [done|].
  destruct lines as [|m lines].
  - cbn [crlf_join]. destruct fuel; cbn [split_sub]; [done|]. by rewrite (find_sub_none 13 [10]).
  - destruct fuel as [|fuel]; [cbn in Hf; lia|]. rewrite crlf_join_cons. cbn [split_sub].
    pose proof (find_sub_app 13 [10] l (crlf_join (m :: lines)) H13) as Hfind.
    change (find_sub CRLF (l ++ CRLF ++ crlf_join (m :: lines)) = Some (length l)) in Hfind.
    rewrite Hfind, take_app_length.
    rewrite app_assoc, (drop_app_length' (l ++ CRLF)) by by rewrite length_app.
    rewrite IH; [done|done|]. cbn in *. lia.
Qed.

Lemma crlf_join_length lines :
  Forall head_line_ok lines → (length lines ≤ length (crlf_join lines))%nat.
Proof.
  induction 1 as [|l lines [Hne _] _ IH]; [done|]. destruct lines as [|m lines].
  - destruct l; [done|]. cbn. lia.
  - rewrite crlf_join_cons, !length_app. change (length CRLF) with 2%nat. cbn [length] in *. lia.
Qed.
Lemma split_str_head lines :
  lines ≠ [] → Forall head_line_ok lines → split_str CRLF (crlf_join lines) = lines.
Proof.
  intros Hne Hl. apply split_head_lines; [done..|]. pose proof (crlf_join_length _ Hl). lia.
Qed.

(** ** The lines of a response *)

Definition extra_line (h : str * str) : list str :=
  if bool_decide (13 ∈ h.2) || bool_decide (10 ∈ h.2) then [] else [h.1 ++ lit ": " ++ h.2].
Definition response_lines (response : HttpResponse) (identity : IdentityHeaders) (keep_alive : bool)
    : list str :=
  [lit "HTTP/1.1 " ++ show_unsigned (rs_status response) ++ lit " " ++ reason (rs_status response);
   lit "Content-Type: " ++ rs_content_type response;
   lit "Content-Length: " ++ show_unsigned (Z.of_nat (length (rs_body response)));
   lit "X-Powered-By: " ++ id_powered_by identity] ++
  (if id_cors identity then [lit "Access-Control-Allow-Origin: *"] else []) ++
  match id_bitcoin_version identity with
  | Some version => [lit "X-Bitcoin-Version: " ++ version] | None => [] end ++
  match rs_cache_max_age response with
  | Some ttl => [lit "Cache-Control: public, max-age=" ++ show_unsigned ttl] | None => [] end ++
  concat (extra_line <$> rs_extra_headers response) ++
  [if keep_alive then lit "Connection: keep-alive" else lit "Connection: close"].

Lemma extra_lines hs :
  concat ((λ l, l ++ CRLF) <$> concat (extra_line <$> hs)) = concat (extra_header <$> hs).
Proof.
  induction hs as [|h hs IH]; [done|]. cbn [fmap list_fmap concat].
  rewrite fmap_app, concat_app, IH. f_equal. unfold extra_line, extra_header.
  destruct (_ || _); [done|]. cbn. by rewrite app_nil_r, <-!app_assoc.
Qed.

Lemma response_head_lines response identity keep_alive :
  response_head response identity keep_alive =
  crlf_join (response_lines response identity keep_alive) ++ CRLF ++ CRLF.
Proof.
  assert (∀ ls : list str, ls ≠ [] → crlf_join ls ++ CRLF ++ CRLF =
    concat ((λ l, l ++ CRLF) <$> ls) ++ CRLF) as ->.
  { intros ls Hls. by rewrite crlf_concat, <-app_assoc. }
  2: done.
  unfold response_lines, response_head. rewrite !fmap_app, !concat_app, extra_lines.
  destruct (id_cors identity), (id_bitcoin_version identity), (rs_cache_max_age response), keep_alive;
    cbn [fmap list_fmap concat app]; by rewrite ?app_nil_r, <-?app_assoc.
Qed.

(** ** Reading a response back *)

Definition header_name (n : str) : Prop := n ≠ [] ∧ Forall visible n ∧ 58 ∉ n.

Record response_ok (response : HttpResponse) (identity : IdentityHeaders) : Prop := {
  ro_status : 0 ≤ rs_status response < 2 ^ 16;
  ro_length : Z.of_nat (length (rs_body response)) < 2 ^ 64;
  ro_ttl : from_option (λ ttl, 0 ≤ ttl) True (rs_cache_max_age response);
  ro_type : is_ascii (rs_content_type response) ∧ 13 ∉ rs_content_type response;
  ro_powered : is_ascii (id_powered_by identity) ∧ 13 ∉ id_powered_by identity;
  ro_version : from_option (λ v, is_ascii v ∧ 13 ∉ v) True (id_bitcoin_version identity);
  ro_extra : Forall (λ h : str * str, header_name h.1 ∧ is_ascii h.2 ∧
    to_ascii_lowercase h.1 ≠ lit "transfer-encoding" ∧
    to_ascii_lowercase h.1 ≠ lit "content-length") (rs_extra_headers response);
}.

Lemma trim_visible n : Forall visible n → trim n = n.
Proof.
  intros Hn. apply trim_none; [by apply field_ascii, visible_field|].
  eapply Forall_impl; [done|]. apply visible_not_space.
Qed.

Lemma header_line_plain acc n v :
  header_name n → to_ascii_lowercase n ≠ lit "transfer-encoding" →
  to_ascii_lowercase n ≠ lit "content-length" →
  TorPush.header_line acc (n ++ 58 :: v) = acc.
Proof.
  intros (Hne & Hv & H58) Hte Hcl. unfold TorPush.header_line, split_once.
  rewrite find_byte_app by done. cbn [mbind option_bind].
  rewrite take_app_length, trim_visible, !bool_decide_eq_false_2 by done. done.
Qed.

Lemma header_line_length acc n :
  0 ≤ n < 2 ^ 64 →
  TorPush.header_line acc (lit "Content-Length: " ++ show_unsigned n) = (acc.1, Some n).
Proof.
  intros Hn. unfold TorPush.header_line, split_once.
  change (lit "Content-Length: " ++ show_unsigned n)
    with (lit "Content-Length" ++ 58 :: 32 :: show_unsigned n).
  rewrite find_byte_app by (by apply find_byte_none). cbn [mbind option_bind].
  rewrite take_app_length, drop_S_app.
  destruct (show_unsigned_digits n ltac:(lia)) as [Hne Hd].
  assert (Forall visible (show_unsigned n)) as Hv.
  { eapply Forall_impl; [done|]. unfold is_digit, visible. intros c. rewrite andb_true_iff, !Z.leb_le. lia. }
  rewrite trim_space by by apply field_ascii, visible_field.
  rewrite (trim_visible (show_unsigned n)), parse_show_unsigned by done. done.
Qed.

(** [header_plain]: a line the reader of a response takes nothing from. *)
Definition header_plain (l : str) : Prop :=
  head_line_ok l ∧ is_ascii l ∧ ∀ acc, TorPush.header_line acc l = acc.

Lemma header_plain_intro n v :
  header_name n → to_ascii_lowercase n ≠ lit "transfer-encoding" →
  to_ascii_lowercase n ≠ lit "content-length" → is_ascii v → 13 ∉ v → header_plain (n ++ lit ": " ++ v).
Proof.
  intros Hn Hte Hcl Ha H13. change (n ++ lit ": " ++ v) with (n ++ 58 :: 32 :: v).
  assert (is_ascii (n ++ 58 :: 32 :: v)).
  { destruct Hn as (_ & Hv & _). apply Forall_app. split; [by apply field_ascii, visible_field|].
    repeat constructor; try lia. done. }
  split_and!; [|done|intros; by apply header_line_plain].
  destruct Hn as (Hne & Hv & _). split; [by destruct n|].
  apply not_elem_of_app. split; [apply field_no; [by right|by apply visible_field]|].
  set_solver.
Qed.

Definition header_name_b (n : str) : bool :=
  negb (bool_decide (n = [])) && forallb (in_range 33 126) n && negb (bool_decide (58 ∈ n)) &&
  negb (bool_decide (to_ascii_lowercase n = lit "transfer-encoding")) &&
  negb (bool_decide (to_ascii_lowercase n = lit "content-length")).
Lemma header_plain_lit n v :
  header_name_b n = true → is_ascii v → 13 ∉ v → header_plain (n ++ lit ": " ++ v).
Proof.
  unfold header_name_b. rewrite !andb_true_iff, !negb_true_iff, !bool_decide_eq_false.
  intros ((((Hne & Hv) & H58) & Hte) & Hcl) Ha H13. apply header_plain_intro; [|done..].
  split_and!; [done| |done]. apply Forall_forall. intros c Hc%list_elem_of_In.
  apply (proj1 (forallb_forall _ _) Hv) in Hc. unfold in_range in Hc.
  apply andb_true_iff in Hc as [?%Z.leb_le ?%Z.leb_le]. by split.
Qed.

Lemma digits_ascii z : 0 ≤ z → is_ascii (show_unsigned z) ∧ 13 ∉ show_unsigned z.
Proof.
  intros Hz. split; [|by apply digits_no_char]. destruct (show_unsigned_digits z Hz) as [_ Hd].
  eapply Forall_impl; [done|]. unfold is_digit. intros c. rewrite andb_true_iff, !Z.leb_le. lia.
Qed.

Lemma reason_ascii s : is_ascii (reason s) ∧ 13 ∉ reason s.
Proof.
  assert (∀ x, x ∈ [lit "OK"; lit "Bad Request"; lit "Forbidden"; lit "Not Found";
    lit "Request Timeout"; lit "Unprocessable Entity"; lit "Too Many Requests";
    lit "Internal Server Error"; lit "Not Implemented"; lit "Bad Gateway";
    lit "Service Unavailable"; lit "Gateway Timeout"; lit "Unknown"] → is_ascii x ∧ 13 ∉ x) as H.
  { intros x. rewrite !elem_of_cons, elem_of_nil. intros Hx.
    repeat (destruct Hx as [-> | Hx]; [split; [repeat constructor; lia|by apply find_byte_none]|]). done. }
  apply H. unfold reason. repeat case_match; repeat constructor.
Qed.

(** The lines of a response: the status line, headers the reader ignores, and
    one that gives the length of the body. *)
Lemma response_lines_plain response identity keep_alive :
  response_ok response identity →
  ∃ pre post,
    response_lines response identity keep_alive =
      (lit "HTTP/1.1 " ++ show_unsigned (rs_status response) ++ lit " " ++ reason (rs_status response)) ::
      pre ++ (lit "Content-Length: " ++ show_unsigned (Z.of_nat (length (rs_body response)))) :: post ∧
    Forall header_plain pre ∧ Forall header_plain post.
Proof.
  intros [_ _ Httl [? ?] [? ?] Hver Hex].
  exists [lit "Content-Type: " ++ rs_content_type response]. eexists. split; [done|]. split.
  { constructor; [|done]. by apply (header_plain_lit (lit "Content-Type")). }
  constructor; [by apply (header_plain_lit (lit "X-Powered-By"))|].
  rewrite !Forall_app. split_and!.
  - destruct (id_cors identity); [|done]. constructor; [|done].
    by apply (header_plain_lit (lit "Access-Control-Allow-Origin") (lit "*")); [..|by apply find_byte_none];
      repeat constructor; lia.
  - destruct (id_bitcoin_version identity) as [v|]; [|done]. destruct Hver. constructor; [|done].
    by apply (header_plain_lit (lit "X-Bitcoin-Version")).
  - destruct (rs_cache_max_age response) as [ttl|]; [|done]. cbn in Httl. constructor; [|done].
    destruct (digits_ascii ttl Httl) as [Ha H13].
    apply (header_plain_lit (lit "Cache-Control") (lit "public, max-age=" ++ show_unsigned ttl)); [done|..].
    + apply Forall_app. split; [repeat constructor; lia|done].
    + apply not_elem_of_app. split; [by apply find_byte_none|done].
  - clear Httl Hver. induction Hex as [|h hs (Hn & Ha & Hte & Hcl) _ IH]; [done|].
    cbn [fmap list_fmap concat]. apply Forall_app. split; [|done]. unfold extra_line.
    destruct (bool_decide_reflect (13 ∈ h.2)) as [|H13]; [done|]. destruct (bool_decide (10 ∈ h.2)); [done|].
    constructor; [|done]. by apply header_plain_intro.
  - constructor; [|done]. destruct keep_alive;
      [apply (header_plain_lit (lit "Connection") (lit "keep-alive"))
      |apply (header_plain_lit (lit "Connection") (lit "close"))];
      (done || by apply find_byte_none || (repeat constructor; lia)).
Qed.

(** The second word of a line: the status code. *)
Lemma words_run run s cs :
  Forall (λ c, is_whitespace [c] = false) s → run ++ s ≠ [] →
  words run (((λ c, [c]) <$> s) ++ [32] :: cs) = (run ++ s) :: words [] cs.
Proof.
  intros Hs. revert run. induction Hs as [|c s Hc _ IH]; intros run Hne.
  - rewrite app_nil_r in *. cbn [fmap list_fmap app words].
    change (is_whitespace [32]) with true. by destruct run.
  - cbn [fmap list_fmap app words]. rewrite Hc, IH by by rewrite <-app_assoc. by rewrite <-app_assoc.
Qed.
Lemma visible_no_ws s : Forall visible s → Forall (λ c, is_whitespace [c] = false) s.
Proof. intros Hs. eapply Forall_impl; [done|]. apply visible_not_space. Qed.

Lemma status_word a code rest :
  Forall visible a → a ≠ [] → Forall visible code → code ≠ [] → is_ascii rest →
  split_whitespace (a ++ 32 :: code ++ 32 :: rest) !! 1%nat = Some code.
Proof.
  intros Ha Hane Hc Hcne Hr. unfold split_whitespace.
  assert (is_ascii (a ++ 32 :: code ++ 32 :: rest)) as Hascii.
  { apply Forall_app. split; [by apply field_ascii, visible_field|].
    constructor; [lia|]. apply Forall_app. split; [by apply field_ascii, visible_field|].
    constructor; [lia|done]. }
  rewrite ascii_chars by done. rewrite !fmap_app, !fmap_cons, !fmap_app, !fmap_cons.
  rewrite words_run by auto using visible_no_ws. rewrite words_run by auto using visible_no_ws. done.
Qed.

Lemma header_lines_plain acc ls : Forall header_plain ls → foldl TorPush.header_line acc ls = acc.
Proof. intros Hl. revert acc. induction Hl as [|l ls (_ & _ & Hp) _ IH]; intros acc; [done|]. cbn. by rewrite Hp, IH. Qed.

Lemma crlf_join_ascii lines : Forall is_ascii lines → is_ascii (crlf_join lines).
Proof.
  induction 1 as [|l lines Hl Hls IH]; [constructor|]. destruct lines as [|m lines]; [done|].
  rewrite crlf_join_cons. apply Forall_app. split; [done|]. apply Forall_app. split; [|done].
  repeat constructor; lia.
Qed.

Lemma response_read_back mode response identity keep_alive :
  response_ok response identity →
  parse_http_response mode (response_head response identity keep_alive ++ rs_body response) =
  Ok (rs_status response, from_utf8_lossy (rs_body response)).
Proof.
  intros Hok. pose proof Hok as [Hstatus Hlen _ _ _ _ _].
  destruct (response_lines_plain response identity keep_alive Hok) as (pre & post & Heq & Hpre & Hpost).
  set (status := lit "HTTP/1.1 " ++ _) in Heq. set (clen := lit "Content-Length: " ++ _) in Heq.
  assert (is_ascii status ∧ head_line_ok status) as [Hsa Hsok].
  { destruct (digits_ascii (rs_status response) ltac:(lia)) as [Hd Hd13].
    destruct (reason_ascii (rs_status response)) as [Hr Hr13]. split.
    - apply Forall_app. split; [repeat constructor; lia|]. apply Forall_app. split; [done|].
      apply Forall_app. split; [repeat constructor; lia|done].
    - split; [done|]. unfold status. rewrite !not_elem_of_app.
      split_and!; [by apply find_byte_none|done|by apply find_byte_none|done]. }
  assert (is_ascii clen ∧ head_line_ok clen) as [Hca Hcok].
  { destruct (digits_ascii (Z.of_nat (length (rs_body response))) ltac:(lia)) as [Hd Hd13]. split.
    - apply Forall_app. split; [repeat constructor; lia|done].
    - split; [done|]. unfold clen. rewrite not_elem_of_app. split; [by apply find_byte_none|done]. }
  rewrite response_head_lines, <-!app_assoc, Heq.
  assert (Forall is_ascii (status :: pre ++ clen :: post)) as Hascii.
  { constructor; [done|]. apply Forall_app. split; [|constructor; [done|]];
      (eapply Forall_impl; [done|]; by intros l (? & ? & ?)). }
  assert (Forall head_line_ok (status :: pre ++ clen :: post)) as Hlines.
  { constructor; [done|]. apply Forall_app. split; [|constructor; [done|]];
      (eapply Forall_impl; [done|]; by intros l (? & ? & ?)). }
  unfold parse_http_response. rewrite find_head_end by done. osimpl.
  rewrite take_app_length, ascii_from_utf8 by by apply crlf_join_ascii. osimpl.
  rewrite split_str_head by done. cbn [head from_option id tail].
  assert (split_whitespace status !! 1%nat = Some (show_unsigned (rs_status response))) as ->.
  { destruct (show_unsigned_digits (rs_status response) ltac:(lia)) as [Hne Hd].
    apply (status_word (lit "HTTP/1.1")); [repeat constructor; unfold visible; cbn; lia|done| |done|].
    - eapply Forall_impl; [done|]. unfold is_digit, visible. intros c.
      rewrite andb_true_iff, !Z.leb_le. lia.
    - apply reason_ascii. }
  cbn [mbind option_bind]. rewrite parse_show_unsigned by done. osimpl.
  rewrite foldl_app, (header_lines_plain _ pre) by done. cbn [foldl]. unfold clen at 1.
  rewrite header_line_length by lia. cbn [fst]. rewrite header_lines_plain by done.
  replace (drop (length (crlf_join (status :: pre ++ clen :: post)) + 4)
    (crlf_join (status :: pre ++ clen :: post) ++ CRLF ++ CRLF ++ rs_body response))
    with (rs_body response)
    by (rewrite <-drop_drop, drop_app_length; done).
  rewrite (proj2 (Z.leb_le _ _)) by lia. osimpl. rewrite Nat2Z.id, firstn_all. done.
Qed.
