(* ===== verification/RestTypes.v ===== *)
(** * The REST API: response shapes

    [bindex-electrum/src/rest/types.rs], [format.rs] (Bitcoin format) and the
    REST part of [config.rs]: what the routes read from a transaction and the
    values they answer with, and their JSON. *)

From S2P Require Import Prelude External Text Utf8 Index Fmt Headers Batch Store Client Chain.
From S2P Require Import Merkle Protocol Mempool CoreRest ScriptFold Adapter TorPush Config Bitcoind.
From S2P Require Import Monitor Server.

(** ** Transactions *)

(** What [rust-bitcoin] decodes a transaction to, and what it computes of it. *)
Record rest_txin := {
  ri_prevout : OutPoint; ri_script_sig : bytes; ri_witness : list bytes; ri_sequence : Z;
}.
Record rest_tx := {
  rx_version : Z; rx_locktime : Z; rx_inputs : list rest_txin; rx_outputs : list bitcoin_txout;
}.
Class Transactions := {
  rx_deserialize : bytes → str + rest_tx;              (* the decoder's message *)
  block_deserialize : bytes → str + list rest_tx;
  compute_txid : rest_tx → hash32;
  is_coinbase : rest_tx → bool;
  total_size : rest_tx → Z;
  tx_weight : rest_tx → Z;
  total_sigop_cost : rest_tx → (OutPoint → option bitcoin_txout) → Z;
  header_time : bytes → option Z;                       (* of a raw header *)
  merkleblock_encode : bytes → list hash32 → (hash32 → bool) → str + bytes;
}.

(** A push of a script, another instruction, or a malformed one. *)
Inductive instruction := PushBytes (data : bytes) | OtherOp | BadInstruction.
Class Scripts := {
  is_p2pk : bytes → bool; is_p2pkh : bytes → bool; is_p2sh : bytes → bool;
  is_p2wpkh : bytes → bool; is_p2wsh : bytes → bool; is_p2tr : bytes → bool;
  is_multisig : bytes → bool;
  to_asm_string : bytes → str;
  instructions : bytes → list instruction;
  address_from_script : bytes → network → option str;
  (* an address: its script, and the networks it is valid for *)
  address_from_str : str → option (bytes * (network → bool));
}.
(** [Display] and [FromStr] of a [BlockHash]. *)
Class BlockHashText := { block_hash_to_string : hash32 → str; block_hash_from_str : str → option hash32 }.

(** *** [format.rs] *)

Section format.
Context `{TX : !Transactions, SO : !ScriptOps}.

Definition decode_tx (raw : bytes) : outcome str rest_tx :=
  match rx_deserialize raw with inr tx => Ok tx | inl e => Err e end.
Definition decode_block_txs (raw : bytes) : outcome str (list rest_tx) :=
  match block_deserialize raw with inr txs => Ok txs | inl e => Err e end.
Definition prevout_outpoints (tx : rest_tx) : list (option OutPoint) :=
  let coinbase := is_coinbase tx in
  (λ i, if coinbase then None else Some (ri_prevout i)) <$> rx_inputs tx.
Definition output_count (tx : rest_tx) : nat := length (rx_outputs tx).
Definition output (tx : rest_tx) (vout : Z) : option bitcoin_txout := rx_outputs tx !! Z.to_nat vout.
Definition output_script (o : bitcoin_txout) : bytes := btxout_script o.
Definition is_unspendable (o : bitcoin_txout) : bool :=
  bool_decide (btxout_script o = []) || is_op_return (btxout_script o).
Definition spending_input (tx : rest_tx) (outpoint : OutPoint) : option Z :=
  (λ index, wrap32 (Z.of_nat index)) <$> position (λ i, bool_decide (ri_prevout i = outpoint)) (rx_inputs tx).
End format.

(** ** Values *)

Record TransactionStatus := {
  st_confirmed : bool; st_block_height : option Z; st_block_hash : option str;
  st_block_time : option Z;
}.
Definition status_unconfirmed : TransactionStatus :=
  {| st_confirmed := false; st_block_height := None; st_block_hash := None; st_block_time := None |}.
Definition status_confirmed `{BT : !BlockHashText} (height : Z) (block_hash : hash32) (block_time : Z)
    : TransactionStatus :=
  {| st_confirmed := true; st_block_height := Some height;
     st_block_hash := Some (block_hash_to_string block_hash); st_block_time := Some block_time |}.
Definition status_height (self : TransactionStatus) : option Z := st_block_height self.

Record TxOutValue := {
  ov_scriptpubkey : str; ov_asm : str; ov_type : str; ov_address : option str; ov_value : Z;
}.
Record TxInValue := {
  iv_txid : str; iv_vout : Z; iv_prevout : option TxOutValue; iv_scriptsig : str;
  iv_scriptsig_asm : str; iv_witness : option (list str); iv_is_coinbase : bool;
  iv_sequence : Z; iv_inner_redeemscript_asm : option str; iv_inner_witnessscript_asm : option str;
}.
Record TransactionValue := {
  tv_txid : str; tv_version : Z; tv_locktime : Z; tv_vin : list TxInValue;
  tv_vout : list TxOutValue; tv_size : Z; tv_weight : Z; tv_sigops : Z; tv_fee : Z;
  tv_status : TransactionStatus;
}.
Record BlockStatus := {
  bs_in_best_chain : bool; bs_height : option Z; bs_next_best : option str;
}.
Record UtxoValue := { uv_txid : str; uv_vout : Z; uv_status : TransactionStatus; uv_value : Z }.
Record SpendingValue := {
  sv_spent : bool; sv_txid : option str; sv_vin : option Z; sv_status : option TransactionStatus;
}.
Record ScriptStats := {
  stats_tx_count : Z; stats_funded_count : Z; stats_spent_count : Z;
  stats_funded_sum : Z; stats_spent_sum : Z;
}.
Record TxHistorySummary := {
  hs_txid : str; hs_height : Z; hs_value : Z; hs_time : Z; hs_tx_position : Z;
}.
Record MerkleProof := { mp_block_height : Z; mp_merkle : list str; mp_pos : Z }.

Definition spending_unspent : SpendingValue :=
  {| sv_spent := false; sv_txid := None; sv_vin := None; sv_status := None |}.
Definition spending_spent `{TT : !TxidText} (id : hash32) (vin : Z) (status : TransactionStatus)
    : SpendingValue :=
  {| sv_spent := true; sv_txid := Some (txid_to_string id); sv_vin := Some vin;
     sv_status := Some status |}.
(** [funded as i64 - spent as i64] *)
Definition summary_value (funded spent : Z) : Z := as_i64 (as_i64 funded - as_i64 spent).
Definition script_stats_new (tx_count funded_txo_count spent_txo_count funded_txo_sum spent_txo_sum : Z)
    : ScriptStats :=
  {| stats_tx_count := tx_count; stats_funded_count := funded_txo_count;
     stats_spent_count := spent_txo_count; stats_funded_sum := funded_txo_sum;
     stats_spent_sum := spent_txo_sum |}.

Definition ANCHOR_SCRIPT : bytes := [81; 2; 78; 115].

Section values.
Context `{CS : !Consensus, TX : !Transactions, SO : !ScriptOps, SC : !Scripts, HX : !Hex,
  TT : !TxidText, HS : !Hashes}.

Definition script_type (script : bytes) : str :=
  if bool_decide (script = []) then lit "empty"
  else if is_op_return script then lit "op_return"
  else if is_p2pk script then lit "p2pk"
  else if is_p2pkh script then lit "p2pkh"
  else if is_p2sh script then lit "p2sh"
  else if is_p2wpkh script then lit "v0_p2wpkh"
  else if is_p2wsh script then lit "v0_p2wsh"
  else if is_p2tr script then lit "v1_p2tr"
  else if bool_decide (script = ANCHOR_SCRIPT) then lit "anchor"
  else if is_multisig script then lit "multisig"
  else lit "unknown".
Definition script_address (script : bytes) (network : network) : option str :=
  address_from_script script network.

Definition txout_value (o : bitcoin_txout) (network : network) : TxOutValue :=
  let script := btxout_script o in
  {| ov_scriptpubkey := hex_encode script; ov_asm := to_asm_string script;
     ov_type := script_type script; ov_address := script_address script network;
     ov_value := btxout_value o |}.

(** The last instruction of a script, when it is a push and none is malformed. *)
Fixpoint last_push (last : option bytes) (script : list instruction) : option bytes :=
  match script with
  | [] => last
  | PushBytes data :: script => last_push (Some data) script
  | OtherOp :: script => last_push None script
  | BadInstruction :: _ => None
  end.
Definition last_scriptsig_push (i : rest_txin) : option bytes :=
  last_push None (instructions (ri_script_sig i)).
Definition last_witness_script_asm (i : rest_txin) : option str :=
  to_asm_string <$> last (ri_witness i).

Definition taproot_script_asm (i : rest_txin) : option str :=
  let len := length (ri_witness i) in
  last ← last (ri_witness i);
  let from_last := if bool_decide (2 ≤ len)%nat && bool_decide (head last = Some 80)
                   then 3%nat else 2%nat in
  script ← (if bool_decide (from_last ≤ len)%nat then ri_witness i !! (len - from_last)%nat else None);
  Some (to_asm_string script).

Definition inner_scripts (i : rest_txin) (prevout : option bitcoin_txout) : option str * option str :=
  match prevout with
  | None => (None, None)
  | Some prevout =>
      let prev_script := btxout_script prevout in
      if is_p2sh prev_script then
        match last_scriptsig_push i with
        | None => (None, None)
        | Some redeem =>
            (Some (to_asm_string redeem), if is_p2wsh redeem then last_witness_script_asm i else None)
        end
      else if is_p2wsh prev_script then (None, last_witness_script_asm i)
      else if is_p2tr prev_script then (None, taproot_script_asm i)
      else (None, None)
  end.

Definition txin_value (i : rest_txin) (prevout : option bitcoin_txout) (network : network) : TxInValue :=
  let is_coinbase := outpoint_is_null (ri_prevout i) in
  let '(inner_redeemscript_asm, inner_witnessscript_asm) := inner_scripts i prevout in
  {| iv_txid := txid_to_string (op_txid (ri_prevout i)); iv_vout := op_vout (ri_prevout i);
     iv_prevout := if negb is_coinbase then (λ o, txout_value o network) <$> prevout else None;
     iv_scriptsig := hex_encode (ri_script_sig i); iv_scriptsig_asm := to_asm_string (ri_script_sig i);
     iv_witness := match ri_witness i with [] => None | w => Some (hex_encode <$> w) end;
     iv_is_coinbase := is_coinbase; iv_sequence := ri_sequence i;
     iv_inner_redeemscript_asm := inner_redeemscript_asm;
     iv_inner_witnessscript_asm := inner_witnessscript_asm |}.

Definition lookup_prevout (tx : rest_tx) (prevouts : list (option bitcoin_txout)) (outpoint : OutPoint)
    : option bitcoin_txout :=
  index ← position (λ i, bool_decide (ri_prevout i = outpoint)) (rx_inputs tx);
  default None (prevouts !! index).

Definition transaction_fee (tx : rest_tx) (prevouts : list (option bitcoin_txout)) : Z :=
  if is_coinbase tx then 0
  else
    let inputs := wrap64 (sumZ (omap (λ o, btxout_value <$> o) prevouts)) in
    let outputs := wrap64 (sumZ (btxout_value <$> rx_outputs tx)) in
    Z.max 0 (inputs - outputs).

Definition transaction_value (tx : rest_tx) (prevouts : list (option bitcoin_txout))
    (status : TransactionStatus) (network : network) : TransactionValue :=
  {| tv_txid := txid_to_string (compute_txid tx); tv_version := wrap32 (rx_version tx);
     tv_locktime := rx_locktime tx;
     tv_vin := imap (λ index i, txin_value i (default None (prevouts !! index)) network) (rx_inputs tx);
     tv_vout := (λ o, txout_value o network) <$> rx_outputs tx;
     tv_size := total_size tx; tv_weight := tx_weight tx;
     tv_sigops := total_sigop_cost tx (lookup_prevout tx prevouts);
     tv_fee := transaction_fee tx prevouts; tv_status := status |}.

Definition merkleblock_hex (header : bytes) (txids : list hash32) (id : hash32) : outcome str str :=
  match merkleblock_encode header txids (λ candidate, bool_decide (candidate = id)) with
  | inr bytes => Ok (hex_encode bytes)
  | inl e => Err e
  end.

(** In natural byte order. *)
Definition rest_scripthash (script : bytes) : hash32 := sha256 script.
End values.

(** *** Blocks, from the node's JSON *)

Section blocks.
Context `{JF : !JsonFloats}.

Record BlockValue := {
  bv_id : str; bv_height : Z; bv_version : Z; bv_timestamp : Z; bv_tx_count : Z; bv_size : Z;
  bv_weight : Z; bv_merkle_root : str; bv_previousblockhash : option str; bv_mediantime : Z;
  bv_nonce : Z; bv_bits : Z; bv_difficulty : f64;
}.

(** [Value::as_u64]. *)
Definition as_u64 (v : json) : option Z :=
  match v with
  | JNumber n => if (0 <=? n) && (n <? 2 ^ 64) then Some n else None
  | _ => None
  end.
Definition get_str (v : json) (key : string) : option str := f ← json_get v (lit key); as_str f.
Definition get_u64 (v : json) (key : string) : option Z := f ← json_get v (lit key); as_u64 f.
Definition get_u32 (v : json) (key : string) : option Z := wrap32 <$> get_u64 v key.

Definition from_core_json (v : json) : option BlockValue :=
  id ← get_str v "hash";
  height ← get_u32 v "height";
  version ← get_u32 v "version";
  timestamp ← get_u32 v "time";
  tx_count ← get_u32 v "nTx";
  size ← get_u32 v "size";
  weight ← get_u64 v "weight";
  merkle_root ← get_str v "merkleroot";
  let previousblockhash := get_str v "previousblockhash" in
  mediantime ← get_u32 v "mediantime";
  nonce ← get_u32 v "nonce";
  bits ← (bits ← get_str v "bits"; parse_hex (2 ^ 32) bits);
  difficulty ← (f ← json_get v (lit "difficulty"); json_as_f64 f);
  Some {| bv_id := id; bv_height := height; bv_version := version; bv_timestamp := timestamp;
          bv_tx_count := tx_count; bv_size := size; bv_weight := weight;
          bv_merkle_root := merkle_root; bv_previousblockhash := previousblockhash;
          bv_mediantime := mediantime; bv_nonce := nonce; bv_bits := bits;
          bv_difficulty := difficulty |}.
End blocks.

(** ** JSON

    The serializers derived in [types.rs]: fields in the order of the structs;
    a field with [skip_serializing_if] is left out when empty, any other [None]
    is [null]. *)

Definition jnum (name : string) (z : Z) : str * json := jfield name (JNumber z).
Definition jstr (name : string) (s : str) : str * json := jfield name (JString s).
Definition jnullable (name : string) (v : option json) : str * json :=
  jfield name (default JNull v).

Definition status_value_json (s : TransactionStatus) : json :=
  JObject ([jfield "confirmed" (JBool (st_confirmed s))] ++
           jopt "block_height" (JNumber <$> st_block_height s) ++
           jopt "block_hash" (JString <$> st_block_hash s) ++
           jopt "block_time" (JNumber <$> st_block_time s)).
Definition txout_value_json (o : TxOutValue) : json :=
  JObject ([jstr "scriptpubkey" (ov_scriptpubkey o); jstr "scriptpubkey_asm" (ov_asm o);
            jstr "scriptpubkey_type" (ov_type o)] ++
           jopt "scriptpubkey_address" (JString <$> ov_address o) ++ [jnum "value" (ov_value o)]).
Definition txin_value_json (i : TxInValue) : json :=
  JObject ([jstr "txid" (iv_txid i); jnum "vout" (iv_vout i);
            jnullable "prevout" (txout_value_json <$> iv_prevout i);
            jstr "scriptsig" (iv_scriptsig i); jstr "scriptsig_asm" (iv_scriptsig_asm i)] ++
           jopt "witness" ((λ w, JArray (JString <$> w)) <$> iv_witness i) ++
           [jfield "is_coinbase" (JBool (iv_is_coinbase i)); jnum "sequence" (iv_sequence i)] ++
           jopt "inner_redeemscript_asm" (JString <$> iv_inner_redeemscript_asm i) ++
           jopt "inner_witnessscript_asm" (JString <$> iv_inner_witnessscript_asm i)).
Definition transaction_value_json (t : TransactionValue) : json :=
  JObject [jstr "txid" (tv_txid t); jnum "version" (tv_version t); jnum "locktime" (tv_locktime t);
           jfield "vin" (JArray (txin_value_json <$> tv_vin t));
           jfield "vout" (JArray (txout_value_json <$> tv_vout t));
           jnum "size" (tv_size t); jnum "weight" (tv_weight t); jnum "sigops" (tv_sigops t);
           jnum "fee" (tv_fee t); jfield "status" (status_value_json (tv_status t))].
Definition block_value_json `{JF : !JsonFloats} (b : BlockValue) : json :=
  JObject [jstr "id" (bv_id b); jnum "height" (bv_height b); jnum "version" (bv_version b);
           jnum "timestamp" (bv_timestamp b); jnum "tx_count" (bv_tx_count b);
           jnum "size" (bv_size b); jnum "weight" (bv_weight b);
           jstr "merkle_root" (bv_merkle_root b);
           jnullable "previousblockhash" (JString <$> bv_previousblockhash b);
           jnum "mediantime" (bv_mediantime b); jnum "nonce" (bv_nonce b); jnum "bits" (bv_bits b);
           jfield "difficulty" (json_of_f64 (bv_difficulty b))].
Definition block_status_json (b : BlockStatus) : json :=
  JObject [jfield "in_best_chain" (JBool (bs_in_best_chain b));
           jnullable "height" (JNumber <$> bs_height b);
           jnullable "next_best" (JString <$> bs_next_best b)].
Definition utxo_value_json (u : UtxoValue) : json :=
  JObject [jstr "txid" (uv_txid u); jnum "vout" (uv_vout u);
           jfield "status" (status_value_json (uv_status u)); jnum "value" (uv_value u)].
Definition spending_value_json (s : SpendingValue) : json :=
  JObject ([jfield "spent" (JBool (sv_spent s))] ++ jopt "txid" (JString <$> sv_txid s) ++
           jopt "vin" (JNumber <$> sv_vin s) ++ jopt "status" (status_value_json <$> sv_status s)).
(** Inside [json!], whose maps are sorted. *)
Definition script_stats_json (s : ScriptStats) : json :=
  JObject [jnum "funded_txo_count" (stats_funded_count s); jnum "funded_txo_sum" (stats_funded_sum s);
           jnum "spent_txo_count" (stats_spent_count s); jnum "spent_txo_sum" (stats_spent_sum s);
           jnum "tx_count" (stats_tx_count s)].
Definition summary_json (s : TxHistorySummary) : json :=
  JObject [jstr "txid" (hs_txid s); jnum "height" (hs_height s); jnum "value" (hs_value s);
           jnum "time" (hs_time s); jnum "tx_position" (hs_tx_position s)].
Definition merkle_proof_json (m : MerkleProof) : json :=
  JObject [jnum "block_height" (mp_block_height m);
           jfield "merkle" (JArray (JString <$> mp_merkle m)); jnum "pos" (mp_pos m)].
Definition recent_tx_json (r : RecentTx) : json :=
  JObject [jstr "txid" (rt_txid r); jnum "fee" (rt_fee r); jnum "vsize" (rt_vsize r);
           jnum "value" (rt_value r)].
