(* ===== verification/Tls.v ===== *)
(** * TLS credentials

    [bindex-electrum/src/tls.rs]: the certificates and the private key of the TLS
    listener. Reading PEM and building the TLS configuration are given
    ([rustls-pemfile], [rustls]); an item of an iterator that fails to be read is
    [None]. *)

From S2P Require Import Prelude Text.

Inductive private_key := Pkcs8 (der : bytes) | Pkcs1 (der : bytes).

Class Rustls := {
  server_config : Type;
  rustls_error : Type;
  pem_certs : bytes → list (option bytes);
  pem_pkcs8_keys : bytes → list (option bytes);
  pem_rsa_keys : bytes → list (option bytes);
  (* [ServerConfig::builder().with_no_client_auth().with_single_cert(..)] *)
  with_single_cert : list bytes → private_key → rustls_error + server_config;
}.

Inductive tls_error `{Rustls} :=
| TlsIo
| NoCertificates (path : str)
| NoPrivateKey (path : str)
| RustlsError (e : rustls_error).
Arguments TlsIo {_}.
Arguments NoCertificates {_} path.
Arguments NoPrivateKey {_} path.
Arguments RustlsError {_} e.

Section tls.
Context `{RU : !Rustls}.
(** [File::open] and what reading the file gives. *)
Context (file_open : str → option bytes).
Abbreviation R := (outcome tls_error).

Definition load_private_key (path : str) : R private_key :=
  file ← ok_or TlsIo (file_open path);
  match pem_pkcs8_keys file with
  | key :: _ => Pkcs8 <$> ok_or TlsIo key
  | [] =>
      file ← ok_or TlsIo (file_open path);
      match pem_rsa_keys file with
      | key :: _ => Pkcs1 <$> ok_or TlsIo key
      | [] => Err (NoPrivateKey path)
      end
  end.

Definition load_server_config (cert_path key_path : str) : R server_config :=
  file ← ok_or TlsIo (file_open cert_path);
  certs ← mapM (ok_or TlsIo) (pem_certs file);
  if bool_decide (certs = []) then Err (NoCertificates cert_path) else
  key ← load_private_key key_path;
  match with_single_cert certs key with
  | inr config => Ok config
  | inl e => Err (RustlsError e)
  end.

(** ** Properties *)

(** The key that is used: the first PKCS#8 key of the file, or its first RSA key
    when it has no PKCS#8 section at all. *)
Inductive first_key (file : bytes) : private_key → Prop :=
| first_pkcs8 der keys : pem_pkcs8_keys file = Some der :: keys → first_key file (Pkcs8 der)
| first_rsa der keys :
    pem_pkcs8_keys file = [] → pem_rsa_keys file = Some der :: keys → first_key file (Pkcs1 der).

Lemma load_private_key_ok path key :
  load_private_key path = Ok key ↔ ∃ file, file_open path = Some file ∧ first_key file key.
Proof.
  unfold load_private_key. destruct (file_open path) as [file|]; osimpl; [|naive_solver].
  destruct (pem_pkcs8_keys file) as [|[der|] keys] eqn:E8; osimpl.
  - destruct (pem_rsa_keys file) as [|[der|] keys] eqn:E1; osimpl;
      (split; [try done; intros [= <-]|intros (f & [= <-] & Hk); inversion Hk; simplify_eq; congruence]).
    exists file. split; [done|]. by eapply first_rsa.
  - split; [intros [= <-]; exists file; split; [done|by eapply first_pkcs8]|].
    intros (f & [= <-] & Hk). inversion Hk; simplify_eq; congruence.
  - split; [done|]. intros (f & [= <-] & Hk). inversion Hk; simplify_eq; congruence.
Qed.

(** The listener starts with all of the certificates of the file, at least one,
    and that key. *)
Lemma load_server_config_ok cert_path key_path config :
  load_server_config cert_path key_path = Ok config ↔
  ∃ file certs key, file_open cert_path = Some file ∧ pem_certs file = Some <$> certs ∧
    certs ≠ [] ∧ load_private_key key_path = Ok key ∧ with_single_cert certs key = inr config.
Proof.
  unfold load_server_config. destruct (file_open cert_path) as [file|]; osimpl; [|naive_solver].
  split.
  - intros (certs & Hc & H)%bind_ok. apply mapM_outcome_ok in Hc. case_bool_decide as Hne; [done|].
    apply bind_ok in H as (key & Hk & H). destruct (with_single_cert certs key) eqn:Ew; [done|].
    injection H as ->. exists file, certs, key. split_and!; [done| |done..].
    clear -Hc. induction Hc as [|o c os cs Ho _ IH]; [done|]. apply ok_or_ok in Ho as ->.
    cbn. by rewrite IH.
  - intros (f & certs & key & [= <-] & -> & Hne & Hk & Hw).
    assert (mapM (ok_or TlsIo) (Some <$> certs) = Ok certs) as ->.
    { apply mapM_outcome_ok. clear. induction certs as [|c certs IH]; by constructor. }
    osimpl. rewrite bool_decide_eq_false_2 by done. rewrite Hk. osimpl. by rewrite Hw.
Qed.

Lemma load_server_config_calm cert_path key_path m : load_server_config cert_path key_path ≠ Panic m.
Proof.
  unfold load_server_config, load_private_key. destruct (file_open cert_path) as [file|]; [osimpl|done].
  assert (∀ m, mapM (ok_or TlsIo) (pem_certs file) ≠ Panic m) as Hc.
  { induction (pem_certs file) as [|[c|] l IH]; [done| |done]. intros m'. cbn.
    destruct (mapM _ l) eqn:E; [done..|]. intros [= ->]. by eapply IH. }
  destruct (mapM _ _) as [certs|e|m'] eqn:Ec; [osimpl|done|by destruct (Hc m')].
  case_bool_decide; [done|]. destruct (file_open key_path) as [key|]; [osimpl|done].
  destruct (pem_pkcs8_keys key) as [|[k|] ks]; [|osimpl; by destruct (with_single_cert _ _)|done].
  destruct (pem_rsa_keys key) as [|[k|] ks]; [done|osimpl; by destruct (with_single_cert _ _)|done].
Qed.
End tls.
