(* ===== verification/Tasks.v ===== *)
(** * The tasks of the Electrum server

    What [bindex-electrum/src/server.rs] starts beside the handlers of [Server],
    with [zmq.rs] and the rest of [ChainAdapter]: the task that follows the
    writer of the index, the mempool poll, the listeners for the node's
    announcements, and the loop of every session. They share the chain, the
    mempool index, the wake-ups and the channel of changes; [step] is one turn
    of one of them, and a run is any sequence of turns. What a turn depends on
    besides this state (the node's answers, the lines that arrive, the clock) is
    in its event. *)

From S2P Require Import Prelude External Text Utf8 Index Fmt Headers Batch Store Client Chain.
From S2P Require Import Merkle Protocol Mempool CoreRest ScriptFold Adapter TorPush Config Bitcoind.
From S2P Require Import Monitor MonitorSnapshot Server RestTypes Tls.

(** ** [tokio]'s primitives *)

(** [Notify]: at most one wake-up is pending. *)
Class Notify (N : Type) := {
  notify_default : N;
  notify_one : N → N;
  pending : N → bool;         (* [notified] would not wait *)
  notified : N → N;           (* ... and takes the wake-up *)
}.
Class NotifyLaws (N : Type) `{NO : !Notify N} := {
  pending_default : pending (notify_default : N) = false;
  pending_notify_one (n : N) : pending (notify_one n) = true;
  pending_notified (n : N) : pending (notified n) = false;
}.

(** [watch]: a value, and for every receiver whether it has changed since the
    receiver last looked. *)
Class Watch (V TX RX : Type) := {
  channel : V → TX;
  borrow : TX → V;
  send_if_modified : (V → V * bool) → TX → TX;
  subscribe : TX → RX;
  has_changed : TX → RX → bool;
  borrow_and_update : TX → RX → V * RX;
}.
Class WatchLaws (V TX RX : Type) `{Watch V TX RX} := {
  (* the receiver was subscribed to the sender *)
  watching : TX → RX → Prop;
  borrow_channel (v : V) : borrow (channel v : TX) = v;
  borrow_send f (tx : TX) : borrow (send_if_modified f tx) = (f (borrow tx)).1;
  watching_subscribe (tx : TX) : watching tx (subscribe tx);
  changed_subscribe (tx : TX) : has_changed tx (subscribe tx) = false;
  watching_send f (tx : TX) rx : watching tx rx → watching (send_if_modified f tx) rx;
  changed_send f (tx : TX) rx :
    watching tx rx →
    has_changed (send_if_modified f tx) rx = (f (borrow tx)).2 || has_changed tx rx;
  update_borrow (tx : TX) rx : (borrow_and_update tx rx).1 = borrow tx;
  watching_update (tx : TX) rx : watching tx rx → watching tx (borrow_and_update tx rx).2;
  changed_update (tx : TX) rx : has_changed tx (borrow_and_update tx rx).2 = false;
}.
(** [send_modify] *)
Definition send_modify `{Watch V TX RX} (f : V → V) : TX → TX :=
  send_if_modified (λ v, (f v, true)).

(** ** [zmq.rs] *)

(** Instants and durations are numbers of nanoseconds. *)
Definition RECONNECT_DELAY : Z := NANOS_PER_SEC.
Definition BLOCK_REFRESH_OFFSETS : list Z :=
  [0; 250 * NANOS_PER_MILLI; NANOS_PER_SEC; 2 * NANOS_PER_SEC; 5 * NANOS_PER_SEC; 10 * NANOS_PER_SEC].
Definition MIN_MEMPOOL_POLL_GAP : Z := NANOS_PER_SEC.

(** [subscribe]: connecting (and subscribing), receiving, and pausing after an
    error. *)
Inductive zmq_task := ZmqConnects | ZmqListens | ZmqPauses (until : Z).
Inductive zmq_event := ZmqConnected | ZmqMessage (frames : list bytes) | ZmqFails | ZmqReconnects.
(** [message.get(0)] is the topic. *)
Definition announces (topic : bytes) (frames : list bytes) : bool :=
  bool_decide (head frames = Some topic).
(** One turn of the listener: whether it calls [on_message]. *)
Definition zmq_turn (topic : bytes) (now : Z) (e : zmq_event) (t : zmq_task) : option (zmq_task * bool) :=
  match t, e with
  | ZmqConnects, ZmqConnected => Some (ZmqListens, false)
  | ZmqConnects, ZmqFails | ZmqListens, ZmqFails => Some (ZmqPauses (now + RECONNECT_DELAY), false)
  | ZmqListens, ZmqMessage frames => Some (ZmqListens, announces topic frames)
  | ZmqPauses until, ZmqReconnects => if until <=? now then Some (ZmqConnects, false) else None
  | _, _ => None
  end.

(** ** The mempool's contents *)

(** [(btc * 1e8).round() as u64] *)
Class SatFloats `{JsonFloats} := { f64_to_sats : f64 → Z }.

Section contents.
Context `{JF : !JsonFloats, SF : !SatFloats, TP : !TxidParse}.

Definition btc_to_sats (value : option json) : Z := default 0 (f64_to_sats <$> (value ≫= json_as_f64)).
Definition parse_entry (value : json) : MempoolEntryInfo :=
  let fees := json_get value (lit "fees") in
  let fee name := f ← fees; json_get f (lit name) in
  let number name := default 0 (get_u64 value name) in
  {| mi_fee := btc_to_sats (match fee "base" with Some f => Some f | None => json_get value (lit "fee") end);
     mi_vsize := number "vsize";
     mi_ancestor_fees := btc_to_sats (fee "ancestor");
     mi_ancestor_vsize := number "ancestorsize";
     mi_time := number "time" |}.
(** The loop over the node's answer, which must be an object. *)
Definition parse_contents (contents : json) : option (list (option hash32 * MempoolEntryInfo)) :=
  match contents with
  | JObject fields => Some ((λ f : str * json, (txid_from_str f.1, parse_entry f.2)) <$> fields)
  | _ => None
  end.
End contents.

(** ** [ChainAdapter] *)

(** The characters of a path. *)
Definition path_text (s : str) : string :=
  foldr (λ c t, String.String (Ascii.ascii_of_N (Z.to_N c)) t) EmptyString s.

Section chain_adapter.
Context {S W : Type} `{HS : !Hashes, SO : !ScriptOps, VI : !VarInt, SL : !Slices, CS : !Consensus,
  RD : !RocksDB S, CJ : !ConfigJson, HA : !HttpAgent W, HX : !Hex}.
Abbreviation error := (adapter_error slices_error).

(** The chain, the time of the last refresh, and the cache of scripts. *)
Definition chain_adapter_open (config : Config) (now : Z) : stM W error (Adapter S * Z) :=
  chain ← st_map_err Bindex (open_secondary_named (path_text (bindex_db_path config))
            (path_text (cfg_db_name_or config)) (path_text (secondary_path_or config)));
  mret ({| ad_chain := chain; ad_scripts := cache_new (script_cache_refs config) |}, now).

(** [sync], which the server itself never calls. *)
Definition adapter_sync (limit : Z) : stM (IndexedChain S * W) error Stats :=
  st_map_err Bindex (Chain.sync limit).

(** [refresh], from [started] to [finished]: how long it took. *)
Definition adapter_refresh (started finished : Z) : stM (IndexedChain S * Z * W) error Z :=
  λ '(chain, last_refresh, n),
  match refresh_secondary (chain, n) with
  | (Ok _, (chain, n)) => (Ok (finished - started), (chain, finished, n))
  | (Err e, (chain, n)) => (Err (Bindex e), (chain, last_refresh, n))
  | (Panic m, (chain, n)) => (Panic m, (chain, last_refresh, n))
  end.
Definition seconds_since_refresh (now last_refresh : Z) : Z := (now - last_refresh) / NANOS_PER_SEC.

(** [tip], of a chain no one else works on. *)
Definition chain_tip (chain : IndexedChain S) (n : W) : outcome error (option HeaderNotification) :=
  (ad_tip (λ _ a, a)
     {| wd_adapter := {| ad_chain := chain; ad_scripts := cache_new 0 |}; wd_tick := 0; wd_node := n |}).1.
End chain_adapter.

(** ** Following the writer *)

(** What ended the wait of a task: its timer or a notification. *)
Inductive wake_up := ByTimer | ByNotify.
Definition take_wake_up {N : Type} `{NO : !Notify N} (w : wake_up) (n : N) : option N :=
  match w with
  | ByTimer => Some n
  | ByNotify => if pending n then Some (notified n) else None
  end.

(** The task of [spawn_secondary_refresh_task]: waiting, refreshing since an
    instant, and about to publish what it found; [interval_at] panics when the
    period is zero, which ends the task. *)
Inductive refresh_task := RefreshWaits | RefreshRuns (started : Z) | RefreshPublishes | RefreshPanicked.
(** A task spawned by [block_announced]: when, and the offsets it has yet to wait
    for. *)
Record Announcement := { an_announced : Z; an_offsets : list Z }.

Record Follower (S N : Type) := {
  fo_chain : IndexedChain S;
  fo_last_refresh : Z;
  fo_task : refresh_task;
  fo_wake : N;
  fo_announced : list Announcement;
}.
Arguments Build_Follower {S N} _ _ _ _ _.
Arguments fo_chain {S N} _.
Arguments fo_last_refresh {S N} _.
Arguments fo_task {S N} _.
Arguments fo_wake {S N} _.
Arguments fo_announced {S N} _.

Section follower.
Context {S W N : Type} `{HS : !Hashes, SO : !ScriptOps, VI : !VarInt, SL : !Slices, CS : !Consensus,
  RD : !RocksDB S, CJ : !ConfigJson, HA : !HttpAgent W, HX : !Hex, NO : !Notify N}.
Abbreviation Fo := (Follower S N).

Definition with_task (task : refresh_task) (f : Fo) : Fo :=
  {| fo_chain := fo_chain f; fo_last_refresh := fo_last_refresh f; fo_task := task;
     fo_wake := fo_wake f; fo_announced := fo_announced f |}.
Definition with_wake (n : N) (f : Fo) : Fo :=
  {| fo_chain := fo_chain f; fo_last_refresh := fo_last_refresh f; fo_task := fo_task f;
     fo_wake := n; fo_announced := fo_announced f |}.
Definition with_announced (l : list Announcement) (f : Fo) : Fo :=
  {| fo_chain := fo_chain f; fo_last_refresh := fo_last_refresh f; fo_task := fo_task f;
     fo_wake := fo_wake f; fo_announced := l |}.

Definition spawn_secondary_refresh_task (interval : Z) (f : Fo) : Fo :=
  with_task (if interval =? 0 then RefreshPanicked else RefreshWaits) f.
Definition refresh_start (now : Z) (w : wake_up) (f : Fo) : option Fo :=
  match fo_task f with
  | RefreshWaits => (λ n, with_task (RefreshRuns now) (with_wake n f)) <$> take_wake_up w (fo_wake f)
  | _ => None
  end.
(** A failed refresh is logged. *)
Definition refresh_end (now : Z) (n : W) (f : Fo) : option Fo :=
  match fo_task f with
  | RefreshRuns started =>
      let '(r, (chain, last_refresh, _)) :=
        adapter_refresh started now (fo_chain f, fo_last_refresh f, n) in
      Some {| fo_chain := chain; fo_last_refresh := last_refresh;
              fo_task := match r with Ok _ => RefreshPublishes | _ => RefreshWaits end;
              fo_wake := fo_wake f; fo_announced := fo_announced f |}
  | _ => None
  end.
(** [publish_tip]. *)
Definition set_tip (tip : option HeaderNotification) (c : Changes) : Changes * bool :=
  if decide (ch_tip c = tip) then (c, false)
  else ({| ch_tip := tip; ch_mempool := ch_mempool c |}, true).
Definition publish_tip `{Watch Changes TX RX} (n : W) (chain : IndexedChain S) (tx : TX) : TX :=
  match chain_tip chain n with
  | Ok tip => send_if_modified (set_tip tip) tx
  | _ => tx
  end.

(** The part of [block_announced] that concerns the refresh. *)
Definition schedule_refreshes (now : Z) (f : Fo) : Fo :=
  with_announced (fo_announced f ++ [{| an_announced := now; an_offsets := BLOCK_REFRESH_OFFSETS |}]) f.
(** The next turn of one of the tasks it spawned. *)
Definition announcement_turn (now : Z) (i : nat) (f : Fo) : option Fo :=
  a ← fo_announced f !! i;
  match an_offsets a with
  | offset :: offsets =>
      if an_announced a + offset <=? now then
        Some (with_wake (notify_one (fo_wake f))
                (with_announced (<[i := {| an_announced := an_announced a; an_offsets := offsets |}]>
                                   (fo_announced f)) f))
      else None
  | [] => None
  end.
End follower.

(** ** Polling the mempool *)

(** The task of [spawn_mempool_poll_task]: waiting, polling since an instant, about
    to tell of what was added and removed, and sleeping; [interval] panics when
    the period is zero, too. *)
Inductive poll_task :=
| PollWaits
| PollRuns (started : Z)
| PollTells (started : Z) (added removed : nat)
| PollSleeps (until : Z)
| PollPanicked.
Record Poller (N : Type) := { po_index : MempoolIndex; po_task : poll_task; po_wake : N }.
Arguments Build_Poller {N} _ _ _.
Arguments po_index {N} _.
Arguments po_task {N} _.
Arguments po_wake {N} _.

Section poller.
Context {N : Type} `{NO : !Notify N, HS : !Hashes, HX : !Hex, ST : !ScriptHashText, TT : !TxidText,
  CS : !Consensus, JF : !JsonFloats, SF : !SatFloats, TP : !TxidParse}.

Definition spawn_mempool_poll_task (interval : Z) (p : Poller N) : Poller N :=
  {| po_index := po_index p; po_task := if interval =? 0 then PollPanicked else PollWaits;
     po_wake := po_wake p |}.
Definition poll_start (now : Z) (w : wake_up) (p : Poller N) : option (Poller N) :=
  match po_task p with
  | PollWaits =>
      (λ n, {| po_index := po_index p; po_task := PollRuns now; po_wake := n |})
        <$> take_wake_up w (po_wake p)
  | _ => None
  end.
(** The node's answers: the contents, when there are any, and the bodies. *)
Definition poll_end (recent_cap : nat) (contents : option json) (tx_raw : hash32 → option bytes)
    (p : Poller N) : option (Poller N) :=
  match po_task p with
  | PollRuns started =>
      Some match contents ≫= parse_contents with
           | Some contents =>
               let '(index, (added, removed)) := poll_once contents tx_raw recent_cap (po_index p) in
               {| po_index := index; po_task := PollTells started added removed; po_wake := po_wake p |}
           | None =>
               {| po_index := po_index p; po_task := PollSleeps (started + MIN_MEMPOOL_POLL_GAP);
                  po_wake := po_wake p |}
           end
  | _ => None
  end.
(** [send_modify], if anything changed, and on to the sleep. *)
Definition bump_mempool (c : Changes) : Changes :=
  {| ch_tip := ch_tip c; ch_mempool := wrap64 (ch_mempool c + 1) |}.
Definition poll_tell `{Watch Changes TX RX} (p : Poller N) (tx : TX) : option (Poller N * TX) :=
  match po_task p with
  | PollTells started added removed =>
      Some ({| po_index := po_index p; po_task := PollSleeps (started + MIN_MEMPOOL_POLL_GAP);
               po_wake := po_wake p |},
            if (0 <? added)%nat || (0 <? removed)%nat then send_modify bump_mempool tx else tx)
  | _ => None
  end.
Definition poll_wake (now : Z) (p : Poller N) : option (Poller N) :=
  match po_task p with
  | PollSleeps until =>
      if until <=? now
      then Some {| po_index := po_index p; po_task := PollWaits; po_wake := po_wake p |} else None
  | _ => None
  end.
Definition wake_poller (p : Poller N) : Poller N :=
  {| po_index := po_index p; po_task := po_task p; po_wake := notify_one (po_wake p) |}.
End poller.

(** ** Sessions *)

(** A session of [handle_stream]; its guard is the monitor's entry for it. *)
Record Live (RX : Type) := { lv_peer : str; lv_session : Session; lv_changes : RX }.
Arguments Build_Live {RX} _ _ _.
Arguments lv_peer {RX} _.
Arguments lv_session {RX} _.
Arguments lv_changes {RX} _.
Record Clients (F TX RX : Type) := {
  sv_changes : TX; sv_sessions : gmap nat (Live RX); sv_monitor : MonitorState F; sv_tls : bool;
}.
Arguments Build_Clients {F TX RX} _ _ _ _.
Arguments sv_changes {F TX RX} _.
Arguments sv_sessions {F TX RX} _.
Arguments sv_monitor {F TX RX} _.
Arguments sv_tls {F TX RX} _.

(** What a handler of a session finds while it runs: the world with what other
    threads do to it, the monitor, the mempool at each look, connections for
    pushes, and the clock. *)
Record Around (S W F : Type) := {
  ar_world : World S W; ar_monitor : MonitorState F;
  ar_interfere : nat → Adapter S → Adapter S; ar_mempool_at : nat → MempoolIndex;
  ar_push_env : nat → PushEnv; ar_clock : nat → Z; ar_elapsed : nat → F;
}.
Arguments Build_Around {S W F} _ _ _ _ _ _ _.
Arguments ar_world {S W F} _.
Arguments ar_monitor {S W F} _.
Arguments ar_interfere {S W F} _.
Arguments ar_mempool_at {S W F} _.
Arguments ar_push_env {S W F} _.
Arguments ar_clock {S W F} _.
Arguments ar_elapsed {S W F} _.

(** What a turn of the loop of a session selects; [written]: the client takes
    what is written to it. *)
Inductive session_event (S W F : Type) :=
| LineRead (line : str) (around : Around S W F) (written : bool)
| InputEnds
| ReadFails
| ChangeSeen (around : Around S W F) (written : bool).
Arguments LineRead {S W F} line around written.
Arguments InputEnds {S W F}.
Arguments ReadFails {S W F}.
Arguments ChangeSeen {S W F} around written.
(** The requests of a session reach the monitor through [record] and
    [reset_monitor], between those of other sessions. *)
Inductive monitor_event (F : Type) :=
| RecordRequest (method : str) (ok : bool) (duration_ms : F) (error : option str)
| ResetMonitor.
Arguments RecordRequest {F} method ok duration_ms error.
Arguments ResetMonitor {F}.

Section clients.
Context {S W F TX RX : Type} `{HS : !Hashes, HX : !Hex, HT : !HashText, ST : !ScriptHashText,
  TT : !TxidText, TP : !TxidParse, SO : !ScriptOps, VI : !VarInt, SL : !Slices, CS : !Consensus,
  RD : !RocksDB S, HA : !HttpAgent W, RA : !RpcAgent W, FS : !Files, JT : !JsonText,
  JF : !JsonFloats, SD : !Serde, MS : !Millis F, WA : !Watch Changes TX RX}.
Context (config : Config) (rpc : RpcClient) (tor_push : option TorTargets).
Context (adapter_error_text : adapter_error slices_error → str) (rpc_error_text : rpc_error → str)
  (tor_error_text : tor_error → str) (version_error_text : version_error → str)
  (protocol_error_text : protocol_error → str) (strings_to_vec : list str → bytes)
  (mode : overflow_mode).
Abbreviation Cl := (Clients F TX RX).

Definition with_live (id : nat) (l : option (Live RX)) (c : Cl) : Cl :=
  {| sv_changes := sv_changes c; sv_sessions := partial_alter (λ _, l) id (sv_sessions c);
     sv_monitor := sv_monitor c; sv_tls := sv_tls c |}.
Definition on_monitor (f : MonitorState F → MonitorState F) (c : Cl) : Cl :=
  {| sv_changes := sv_changes c; sv_sessions := sv_sessions c; sv_monitor := f (sv_monitor c);
     sv_tls := sv_tls c |}.
Definition with_changes (tx : TX) (c : Cl) : Cl :=
  {| sv_changes := tx; sv_sessions := sv_sessions c; sv_monitor := sv_monitor c; sv_tls := sv_tls c |}.

(** The start of [handle_stream]. *)
Definition session_start (peer : str) (tx : TX) : Live RX :=
  let '(current, rx) := borrow_and_update tx (subscribe tx) in
  {| lv_peer := peer; lv_session := with_checked_tip (ch_tip current) (session_new (protocol_max config));
     lv_changes := rx |}.
Definition connect (now : Z) (id : nat) (peer : str) (c : Cl) : option Cl :=
  if decide (sv_sessions c !! id = None) then
    Some (with_live id (Some (session_start peer (sv_changes c))) (on_monitor (monitor_session peer now) c))
  else None.

Definition around_peer (a : Around S W F) (s : Session) : Peer S W F :=
  {| pr_session := s; pr_monitor := ar_monitor a; pr_world := ar_world a; pr_pushed := [] |}.
Definition with_session_of (s : Session) (rx : RX) (l : Live RX) : Live RX :=
  {| lv_peer := lv_peer l; lv_session := s; lv_changes := rx |}.

(** One turn of the loop: [Some None] when the session ends. A change can be seen
    when there is one. *)
Definition session_turn (e : session_event S W F) (tx : TX) (l : Live RX) : option (option (Live RX)) :=
  match e with
  | InputEnds | ReadFails => Some None
  | LineRead line a written =>
      Some match handle_line config rpc tor_push adapter_error_text rpc_error_text tor_error_text
              version_error_text protocol_error_text strings_to_vec (ar_interfere a) (ar_mempool_at a)
              (ar_push_env a) mode (ar_clock a) (ar_elapsed a) (lv_peer l) line
              (around_peer a (lv_session l)) with
           | (Ok out, p) =>
               if negb (is_some out) || written
               then Some (with_session_of (pr_session p) (lv_changes l) l) else None
           | _ => None
           end
  | ChangeSeen a written =>
      if has_changed tx (lv_changes l) then
        let '(current, rx) := borrow_and_update tx (lv_changes l) in
        Some match notifications adapter_error_text (ar_interfere a) (ar_mempool_at a) current
                     (around_peer a (lv_session l)) with
             | (Ok notes, p) =>
                 if bool_decide (notes = []) || written
                 then Some (with_session_of (pr_session p) rx l) else None
             | _ => None
             end
      else None
  end.
(** The guard is dropped when the session ends. *)
Definition client_turn (id : nat) (e : session_event S W F) (c : Cl) : option Cl :=
  l ← sv_sessions c !! id;
  next ← session_turn e (sv_changes c) l;
  Some match next with
       | Some l => with_live id (Some l) c
       | None => with_live id None (on_monitor (end_session (lv_peer l)) c)
       end.
Definition client_monitor (now : Z) (id : nat) (e : monitor_event F) (c : Cl) : option Cl :=
  l ← sv_sessions c !! id;
  Some match e with
       | RecordRequest method ok duration_ms error =>
           on_monitor (record_request (lv_peer l) method ok duration_ms error now) c
       | ResetMonitor => on_monitor (monitor_reset now) c
       end.
End clients.

(** ** The running server *)

(** The writer of the index is another process: what it has written is part of
    the state of the database, and shows in it only after a catch-up. *)
Class Primary (S : Type) := { write_of : Type; primary_writes : write_of → S → S }.

Inductive start_error `{Slices, Rustls} :=
| StartChain (e : adapter_error slices_error)
| StartMonitor
| StartTor (e : config_error)
| StartTcp
| StartTls (e : tls_error).
Arguments StartChain {_ _} e.
Arguments StartMonitor {_ _}.
Arguments StartTor {_ _} e.
Arguments StartTcp {_ _}.
Arguments StartTls {_ _} e.
Inductive main_error `{Slices, Rustls} :=
| InvalidConfig (e : config_error)
| CreateServer (e : start_error)
| RunServer (e : start_error).

Record Running (S F N TX RX : Type) := {
  rn_serving : bool;
  rn_now : Z;
  rn_follower : Follower S N;
  rn_poller : Poller N;
  rn_rawblock : option zmq_task;
  rn_rawtx : option zmq_task;
  rn_clients : Clients F TX RX;
}.
Arguments Build_Running {S F N TX RX} _ _ _ _ _ _ _.
Arguments rn_serving {S F N TX RX} _.
Arguments rn_now {S F N TX RX} _.
Arguments rn_follower {S F N TX RX} _.
Arguments rn_poller {S F N TX RX} _.
Arguments rn_rawblock {S F N TX RX} _.
Arguments rn_rawtx {S F N TX RX} _.
Arguments rn_clients {S F N TX RX} _.

Inductive event {S W F : Type} `{Primary S} :=
| Elapse (nanos : Z)
| PrimaryWrites (p : write_of)
| RefreshStart (w : wake_up) | RefreshEnd (n : W) | PublishTip (n : W)
| PollStart (w : wake_up) | PollEnd (contents : option json) (tx_raw : hash32 → option bytes)
| PollTell | PollWake
| RawBlock (e : zmq_event) | RawTx (e : zmq_event) | AnnouncementTurn (i : nat)
| Connect (id : nat) (peer : str) | AcceptFails | Shutdown
| TlsConnect (id : nat) (peer : str) | TlsHandshakeFails | TlsAcceptFails
| SessionTurn (id : nat) (e : session_event S W F)
| SessionMonitor (id : nat) (e : monitor_event F).
Arguments event S W F {_}.

Section running.
Context {S W F N TX RX : Type} `{HS : !Hashes, HX : !Hex, HT : !HashText, ST : !ScriptHashText,
  TT : !TxidText, TP : !TxidParse, SO : !ScriptOps, VI : !VarInt, SL : !Slices, CS : !Consensus,
  RD : !RocksDB S, HA : !HttpAgent W, RA : !RpcAgent W, FS : !Files, JT : !JsonText,
  JF : !JsonFloats, SF : !SatFloats, SD : !Serde, MS : !Millis F, SN : !SnapshotFloats F,
  CJ : !ConfigJson, RU : !Rustls, PR : !Primary S, NO : !Notify N, WA : !Watch Changes TX RX}.
Context (config : Config) (rpc : RpcClient) (tor_push : option TorTargets) (recent_cap : nat).
Context (adapter_error_text : adapter_error slices_error → str) (rpc_error_text : rpc_error → str)
  (tor_error_text : tor_error → str) (version_error_text : version_error → str)
  (protocol_error_text : protocol_error → str) (strings_to_vec : list str → bytes)
  (mode : overflow_mode) (file_open : str → option bytes).
Abbreviation Rn := (Running S F N TX RX).

(** *** Starting *)

(** A path as its directory and the name in it. *)
Definition to_path (s : str) : Path :=
  match rsplit_once 47 s with
  | Some (d, f) => {| directory := d; file_name := f |}
  | None => {| directory := []; file_name := s |}
  end.
Definition new_follower (chain : IndexedChain S) (now : Z) : Follower S N :=
  {| fo_chain := chain; fo_last_refresh := now; fo_task := RefreshWaits; fo_wake := notify_default;
     fo_announced := [] |}.
Definition new_poller : Poller N :=
  {| po_index := index_empty; po_task := PollWaits; po_wake := notify_default |}.
(** [Server::new], and the endpoints its broadcasts go to. *)
Definition server_new (now : Z) (fates : io_fate * io_fate) (fs : FileSystem)
    : stM W start_error (Rn * option TorTargets) :=
  '(adapter, now') ← st_map_err StartChain (chain_adapter_open config now);
  n ← st_get;
  tip ← st_lift (map_err StartChain (chain_tip (ad_chain adapter) n));
  _ ← st_lift (map_err (λ _, StartMonitor)
         (monitor_new (F := F) (to_path (monitor_path config)) now fates fs).1);
  targets ← st_lift (map_err StartTor (server_tor_push config));
  mret ({| rn_serving := true; rn_now := now; rn_follower := new_follower (ad_chain adapter) now';
           rn_poller := new_poller; rn_rawblock := None; rn_rawtx := None;
           rn_clients := {| sv_changes := channel {| ch_tip := tip; ch_mempool := 0 |};
                            sv_sessions := ∅; sv_monitor := monitor_default; sv_tls := false |} |},
        targets).
(** [run], up to its loop; [tcp_binds] and [tls_binds] say whether the listeners
    get their addresses. The listener of the REST API is in [RestServe]. *)
Definition tls_starts (tls_binds : bool) : outcome start_error bool :=
  match tls_listen config with
  | None => Ok false
  | Some _ =>
      cert ← expect "called `Option::unwrap()` on a `None` value" (tls_cert config);
      key ← expect "called `Option::unwrap()` on a `None` value" (tls_key config);
      _ ← map_err StartTls (load_server_config file_open cert key);
      mret tls_binds
  end.
Definition server_run (tcp_binds tls_binds : bool) (s : Rn) : outcome start_error Rn :=
  _ ← (if tcp_binds then Ok tt else Err StartTcp);
  tls ← tls_starts tls_binds;
  mret {| rn_serving := rn_serving s; rn_now := rn_now s;
          rn_follower := spawn_secondary_refresh_task (secondary_refresh_interval config) (rn_follower s);
          rn_poller := spawn_mempool_poll_task (mempool_poll_interval config) (rn_poller s);
          rn_rawblock := (λ _, ZmqConnects) <$> zmq_rawblock config;
          rn_rawtx := (λ _, ZmqConnects) <$> zmq_rawtx config;
          rn_clients := {| sv_changes := sv_changes (rn_clients s);
                           sv_sessions := sv_sessions (rn_clients s);
                           sv_monitor := sv_monitor (rn_clients s); sv_tls := tls |} |}.

(** [main], with a configuration that was parsed, up to that loop. *)
Definition main (now : Z) (fates : io_fate * io_fate) (fs : FileSystem) (tcp_binds tls_binds : bool)
    : stM W main_error (Rn * option TorTargets) :=
  _ ← st_lift (map_err InvalidConfig (validate config));
  '(server, targets) ← st_map_err CreateServer (server_new now fates fs);
  server ← st_lift (map_err RunServer (server_run tcp_binds tls_binds server));
  mret (server, targets).

(** *** Turns *)

Definition on_follower (f : Follower S N → option (Follower S N)) (s : Rn) : option Rn :=
  (λ x, {| rn_serving := rn_serving s; rn_now := rn_now s; rn_follower := x; rn_poller := rn_poller s;
           rn_rawblock := rn_rawblock s; rn_rawtx := rn_rawtx s; rn_clients := rn_clients s |})
    <$> f (rn_follower s).
Definition on_poller (f : Poller N → option (Poller N)) (s : Rn) : option Rn :=
  (λ x, {| rn_serving := rn_serving s; rn_now := rn_now s; rn_follower := rn_follower s; rn_poller := x;
           rn_rawblock := rn_rawblock s; rn_rawtx := rn_rawtx s; rn_clients := rn_clients s |})
    <$> f (rn_poller s).
Definition on_clients (f : Clients F TX RX → option (Clients F TX RX)) (s : Rn) : option Rn :=
  (λ x, {| rn_serving := rn_serving s; rn_now := rn_now s; rn_follower := rn_follower s;
           rn_poller := rn_poller s; rn_rawblock := rn_rawblock s; rn_rawtx := rn_rawtx s;
           rn_clients := x |}) <$> f (rn_clients s).
Definition set_serving (b : bool) (s : Rn) : Rn :=
  {| rn_serving := b; rn_now := rn_now s; rn_follower := rn_follower s; rn_poller := rn_poller s;
     rn_rawblock := rn_rawblock s; rn_rawtx := rn_rawtx s; rn_clients := rn_clients s |}.
Definition advance (nanos : Z) (s : Rn) : Rn :=
  {| rn_serving := rn_serving s; rn_now := rn_now s + nanos; rn_follower := rn_follower s;
     rn_poller := rn_poller s; rn_rawblock := rn_rawblock s; rn_rawtx := rn_rawtx s;
     rn_clients := rn_clients s |}.
Definition set_zmq (rawblock rawtx : option zmq_task) (s : Rn) : Rn :=
  {| rn_serving := rn_serving s; rn_now := rn_now s; rn_follower := rn_follower s;
     rn_poller := rn_poller s; rn_rawblock := rawblock; rn_rawtx := rawtx; rn_clients := rn_clients s |}.

(** The callbacks of [spawn_zmq_tasks]. *)
Definition block_announced (s : Rn) : option Rn :=
  on_poller (λ p, Some (wake_poller p)) s ≫= on_follower (λ f, Some (schedule_refreshes (rn_now s) f)).
Definition tx_announced (s : Rn) : option Rn := on_poller (λ p, Some (wake_poller p)) s.

(** One turn of one task; [None]: it cannot take it now. *)
Definition turn (e : event S W F) (s : Rn) : option Rn :=
  match e with
  | Elapse nanos => if 0 <=? nanos then Some (advance nanos s) else None
  | PrimaryWrites p =>
      on_follower (λ f, Some {|
        fo_chain := with_store (fo_chain f)
                      (with_db (store (fo_chain f)) (primary_writes p (db (store (fo_chain f)))));
        fo_last_refresh := fo_last_refresh f; fo_task := fo_task f; fo_wake := fo_wake f;
        fo_announced := fo_announced f |}) s
  | RefreshStart w => on_follower (refresh_start (rn_now s) w) s
  | RefreshEnd n => on_follower (refresh_end (rn_now s) n) s
  | PublishTip n =>
      match fo_task (rn_follower s) with
      | RefreshPublishes =>
          s ← on_clients (λ c, Some (with_changes (publish_tip n (fo_chain (rn_follower s))
                                                     (sv_changes c)) c)) s;
          on_follower (λ f, Some (with_task RefreshWaits f)) s
      | _ => None
      end
  | PollStart w => on_poller (poll_start (rn_now s) w) s
  | PollEnd contents tx_raw => on_poller (poll_end recent_cap contents tx_raw) s
  | PollTell =>
      '(p, tx) ← poll_tell (rn_poller s) (sv_changes (rn_clients s));
      s ← on_poller (λ _, Some p) s;
      on_clients (λ c, Some (with_changes tx c)) s
  | PollWake => on_poller (poll_wake (rn_now s)) s
  | RawBlock e =>
      t ← rn_rawblock s;
      '(t, called) ← zmq_turn (lit "rawblock") (rn_now s) e t;
      let s := set_zmq (Some t) (rn_rawtx s) s in
      if called : bool then block_announced s else Some s
  | RawTx e =>
      t ← rn_rawtx s;
      '(t, called) ← zmq_turn (lit "rawtx") (rn_now s) e t;
      let s := set_zmq (rn_rawblock s) (Some t) s in
      if called : bool then tx_announced s else Some s
  | AnnouncementTurn i => on_follower (announcement_turn (rn_now s) i) s
  | Connect id peer => on_clients (connect config (rn_now s) id peer) s
  | AcceptFails | Shutdown => Some (set_serving false s)
  | TlsConnect id peer =>
      if sv_tls (rn_clients s) then on_clients (connect config (rn_now s) id peer) s else None
  | TlsHandshakeFails => Some s
  | TlsAcceptFails =>
      on_clients (λ c, Some {| sv_changes := sv_changes c; sv_sessions := sv_sessions c;
                               sv_monitor := sv_monitor c; sv_tls := false |}) s
  | SessionTurn id e =>
      on_clients (client_turn config rpc tor_push adapter_error_text rpc_error_text tor_error_text
                    version_error_text protocol_error_text strings_to_vec mode id e) s
  | SessionMonitor id e => on_clients (client_monitor (rn_now s) id e) s
  end.
(** When [main] has returned nothing runs. *)
Definition step (e : event S W F) (s : Rn) : option Rn := if rn_serving s then turn e s else None.
Fixpoint run (es : list (event S W F)) (s : Rn) : option Rn :=
  match es with [] => Some s | e :: es => s ← step e s; run es s end.
End running.
