(* ===== verification/RestQuery.v ===== *)
(** * The REST API: errors and data access

    [bindex-electrum/src/rest/mod.rs] (errors, cache times) and [query.rs]:
    parsing of path and query parameters, locating transactions, resolving the
    outputs they spend, and reading blocks. What the two builds of the program
    define differently is an interface, [Format] and [FormatReads]; it is
    implemented here for Bitcoin. A handler runs on the state of the server it
    shares with the Electrum sessions ([Server.Peer]); the clock is read at
    synchronization points. *)

From S2P Require Import Prelude External Text Utf8 Index Fmt Headers Batch Store Client Chain.
From S2P Require Import Merkle Protocol Mempool CoreRest ScriptFold Adapter TorPush Config Bitcoind.
From S2P Require Import Monitor Server Deadline Http RestTypes.

(** ** [rest/mod.rs] *)

Definition TTL_LONG : Z := 157784630.
Definition TTL_SHORT : Z := 10.
Definition TTL_MEMPOOL_RECENT : Z := 5.
Definition CONF_FINAL : Z := 10.

(** [saturating_sub] *)
Definition ttl_by_depth (height : option Z) (tip : Z) : Z :=
  match height with
  | Some height => if CONF_FINAL <=? Z.max 0 (tip - height) then TTL_LONG else TTL_SHORT
  | None => TTL_SHORT
  end.

Record HttpError := { he_status : Z; he_message : str; he_cache_max_age : option Z }.
Definition http_error_new (status : Z) (message : str) : HttpError :=
  {| he_status := status; he_message := message; he_cache_max_age := None |}.
Definition bad_request : str → HttpError := http_error_new 400.
Definition not_found : str → HttpError := http_error_new 404.
Definition unprocessable : str → HttpError := http_error_new 422.
Definition server_error : str → HttpError := http_error_new 500.
Definition error_cached (self : HttpError) (max_age : Z) : HttpError :=
  {| he_status := he_status self; he_message := he_message self; he_cache_max_age := Some max_age |}.
Definition into_response (self : HttpError) : HttpResponse :=
  response_text (he_status self) (he_message self) (he_cache_max_age self).

(** [RestConfig], what the handlers read of it. *)
Record RestConfig := {
  rc_cors : bool; rc_address_search : bool;
  rc_default_block_limit : Z; rc_default_chain_txs_per_page : Z; rc_default_max_mempool_txs : Z;
  rc_default_max_address_summary_txs : Z; rc_max_mempool_page_size : Z;
  rc_max_mempool_txid_page_size : Z; rc_utxos_limit : Z; rc_request_timeout_secs : Z;
  rc_max_concurrent_queries : Z; rc_max_connections : Z; rc_header_timeout_secs : Z;
  rc_idle_timeout_secs : Z; rc_request_body_bytes_cap : Z;
}.
Definition rest_config_default : RestConfig :=
  {| rc_cors := false; rc_address_search := false; rc_default_block_limit := 10;
     rc_default_chain_txs_per_page := 25; rc_default_max_mempool_txs := 50;
     rc_default_max_address_summary_txs := 5000; rc_max_mempool_page_size := 1000;
     rc_max_mempool_txid_page_size := 10000; rc_utxos_limit := 500; rc_request_timeout_secs := 30;
     rc_max_concurrent_queries := 4; rc_max_connections := 100; rc_header_timeout_secs := 10;
     rc_idle_timeout_secs := 30; rc_request_body_bytes_cap := 20000200 |}.
Definition capped_max_txs (requested : option Z) (default_ cap : Z) : Z :=
  Z.min (default default_ requested) cap.
(** [Duration::from_secs]: nanoseconds. *)
Definition request_timeout (c : RestConfig) : Z := rc_request_timeout_secs c * 10 ^ 9.
Definition header_timeout (c : RestConfig) : Z := rc_header_timeout_secs c * 10 ^ 9.
Definition idle_timeout (c : RestConfig) : Z := rc_idle_timeout_secs c * 10 ^ 9.

(** The shared state of the API: the server, and the cached fee estimates with
    the time they were stored at. *)
Record Rest (S W F : Type) := { rt_peer : Peer S W F; rt_fee_cache : option (Z * json) }.
Arguments Build_Rest {S W F} _ _.
Arguments rt_peer {S W F} _.
Arguments rt_fee_cache {S W F} _.

(** ** Parameters of the path and the query *)

Section params.
Context `{HX : !Hex, TP : !TxidParse, BT : !BlockHashText}.

Definition parse_usize (value : str) : outcome HttpError Z :=
  ok_or (bad_request (lit "Invalid number")) (parse_unsigned (2 ^ 64) value).
Definition parse_u32 (value : str) : outcome HttpError Z :=
  ok_or (bad_request (lit "Invalid number")) (parse_unsigned (2 ^ 32) value).
Definition parse_txid (value : str) : outcome HttpError hash32 :=
  ok_or (bad_request (lit "Invalid hex hash")) (txid_from_str value).
Definition parse_block_hash (value : str) : outcome HttpError hash32 :=
  ok_or (bad_request (lit "Invalid hex hash")) (block_hash_from_str value).
(** Unparseable or absent means the default. *)
Definition query_usize (request : HttpRequest) (name : str) : option Z :=
  value ← param request name; parse_unsigned (2 ^ 64) value.

(** An address with its script, or the text of a script hash. *)
Inductive ScriptKey := KeyAddress (address : str) (script : bytes) | KeyScripthash (hash : str).

Definition key_label (self : ScriptKey) : str * str :=
  match self with
  | KeyAddress address _ => (lit "address", address)
  | KeyScripthash hash => (lit "scripthash", hash)
  end.

Definition scripthash_key (value : str) : outcome HttpError ScriptKey :=
  bytes ← ok_or (bad_request (lit "Invalid hex string")) (hex_decode value);
  if bool_decide (length bytes = 32%nat) then mret (KeyScripthash (to_ascii_lowercase value))
  else Err (bad_request (lit "Invalid scripthash")).

Context `{HS : !Hashes, ST : !ScriptHashText, SC : !Scripts}.

Definition key_electrum (self : ScriptKey) : outcome HttpError ElectrumScripthash :=
  match self with
  | KeyAddress _ script => esh_from_script script
  | KeyScripthash hash =>
      bytes ← ok_or (bad_request (lit "Invalid hex string")) (hex_decode hash);
      if bool_decide (length bytes = 32%nat) then mret {| esh_bytes := rev bytes |}
      else Err (bad_request (lit "Invalid scripthash"))
  end.

(** Mainnet addresses only on mainnet; the test networks accept each other. *)
Definition network_accepts (valid_for : network → bool) (net : network) : bool :=
  let candidates :=
    match net with
    | NetBitcoin => [NetBitcoin]
    | _ => [NetTestnet; NetTestnet4; NetSignet; NetRegtest]
    end in
  existsb valid_for candidates.

Definition address_key (value : str) (net : network) : outcome HttpError ScriptKey :=
  '(script, valid_for) ←
    ok_or (bad_request (lit "Invalid Bitcoin address")) (address_from_str value);
  if negb (network_accepts valid_for net)
  then Err (bad_request (lit "Address on invalid network"))
  else mret (KeyAddress value script).
End params.

(** ** The chain format

    The names that [format.rs], [types.rs], [liquid_types.rs] and the halves of
    [query.rs] and [handlers.rs] under [cfg(feature = "liquid")] define once per
    build; [format_merkleblock_hex] is there on Bitcoin only. *)
Class Format := {
  format_Tx : Type;
  format_TxOut : Type;
  format_Params : Type;
  format_decode_tx : bytes → outcome str format_Tx;
  format_decode_block_txs : bytes → outcome str (list format_Tx);
  format_prevout_outpoints : format_Tx → list (option OutPoint);
  format_output_count : format_Tx → nat;
  format_output : format_Tx → Z → option format_TxOut;
  format_output_script : format_TxOut → bytes;
  format_is_unspendable : format_TxOut → bool;
  format_spending_input : format_Tx → OutPoint → option Z;
  format_address_key : str → format_Params → outcome HttpError ScriptKey;
  format_TransactionValue : Type;
  format_transaction_value :
    format_Tx → list (option format_TxOut) → TransactionStatus → format_Params → format_TransactionValue;
  format_tv_status : format_TransactionValue → TransactionStatus;
  format_transaction_json : format_TransactionValue → json;
  format_BlockValue : Type;
  format_from_core_json : json → option format_BlockValue;
  format_block_json : format_BlockValue → json;
  format_UtxoValue : Type;
  format_utxo_json : format_UtxoValue → json;
  format_ScriptStats : Type;
  format_script_stats_new : Z → Z → Z → Z → Z → format_ScriptStats;
  format_stats_json : format_ScriptStats → json;
  format_summary_value : Z → Z → Z;
  format_recent_json : RecentTx → json;
}.

(** The Bitcoin format. *)
Definition bitcoin_format `{CS : !Consensus, TX : !Transactions, SO : !ScriptOps, SC : !Scripts,
    HX : !Hex, TT : !TxidText, JF : !JsonFloats} : Format := {|
  format_Tx := rest_tx; format_TxOut := bitcoin_txout; format_Params := network;
  format_decode_tx := decode_tx; format_decode_block_txs := decode_block_txs;
  format_prevout_outpoints := prevout_outpoints; format_output_count := output_count;
  format_output := output; format_output_script := output_script;
  format_is_unspendable := is_unspendable; format_spending_input := spending_input;
  format_address_key := address_key;
  format_TransactionValue := TransactionValue; format_transaction_value := transaction_value;
  format_tv_status := tv_status; format_transaction_json := transaction_value_json;
  format_BlockValue := BlockValue; format_from_core_json := from_core_json;
  format_block_json := block_value_json;
  format_UtxoValue := UtxoValue; format_utxo_json := utxo_value_json;
  format_ScriptStats := ScriptStats; format_script_stats_new := script_stats_new;
  format_stats_json := script_stats_json; format_summary_value := summary_value;
  format_recent_json := recent_tx_json;
|}.

(** ** Data access *)

(** The transaction ids in a block's JSON, in block order. *)
Definition json_txids `{TP : !TxidParse} (block : json) : outcome HttpError (list hash32) :=
  values ← ok_or (server_error (lit "block JSON carried no transaction list"))
             (json_get block (lit "tx") ≫= as_array);
  mapM (λ value,
    text ← ok_or (server_error (lit "malformed txid in block JSON")) (as_str value);
    parse_txid text) values.

Section access.
Context {S W F : Type} `{HS : !Hashes, HX : !Hex, HT : !HashText, ST : !ScriptHashText,
  TT : !TxidText, TP : !TxidParse, BT : !BlockHashText, SO : !ScriptOps, VI : !VarInt,
  SL : !Slices, CS : !Consensus, RD : !RocksDB S, HA : !HttpAgent W, RH : !RawHeaders S W, RA : !RpcAgent W,
  FS : !Files, JT : !JsonText, JF : !JsonFloats, SD : !Serde, MS : !Millis F,
  TX : !Transactions, SC : !Scripts, TR : !TxOutReader}.
Context (adapter_error_text : adapter_error slices_error → str)
  (corerest_error_text : corerest_error → str).
Context (interfere : nat → Adapter S → Adapter S) (mempool_at : nat → MempoolIndex)
  (clock : nat → Z).

Abbreviation M := (stM (Rest S W F) HttpError).

(** *** Conversions of errors *)

Definition from_chain_error (err : adapter_error slices_error) : HttpError :=
  match err with
  | DeadlineExceeded => http_error_new 504 (adapter_error_text err)
  | ReorgUnderQuery => http_error_new 503 (adapter_error_text err)
  | other => server_error (adapter_error_text other)
  end.
Definition from_corerest_error (err : corerest_error) : HttpError :=
  match err with
  | NotFound => not_found (lit "Block not found")
  | other => server_error (corerest_error_text other)
  end.

(** *** The parts of the state *)

Definition on_peer {E A} (m : stM (Peer S W F) E A) : stM (Rest S W F) E A := λ s,
  let '(r, p) := m (rt_peer s) in (r, {| rt_peer := p; rt_fee_cache := rt_fee_cache s |}).
Definition on_chain {A} (m : stM (World S W) (adapter_error slices_error) A) : M A :=
  st_map_err from_chain_error (on_peer (on_world m)).
(** A REST call to the node. *)
Definition on_core {A} (m : stM W corerest_error A) : stM (Rest S W F) corerest_error A :=
  on_peer (on_world (λ w, let '(r, n) := m (wd_node w) in
    (r, {| wd_adapter := wd_adapter w; wd_tick := wd_tick w; wd_node := n |}))).
(** [api.server.mempool().read()] *)
Definition mempool_read : M MempoolIndex := on_peer (read_mempool interfere mempool_at).

Definition deadline_at (deadline : Deadline) (tick : nat) : bool := expired deadline (clock tick).
Definition check_deadline (deadline : Deadline) : M () :=
  passed ← on_chain (deadline_expired interfere (deadline_at deadline));
  if passed : bool then st_lift (Err (http_error_new 504 (lit "request deadline exceeded")))
  else mret tt.

(** *** The chain *)

Definition ad_tip_height : stM (World S W) (adapter_error slices_error) (option Z) :=
  chain ← read_chain interfere; mret (tip_height (ic_headers chain)).
Definition hash_at_height (height : Z) : stM (World S W) (adapter_error slices_error) (option hash32) :=
  chain ← read_chain interfere; mret (block_hash_at_height (ic_headers chain) height).
Definition header_raw_at_height (height : Z)
    : stM (World S W) (adapter_error slices_error) (option bytes) :=
  chain ← read_chain interfere; raw_header_at chain height.
(** The decoded header, here its raw bytes and its time. *)
Definition ad_header_at_height (height : Z)
    : stM (World S W) (adapter_error slices_error) (option (bytes * Z)) :=
  raw ← header_raw_at_height height;
  match raw with
  | None => mret None
  | Some raw =>
      time ← st_lift (ok_or (Bindex ChainDecode) (header_time raw));
      mret (Some (raw, time))
  end.

Definition query_tip_height : M Z :=
  tip ← on_chain ad_tip_height;
  st_lift (ok_or (server_error (lit "chain has no headers")) tip).

(** *** Blocks *)

Definition query_block_raw (hash : hash32) : M bytes :=
  st_map_err from_corerest_error (on_core (block_raw hash)).
End access.

Section decode.
Context `{FO : !Format, TT : !TxidText, BT : !BlockHashText}.

Definition decode (raw : bytes) (what : str) : outcome HttpError format_Tx :=
  map_err (λ err, server_error (lit "decode " ++ what ++ lit ": " ++ err)) (format_decode_tx raw).
Definition decode_block (raw : bytes) (hash : hash32) : outcome HttpError (list format_Tx) :=
  map_err (λ err, server_error (lit "decode block " ++ block_hash_to_string hash ++ lit ": " ++ err))
    (format_decode_block_txs raw).
End decode.

Section prevout.
Context {S W F : Type} `{HS : !Hashes, HX : !Hex, HT : !HashText, ST : !ScriptHashText,
  TT : !TxidText, TP : !TxidParse, BT : !BlockHashText, SO : !ScriptOps, VI : !VarInt,
  SL : !Slices, CS : !Consensus, RD : !RocksDB S, HA : !HttpAgent W, RA : !RpcAgent W,
  FS : !Files, JT : !JsonText, JF : !JsonFloats, SD : !Serde, MS : !Millis F,
  TX : !Transactions, SC : !Scripts, TR : !TxOutReader, FO : !Format}.
Context (adapter_error_text : adapter_error slices_error → str)
  (corerest_error_text : corerest_error → str).
Context (interfere : nat → Adapter S → Adapter S) (mempool_at : nat → MempoolIndex)
  (clock : nat → Z).

Abbreviation M := (stM (Rest S W F) HttpError).

Abbreviation on_chain := (on_chain (S := S) (W := W) (F := F) adapter_error_text).
Abbreviation mempool_read := (mempool_read (S := S) (W := W) (F := F) interfere mempool_at).

(** The output an outpoint refers to, from the mempool or the chain, or from
    [node] when neither has it. *)
Definition prevout_or (node : hash32 → M (option bytes)) (outpoint : OutPoint)
    : M (option format_TxOut) :=
  mempool ← mempool_read;
  raw ← match raw_transaction mempool (op_txid outpoint) with
        | Some raw => mret (Some raw)
        | None => on_chain (transaction_by_txid interfere (op_txid outpoint))
        end;
  raw ← match raw with Some raw => mret (Some raw) | None => node (op_txid outpoint) end;
  match raw with
  | None => mret None
  | Some raw =>
      tx ← st_lift (decode raw (txid_to_string (op_txid outpoint)));
      mret (format_output tx (op_vout outpoint))
  end.
End prevout.

(** What the two builds read differently: the time of a block; the transaction
    the node has when neither mempool nor chain do; a block's JSON; the
    transactions of a block with their prevouts, from one place to before
    another; the value of an unspent output; what [GET /block/:hash] adds to a
    block; the proof of [merkleblock-proof] for the ids of the block at a
    height, and the routes under [/asset] and [/assets], if the build has
    them. *)
Class FormatReads (S W F : Type) `{FO : !Format} := {
  read_block_time : Z → stM (Rest S W F) HttpError Z;
  read_node_tx : hash32 → stM (Rest S W F) HttpError (option bytes);
  read_block_json : hash32 → stM W corerest_error json;
  read_block_transactions :
    hash32 → Z → Z → Deadline → stM (Rest S W F) HttpError (list (format_Tx * list (option format_TxOut)));
  read_utxo_value : OutPoint → TransactionStatus → Z → stM (Rest S W F) HttpError (option format_UtxoValue);
  read_block_ext : hash32 → format_BlockValue → stM (Rest S W F) HttpError format_BlockValue;
  read_merkleblock : option (Z → list hash32 → hash32 → stM (Rest S W F) HttpError str);
  read_asset : option (HttpRequest → stM (Rest S W F) HttpError HttpResponse);
}.

(** ** The Bitcoin build *)

Section bitcoin.
Context {S W F : Type} `{HS : !Hashes, HX : !Hex, HT : !HashText, ST : !ScriptHashText,
  TT : !TxidText, TP : !TxidParse, BT : !BlockHashText, SO : !ScriptOps, VI : !VarInt,
  SL : !Slices, CS : !Consensus, RD : !RocksDB S, HA : !HttpAgent W, RA : !RpcAgent W,
  FS : !Files, JT : !JsonText, JF : !JsonFloats, SD : !Serde, MS : !Millis F,
  TX : !Transactions, SC : !Scripts, TR : !TxOutReader}.
Context (adapter_error_text : adapter_error slices_error → str)
  (corerest_error_text : corerest_error → str).
Context (interfere : nat → Adapter S → Adapter S) (mempool_at : nat → MempoolIndex)
  (clock : nat → Z).

Abbreviation M := (stM (Rest S W F) HttpError).
Abbreviation on_chain := (on_chain (S := S) (W := W) (F := F) adapter_error_text).
Abbreviation on_core := (on_core (S := S) (W := W) (F := F)).
Abbreviation query_block_raw := (query_block_raw (S := S) (W := W) (F := F) corerest_error_text).
Abbreviation from_corerest_error := (from_corerest_error corerest_error_text).

Definition block_time (height : Z) : M Z :=
  header ← on_chain (ad_header_at_height interfere height);
  st_lift (ok_or (not_found (lit "Block not found")) (snd <$> header)).

Definition align_prevouts (tx : rest_tx) (spent : list bitcoin_txout) : list (option bitcoin_txout) :=
  if is_coinbase tx then replicate (length (rx_inputs tx)) None
  else (λ index, spent !! index) <$> seq 0 (length (rx_inputs tx)).

(** The transactions of a block from [from] to before [to], with their
    prevouts: the block and its spent outputs are two calls to the node. *)
Definition block_transactions (hash : hash32) (from to : Z) (_deadline : Deadline)
    : M (list (rest_tx * list (option bitcoin_txout))) :=
  raw ← query_block_raw hash;
  txs ← (st_lift (decode_block (FO := bitcoin_format) raw hash) : M (list rest_tx));
  spent_bytes ← st_map_err from_corerest_error (on_core (spent_txouts hash));
  spent ← st_lift (map_err (λ err, server_error (corerest_error_text err))
                     (parse_spent_txouts spent_bytes));
  if negb (bool_decide (length spent = length txs)) then
    st_lift (Err (server_error
      (lit "block " ++ block_hash_to_string hash ++ lit " has " ++
       show_unsigned (Z.of_nat (length txs)) ++ lit " transactions but " ++
       show_unsigned (Z.of_nat (length spent)) ++ lit " spent-output lists")))
  else
    let end_ := Nat.min (Z.to_nat to) (length txs) in
    let start := Nat.min (Z.to_nat from) end_ in
    mret ((λ p, (p.1, align_prevouts p.1 p.2)) <$> take (end_ - start) (drop start (zip txs spent))).

Definition utxo_value (outpoint : OutPoint) (status : TransactionStatus) (value : Z) : UtxoValue :=
  {| uv_txid := txid_to_string (op_txid outpoint); uv_vout := op_vout outpoint;
     uv_status := status; uv_value := value |}.

(** The proof of [tx_merkleblock_proof]. *)
Definition merkleblock_proof (height : Z) (txids : list hash32) (id : hash32) : M str :=
  header ← on_chain (ad_header_at_height interfere height);
  header ← st_lift (ok_or (not_found (lit "Block not found")) header);
  st_lift (map_err server_error (merkleblock_hex header.1 txids id)).

Definition bitcoin_reads : FormatReads S W F (FO := bitcoin_format) :=
  Build_FormatReads S W F bitcoin_format block_time (λ _, mret None) block_json block_transactions
    (λ outpoint status value, mret (Some (utxo_value outpoint status value)))
    (λ _ value, mret value) (Some merkleblock_proof) None.
End bitcoin.

(** ** Queries *)

(** A transaction and where it lives; the index in its block if confirmed. *)
Record FoundTx `{FO : !Format} := {
  ft_tx : format_Tx; ft_raw : bytes; ft_status : TransactionStatus; ft_position : option Z;
}.

Section query.
Context {S W F : Type} `{HS : !Hashes, HX : !Hex, HT : !HashText, ST : !ScriptHashText,
  TT : !TxidText, TP : !TxidParse, BT : !BlockHashText, SO : !ScriptOps, VI : !VarInt,
  SL : !Slices, CS : !Consensus, RD : !RocksDB S, HA : !HttpAgent W, RA : !RpcAgent W,
  FS : !Files, JT : !JsonText, JF : !JsonFloats, SD : !Serde, MS : !Millis F,
  TX : !Transactions, SC : !Scripts, TR : !TxOutReader, FO : !Format, FR : !FormatReads S W F}.
Context (params : format_Params) (adapter_error_text : adapter_error slices_error → str)
  (corerest_error_text : corerest_error → str).
Context (interfere : nat → Adapter S → Adapter S) (mempool_at : nat → MempoolIndex)
  (clock : nat → Z).

Abbreviation M := (stM (Rest S W F) HttpError).

Abbreviation on_chain := (on_chain (S := S) (W := W) (F := F) adapter_error_text).
Abbreviation on_core := (on_core (S := S) (W := W) (F := F)).
Abbreviation mempool_read := (mempool_read (S := S) (W := W) (F := F) interfere mempool_at).
Abbreviation check_deadline := (check_deadline (W := W) (F := F) adapter_error_text interfere clock).
Abbreviation from_corerest_error := (from_corerest_error corerest_error_text).

(** *** Transactions *)

(** Looked up in the chain index, then in the mempool. *)
Definition find_tx (id : hash32) : M (option FoundTx) :=
  located ← on_chain (located_transaction_by_txid interfere id);
  match located with
  | Some located =>
      tx ← st_lift (decode (lt_raw located) (txid_to_string id));
      block_hash ← st_lift (parse_block_hash (lt_block_hash located));
      time ← read_block_time (lt_height located);
      mret (Some {| ft_tx := tx; ft_raw := lt_raw located;
                    ft_status := status_confirmed (lt_height located) block_hash time;
                    ft_position := Some (lt_position located) |})
  | None =>
      mempool ← mempool_read;
      match raw_transaction mempool id with
      | None => mret None
      | Some raw =>
          tx ← st_lift (decode raw (lit "mempool " ++ txid_to_string id));
          mret (Some {| ft_tx := tx; ft_raw := raw; ft_status := status_unconfirmed;
                        ft_position := None |})
      end
  end.

Definition prevout : OutPoint → M (option format_TxOut) :=
  prevout_or adapter_error_text interfere mempool_at read_node_tx.

Fixpoint resolve_all (outpoints : list (option OutPoint)) : M (list (option format_TxOut)) :=
  match outpoints with
  | [] => mret []
  | outpoint :: outpoints =>
      o ← match outpoint with Some outpoint => prevout outpoint | None => mret None end;
      os ← resolve_all outpoints;
      mret (o :: os)
  end.
Definition resolve_prevouts (tx : format_Tx) : M (list (option format_TxOut)) :=
  resolve_all (format_prevout_outpoints tx).

(** An input that spends an output came back without it. *)
Definition missing_prevouts (tx : format_Tx) (prevouts : list (option format_TxOut)) : bool :=
  existsb (λ o : nat * option OutPoint,
      is_some o.2 && negb (is_some (default None (prevouts !! o.1))))
    (imap pair (format_prevout_outpoints tx)).

Definition MISSING_PREVOUTS : str := lit "Transaction missing prevouts".
Definition rest_tx_value (found : FoundTx) : M format_TransactionValue :=
  prevouts ← resolve_prevouts (ft_tx found);
  if missing_prevouts (ft_tx found) prevouts
  then st_lift (Err (error_cached (server_error MISSING_PREVOUTS) 0))
  else mret (format_transaction_value (ft_tx found) prevouts (ft_status found) params).

(** For lists: a transaction whose prevouts are missing is dropped. *)
Definition tx_value_opt (id : hash32) : M (option format_TransactionValue) :=
  found ← find_tx id;
  match found with
  | None => mret None
  | Some found =>
      value ← st_try (rest_tx_value found);
      match value with
      | inr value => mret (Some value)
      | inl err =>
          if (he_status err =? 500) && bool_decide (he_message err = MISSING_PREVOUTS)
          then mret None else st_lift (Err err)
      end
  end.

(** *** Blocks *)

Definition query_block_json (hash : hash32) : M json :=
  st_map_err from_corerest_error (on_core (read_block_json (S := S) (F := F) hash)).

Fixpoint tx_values_of (deadline : Deadline) (status : TransactionStatus)
    (txs : list (format_Tx * list (option format_TxOut))) : M (list format_TransactionValue) :=
  match txs with
  | [] => mret []
  | (tx, prevouts) :: txs =>
      _ ← check_deadline deadline;
      rest ← tx_values_of deadline status txs;
      mret (if missing_prevouts tx prevouts then rest
            else format_transaction_value tx prevouts status params :: rest)
  end.
Definition block_tx_values (hash : hash32) (status : TransactionStatus) (from to : Z)
    (deadline : Deadline) : M (list format_TransactionValue) :=
  txs ← read_block_transactions hash from to deadline;
  tx_values_of deadline status txs.
End query.
