(* ===== verification/RestAddress.v ===== *)
(** * The REST API: address and script-hash routes

    [bindex-electrum/src/rest/address.rs], in either format: every route folds
    the confirmed history of each requested script and adds the mempool's side
    of it. *)

From S2P Require Import Prelude External Text Utf8 Index Fmt Headers Batch Store Client Chain.
From S2P Require Import Merkle Protocol Mempool CoreRest ScriptFold Adapter TorPush Config Bitcoind.
From S2P Require Import Monitor Server Deadline Http RestTypes RestQuery.

Definition MAX_HISTORY_TXS : Z := 100.
Definition MULTI_ADDRESS_LIMIT : nat := 300.
Definition MULTI_ADDRESS_BODY_LIMIT : Z := 21600.

(** An in-flight request. *)
Record Req := { req_http : HttpRequest; req_deadline : Deadline }.

(** A path segment equal to a literal. *)
Definition seg (literal : string) (segment : str) : bool := bool_decide (segment = lit literal).

(** ** Pure parts *)

(** One transaction's effect on the requested scripts, merged across them. *)
Record MergedRow := {
  mr_txid : hash32; mr_height : Z; mr_position : Z; mr_funded : Z; mr_spent : Z;
}.
(** The confirmed history of every script a request names. *)
Record Histories := { h_entries : list (ElectrumScripthash * ScriptHistory) }.

Definition merge_row (merged : gmap hash32 MergedRow) (row : ScriptHistoryRow) : gmap hash32 MergedRow :=
  let entry := default {| mr_txid := shr_txid row; mr_height := shr_height row;
                          mr_position := shr_position row; mr_funded := 0; mr_spent := 0 |}
                 (merged !! shr_txid row) in
  <[shr_txid row := {| mr_txid := mr_txid entry; mr_height := mr_height entry;
                       mr_position := mr_position entry;
                       mr_funded := wrap64 (mr_funded entry + shr_funded row);
                       mr_spent := wrap64 (mr_spent entry + shr_spent row) |}]> merged.
(** Newest first: [Reverse((height, position))], one row per transaction. *)
Definition row_key (row : MergedRow) : Z * Z := (- mr_height row, - mr_position row).
Definition rows_desc (self : Histories) : list MergedRow :=
  let merged := foldl merge_row ∅ (h_entries self ≫= λ e, sh_rows e.2) in
  sort_by (lex_le Z.lt Z.le) row_key (snd <$> sort_by bytes_le fst (map_to_list merged)).

(** What an outpoint spends in the mempool adds to the transactions found. *)
Definition add_spender (mempool : MempoolIndex) (found : gmap hash32 Z) (outpoint : OutPoint)
    : gmap hash32 Z :=
  match spender mempool outpoint with
  | Some s => <[s := from_option mt_time 0 (txs mempool !! s)]> found
  | None => found
  end.
Definition add_funding (mempool : MempoolIndex) (found : gmap hash32 Z) (id : hash32) : gmap hash32 Z :=
  match txs mempool !! id with Some tx => <[id := mt_time tx]> found | None => found end.
Definition add_script (mempool : MempoolIndex) (found : gmap hash32 Z)
    (e : ElectrumScripthash * ScriptHistory) : gmap hash32 Z :=
  let found := foldl (add_funding mempool) found (funding_txids mempool e.1) in
  let candidates := (su_outpoint <$> sh_utxos e.2) ++ (fst <$> outputs_of mempool e.1) in
  foldl (add_spender mempool) found candidates.
(** Newest first, the greater id first among transactions of the same time. *)
Definition time_key (p : hash32 * Z) : Z * hash32 := (- p.2, p.1).
Definition mempool_txids_of (self : Histories) (mempool : MempoolIndex) : list hash32 :=
  let found := foldl (add_script mempool) ∅ (h_entries self) in
  fst <$> sort_by (lex_le Z.lt (flip bytes_le)) time_key (map_to_list found).

(** The mempool's side of the statistics of a script. *)
Definition mempool_stats_of `{FO : !Format} (mempool : MempoolIndex) (scripthash : ElectrumScripthash)
    (history : ScriptHistory) : format_ScriptStats :=
  let outputs := outputs_of mempool scripthash in
  let candidates := ((λ u, (su_outpoint u, su_value u)) <$> sh_utxos history) ++ outputs in
  let spent := omap (λ c : OutPoint * Z, (λ s, (s, c.2)) <$> spender mempool c.1) candidates in
  let txs : gset hash32 := list_to_set ((λ o : OutPoint * Z, op_txid o.1) <$> outputs) ∪
                           list_to_set (fst <$> spent) in
  format_script_stats_new (Z.of_nat (size txs)) (Z.of_nat (length outputs)) (Z.of_nat (length spent))
    (wrap64 (sumZ (snd <$> outputs))) (wrap64 (sumZ (snd <$> spent))).

(** The transactions after the cursor, in the mempool and then in the chain. *)
Definition after_cursor (mempool chain : list hash32) (cursor : option hash32)
    : outcome HttpError (list hash32) :=
  match cursor with
  | None => mret (mempool ++ chain)
  | Some cursor =>
      match position (λ id, bool_decide (id = cursor)) mempool with
      | Some index => mret (drop (index + 1) mempool ++ chain)
      | None =>
          match position (λ id, bool_decide (id = cursor)) chain with
          | Some index => mret (drop (index + 1) chain)
          | None => Err (unprocessable (lit "after_txid not found"))
          end
      end
  end.
Definition after_chain_cursor (chain : list hash32) (cursor : option hash32) : list hash32 :=
  match cursor with
  | Some cursor =>
      match position (λ id, bool_decide (id = cursor)) chain with
      | Some index => drop (index + 1) chain
      | None => []
      end
  | None => chain
  end.

(** ** The routes *)

Section address.
Context {S W F : Type} `{HS : !Hashes, HX : !Hex, HT : !HashText, ST : !ScriptHashText,
  TT : !TxidText, TP : !TxidParse, BT : !BlockHashText, SO : !ScriptOps, VI : !VarInt,
  SL : !Slices, CS : !Consensus, RD : !RocksDB S, HA : !HttpAgent W, RA : !RpcAgent W,
  FS : !Files, JT : !JsonText, JF : !JsonFloats, SD : !Serde, MS : !Millis F,
  TX : !Transactions, SC : !Scripts, TR : !TxOutReader, FO : !Format, FR : !FormatReads S W F}.
Context (params : format_Params) (config : RestConfig)
  (adapter_error_text : adapter_error slices_error → str)
  (corerest_error_text : corerest_error → str) (debug_str : str → str).
Context (interfere : nat → Adapter S → Adapter S) (mempool_at : nat → MempoolIndex)
  (clock : nat → Z).

Abbreviation M := (stM (Rest S W F) HttpError).
Abbreviation on_chain := (on_chain (S := S) (W := W) (F := F) adapter_error_text).
Abbreviation mempool_read := (mempool_read (S := S) (W := W) (F := F) interfere mempool_at).
Abbreviation check_deadline := (check_deadline (W := W) (F := F) adapter_error_text interfere clock).
Abbreviation tx_value_opt :=
  (tx_value_opt (W := W) (F := F) params adapter_error_text interfere mempool_at).

(** [json] and [text]; the serializer of these values does not fail. *)
Definition json_ok {E} (value : json) (ttl : Z) : outcome E HttpResponse :=
  Ok (response_json (json_to_string value) (Some ttl)).
Definition text_ok {E} (value : str) (ttl : Z) : outcome E HttpResponse :=
  Ok (response_text 200 value (Some ttl)).
Definition answer_json (value : json) (ttl : Z) : M HttpResponse := st_lift (json_ok value ttl).
Definition answer_text (value : str) (ttl : Z) : M HttpResponse := st_lift (text_ok value ttl).

(** A wrong method is just an unknown path. *)
Definition unrouted (request : Req) : HttpError :=
  not_found (lit "endpoint does not exist " ++ debug_str (rq_raw_target (req_http request))).

(** [serde_json::from_slice::<Vec<String>>]. *)
Definition strings_from_slice (body : bytes) : option (list str) :=
  v ← json_from_slice body; values ← as_array v; mapM as_str values.

Definition address_prefix : M HttpResponse :=
  if negb (rc_address_search config) then st_lift (Err (bad_request (lit "address search disabled")))
  else answer_json (JArray []) TTL_SHORT.

(** Malformed entries are dropped. *)
Definition script_key_of (prefix : str) (entry : str) : outcome HttpError ScriptKey :=
  if bool_decide (prefix = lit "addresses") then format_address_key entry params else scripthash_key entry.
Definition ok_of {E A} (r : outcome E A) : option A := match r with Ok a => Some a | _ => None end.
Definition multi_keys (request : Req) (prefix : str) : outcome HttpError (list ScriptKey) :=
  if MULTI_ADDRESS_BODY_LIMIT <? Z.of_nat (length (rq_body (req_http request)))
  then Err (unprocessable (lit "body too long")) else
  entries ← ok_or (bad_request json_error_text) (strings_from_slice (rq_body (req_http request)));
  if bool_decide (MULTI_ADDRESS_LIMIT < length entries)%nat
  then Err (unprocessable (lit "body too long"))
  else mret (omap (λ entry, ok_of (script_key_of prefix entry)) entries).

Definition history_of (scripthash : ElectrumScripthash) (deadline : Deadline) : M ScriptHistory :=
  on_chain (script_history interfere (deadline_at clock deadline) scripthash).

(** [Histories::load]: each script once. *)
Fixpoint load_keys (deadline : Deadline) (seen : gset ElectrumScripthash) (keys : list ScriptKey)
    : M (list (ElectrumScripthash * ScriptHistory)) :=
  match keys with
  | [] => mret []
  | key :: keys =>
      scripthash ← st_lift (key_electrum key);
      if bool_decide (scripthash ∈ seen) then load_keys deadline seen keys else
      history ← history_of scripthash deadline;
      rest ← load_keys deadline ({[scripthash]} ∪ seen) keys;
      mret ((scripthash, history) :: rest)
  end.
Definition histories_load (keys : list ScriptKey) (deadline : Deadline) : M Histories :=
  entries ← load_keys deadline ∅ keys; mret {| h_entries := entries |}.

Definition mempool_txids (self : Histories) : M (list hash32) :=
  mempool ← mempool_read; mret (mempool_txids_of self mempool).
Definition mempool_stats (scripthash : ElectrumScripthash) (history : ScriptHistory) : M format_ScriptStats :=
  mempool ← mempool_read; mret (mempool_stats_of mempool scripthash history).

Fixpoint tx_values_loop (deadline : Deadline) (txids : list hash32) : M (list format_TransactionValue) :=
  match txids with
  | [] => mret []
  | id :: txids =>
      _ ← check_deadline deadline;
      value ← tx_value_opt id;
      rest ← tx_values_loop deadline txids;
      mret (match value with Some value => value :: rest | None => rest end)
  end.
Definition tx_values (txids : list hash32) (limit : Z) (deadline : Deadline)
    : M (list format_TransactionValue) := tx_values_loop deadline (take (Z.to_nat limit) txids).
Definition answer_txs (values : list format_TransactionValue) : M HttpResponse :=
  answer_json (JArray (format_transaction_json <$> values)) TTL_SHORT.

Definition stats_route (key : ScriptKey) (deadline : Deadline) : M HttpResponse :=
  scripthash ← st_lift (key_electrum key);
  history ← history_of scripthash deadline;
  let chain_stats := format_script_stats_new (Z.of_nat (tx_count history)) (funded_txo_count history)
    (spent_txo_count history) (funded_txo_sum history) (spent_txo_sum history) in
  mempool_stats ← mempool_stats scripthash history;
  let '(label, value) := key_label key in
  answer_json (JObject (sort_by bytes_le fst
    [(label, JString value); jfield "chain_stats" (format_stats_json chain_stats);
     jfield "mempool_stats" (format_stats_json mempool_stats)])) TTL_SHORT.

Definition max_txs (request : Req) : option Z := query_usize (req_http request) (lit "max_txs").
Definition chain_txids (histories : Histories) : list hash32 := mr_txid <$> rows_desc histories.

Definition txs_route (request : Req) (keys : list ScriptKey) : M HttpResponse :=
  histories ← histories_load keys (req_deadline request);
  let limit := capped_max_txs (max_txs request) (rc_default_max_mempool_txs config) MAX_HISTORY_TXS in
  cursor ← st_lift match param (req_http request) (lit "after_txid") with
                   | Some value => Some <$> parse_txid value
                   | None => mret None
                   end;
  mempool ← mempool_txids histories;
  txids ← st_lift (after_cursor mempool (chain_txids histories) cursor);
  values ← tx_values txids limit (req_deadline request);
  answer_txs values.

Definition txs_chain (request : Req) (keys : list ScriptKey) (cursor : option str) : M HttpResponse :=
  histories ← histories_load keys (req_deadline request);
  let limit := capped_max_txs (max_txs request) (rc_default_chain_txs_per_page config)
                 MAX_HISTORY_TXS in
  let txids := after_chain_cursor (chain_txids histories) (cursor ≫= txid_from_str) in
  values ← tx_values txids limit (req_deadline request);
  answer_txs values.

Definition txs_mempool (request : Req) (keys : list ScriptKey) : M HttpResponse :=
  histories ← histories_load keys (req_deadline request);
  let limit := capped_max_txs (max_txs request) (rc_default_max_mempool_txs config) MAX_HISTORY_TXS in
  txids ← mempool_txids histories;
  values ← tx_values txids limit (req_deadline request);
  answer_txs values.

(** The times of blocks, each read once. *)
Definition cached_time (times : gmap Z Z) (height : Z) : M (Z * gmap Z Z) :=
  match times !! height with
  | Some time => mret (time, times)
  | None => time ← read_block_time height; mret (time, <[height := time]> times)
  end.
Fixpoint summaries (times : gmap Z Z) (rows : list MergedRow) : M (list TxHistorySummary) :=
  match rows with
  | [] => mret []
  | row :: rows =>
      '(time, times) ← cached_time times (mr_height row);
      rest ← summaries times rows;
      mret ({| hs_txid := txid_to_string (mr_txid row); hs_height := mr_height row;
               hs_value := format_summary_value (mr_funded row) (mr_spent row); hs_time := time;
               hs_tx_position := Z.min (mr_position row) 65535 |} :: rest)
  end.
Definition txs_summary (request : Req) (keys : list ScriptKey) (cursor : option str) : M HttpResponse :=
  histories ← histories_load keys (req_deadline request);
  let limit := capped_max_txs (max_txs request) (rc_default_max_address_summary_txs config)
                 (rc_default_max_address_summary_txs config) in
  let rows := rows_desc histories in
  start ← st_lift
    match cursor with
    | Some cursor =>
        cursor ← parse_txid cursor;
        index ← ok_or (unprocessable (lit "after_txid not found"))
                  (position (λ row, bool_decide (mr_txid row = cursor)) rows);
        mret (index + 1)%nat
    | None => mret 0%nat
    end;
  summaries ← summaries ∅ (take (Z.to_nat limit) (drop start rows));
  answer_json (JArray (summary_json <$> summaries)) TTL_SHORT.

(** *** Unspent outputs *)

(** The hash and the time of blocks, each read once. *)
Definition cached_block (blocks : gmap Z (hash32 * Z)) (height : Z)
    : M (hash32 * Z * gmap Z (hash32 * Z)) :=
  match blocks !! height with
  | Some entry => mret (entry, blocks)
  | None =>
      hash ← on_chain (hash_at_height interfere height);
      hash ← st_lift (ok_or (server_error (lit "utxo block vanished")) hash);
      time ← read_block_time height;
      mret ((hash, time), <[height := (hash, time)]> blocks)
  end.
(** [Vec::extend] with an option, at the head. *)
Definition extend {A} (value : option A) (rest : list A) : list A :=
  match value with Some value => value :: rest | None => rest end.
Fixpoint confirmed_utxos (spent : gset OutPoint) (blocks : gmap Z (hash32 * Z))
    (utxos : list ScriptUtxo) : M (list format_UtxoValue) :=
  match utxos with
  | [] => mret []
  | u :: utxos =>
      if bool_decide (su_outpoint u ∈ spent) then confirmed_utxos spent blocks utxos else
      '(hash, time, blocks) ← cached_block blocks (su_height u);
      value ← read_utxo_value (su_outpoint u) (status_confirmed (su_height u) hash time) (su_value u);
      rest ← confirmed_utxos spent blocks utxos;
      mret (extend value rest)
  end.
Fixpoint unconfirmed_utxos (spent : gset OutPoint) (outputs : list (OutPoint * Z))
    : M (list format_UtxoValue) :=
  match outputs with
  | [] => mret []
  | (outpoint, amount) :: outputs =>
      if bool_decide (outpoint ∈ spent) then unconfirmed_utxos spent outputs else
      value ← read_utxo_value outpoint status_unconfirmed amount;
      rest ← unconfirmed_utxos spent outputs;
      mret (extend value rest)
  end.
(** The outputs that the mempool spends, among those of the chain and its own. *)
Definition spent_in (mempool : MempoolIndex) (outpoints : list OutPoint) : gset OutPoint :=
  list_to_set (filter (λ o, is_Some (spender mempool o)) outpoints).

Definition utxo_route (key : ScriptKey) (deadline : Deadline) : M HttpResponse :=
  scripthash ← st_lift (key_electrum key);
  history ← history_of scripthash deadline;
  if rc_utxos_limit config <? peak_live_utxos history then
    st_lift (Err (bad_request (lit "Too many UTXOs: " ++ show_unsigned (peak_live_utxos history) ++
      lit " exceeds the limit of " ++ show_unsigned (rc_utxos_limit config))))
  else
    mempool ← mempool_read;
    let outputs := outputs_of mempool scripthash in
    let spent := spent_in mempool ((su_outpoint <$> sh_utxos history) ++ (fst <$> outputs)) in
    confirmed ← confirmed_utxos spent ∅ (sh_utxos history);
    unconfirmed ← unconfirmed_utxos spent outputs;
    answer_json (JArray (format_utxo_json <$> confirmed ++ unconfirmed)) TTL_SHORT.

(** *** Routing *)

Definition get_route (request : Req) (key : ScriptKey) (rest : list str) : M HttpResponse :=
  let none := st_lift (Err (unrouted request)) in
  match rest with
  | [] => stats_route key (req_deadline request)
  | [a] =>
      if seg "txs" a then txs_route request [key]
      else if seg "utxo" a then utxo_route key (req_deadline request)
      else none
  | [a; b] =>
      if negb (seg "txs" a) then none
      else if seg "chain" b then txs_chain request [key] None
      else if seg "mempool" b then txs_mempool request [key]
      else if seg "summary" b then txs_summary request [key] None
      else none
  | [a; b; cursor] =>
      if negb (seg "txs" a) then none
      else if seg "chain" b then txs_chain request [key] (Some cursor)
      else if seg "summary" b then txs_summary request [key] (Some cursor)
      else none
  | _ => none
  end.

(** Routed before the body is read. *)
Definition post_route (request : Req) (prefix : str) (rest : list str) : M HttpResponse :=
  let none := st_lift (Err (unrouted request)) in
  let keyed (route : list ScriptKey → M HttpResponse) : M HttpResponse :=
    keys ← st_lift (multi_keys request prefix); route keys in
  match rest with
  | [a] => if seg "txs" a then keyed (txs_route request) else none
  | [a; b] =>
      if seg "txs" a && seg "summary" b
      then keyed (λ keys, txs_summary request keys None) else none
  | [a; b; cursor] =>
      if seg "txs" a && seg "summary" b
      then keyed (λ keys, txs_summary request keys (Some cursor)) else none
  | _ => none
  end.
End address.
