(* ===== verification/RestHandlers.v ===== *)
(** * The REST API: routes and handlers

    [bindex-electrum/src/rest/handlers.rs], in either format: what only one of
    them has or does differently comes through [FormatReads]. *)

From S2P Require Import Prelude External Text Utf8 Index Fmt Headers Batch Store Client Chain.
From S2P Require Import Merkle Protocol Mempool CoreRest ScriptFold Adapter TorPush Config Bitcoind.
From S2P Require Import Monitor Server Deadline Http RestTypes RestQuery RestAddress.

Definition MAX_BATCH_TXIDS : nat := 50.
Definition MAX_SUBMIT_TXS : nat := 25.
Definition MIN_TX_HEX : Z := 120.
Definition MAX_TX_HEX : Z := 800000.
Definition CONF_TARGETS : list Z :=
  [1; 2; 3; 4; 5; 6; 7; 8; 9; 10; 11; 12; 13; 14; 15; 16; 17; 18; 19; 20; 21; 22; 23; 24; 25; 144;
   504; 1008].

(** Parsing and printing of [f64], and the conversion of fee rates: a rate is
    reported when positive, in satoshis per vbyte; [Number::from_f64] gives
    [null] for what JSON has no number for. *)
Class RestFloats `{JsonFloats} := {
  f64_from_str : str → option f64;
  f64_positive : f64 → bool;
  f64_eight_decimals : f64 → str;
  sat_per_vb : f64 → f64;
}.

(** [&[f32]] bins of [fee_histogram_bins]: a rate, comparisons, [f32::EPSILON]. *)
Class Rates := {
  f32 : Type;
  f32_zero : f32;
  f32_rate : Z → Z → f32;             (* fee as f32 / vsize as f32 *)
  f32_ge : f32 → f32 → Prop;          (* [total_cmp], descending *)
  f32_ge_dec :: RelDecision f32_ge;
  f32_differ : f32 → f32 → bool;      (* the distance exceeds the epsilon *)
  json_of_f32 : f32 → json;
}.

(** [total_cmp] is a total order. *)
Class RatesLaws `{Rates} := {
  f32_ge_trans :: Transitive f32_ge;
  f32_ge_total :: Total f32_ge;
}.

(** [MempoolIndex::fee_histogram_bins]: one round of the loop, on the bins, the
    size of the open bin and its rate. *)
Section bins.
Context `{RT : !Rates}.

Definition saturate32 (z : Z) : Z := Z.min z (2 ^ 32 - 1).
Definition bin_step (acc : list (f32 * Z) * Z * f32) (r : f32 * Z) : list (f32 * Z) * Z * f32 :=
  let '(histogram, bin_size, last_rate) := acc in
  let '(rate, vsize) := r in
  let '(histogram, bin_size) :=
    if (50000 <? bin_size) && f32_differ last_rate rate
    then (histogram ++ [(last_rate, saturate32 bin_size)], 0) else (histogram, bin_size) in
  (histogram, wrap64 (bin_size + vsize), rate).
Definition fee_rates (self : MempoolIndex) : list (f32 * Z) :=
  sort_by f32_ge fst
    ((λ tx, (f32_rate (mt_fee tx) (mt_vsize tx), mt_vsize tx)) <$>
     filter (λ tx, 0 < mt_vsize tx) (snd <$> map_to_list (txs self))).
Definition fee_histogram_bins (self : MempoolIndex) : list (f32 * Z) :=
  let '(histogram, bin_size, last_rate) := foldl bin_step ([], 0, f32_zero) (fee_rates self) in
  if 0 <? bin_size then histogram ++ [(last_rate, saturate32 bin_size)] else histogram.
End bins.

(** Routes that replay histories, scan for a spender or build the transactions
    of a block or of the mempool. *)
Definition is_expensive (method : str) (segments : list str) : bool :=
  let get := bool_decide (method = lit "GET") in
  let post := bool_decide (method = lit "POST") in
  match segments with
  | a :: _ :: c :: _ => get && seg "block" a && seg "txs" c
  | _ => false
  end ||
  match segments with
  | [a; b; _; d] => get && seg "internal" a && seg "block" b && seg "txs" d
  | _ => false
  end ||
  match segments with [a; _; c; _] => get && seg "tx" a && seg "outspend" c | _ => false end ||
  match segments with [a; _; c] => get && seg "tx" a && seg "outspends" c | _ => false end ||
  match segments with [a; b] => get && seg "txs" a && seg "outspends" b | _ => false end ||
  match segments with a :: b :: _ => post && seg "internal" a && seg "txs" b | _ => false end ||
  match segments with a :: _ => get && (seg "address" a || seg "scripthash" a) | _ => false end ||
  match segments with a :: _ => post && (seg "addresses" a || seg "scripthashes" a) | _ => false end ||
  match segments with
  | a :: b :: c :: _ => get && seg "internal" a && seg "mempool" b && seg "txs" c
  | _ => false
  end ||
  match segments with
  | [a; b; c] => post && seg "internal" a && seg "mempool" b && seg "txs" c
  | _ => false
  end.

Section handlers.
Context {S W F : Type} `{HS : !Hashes, HX : !Hex, HT : !HashText, ST : !ScriptHashText,
  TT : !TxidText, TP : !TxidParse, BT : !BlockHashText, SO : !ScriptOps, VI : !VarInt,
  SL : !Slices, CS : !Consensus, RD : !RocksDB S, HA : !HttpAgent W, RA : !RpcAgent W,
  FS : !Files, JT : !JsonText, JF : !JsonFloats, SD : !Serde, MS : !Millis F,
  TX : !Transactions, SC : !Scripts, TR : !TxOutReader, RF : !RestFloats, RT : !Rates,
  FO : !Format, FR : !FormatReads S W F}.
Context (params : format_Params) (config : RestConfig) (server_config : Config) (rpc : RpcClient)
  (tor_push : option TorTargets).
(** The texts of errors, and the serializer's text of a list of strings. *)
Context (adapter_error_text : adapter_error slices_error → str)
  (corerest_error_text : corerest_error → str) (rpc_error_text : rpc_error → str)
  (tor_error_text : tor_error → str) (utf8_error_text : bytes → str) (debug_str : str → str)
  (strings_to_vec : list str → bytes).
Context (interfere : nat → Adapter S → Adapter S) (mempool_at : nat → MempoolIndex)
  (push_env : nat → PushEnv) (mode : overflow_mode) (clock : nat → Z).

Abbreviation M := (stM (Rest S W F) HttpError).
Abbreviation on_chain := (on_chain (S := S) (W := W) (F := F) adapter_error_text).
Abbreviation on_core := (on_core (S := S) (W := W) (F := F)).
Abbreviation on_peer := (on_peer (S := S) (W := W) (F := F)).
Abbreviation mempool_read := (mempool_read (S := S) (W := W) (F := F) interfere mempool_at).
Abbreviation check_deadline := (check_deadline (W := W) (F := F) adapter_error_text interfere clock).
Abbreviation query_tip_height := (query_tip_height (W := W) (F := F) adapter_error_text interfere).
Abbreviation hash_at := (λ height, on_chain (hash_at_height interfere height)).
Abbreviation query_block_json := (query_block_json (S := S) (W := W) (F := F) corerest_error_text).
Abbreviation find_tx := (find_tx (W := W) (F := F) adapter_error_text interfere mempool_at).
Abbreviation tx_value_opt :=
  (tx_value_opt (W := W) (F := F) params adapter_error_text interfere mempool_at).
Abbreviation answer_json := (answer_json (S := S) (W := W) (F := F)).
Abbreviation answer_text := (answer_text (S := S) (W := W) (F := F)).
Abbreviation answer_txs := (answer_txs (S := S) (W := W) (F := F)).
Abbreviation fail := (λ e, st_lift (Err e) : M HttpResponse).

Definition answer_binary (body : bytes) (ttl : Z) : M HttpResponse :=
  mret (response_binary body (Some ttl)).
Definition json_strings (ss : list str) : json := JArray (JString <$> ss).

(** ** Helpers *)

Definition block_hash_at (height : Z) : M hash32 :=
  hash ← hash_at height; st_lift (ok_or (not_found (lit "Block not found")) hash).
Definition block_value (hash : hash32) : M format_BlockValue :=
  v ← query_block_json hash;
  st_lift (ok_or (server_error (lit "incomplete block JSON for " ++ block_hash_to_string hash))
             (format_from_core_json v)).
Definition json_u64 (v : json) (key : string) (message : str) : outcome HttpError Z :=
  ok_or (server_error message) (get_u64 v key).
(** The status of a block's transactions, their number, whether it is in the
    best chain, and its height. *)
Definition block_context (hash : hash32) : M (TransactionStatus * Z * bool * Z) :=
  v ← query_block_json hash;
  height ← st_lift (json_u64 v "height" (lit "block JSON carried no height"));
  time ← st_lift (json_u64 v "time" (lit "block JSON carried no time"));
  tx_count ← st_lift (json_u64 v "nTx" (lit "block JSON carried no nTx"));
  at_height ← hash_at height;
  mret (status_confirmed height hash (wrap32 time), tx_count,
        bool_decide (at_height = Some hash), height).

(** ** Blocks *)

Definition blocks_tip_hash : M HttpResponse :=
  tip ← query_tip_height;
  hash ← block_hash_at tip;
  answer_text (block_hash_to_string hash) TTL_SHORT.
Definition blocks_tip_height : M HttpResponse :=
  tip ← query_tip_height; answer_text (show_unsigned tip) TTL_SHORT.

(** The loop of [blocks]: [room] more values at most, from a height down. *)
Fixpoint blocks_loop (room : nat) (empty : bool) (height : Z) : M (list format_BlockValue) :=
  match room with
  | O => mret []
  | Datatypes.S room =>
      hash ← hash_at height;
      match hash with
      | None =>
          if empty : bool then st_lift (Err (not_found (lit "Block not found"))) else mret []
      | Some hash =>
          value ← block_value hash;
          rest ← (if height =? 0 then mret [] else blocks_loop room false (height - 1));
          mret (value :: rest)
      end
  end.
Definition blocks (start : option str) : M HttpResponse :=
  tip ← query_tip_height;
  let start := default tip (value ← start; parse_unsigned (2 ^ 64) value) in
  values ← blocks_loop (Z.to_nat (rc_default_block_limit config)) true start;
  answer_json (JArray (format_block_json <$> values)) TTL_SHORT.

Definition block_height (height : str) : M HttpResponse :=
  height ← st_lift (parse_usize height);
  hash ← block_hash_at height;
  tip ← query_tip_height;
  answer_text (block_hash_to_string hash) (ttl_by_depth (Some height) tip).
Definition block (hash : str) : M HttpResponse :=
  hash ← st_lift (parse_block_hash hash);
  value ← block_value hash;
  value ← read_block_ext hash value;
  answer_json (format_block_json value) TTL_LONG.

Definition block_status (hash : str) : M HttpResponse :=
  hash ← st_lift (parse_block_hash hash);
  v ← query_block_json hash;
  height ← st_lift (json_u64 v "height" (lit "block JSON carried no height"));
  at_height ← hash_at height;
  status ←
    (if bool_decide (at_height = Some hash) then
       next ← hash_at (wrap64 (height + 1));
       mret {| bs_in_best_chain := true; bs_height := Some height;
               bs_next_best := block_hash_to_string <$> next |}
     else mret {| bs_in_best_chain := false; bs_height := None; bs_next_best := None |});
  tip ← query_tip_height;
  answer_json (block_status_json status) (ttl_by_depth (bs_height status) tip).

Definition block_txids (hash : str) : M HttpResponse :=
  hash ← st_lift (parse_block_hash hash);
  v ← query_block_json hash;
  txids ← st_lift (json_txids v);
  answer_json (json_strings (txid_to_string <$> txids)) TTL_LONG.
Definition block_header (hash : str) : M HttpResponse :=
  hash ← st_lift (parse_block_hash hash);
  raw ← st_map_err (from_corerest_error corerest_error_text) (on_core (header_raw hash));
  answer_text (hex_encode raw) TTL_LONG.
Definition rest_block_raw (hash : str) : M HttpResponse :=
  hash ← st_lift (parse_block_hash hash);
  raw ← st_map_err (from_corerest_error corerest_error_text) (on_core (block_raw hash));
  answer_binary raw TTL_LONG.
Definition block_txid_at (hash index : str) : M HttpResponse :=
  hash ← st_lift (parse_block_hash hash);
  index ← st_lift (parse_usize index);
  v ← query_block_json hash;
  txids ← st_lift (json_txids v);
  id ← st_lift (ok_or (not_found (lit "tx index out of range")) (txids !! Z.to_nat index));
  answer_text (txid_to_string id) TTL_LONG.

Definition txs_ttl (in_best_chain : bool) (height tip : Z) : Z :=
  if in_best_chain then ttl_by_depth (Some height) tip else TTL_SHORT.
Abbreviation block_tx_values :=
  (block_tx_values (W := W) (F := F) params adapter_error_text interfere clock).
Definition block_txs (request : Req) (hash : str) (start : option str) : M HttpResponse :=
  hash ← st_lift (parse_block_hash hash);
  let page := Z.max (rc_default_chain_txs_per_page config) 1 in
  start ← st_lift (match start with Some start => parse_usize start | None => mret 0 end);
  '(status, tx_count, in_best_chain, height) ← block_context hash;
  if tx_count <=? start then fail (not_found (lit "start index out of range"))
  else if negb (start mod page =? 0) then
    fail (bad_request (lit "start index must be a multipication of " ++ show_unsigned page))
  else
    values ← block_tx_values hash status start (start + page) (req_deadline request);
    tip ← query_tip_height;
    answer_json (JArray (format_transaction_json <$> values)) (txs_ttl in_best_chain height tip).
Definition internal_block_txs (request : Req) (hash : str) : M HttpResponse :=
  hash ← st_lift (parse_block_hash hash);
  '(status, tx_count, in_best_chain, height) ← block_context hash;
  values ← block_tx_values hash status 0 tx_count (req_deadline request);
  tip ← query_tip_height;
  answer_json (JArray (format_transaction_json <$> values)) (txs_ttl in_best_chain height tip).

(** ** Transactions *)

Definition found_tx (id : hash32) : M FoundTx :=
  found ← find_tx id; st_lift (ok_or (not_found (lit "Transaction not found")) found).

(** The ids in the body; every error may be cached for no time. *)
Definition txid_body (request : Req) : outcome HttpError (list hash32) :=
  raw ← ok_or (error_cached (bad_request json_error_text) 0)
          (strings_from_slice (rq_body (req_http request)));
  mapM (λ value, map_err (λ err, error_cached (bad_request (he_message err)) 0) (parse_txid value)) raw.
Definition parse_outpoint (value : str) : option OutPoint :=
  '(id, vout) ← split_once 58 value;
  id ← txid_from_str id;
  vout ← parse_unsigned (2 ^ 32) vout;
  Some {| op_txid := id; op_vout := vout |}.

(** The block a confirmed transaction sits in, its ids, and its position. *)
Definition confirmed_block_position (id : hash32) : M (Z * list hash32 * nat) :=
  found ← find_tx id;
  found ← st_lift (ok_or (not_found (lit "Transaction not found or is unconfirmed"))
                     (found ← found; if st_confirmed (ft_status found) then Some found else None));
  height ← st_lift (ok_or (server_error (lit "confirmed transaction without a height"))
                      (status_height (ft_status found)));
  hash ← block_hash_at height;
  v ← query_block_json hash;
  txids ← st_lift (json_txids v);
  let search := ok_or (server_error (lit "transaction missing from its block"))
                  (position (λ candidate, bool_decide (candidate = id)) txids) in
  pos ← st_lift (match ft_position found with
                 | Some position =>
                     if bool_decide (txids !! Z.to_nat position = Some id)
                     then mret (Z.to_nat position) else search
                 | None => search
                 end);
  mret (height, txids, pos).

Definition tx_ttl (status : TransactionStatus) (tip : Z) : Z := ttl_by_depth (status_height status) tip.

Definition tx (id : str) : M HttpResponse :=
  id ← st_lift (parse_txid id);
  found ← found_tx id;
  value ← rest_tx_value params adapter_error_text interfere mempool_at found;
  tip ← query_tip_height;
  answer_json (format_transaction_json value) (tx_ttl (format_tv_status value) tip).
Definition tx_hex (id : str) : M HttpResponse :=
  id ← st_lift (parse_txid id);
  found ← found_tx id;
  tip ← query_tip_height;
  answer_text (hex_encode (ft_raw found)) (tx_ttl (ft_status found) tip).
Definition rest_tx_raw (id : str) : M HttpResponse :=
  id ← st_lift (parse_txid id);
  found ← found_tx id;
  tip ← query_tip_height;
  answer_binary (ft_raw found) (tx_ttl (ft_status found) tip).
Definition tx_status (id : str) : M HttpResponse :=
  id ← st_lift (parse_txid id);
  found ← found_tx id;
  tip ← query_tip_height;
  answer_json (status_value_json (ft_status found)) (tx_ttl (ft_status found) tip).
Definition tx_merkle_proof (id : str) : M HttpResponse :=
  id ← st_lift (parse_txid id);
  '(height, txids, pos) ← confirmed_block_position id;
  proof ← st_lift (branch_and_root txids pos);
  tip ← query_tip_height;
  answer_json (merkle_proof_json {| mp_block_height := height;
                                    mp_merkle := hash_to_string <$> branch proof;
                                    mp_pos := Z.of_nat pos |})
    (ttl_by_depth (Some height) tip).
Definition tx_merkleblock_proof (proof_of : Z → list hash32 → hash32 → M str) (id : str) : M HttpResponse :=
  id ← st_lift (parse_txid id);
  '(height, txids, _) ← confirmed_block_position id;
  proof ← proof_of height txids id;
  tip ← query_tip_height;
  answer_text proof (ttl_by_depth (Some height) tip).

(** *** Who spent an output *)

Definition outspend (id : hash32) (vout : Z) (deadline : Deadline) : M SpendingValue :=
  _ ← check_deadline deadline;
  found ← find_tx id;
  match found with
  | None => mret spending_unspent
  | Some found =>
      match format_output (ft_tx found) vout with
      | None => mret spending_unspent
      | Some output =>
          if format_is_unspendable output then mret spending_unspent else
          let outpoint := {| op_txid := id; op_vout := vout |} in
          mempool ← mempool_read;
          match (s ← spender mempool outpoint; raw ← raw_transaction mempool s; Some (s, raw)) with
          | Some (s, raw) =>
              tx ← st_lift (decode raw (txid_to_string s));
              let vin := default 0 (format_spending_input tx outpoint) in
              mret (spending_spent s vin status_unconfirmed)
          | None =>
              match status_height (ft_status found) with
              | None => mret spending_unspent
              | Some funding_height =>
                  scripthash ← st_lift (esh_from_script (format_output_script output));
                  spender ← on_chain (find_spender interfere (deadline_at clock deadline) outpoint
                                        scripthash funding_height);
                  match spender with
                  | None => mret spending_unspent
                  | Some spender =>
                      time ← read_block_time (sp_height spender);
                      mret (spending_spent (sp_txid spender) (sp_vin spender)
                              (status_confirmed (sp_height spender) (sp_block_hash spender) time))
                  end
              end
          end
      end
  end.

Fixpoint outspends_from (id : hash32) (deadline : Deadline) (vout : Z) (n : nat)
    : M (list SpendingValue) :=
  match n with
  | O => mret []
  | Datatypes.S n =>
      value ← outspend id vout deadline;
      rest ← outspends_from id deadline (vout + 1) n;
      mret (value :: rest)
  end.
Definition outspends_of (id : hash32) (tx : format_Tx) (deadline : Deadline) : M (list SpendingValue) :=
  outspends_from id deadline 0 (Z.to_nat (wrap32 (Z.of_nat (format_output_count tx)))).
Definition found_outspends (id : hash32) (deadline : Deadline) : M (list SpendingValue) :=
  found ← find_tx id;
  match found with
  | Some found => outspends_of id (ft_tx found) deadline
  | None => mret []
  end.
Definition outspends_or_empty (id : str) (deadline : Deadline) : M (list SpendingValue) :=
  match parse_txid id with
  | Ok id => found_outspends id deadline
  | _ => mret []
  end.

Definition json_spendings (values : list SpendingValue) : json := JArray (spending_value_json <$> values).

Definition tx_outspend (request : Req) (id vout : str) : M HttpResponse :=
  id ← st_lift (parse_txid id);
  vout ← st_lift (parse_u32 vout);
  spending ← outspend id vout (req_deadline request);
  tip ← query_tip_height;
  answer_json (spending_value_json spending) (ttl_by_depth (sv_status spending ≫= status_height) tip).
Definition tx_outspends (request : Req) (id : str) : M HttpResponse :=
  id ← st_lift (parse_txid id);
  found ← found_tx id;
  values ← outspends_of id (ft_tx found) (req_deadline request);
  answer_json (json_spendings values) TTL_SHORT.

(** A loop that collects the result of each round. *)
Fixpoint for_each {A B} (f : A → M B) (l : list A) : M (list B) :=
  match l with
  | [] => mret []
  | x :: l => y ← f x; ys ← for_each f l; mret (y :: ys)
  end.

Definition txs_outspends (request : Req) : M HttpResponse :=
  match param (req_http request) (lit "txids") with
  | None => fail (bad_request (lit "No txids specified"))
  | Some param =>
      let txids := filter (λ s, s ≠ []) (split_on 44 param) in
      if bool_decide (MAX_BATCH_TXIDS < length txids)%nat
      then fail (bad_request (lit "Too many txids requested"))
      else
        out ← for_each (λ id, outspends_or_empty id (req_deadline request)) txids;
        answer_json (JArray (json_spendings <$> out)) TTL_SHORT
  end.

(** The values of the transactions that have one, checking the deadline. *)
Definition some_values {A} (l : list (option A)) : list A := omap id l.
Definition checked_value (deadline : Deadline) (id : hash32) : M (option format_TransactionValue) :=
  _ ← check_deadline deadline; tx_value_opt id.
Definition mempool_tx_values (txids : list hash32) (deadline : Deadline) : M (list format_TransactionValue) :=
  values ← for_each (checked_value deadline) txids; mret (some_values values).

Definition internal_txs (request : Req) : M HttpResponse :=
  txids ← st_lift (txid_body request);
  out ← for_each (checked_value (req_deadline request)) txids;
  answer_json (JArray (format_transaction_json <$> some_values out)) 0.
Definition internal_outspends_by_txid (request : Req) : M HttpResponse :=
  txids ← st_lift (txid_body request);
  out ← for_each (λ id, found_outspends id (req_deadline request)) txids;
  answer_json (JArray (json_spendings <$> out)) TTL_SHORT.
Definition internal_outspends_by_outpoint (request : Req) : M HttpResponse :=
  outpoints ← st_lift (ok_or (error_cached (bad_request json_error_text) 0)
                         (strings_from_slice (rq_body (req_http request))));
  out ← for_each (λ entry, match parse_outpoint entry with
                           | Some o => outspend (op_txid o) (op_vout o) (req_deadline request)
                           | None => mret spending_unspent
                           end) outpoints;
  answer_json (json_spendings out) TTL_SHORT.

(** ** Broadcasting *)

Definition protocol_error_text (err : protocol_error) : str :=
  match err with
  | ServerError message => default message (strip_prefix (lit "bitcoind RPC error: ") message)
  | JsonError => lit "invalid JSON-RPC frame: " ++ json_error_text
  | InvalidRequest => lit "invalid request"
  | InvalidParams message => lit "invalid params: " ++ message
  | MethodNotFound method => lit "method not found: " ++ method
  end.
Definition rpc_http_error (method : string) (err : rpc_error) : HttpError :=
  let detail := match err with RpcFailed message => message | other => rpc_error_text other end in
  bad_request (lit method ++ lit " RPC error: " ++ detail).
(** A call to the node's RPC interface. *)
Definition on_rpc {A} (method : string) (m : stM W rpc_error A) : M A :=
  st_map_err (rpc_http_error method)
    (on_peer (on_world (λ w, let '(r, n) := m (wd_node w) in
       (r, {| wd_adapter := wd_adapter w; wd_tick := wd_tick w; wd_node := n |})))).
(** A method of the server. *)
Definition on_server {A} (m : stM (Peer S W F) protocol_error A) : M A :=
  st_map_err (λ err, bad_request (protocol_error_text err)) (on_peer m).

Definition rest_broadcast (raw_tx_hex : str) : M HttpResponse :=
  value ← on_server (broadcast rpc tor_push rpc_error_text tor_error_text interfere push_env mode
                       raw_tx_hex);
  let id := match value with JString s => s | _ => json_to_string value end in
  mret (response_text 200 id (Some 0)).
Definition post_tx (request : Req) : M HttpResponse :=
  raw ← st_lift (ok_or (bad_request (utf8_error_text (rq_body (req_http request))))
                   (from_utf8 (rq_body (req_http request))));
  rest_broadcast (trim raw).
Definition get_broadcast (request : Req) : M HttpResponse :=
  raw ← st_lift (ok_or (bad_request (lit "Missing tx")) (param (req_http request) (lit "tx")));
  rest_broadcast (trim raw).

(** The count is checked first. *)
Definition submitted_txs (request : Req) : outcome HttpError (list str) :=
  txs ← ok_or (bad_request json_error_text) (strings_from_slice (rq_body (req_http request)));
  if bool_decide (MAX_SUBMIT_TXS < length txs)%nat then
    Err (bad_request (lit "Exceeded maximum of " ++ show_unsigned (Z.of_nat MAX_SUBMIT_TXS) ++
                      lit " transactions"))
  else mret txs.
Fixpoint check_tx_hex_from (index : Z) (txs : list str) : outcome HttpError () :=
  match txs with
  | [] => mret tt
  | tx :: txs =>
      if (Z.of_nat (length tx) <? MIN_TX_HEX) || (MAX_TX_HEX <? Z.of_nat (length tx)) ||
         negb (is_some (hex_decode tx))
      then Err (bad_request (lit "Invalid transaction size/hex for item " ++ show_unsigned index))
      else check_tx_hex_from (index + 1) txs
  end.
Definition check_tx_hex : list str → outcome HttpError () := check_tx_hex_from 0.
Definition amount_param (request : Req) (name : str) : outcome HttpError (option str) :=
  match param (req_http request) name with
  | None => mret None
  | Some raw =>
      value ← ok_or (bad_request (lit "Invalid " ++ name)) (f64_from_str raw);
      mret (Some (f64_eight_decimals value))
  end.

Definition txs_test (request : Req) : M HttpResponse :=
  if bool_decide (broadcast_via server_config = ViaTor) then
    fail (bad_request (lit "testmempoolaccept is unavailable with --broadcast-via tor"))
  else
    txs ← st_lift (submitted_txs request);
    maxfeerate ← st_lift (amount_param request (lit "maxfeerate"));
    _ ← st_lift (check_tx_hex txs);
    let params := match maxfeerate with
                  | Some maxfeerate => [json_strings txs; JString maxfeerate]
                  | None => [json_strings txs]
                  end in
    result ← on_rpc "testmempoolaccept" (rpc_call rpc (lit "testmempoolaccept") (JArray params));
    answer_json result TTL_SHORT.

Definition txs_package (request : Req) : M HttpResponse :=
  txs ← st_lift (submitted_txs request);
  maxfeerate ← st_lift (amount_param request (lit "maxfeerate"));
  maxburnamount ← st_lift (amount_param request (lit "maxburnamount"));
  _ ← st_lift (check_tx_hex txs);
  if bool_decide (broadcast_via server_config = ViaTor) then
    result ← on_server (broadcast_package rpc tor_push rpc_error_text tor_error_text strings_to_vec
                          interfere push_env mode txs);
    answer_json result TTL_SHORT
  else
    let params := match maxfeerate, maxburnamount with
                  | None, None => [json_strings txs]
                  | Some feerate, None => [json_strings txs; JString feerate]
                  | feerate, Some burn =>
                      [json_strings txs; JString (default (lit "0.10000000") feerate); JString burn]
                  end in
    result ← on_rpc "submitpackage" (rpc_call rpc (lit "submitpackage") (JArray params));
    answer_json result TTL_SHORT.

(** *** Fee estimates *)

(** The time of the cache is compared with the clock at the next tick. *)
Definition clock_now : M Z :=
  on_chain (λ w, let w := next_tick interfere w in (Ok (clock (wd_tick w)), w)).
Definition fresh_estimates (now : Z) (cache : option (Z * json)) : option json :=
  match cache with
  | Some (at_, value) => if now - at_ <? TTL_SHORT * 10 ^ 9 then Some value else None
  | None => None
  end.
Definition fee_estimates_cached : M (option json) :=
  now ← clock_now; s ← st_get; mret (fresh_estimates now (rt_fee_cache s)).
Definition store_fee_estimates (value : json) : M () :=
  now ← clock_now; s ← st_get;
  st_put {| rt_peer := rt_peer s; rt_fee_cache := Some (now, value) |}.

Definition fee_of_target (target : Z) : M (option (str * json)) :=
  feerate ← on_rpc "estimatesmartfee" (estimate_fee rpc target);
  mret (if f64_positive feerate
        then Some (show_unsigned target, json_of_f64 (sat_per_vb feerate)) else None).
Definition fee_estimates : M HttpResponse :=
  cached ← fee_estimates_cached;
  match cached with
  | Some cached => answer_json cached TTL_SHORT
  | None =>
      estimates ← for_each fee_of_target CONF_TARGETS;
      let value := JObject (sort_by bytes_le fst (some_values estimates)) in
      _ ← store_fee_estimates value;
      answer_json value TTL_SHORT
  end.

(** ** Mempool *)

Definition mempool_route : M HttpResponse :=
  mempool ← mempool_read;
  let '(count, vsize, total_fee) := totals mempool in
  answer_json (JObject [jnum "count" (Z.of_nat count); jnum "vsize" vsize; jnum "total_fee" total_fee;
    jfield "fee_histogram" (JArray ((λ b : f32 * Z, JArray [json_of_f32 b.1; JNumber b.2]) <$>
                                    fee_histogram_bins mempool))]) TTL_SHORT.

Definition sorted_mempool_txids : M (list hash32) :=
  mempool ← mempool_read; mret (sorted_txids mempool).
Definition mempool_txids_route : M HttpResponse :=
  txids ← sorted_mempool_txids;
  answer_json (json_strings (txid_to_string <$> txids)) TTL_SHORT.

(** [binary_search] of a sorted slice of distinct ids: where it is, or where it
    would be; either way the ids after it start here. *)
Definition start_after (txids : list hash32) (cursor : hash32) : nat :=
  length (filter (λ id, bytes_le id cursor) txids).
Definition page_of (txids : list hash32) (cursor : option hash32) (limit : Z) : list hash32 :=
  take (Z.to_nat limit) (drop (from_option (start_after txids) 0%nat cursor) txids).
Definition paged_txids (cursor : option str) (limit : Z) : M (list hash32) :=
  txids ← sorted_mempool_txids;
  cursor ← st_lift match cursor with
                   | Some cursor => Some <$> parse_txid cursor
                   | None => mret None
                   end;
  mret (page_of txids cursor limit).

Definition mempool_txids_page (request : Req) (cursor : option str) : M HttpResponse :=
  let limit := capped_max_txs (max_txs request) (rc_max_mempool_txid_page_size config)
                 (rc_max_mempool_txid_page_size config) in
  page ← paged_txids cursor limit;
  answer_json (json_strings (txid_to_string <$> page)) TTL_SHORT.
Definition mempool_recent : M HttpResponse :=
  mempool ← mempool_read;
  answer_json (JArray (format_recent_json <$> recent mempool)) TTL_MEMPOOL_RECENT.
Definition internal_mempool_txs (request : Req) (cursor : option str) : M HttpResponse :=
  let limit := capped_max_txs (max_txs request) (rc_max_mempool_page_size config)
                 (rc_max_mempool_page_size config) in
  page ← paged_txids cursor limit;
  values ← mempool_tx_values page (req_deadline request);
  answer_txs values.
Definition internal_mempool_txs_all : M HttpResponse :=
  txids ← sorted_mempool_txids;
  values ← mempool_tx_values txids Deadline.never;
  answer_txs values.
Definition internal_mempool_txs_batch (request : Req) : M HttpResponse :=
  requested ← st_lift (txid_body request);
  mempool ← mempool_read;
  let known := filter (λ id, mempool_contains mempool id = true) requested in
  values ← mempool_tx_values known (req_deadline request);
  answer_json (JArray (format_transaction_json <$> values)) 0.

(** ** Routing *)

Definition script_key (prefix value : str) : outcome HttpError ScriptKey :=
  if seg "address" prefix then format_address_key value params else scripthash_key value.

Abbreviation get_route :=
  (get_route (W := W) (F := F) params config adapter_error_text debug_str interfere mempool_at clock).
Abbreviation post_route :=
  (post_route (W := W) (F := F) params config adapter_error_text debug_str interfere mempool_at clock).
Abbreviation address_prefix := (address_prefix (S := S) (W := W) (F := F) config).

(** The [GET] routes, by the number of segments. *)
Definition route_get (request : Req) (segments : list str) : M HttpResponse :=
  let none := fail (unrouted debug_str request) in
  match segments with
  | prefix :: value :: rest =>
      if seg "address" prefix || seg "scripthash" prefix then
        key ← st_lift (script_key prefix value); get_route request key rest
      else
        match prefix, value, rest with
        | a, b, [] =>
            if seg "blocks" a then blocks (Some b)
            else if seg "block-height" a then block_height b
            else if seg "block" a then block b
            else if seg "tx" a then tx b
            else if seg "txs" a && seg "outspends" b then txs_outspends request
            else if seg "mempool" a && seg "txids" b then mempool_txids_route
            else if seg "mempool" a && seg "recent" b then mempool_recent
            else if seg "address-prefix" a then address_prefix
            else none
        | a, b, [c] =>
            if seg "blocks" a && seg "tip" b && seg "hash" c then blocks_tip_hash
            else if seg "blocks" a && seg "tip" b && seg "height" c then blocks_tip_height
            else if seg "block" a && seg "status" c then block_status b
            else if seg "block" a && seg "txids" c then block_txids b
            else if seg "block" a && seg "header" c then block_header b
            else if seg "block" a && seg "raw" c then rest_block_raw b
            else if seg "block" a && seg "txs" c then block_txs request b None
            else if seg "tx" a && seg "hex" c then tx_hex b
            else if seg "tx" a && seg "raw" c then rest_tx_raw b
            else if seg "tx" a && seg "status" c then tx_status b
            else if seg "tx" a && seg "merkle-proof" c then tx_merkle_proof b
            else if seg "tx" a && seg "merkleblock-proof" c then
              match read_merkleblock with Some proof_of => tx_merkleblock_proof proof_of b | None => none end
            else if seg "tx" a && seg "outspends" c then tx_outspends request b
            else if seg "mempool" a && seg "txids" b && seg "page" c
            then mempool_txids_page request None
            else if seg "internal" a && seg "mempool" b && seg "txs" c
            then internal_mempool_txs request None
            else none
        | a, b, [c; d] =>
            if seg "block" a && seg "txid" c then block_txid_at b d
            else if seg "block" a && seg "txs" c then block_txs request b (Some d)
            else if seg "internal" a && seg "block" b && seg "txs" d then internal_block_txs request c
            else if seg "tx" a && seg "outspend" c then tx_outspend request b d
            else if seg "mempool" a && seg "txids" b && seg "page" c
            then mempool_txids_page request (Some d)
            else if seg "internal" a && seg "mempool" b && seg "txs" c && seg "all" d
            then internal_mempool_txs_all
            else if seg "internal" a && seg "mempool" b && seg "txs" c
            then internal_mempool_txs request (Some d)
            else none
        | _, _, _ => none
        end
  | [a] =>
      if seg "blocks" a then blocks None
      else if seg "mempool" a then mempool_route
      else if seg "address-prefix" a then address_prefix
      else none
  | [] => none
  end.
(** The [POST] routes. *)
Definition route_post (request : Req) (segments : list str) : M HttpResponse :=
  let none := fail (unrouted debug_str request) in
  match segments with
  | prefix :: rest =>
      if seg "addresses" prefix || seg "scripthashes" prefix then post_route request prefix rest
      else
        match rest with
        | [b] => if seg "internal" prefix && seg "txs" b then internal_txs request else none
        | [b; c] =>
            if seg "internal" prefix && seg "mempool" b && seg "txs" c
            then internal_mempool_txs_batch request else none
        | [b; c; d] =>
            if seg "internal" prefix && seg "txs" b && seg "outspends" c && seg "by-txid" d
            then internal_outspends_by_txid request
            else if seg "internal" prefix && seg "txs" b && seg "outspends" c && seg "by-outpoint" d
            then internal_outspends_by_outpoint request
            else none
        | _ => none
        end
  | [] => none
  end.
Definition route_blocking (request : Req) (segments : list str) : M HttpResponse :=
  if bool_decide (rq_method (req_http request) = lit "GET") then route_get request segments
  else if bool_decide (rq_method (req_http request) = lit "POST") then route_post request segments
  else fail (unrouted debug_str request).

(** [GET] of what is below [/asset] or [/assets], in a build that has them. *)
Definition asset_route (get : bool) (segments : list str) : option (HttpRequest → M HttpResponse) :=
  match segments with
  | a :: _ => if get && (seg "asset" a || seg "assets" a) then read_asset else None
  | [] => None
  end.

(** The asynchronous routes first. *)
Definition route (request : Req) : M HttpResponse :=
  let segments := segments (req_http request) in
  let get := bool_decide (rq_method (req_http request) = lit "GET") in
  let post := bool_decide (rq_method (req_http request) = lit "POST") in
  if post && bool_decide (segments = [lit "tx"]) then post_tx request
  else if get && bool_decide (segments = [lit "broadcast"]) then get_broadcast request
  else if post && bool_decide (segments = [lit "txs"; lit "test"]) then txs_test request
  else if post && bool_decide (segments = [lit "txs"; lit "package"]) then txs_package request
  else if get && bool_decide (segments = [lit "fee-estimates"]) then fee_estimates
  else
    match asset_route get segments with
    | Some proxy => proxy (req_http request)
    | None => route_blocking request segments
    end.
End handlers.
