(* ===== verification/Rest.v ===== *)
(** * The REST API: answering requests on a connection

    [RestApi::respond], [handle_connection] and [refuse] of
    [bindex-electrum/src/rest/mod.rs]. A connection is what its client sends
    and what has been written to it; when each wait of the server times out is
    an argument, by round. *)

From S2P Require Import Prelude External Text Utf8 Index Fmt Headers Batch Store Client Chain.
From S2P Require Import Merkle Protocol Mempool CoreRest ScriptFold Adapter TorPush Config Bitcoind.
From S2P Require Import Monitor Server Deadline Http RestTypes RestQuery RestAddress.
From S2P Require Import RestHandlers.

(** How waiting for a permit of the query semaphore ends. *)
Inductive permit := Acquired | ShuttingDown | TooManyQueries.

(** ** Connections, for any way to answer requests *)

Section connection.
Context {A : Type}.
(** The server's shared state [A], and how it answers a request. *)
Context (respond : HttpRequest → stM A HttpError HttpResponse) (request_body_bytes_cap : Z)
  (identity_at : nat → IdentityHeaders).
(** Whether the wait of a round for more bytes, or the time for the request,
    runs out. *)
Context (wait_expires request_expires : nat → bool).

Record Connection := { cn_reader : Reader; cn_writer : Writer; cn_api : A }.
Abbreviation C := (stM Connection http_io_error).

Definition on_reader {B} (m : stM Reader http_io_error B) : C B := λ c,
  let '(r, rd) := m (cn_reader c) in
  (r, {| cn_reader := rd; cn_writer := cn_writer c; cn_api := cn_api c |}).
Definition on_writer {B} (m : stM Writer http_io_error B) : C B := λ c,
  let '(r, wr) := m (cn_writer c) in
  (r, {| cn_reader := cn_reader c; cn_writer := wr; cn_api := cn_api c |}).
(** [respond] turns every error into a response. *)
Definition answer (request : HttpRequest) : C HttpResponse := λ c,
  let '(r, api) := respond request (cn_api c) in
  (match r with Ok response => Ok response | Err err => Ok (into_response err) | Panic m => Panic m end,
   {| cn_reader := cn_reader c; cn_writer := cn_writer c; cn_api := api |}).

(** [fill_buf]: what has arrived, empty at the end of the stream. *)
Definition fill_buf : stM Reader http_io_error bytes := λ rd,
  match rd_data rd with
  | [] => (if rd_clean rd then Ok [] else Err PeerReset, rd)
  | data => (Ok data, rd)
  end.

Definition write_error (n : nat) (err : HttpError) : C () :=
  on_writer (write_response (into_response err) (identity_at n) false).

(** The loop, from round [n] on. *)
Fixpoint connection_loop (fuel n : nat) : C () :=
  match fuel with
  | O => st_lift (Panic "out of fuel")
  | Datatypes.S fuel =>
      if wait_expires n then mret tt else
      data ← on_reader fill_buf;
      match data with
      | [] => mret tt
      | _ =>
          if request_expires n
          then write_error n (http_error_new 408 (lit "request timed out")) else
          outcome ← on_reader (read_request request_body_bytes_cap);
          match outcome with
          | RoClosed => mret tt
          | RoInvalid status message => write_error n (http_error_new status message)
          | RoRequest request =>
              response ← answer request;
              _ ← on_writer (write_response response (identity_at n) (rq_keep_alive request));
              if rq_keep_alive request then connection_loop fuel (n + 1) else mret tt
          end
      end
  end.
(** A round that goes on has read a request, at least a byte. *)
Definition handle_connection : C () := λ c,
  connection_loop (Datatypes.S (length (rd_data (cn_reader c)))) 0 c.

(** A connection over the limit gets a response too. *)
Definition refuse : stM Writer http_io_error () :=
  write_response (into_response (http_error_new 503 (lit "too many connections"))) (identity_at 0) false.
End connection.
Arguments Connection : clear implicits.
Arguments Build_Connection {A} _ _ _.
Arguments cn_reader {A} _.
Arguments cn_writer {A} _.
Arguments cn_api {A} _.

(** ** [RestApi::respond] *)

Section respond.
Context {S W F : Type} `{HS : !Hashes, HX : !Hex, HT : !HashText, ST : !ScriptHashText,
  TT : !TxidText, TP : !TxidParse, BT : !BlockHashText, SO : !ScriptOps, VI : !VarInt,
  SL : !Slices, CS : !Consensus, RD : !RocksDB S, HA : !HttpAgent W, RA : !RpcAgent W,
  FS : !Files, JT : !JsonText, JF : !JsonFloats, SD : !Serde, MS : !Millis F,
  TX : !Transactions, SC : !Scripts, TR : !TxOutReader, RF : !RestFloats, RT : !Rates,
  FO : !Format, FR : !FormatReads S W F}.
Context (params : format_Params) (config : RestConfig) (server_config : Config) (rpc : RpcClient)
  (tor_push : option TorTargets).
Context (adapter_error_text : adapter_error slices_error → str)
  (corerest_error_text : corerest_error → str) (rpc_error_text : rpc_error → str)
  (tor_error_text : tor_error → str) (utf8_error_text : bytes → str) (debug_str : str → str)
  (strings_to_vec : list str → bytes).
Context (interfere : nat → Adapter S → Adapter S) (mempool_at : nat → MempoolIndex)
  (push_env : nat → PushEnv) (mode : overflow_mode) (clock : nat → Z) (permit_at : nat → permit).

Abbreviation M := (stM (Rest S W F) HttpError).

(** The tick of the next synchronization point. *)
Definition at_tick {B} (f : nat → B) : M B :=
  on_chain adapter_error_text
    (λ w, let w := next_tick interfere w in (Ok (f (wd_tick w)), w)).

Definition acquire_query : M () :=
  p ← at_tick permit_at;
  st_lift match p with
          | Acquired => Ok tt
          | ShuttingDown => Err (http_error_new 503 (lit "server shutting down"))
          | TooManyQueries => Err (http_error_new 503 (lit "too many concurrent queries"))
          end.

(** Before errors become responses. *)
Definition respond (request : HttpRequest) : M HttpResponse :=
  now ← at_tick clock;
  let deadline := after now (request_timeout config) in
  let expensive := is_expensive (rq_method request) (segments request) in
  _ ← (if expensive then acquire_query else mret tt);
  route params config server_config rpc tor_push adapter_error_text corerest_error_text rpc_error_text
    tor_error_text utf8_error_text debug_str strings_to_vec interfere mempool_at push_env mode clock
    {| req_http := request; req_deadline := deadline |}.
End respond.
