(* ===== verification/RestServe.v ===== *)
(** * The REST API: accepting connections

    The rest of [bindex-electrum/src/rest/mod.rs]: the shared state of
    [RestApi::new], the permits that bound the connections and the expensive
    queries, the listener, and the probe of the node's version. A semaphore is
    [tokio]'s. *)

From S2P Require Import Prelude External Text Utf8 Index Fmt Headers Batch Store Client Chain.
From S2P Require Import Merkle Protocol Mempool CoreRest ScriptFold Adapter TorPush Config Bitcoind.
From S2P Require Import Monitor Server Deadline Http RestTypes RestQuery RestAddress.
From S2P Require Import RestHandlers Rest.

(** [Semaphore]: [try_acquire] never waits. *)
Class Semaphore (M : Type) := {
  semaphore_new : Z → M;
  try_acquire : M → option M;
  release : M → M;
}.
Class SemaphoreLaws (M : Type) `{SM : !Semaphore M} := {
  available_permits : M → Z;
  available_new n : 0 ≤ n → available_permits (semaphore_new n) = n;
  try_acquire_some (m m' : M) :
    try_acquire m = Some m' → 0 < available_permits m ∧ available_permits m' = available_permits m - 1;
  try_acquire_none (m : M) : try_acquire m = None → available_permits m ≤ 0;
  available_release (m : M) : available_permits (release m) = available_permits m + 1;
}.
(** [Semaphore::MAX_PERMITS]; [Semaphore::new] panics above it. *)
Definition MAX_PERMITS : Z := 2 ^ 61 - 1.

(** A semaphore, and the tasks that hold its permits. *)
Record Permits (M : Type) := { pm_semaphore : M; pm_held : gset nat }.
Arguments Build_Permits {M} _ _.
Arguments pm_semaphore {M} _.
Arguments pm_held {M} _.

Section permits.
Context {M : Type} `{SM : !Semaphore M}.

Definition permits_new {E} (n : Z) : outcome E (Permits M) :=
  _ ← assert_that "a semaphore may not have more than MAX_PERMITS permits" (n <=? MAX_PERMITS);
  mret {| pm_semaphore := semaphore_new n; pm_held := ∅ |}.
Definition take_permit (id : nat) (p : Permits M) : option (Permits M) :=
  m ← try_acquire (pm_semaphore p);
  Some {| pm_semaphore := m; pm_held := {[id]} ∪ pm_held p |}.
(** A permit is given back when it is dropped. *)
Definition drop_permit (id : nat) (p : Permits M) : Permits M :=
  {| pm_semaphore := release (pm_semaphore p); pm_held := pm_held p ∖ {[id]} |}.
End permits.

(** The task of [spawn_version_probe]. *)
Inductive probe_task := ProbeAsks | ProbeSleeps (until : Z) | ProbeDone.

Record RestApi (M : Type) := {
  ra_identity : IdentityHeaders;
  ra_queries : Permits M;
  ra_connections : Permits M;
  ra_refusing : gset nat;         (* connections that are told there are too many *)
  ra_probe : probe_task;
}.
Arguments Build_RestApi {M} _ _ _ _ _.
Arguments ra_identity {M} _.
Arguments ra_queries {M} _.
Arguments ra_connections {M} _.
Arguments ra_refusing {M} _.
Arguments ra_probe {M} _.

Section serve.
Context {M W : Type} `{SM : !Semaphore M, RA : !RpcAgent W, FS : !Files, JT : !JsonText,
  JF : !JsonFloats}.
Context (config : RestConfig) (rpc : RpcClient).
Abbreviation Api := (RestApi M).

(** [RestApi::new], and the start of [serve]. *)
Definition rest_api_new : outcome () Api :=
  queries ← permits_new (Z.max (rc_max_concurrent_queries config) 1);
  connections ← permits_new (Z.max (rc_max_connections config) 1);
  mret {| ra_identity := {| id_powered_by := lit "bindex-electrum/" ++ VERSION; id_cors := rc_cors config;
                            id_bitcoin_version := None |};
          ra_queries := queries; ra_connections := connections; ra_refusing := ∅;
          ra_probe := ProbeAsks |}.

Definition with_queries (p : Permits M) (a : Api) : Api :=
  {| ra_identity := ra_identity a; ra_queries := p; ra_connections := ra_connections a;
     ra_refusing := ra_refusing a; ra_probe := ra_probe a |}.
Definition with_connections (p : Permits M) (a : Api) : Api :=
  {| ra_identity := ra_identity a; ra_queries := ra_queries a; ra_connections := p;
     ra_refusing := ra_refusing a; ra_probe := ra_probe a |}.
Definition with_refusing (l : gset nat) (a : Api) : Api :=
  {| ra_identity := ra_identity a; ra_queries := ra_queries a; ra_connections := ra_connections a;
     ra_refusing := l; ra_probe := ra_probe a |}.
Definition with_probe (identity : IdentityHeaders) (t : probe_task) (a : Api) : Api :=
  {| ra_identity := identity; ra_queries := ra_queries a; ra_connections := ra_connections a;
     ra_refusing := ra_refusing a; ra_probe := t |}.

(** *** The listener *)

(** One round of [run_listener], for the stream [id]: it is served, or refused by
    a task of its own. *)
Definition accept (id : nat) (a : Api) : Api :=
  match take_permit id (ra_connections a) with
  | Some p => with_connections p a
  | None => with_refusing ({[id]} ∪ ra_refusing a) a
  end.
(** How long round [n] of a connection waits for its client to send. *)
Definition round_wait (n : nat) : Z := if (n =? 0)%nat then header_timeout config else idle_timeout config.
(** How long an expensive request waits for a permit. *)
Definition query_wait (deadline : Deadline) (now : Z) : Z := default (30 * 10 ^ 9) (remaining deadline now).

(** *** The version probe *)

Definition PROBE_PAUSE : Z := 60 * 10 ^ 9.
Definition with_version (v : str) (i : IdentityHeaders) : IdentityHeaders :=
  {| id_powered_by := id_powered_by i; id_cors := id_cors i; id_bitcoin_version := Some v |}.
Definition probe (now : Z) (a : Api) : W → Api * W := λ n,
  match ra_probe a with
  | ProbeAsks =>
      let '(r, n) := rpc_call rpc (lit "getnetworkinfo") (JArray []) n in
      (match r with
       | Ok info =>
           match v ← json_get info (lit "subversion"); as_str v with
           | Some subversion => with_probe (with_version subversion (ra_identity a)) ProbeDone a
           | None => with_probe (ra_identity a) (ProbeSleeps (now + PROBE_PAUSE)) a
           end
       | _ => with_probe (ra_identity a) (ProbeSleeps (now + PROBE_PAUSE)) a
       end, n)
  | ProbeSleeps until =>
      (if until <=? now then with_probe (ra_identity a) ProbeAsks a else a, n)
  | ProbeDone => (a, n)
  end.

(** *** Events *)

(** Streams and queries have numbers of their own. *)
Inductive api_step : Api → Api → Prop :=
| step_accept id a :
    id ∉ pm_held (ra_connections a) → id ∉ ra_refusing a → api_step a (accept id a)
| step_close id a :
    id ∈ pm_held (ra_connections a) → api_step a (with_connections (drop_permit id (ra_connections a)) a)
| step_refused id a :
    id ∈ ra_refusing a → api_step a (with_refusing (ra_refusing a ∖ {[id]}) a)
| step_query id a p :
    id ∉ pm_held (ra_queries a) → take_permit id (ra_queries a) = Some p → api_step a (with_queries p a)
| step_answered id a :
    id ∈ pm_held (ra_queries a) → api_step a (with_queries (drop_permit id (ra_queries a)) a)
| step_probe now n a a' n' : probe now a n = (a', n') → api_step a a'.
End serve.

(** * Properties *)

Section properties.
Context {M W : Type} `{SM : !Semaphore M, SML : !SemaphoreLaws M, RA : !RpcAgent W, FS : !Files,
  JT : !JsonText, JF : !JsonFloats}.
Context (config : RestConfig) (rpc : RpcClient).
Implicit Types (p : Permits M) (a : RestApi M).

(** Permits are neither lost nor made up. *)
Definition conserves (capacity : Z) p : Prop :=
  0 ≤ available_permits (pm_semaphore p) ∧
  available_permits (pm_semaphore p) + Z.of_nat (size (pm_held p)) = capacity.

Lemma permits_new_conserves {E} n p : 0 ≤ n → permits_new (E := E) n = Ok p → conserves n p.
Proof.
  unfold permits_new. intros Hn (_ & _ & [= <-])%bind_ok. unfold conserves. cbn.
  rewrite available_new, size_empty by done. lia.
Qed.
Lemma take_permit_conserves n id p p' :
  id ∉ pm_held p → take_permit id p = Some p' → conserves n p → conserves n p'.
Proof.
  unfold take_permit. intros Hid (m & [Hpos Hm]%try_acquire_some & [= <-])%bind_Some [H0 Hc].
  unfold conserves. cbn [pm_semaphore pm_held]. rewrite size_union by set_solver.
  rewrite size_singleton. lia.
Qed.
Lemma take_permit_full n id p : take_permit id p = None → conserves n p → Z.of_nat (size (pm_held p)) = n.
Proof.
  unfold take_permit. destruct (try_acquire _) eqn:E; [done|]. intros _ [H0 Hc].
  apply try_acquire_none in E. lia.
Qed.
Lemma drop_permit_conserves n id p : id ∈ pm_held p → conserves n p → conserves n (drop_permit id p).
Proof.
  intros Hid [H0 Hc]. unfold conserves. cbn [drop_permit pm_semaphore pm_held].
  rewrite available_release, size_difference, size_singleton by set_solver.
  assert (size (pm_held p) ≠ 0%nat) by (intros ?%size_empty_inv; set_solver). lia.
Qed.

Record api_inv a : Prop := {
  ai_queries : conserves (Z.max (rc_max_concurrent_queries config) 1) (ra_queries a);
  ai_connections : conserves (Z.max (rc_max_connections config) 1) (ra_connections a);
  (* the version is told once it is known, and not asked for again *)
  ai_version : is_Some (id_bitcoin_version (ra_identity a)) ↔ ra_probe a = ProbeDone;
}.

Lemma rest_api_new_inv a : rest_api_new config = Ok a → api_inv a.
Proof.
  unfold rest_api_new. intros (q & Hq & (c & Hc & [= <-])%bind_ok)%bind_ok.
  apply permits_new_conserves in Hq, Hc; [|lia..]. split; cbn; [done..|].
  split; [by intros [? ?]|done].
Qed.
Lemma probe_inv now a a' (n n' : W) : probe rpc now a n = (a', n') → api_inv a → api_inv a'.
Proof.
  unfold probe. intros Hp [Hq Hc Hv].
  assert (∀ u, ra_probe a ≠ ProbeDone →
    api_inv (with_probe (ra_identity a) (ProbeSleeps u) a)) as Hsleep.
  { intros u Hne. split; cbn; [done..|]. by rewrite Hv. }
  destruct (ra_probe a) as [|until|] eqn:Et.
  - destruct (rpc_call _ _ _ _) as [[info| |] n1]; injection Hp as <- _; [|by apply Hsleep..].
    destruct (_ ≫= _); [|by apply Hsleep]. split; cbn; [done..|]. by split.
  - injection Hp as <- _. destruct (until <=? now); [|by split; rewrite ?Et].
    split; cbn; [done..|]. rewrite Hv. done.
  - injection Hp as <- _. split; rewrite ?Et; done.
Qed.
Lemma api_step_inv a a' : api_step (W := W) rpc a a' → api_inv a → api_inv a'.
Proof.
  intros Hs Hi. pose proof Hi as [Hq Hc Hv]. destruct Hs as [id a Hid _|id a Hid|id a _|id a p Hid Hp|id a Hid|now n a a' n' Hp].
  - unfold accept. destruct (take_permit id _) eqn:Et; [|done].
    split; cbn; [done| |done]. by eapply take_permit_conserves.
  - split; cbn; [done| |done]. by apply drop_permit_conserves.
  - done.
  - split; cbn; [|done..]. by eapply take_permit_conserves.
  - split; cbn; [|done..]. by apply drop_permit_conserves.
  - by eapply probe_inv.
Qed.
Lemma api_reachable_inv a a' : rest_api_new config = Ok a → rtc (api_step (W := W) rpc) a a' → api_inv a'.
Proof.
  intros Ha%rest_api_new_inv. induction 1 as [a|a a1 a' Hs _ IH]; [done|]. apply IH. by eapply api_step_inv.
Qed.
(** A connection is refused only when the limit is reached. *)
Lemma accept_full id a :
  api_inv a → id ∉ ra_refusing a → id ∈ ra_refusing (accept id a) →
  Z.of_nat (size (pm_held (ra_connections a))) = Z.max (rc_max_connections config) 1.
Proof.
  unfold accept. destruct (take_permit id _) eqn:Et; [done|]. intros [_ Hc _] _ _.
  by eapply take_permit_full.
Qed.
End properties.
