(* ===== verification/RestSpec.v ===== *)
(** * The REST API: connections

    The loop of [Rest.handle_connection] ends, answers every pipelined request
    once and in order, and closes after anything it cannot frame. *)

From S2P Require Import Prelude External Text Utf8 Http HttpSpec RestQuery Rest.

(** ** The reading half never panics *)

Definition calm {S E A} (m : stM S E A) : Prop := ∀ s p s', m s ≠ (Panic p, s').

Lemma calm_bind {S E A B} (m : stM S E A) (f : A → stM S E B) :
  calm m → (∀ a, calm (f a)) → calm (m ≫= f).
Proof.
  intros Hm Hf s p s'. unfold mbind, stM_bind.
  destruct (m s) as [[a|e|q] s1] eqn:Em; [apply Hf|done|]. intros [= -> ->]. by eapply Hm.
Qed.
Lemma calm_ret {S E A} (a : A) : calm (S := S) (E := E) (mret a).
Proof. by intros s p s'. Qed.
Lemma calm_err {S E A} (e : E) : calm (S := S) (A := A) (st_lift (Err e)).
Proof. by intros s p s'. Qed.
#[export] Hint Resolve calm_bind calm_ret calm_err : core.

Lemma calm_read_line : calm read_line.
Proof.
  intros s p s'. unfold read_line. case_match; [done|]. case_bool_decide; [done|]. by destruct (rd_clean s).
Qed.
Lemma calm_head_line msg : calm (head_line msg).
Proof. unfold head_line. apply calm_bind; [apply calm_read_line|]. intros []; apply calm_err || apply calm_ret. Qed.
#[local] Hint Resolve calm_head_line : core.

Lemma calm_read_headers fuel acc rd p rd' :
  (length acc ≤ MAX_HEADERS < fuel + length acc)%nat → read_headers fuel acc rd ≠ (Panic p, rd').
Proof.
  revert acc rd. induction fuel as [|fuel IH]; intros acc rd Hf; [cbn in Hf; lia|]. cbn [read_headers].
  case_bool_decide as Hm; [done|]. unfold mbind, stM_bind.
  destruct (head_line _ rd) as [[l|e|q] rd1] eqn:Eh; [|done|by apply calm_head_line in Eh].
  case_bool_decide; [done|]. destruct (split_once _ _) as [[name value]|]; [|done].
  destruct (bool_decide (name = []) || _); [done|]. apply IH. rewrite length_app. cbn. lia.
Qed.

Lemma foldM_calm {E S A} (f : S → A → outcome E S) l :
  (∀ s x p, f s x ≠ Panic p) → ∀ s p, foldM f s l ≠ Panic p.
Proof.
  intros Hf. induction l as [|x l IH]; intros s p; [done|]. cbn [foldM].
  destruct (f s x) eqn:Ef; [apply IH|done|by apply Hf in Ef].
Qed.
Lemma content_length_calm headers p : content_length headers ≠ Panic p.
Proof.
  unfold content_length. destruct (foldM _ _ _) as [r|e|q] eqn:Ef; [done..|].
  apply foldM_calm in Ef; [done|]. clear. intros s h p. apply foldM_calm. clear. intros s f p.
  unfold length_field. destruct (parse_unsigned _ _); [|done]. osimpl.
  case_match; [done|]. destruct s; [by case_match|done].
Qed.

Lemma read_request_calm max rd p rd' : read_request max rd ≠ (Panic p, rd').
Proof.
  assert (∀ p rd', read_request_body max rd ≠ (Panic p, rd')) as Hb.
  { clear. intros p rd'. unfold read_request_body, mbind, stM_bind.
    destruct (read_request_line rd) as [[l|e|q] rd1] eqn:E1; [|done|].
    2: { exfalso. revert E1. apply calm_bind; [auto|]. intros l. case_bool_decide; auto. }
    rewrite parse_request_line_spec. destruct (request_line_of l) as [[[m t] v]|]; [|done].
    destruct (read_headers _ _ rd1) as [[hs|e|q] rd2] eqn:E2; [|done|].
    2: { apply calm_read_headers in E2; [done|]. unfold MAX_HEADERS. cbn [length]. lia. }
    case_bool_decide; [done|].
    destruct (content_length hs) as [n|e|q] eqn:E3; [|done|by apply content_length_calm in E3].
    cbn. destruct (max <? n); [done|]. destruct (0 <? n); [|done].
    unfold read_body. case_bool_decide; [done|]. by destruct (rd_clean rd2). }
  unfold read_request. destruct (read_request_body max rd) as [[o|[o|e]|q] rd1]; try done.
  intros _. by eapply Hb.
Qed.

Lemma write_response_calm response identity keep_alive : calm (write_response response identity keep_alive).
Proof.
  assert (∀ b, calm (write_bytes b)) as Hw.
  { intros b s p s'. unfold write_bytes. destruct b; [done|]. by destruct (wr_left s). }
  apply calm_bind; auto.
Qed.

(** An accepted request takes at least a byte. *)
Lemma framed_shorter max stream r rest : framed max stream r rest → (length rest < length stream)%nat.
Proof.
  intros (skip & start & lines & blank & headers & method & target & version & -> & _ & Hl & _).
  apply Forall_app in Hl as [_ [(s & -> & _) _]%Forall_cons]. rewrite !length_app. cbn [length]. lia.
Qed.

(** ** The loop *)

Section connection.
Context {A : Type} (respond : HttpRequest → stM A HttpError HttpResponse) (cap : Z)
  (identity_at : nat → IdentityHeaders) (wait_expires request_expires : nat → bool).
Abbreviation loop := (connection_loop respond cap identity_at wait_expires request_expires).
Abbreviation handle := (handle_connection respond cap identity_at wait_expires request_expires).

(** The loop panics only where answering a request does. *)
Definition answering_panics (msg : string) : Prop :=
  ∃ request api, (respond request api).1 = Panic msg.

Lemma on_writer_calm {B} (m : stM Writer http_io_error B) : calm m → calm (on_writer (A := A) m).
Proof.
  intros Hm c p c'. unfold on_writer. destruct (m (cn_writer c)) as [r wr] eqn:Em. intros [= -> <-].
  by apply Hm in Em.
Qed.
Lemma on_reader_calm {B} (m : stM Reader http_io_error B) : calm m → calm (on_reader (A := A) m).
Proof.
  intros Hm c p c'. unfold on_reader. destruct (m (cn_reader c)) as [r rd] eqn:Em. intros [= -> <-].
  by apply Hm in Em.
Qed.
Lemma write_error_calm n err : calm (write_error (A := A) identity_at n err).
Proof. apply on_writer_calm, write_response_calm. Qed.

Lemma loop_total fuel n c p c' :
  (length (rd_data (cn_reader c)) < fuel)%nat → loop fuel n c = (Panic p, c') → answering_panics p.
Proof.
  revert n c. induction fuel as [|fuel IH]; intros n c Hf; [lia|]. cbn [connection_loop].
  destruct (wait_expires n); [done|]. unfold mbind, stM_bind.
  destruct (on_reader fill_buf c) as [[data|e|q] c1] eqn:Ed; [|done|].
  2: { exfalso. revert Ed. apply on_reader_calm. intros rd q' rd'. unfold fill_buf.
       destruct (rd_data rd); [by destruct (rd_clean rd)|done]. }
  assert (c1 = c) as ->.
  { unfold on_reader, fill_buf in Ed. destruct c as [[d cl] wr api]. destruct d, cl; by injection Ed. }
  destruct data as [|b data]; [done|].
  destruct (request_expires n).
  { intros Hp. by apply write_error_calm in Hp. }
  destruct (on_reader (read_request cap) c) as [[o|e|q] c2] eqn:Er; [|done|].
  2: { exfalso. revert Er. apply on_reader_calm. intros rd q' rd'. apply read_request_calm. }
  unfold on_reader in Er. destruct (read_request cap (cn_reader c)) as [r rd2] eqn:Err.
  injection Er as -> <-. destruct o as [request| |status message]; [|done|].
  2: { intros Hp. by apply write_error_calm in Hp. }
  apply read_request_spec in Err as [Hfr _].
  unfold answer. cbn [cn_api cn_reader cn_writer].
  destruct (respond request (cn_api c)) as [r api] eqn:Ea. 
  destruct r as [response|err|q].
  3: { intros [= <- <-]. exists request, (cn_api c). by rewrite Ea. }
  all: match goal with |- context [on_writer ?w ?c] => destruct (on_writer w c) as [[[]|e|q] c3] eqn:Ew end;
    [|done|by apply on_writer_calm in Ew; [|apply write_response_calm]].
  all: unfold on_writer in Ew; destruct (write_response _ _ _ _) as [rw wr2]; injection Ew as -> <-.
  all: destruct (rq_keep_alive request); [|done].
  all: apply IH; cbn; apply framed_shorter in Hfr; lia.
Qed.

Lemma handle_total c p c' : handle c = (Panic p, c') → answering_panics p.
Proof. apply loop_total. lia. Qed.

(** *** Pipelined requests *)

(** A stream that holds the requests one after the other: all but the last keep
    the connection alive, and the last either does not or ends the stream. *)
Inductive pipelined : bytes → list HttpRequest → Prop :=
| pipelined_last stream r rest :
    framed cap stream r rest → rq_keep_alive r = false ∨ rest = [] → pipelined stream [r]
| pipelined_next stream r rest rs :
    framed cap stream r rest → rq_keep_alive r = true → pipelined rest rs →
    pipelined stream (r :: rs).

(** The responses to the requests, in order, by the server in state [api]. *)
Fixpoint answers (rs : list HttpRequest) (api : A) : option (list HttpResponse * A) :=
  match rs with
  | [] => Some ([], api)
  | r :: rs =>
      let '(result, api) := respond r api in
      response ← match result with
                 | Ok response => Some response | Err err => Some (into_response err)
                 | Panic _ => None
                 end;
      '(responses, api) ← answers rs api;
      Some (response :: responses, api)
  end.

Definition response_bytes (n : nat) (p : HttpRequest * HttpResponse) : bytes :=
  response_head p.2 (identity_at n) (rq_keep_alive p.1) ++ rs_body p.2.
Definition answers_bytes (n : nat) (rs : list HttpRequest) (responses : list HttpResponse) : bytes :=
  concat (imap (λ i, response_bytes (n + i)) (zip rs responses)).

Lemma write_response_ok response identity keep_alive w :
  (2 ≤ wr_left w)%nat →
  ∃ w', write_response response identity keep_alive w = (Ok tt, w') ∧
    wr_sent w' = wr_sent w ++ response_head response identity keep_alive ++ rs_body response ∧
    (wr_left w ≤ wr_left w' + 2)%nat.
Proof.
  intros Hl. unfold write_response, mbind, stM_bind.
  assert (∃ c h, response_head response identity keep_alive = c :: h) as (c & h & ->) by (by eexists _, _).
  unfold write_bytes. destruct w as [sent [|[|left]]]; cbn in Hl; try lia. cbn [wr_left wr_sent].
  destruct (rs_body response); eexists; split; [done| |done|]; cbn; rewrite ?app_nil_r, <-?app_assoc;
    split; (done || lia).
Qed.

(** One round answers the request the stream starts with. *)
Lemma loop_round stream r rest fuel n w api response api1 :
  framed cap stream r rest → wait_expires n = false → request_expires n = false →
  (2 ≤ wr_left w)%nat → answers [r] api = Some ([response], api1) →
  ∃ w', wr_sent w' = wr_sent w ++ response_bytes n (r, response) ∧ (wr_left w ≤ wr_left w' + 2)%nat ∧
    loop (S fuel) n {| cn_reader := {| rd_data := stream; rd_clean := true |}; cn_writer := w;
                       cn_api := api |} =
    let c := {| cn_reader := {| rd_data := rest; rd_clean := true |}; cn_writer := w'; cn_api := api1 |} in
    if rq_keep_alive r then loop fuel (n + 1) c else (Ok tt, c).
Proof.
  intros Hfr Hw Hr Hl Ha.
  pose proof (framed_shorter _ _ _ _ Hfr) as Hlt.
  cbn [answers] in Ha. destruct (respond r api) as [result api2] eqn:Er.
  destruct (write_response_ok response (identity_at n) (rq_keep_alive r) w Hl) as (w' & Hwr & Hsent & Hleft).
  exists w'. split_and!; [done..|]. cbn [connection_loop]. rewrite Hw.
  unfold mbind at 1, stM_bind at 1. unfold on_reader at 1, fill_buf. cbn [cn_reader rd_data].
  destruct stream as [|b stream]; [cbn in Hlt; lia|]. rewrite Hr.
  unfold mbind, stM_bind, on_reader. cbn [cn_reader cn_writer cn_api].
  rewrite (framed_read_request _ _ _ _ _ Hfr). unfold answer. cbn [cn_reader cn_writer cn_api].
  rewrite Er. unfold on_writer.
  destruct result as [rs|err|]; cbn in Ha; [| |done]; injection Ha as -> ->;
    cbn [cn_reader cn_writer cn_api]; rewrite Hwr; by destruct (rq_keep_alive r).
Qed.

Lemma answers_cons r rs api responses api' :
  answers (r :: rs) api = Some (responses, api') →
  ∃ response responses' api1, responses = response :: responses' ∧
    answers [r] api = Some ([response], api1) ∧ answers rs api1 = Some (responses', api').
Proof.
  cbn [answers]. destruct (respond r api) as [result api1].
  destruct (match result with Ok r0 => Some r0 | Err e => Some (into_response e) | Panic _ => None end)
    as [response|]; [|done]. cbn. destruct (answers rs api1) as [[responses' api2]|] eqn:Ea; [|done].
  intros [= <- <-]. by exists response, responses', api1.
Qed.

Lemma answers_bytes_cons n r rs response responses :
  answers_bytes n (r :: rs) (response :: responses) =
  response_bytes n (r, response) ++ answers_bytes (n + 1) rs responses.
Proof.
  unfold answers_bytes. cbn [zip_with imap concat]. rewrite Nat.add_0_r. f_equal. f_equal.
  apply imap_ext. intros i x _. unfold compose. by replace (n + 1 + i)%nat with (n + S i)%nat by lia.
Qed.

(** At the end of the stream the loop stops. *)
Lemma loop_end fuel n w api :
  loop (S fuel) n {| cn_reader := {| rd_data := []; rd_clean := true |}; cn_writer := w; cn_api := api |} =
  (Ok tt, {| cn_reader := {| rd_data := []; rd_clean := true |}; cn_writer := w; cn_api := api |}).
Proof. cbn [connection_loop]. by destruct (wait_expires n). Qed.

Lemma loop_answers stream rs :
  pipelined stream rs → ∀ fuel n w api responses api',
  answers rs api = Some (responses, api') →
  (∀ i, (n ≤ i)%nat → wait_expires i = false ∧ request_expires i = false) →
  (2 * length rs ≤ wr_left w)%nat → (length stream < fuel)%nat →
  ∃ c', loop fuel n {| cn_reader := {| rd_data := stream; rd_clean := true |}; cn_writer := w;
                       cn_api := api |} = (Ok tt, c') ∧
    wr_sent (cn_writer c') = wr_sent w ++ answers_bytes n rs responses ∧ cn_api c' = api'.
Proof.
  induction 1 as [stream r rest Hfr Hend|stream r rest rs Hfr Hka Hrest IH];
    intros fuel n w api responses api' Ha Hexp Hl Hf;
    (destruct fuel as [|fuel]; [lia|]); destruct (Hexp n) as [Hw Hr]; [lia| |lia|];
    apply answers_cons in Ha as (response & responses' & api1 & -> & Ha1 & Ha2); cbn [length] in Hl;
    (destruct (loop_round stream r rest fuel n w api response api1)
      as (w' & Hsent & Hleft & ->); [done|done|done|lia|done|]);
    cbn zeta; apply framed_shorter in Hfr; rewrite answers_bytes_cons.
  - injection Ha2 as <- <-. change (answers_bytes (n + 1) [] []) with (@nil Z). rewrite app_nil_r, <-Hsent.
    destruct Hend as [->| ->]; [by eexists|]. destruct fuel as [|fuel]; [lia|].
    rewrite loop_end. destruct (rq_keep_alive r); by eexists.
  - rewrite Hka. destruct (IH fuel (n + 1)%nat w' api1 responses' api') as (c' & -> & Hsent' & Hapi);
      [done| |lia|lia|].
    { intros i Hi. apply Hexp. lia. }
    exists c'. split_and!; [done| |done]. by rewrite Hsent', Hsent, <-app_assoc.
Qed.

(** Nothing after a request that cannot be framed is answered. *)
Lemma loop_rejects fuel n w api stream status message rd' :
  stream ≠ [] → wait_expires n = false → request_expires n = false → (2 ≤ wr_left w)%nat →
  read_request cap {| rd_data := stream; rd_clean := true |} = (Ok (RoInvalid status message), rd') →
  ∃ c', loop (S fuel) n {| cn_reader := {| rd_data := stream; rd_clean := true |}; cn_writer := w;
                           cn_api := api |} = (Ok tt, c') ∧ cn_api c' = api ∧
    wr_sent (cn_writer c') = wr_sent w ++
      response_head (into_response (http_error_new status message)) (identity_at n) false ++ message.
Proof.
  intros Hne Hw Hr Hl Hread. cbn [connection_loop]. rewrite Hw. unfold mbind, stM_bind.
  unfold on_reader at 1, fill_buf. cbn [cn_reader rd_data]. destruct stream as [|b stream]; [done|].
  rewrite Hr. unfold on_reader. cbn [cn_reader cn_writer cn_api]. rewrite Hread.
  unfold write_error, on_writer. cbn [cn_reader cn_writer cn_api].
  destruct (write_response_ok (into_response (http_error_new status message)) (identity_at n) false w Hl)
    as (w' & -> & Hsent & _). eexists. split; [done|]. split; [done|]. exact Hsent.
Qed.
End connection.
