(* ===== verification/RestHandlersSpec.v ===== *)
(** * The REST API: what the handlers promise

    Transactions handed in are not shown to the node when broadcasts go over
    Tor; routes outside the query semaphore never run a loop that watches a
    deadline; pages of the mempool follow one another; merged histories and fee
    bins add up. *)

From S2P Require Import Prelude External Text Utf8 Index Fmt Headers Batch Store Client Chain.
From S2P Require Import Merkle Protocol Mempool CoreRest ScriptFold Adapter TorPush Config Bitcoind.
From S2P Require Import Monitor Server ServerSpec Deadline Http RestTypes RestQuery RestAddress.
From S2P Require Import RestHandlers.

Section handlers.
Context {S W F : Type} `{HS : !Hashes, HX : !Hex, HT : !HashText, ST : !ScriptHashText,
  TT : !TxidText, TP : !TxidParse, BT : !BlockHashText, SO : !ScriptOps, VI : !VarInt,
  SL : !Slices, CS : !Consensus, RD : !RocksDB S, HA : !HttpAgent W, RA : !RpcAgent W,
  FS : !Files, JT : !JsonText, JF : !JsonFloats, SD : !Serde, MS : !Millis F,
  TX : !Transactions, SC : !Scripts, TR : !TxOutReader, RF : !RestFloats, RT : !Rates,
  FO : !Format, FR : !FormatReads S W F}.
Context (params : format_Params) (config : RestConfig) (server_config : Config) (rpc : RpcClient)
  (tor_push : option TorTargets).
Context (adapter_error_text : adapter_error slices_error → str)
  (corerest_error_text : corerest_error → str) (rpc_error_text : rpc_error → str)
  (tor_error_text : tor_error → str) (utf8_error_text : bytes → str) (debug_str : str → str)
  (strings_to_vec : list str → bytes).
Context (interfere : nat → Adapter S → Adapter S) (mempool_at : nat → MempoolIndex)
  (push_env : nat → PushEnv) (mode : overflow_mode) (clock : nat → Z).
Abbreviation route' :=
  (route (S := S) (W := W) (F := F) params config server_config rpc tor_push adapter_error_text
     corerest_error_text rpc_error_text tor_error_text utf8_error_text debug_str strings_to_vec
     interfere mempool_at push_env mode clock).

(** ** Cheap routes *)

(** What the cheap routes read of a request. *)
Section same_http.
Context (r1 r2 : Req) (Heq : req_http r1 = req_http r2).

Lemma post_tx_http :
  post_tx (S := S) (W := W) (F := F) rpc tor_push rpc_error_text tor_error_text utf8_error_text interfere push_env mode r1 =
  post_tx (S := S) (W := W) (F := F) rpc tor_push rpc_error_text tor_error_text utf8_error_text interfere push_env mode r2.
Proof. unfold post_tx. rewrite Heq. reflexivity. Qed.
Lemma get_broadcast_http :
  get_broadcast (S := S) (W := W) (F := F) rpc tor_push rpc_error_text tor_error_text interfere push_env mode r1 =
  get_broadcast (S := S) (W := W) (F := F) rpc tor_push rpc_error_text tor_error_text interfere push_env mode r2.
Proof. unfold get_broadcast. rewrite Heq. reflexivity. Qed.
Lemma txs_test_http :
  txs_test (S := S) (W := W) (F := F) server_config rpc rpc_error_text r1 =
  txs_test (S := S) (W := W) (F := F) server_config rpc rpc_error_text r2.
Proof. unfold txs_test, submitted_txs, amount_param. rewrite Heq. reflexivity. Qed.
Lemma txs_package_http :
  txs_package (S := S) (W := W) (F := F) server_config rpc tor_push rpc_error_text tor_error_text strings_to_vec interfere push_env mode r1 =
  txs_package (S := S) (W := W) (F := F) server_config rpc tor_push rpc_error_text tor_error_text strings_to_vec interfere push_env mode r2.
Proof. unfold txs_package, submitted_txs, amount_param. rewrite Heq. reflexivity. Qed.
Lemma unrouted_http : unrouted debug_str r1 = unrouted debug_str r2.
Proof. unfold unrouted. rewrite Heq. reflexivity. Qed.
Lemma mempool_txids_page_http cursor :
  mempool_txids_page (S := S) (W := W) (F := F) config interfere mempool_at r1 cursor =
  mempool_txids_page (S := S) (W := W) (F := F) config interfere mempool_at r2 cursor.
Proof. unfold mempool_txids_page, max_txs. rewrite Heq. reflexivity. Qed.
End same_http.

Ltac expensive He :=
  exfalso; revert He; unfold is_expensive;
  repeat match goal with
  | H : (_ && _) = true |- _ => apply andb_true_iff in H as [? ?]
  | H : (_ || _) = true |- _ => rewrite H
  | H : bool_decide (_ = _) = true |- _ => rewrite H
  | H : seg _ _ = true |- _ => rewrite H
  end; cbn; rewrite ?orb_true_r, ?andb_true_r; discriminate.

Lemma cheap_routes_ignore_deadline http d1 d2 s :
  is_expensive (rq_method http) (segments http) = false →
  route' {| req_http := http; req_deadline := d1 |} s = route' {| req_http := http; req_deadline := d2 |} s.
Proof.
  set (r1 := {| req_http := http; req_deadline := d1 |}).
  set (r2 := {| req_http := http; req_deadline := d2 |}).
  assert (req_http r1 = http) as H1 by done. assert (req_http r2 = http) as H2 by done.
  assert (req_http r1 = req_http r2) as Heq by done. clearbody r1 r2.
  intros He. unfold route. rewrite H1, H2.
  rewrite (post_tx_http r1 r2), (get_broadcast_http r1 r2), (txs_test_http r1 r2),
    (txs_package_http r1 r2) by done.
  unfold route_blocking. rewrite H1, H2, (unrouted_http r1 r2 Heq).
  generalize dependent (segments http). intros segs He.
  destruct (asset_route (S := S) (W := W) (F := F) (bool_decide (rq_method http = lit "GET")) segs) as [proxy|].
  { repeat (match goal with |- (if ?b then _ else _) s = _ => destruct b; [reflexivity|] end). reflexivity. }
  destruct (bool_decide (rq_method http = lit "GET")) eqn:Eget.
  - repeat (match goal with |- (if ?b then _ else _) s = _ => destruct b; [reflexivity|] end).
    unfold route_get. rewrite (unrouted_http r1 r2 Heq).
    destruct segs as [|a [|b rest]]; [reflexivity..|].
    destruct (seg "address" a || seg "scripthash" a) eqn:Ea; [expensive He|].
    destruct rest as [|c [|d [|e rest]]]; [..|reflexivity].
    + (repeat match goal with
        |- (if ?b then _ else _) s = _ => destruct b eqn:?; [first [expensive He | reflexivity]|] end).
      reflexivity.
    + rewrite (mempool_txids_page_http r1 r2 Heq None). (repeat match goal with
        |- (if ?b then _ else _) s = _ => destruct b eqn:?; [first [expensive He | reflexivity]|] end).
      reflexivity.
    + rewrite (mempool_txids_page_http r1 r2 Heq (Some d)). (repeat match goal with
        |- (if ?b then _ else _) s = _ => destruct b eqn:?; [first [expensive He | reflexivity]|] end).
      reflexivity.
  - repeat (match goal with |- (if ?b then _ else _) s = _ => destruct b; [reflexivity|] end).
    destruct (bool_decide (rq_method http = lit "POST")) eqn:Epost; [|reflexivity].
    unfold route_post. rewrite (unrouted_http r1 r2 Heq).
    destruct segs as [|a rest]; [reflexivity|].
    destruct (seg "addresses" a || seg "scripthashes" a) eqn:Ea; [expensive He|].
    destruct rest as [|b [|c [|d [|e rest]]]]; [reflexivity|..|reflexivity];
      repeat match goal with
        |- (if ?b then _ else _) s = _ => destruct b eqn:?; [first [expensive He | reflexivity]|] end;
      reflexivity.
Qed.

(** ** Submitted transactions *)

Definition is_submission (http : HttpRequest) : Prop :=
  (rq_method http = lit "POST" ∧
     segments http ∈ [[lit "tx"]; [lit "txs"; lit "test"]; [lit "txs"; lit "package"]]) ∨
  (rq_method http = lit "GET" ∧ segments http = [lit "broadcast"]).

(** What a submission may have done to the state: nothing to the node, and at
    most pushes of their own to the onion endpoints. *)
Definition stays_private (targets : TorTargets) (s s' : Rest S W F) : Prop :=
  wd_node (pr_world (rt_peer s')) = wd_node (pr_world (rt_peer s)) ∧
  pushed_since (rt_peer s) (rt_peer s') (λ sent,
    ∃ target content_type payload,
      (target = tor_tx targets ∨ target = tor_package targets) ∧
      private_push push_env target content_type payload sent).

Lemma stays_private_refl targets s : stays_private targets s s.
Proof. split; [done|]. exists []. by rewrite app_nil_r. Qed.

Lemma pushed_since_mono p p' (P Q : list bytes → Prop) :
  (∀ sent, P sent → Q sent) → pushed_since (S := S) (W := W) (F := F) p p' P → pushed_since p p' Q.
Proof. intros HPQ (new & Hnew & HP). exists new. split; [done|]. by eapply Forall_impl. Qed.

Context (targets : TorTargets) (Hfresh : fresh_connections push_env) (Htor : tor_push = Some targets).

Lemma rest_broadcast_private raw s r s' :
  rest_broadcast (S := S) (W := W) (F := F) rpc tor_push rpc_error_text tor_error_text interfere push_env mode
    raw s = (r, s') → stays_private targets s s'.
Proof.
  unfold rest_broadcast, on_server, on_peer, st_map_err, mbind, stM_bind.
  destruct (broadcast _ _ _ _ _ _ _ _ (rt_peer s)) as [v p] eqn:Eb.
  apply (broadcast_private _ _ _ _ _ _ _ targets) in Eb as [Hn Hp]; [|done..].
  intros H. assert (s' = {| rt_peer := p; rt_fee_cache := rt_fee_cache s |}) as -> by (destruct v; by injection H).
  split; [done|]. eapply pushed_since_mono; [|done]. intros sent Hs.
  exists (tor_tx targets), (lit "text/plain"), raw. auto.
Qed.

Lemma lift_private {B} (m : outcome HttpError B) (f : B → stM (Rest S W F) HttpError HttpResponse) s r s' :
  (∀ b r s', f b s = (r, s') → stays_private targets s s') →
  (b ← st_lift m; f b) s = (r, s') → stays_private targets s s'.
Proof.
  intros Hf. unfold mbind, stM_bind, st_lift. destruct m; [apply Hf|..]; intros [= <- <-];
    apply stays_private_refl.
Qed.

Lemma package_private txs s r s' :
  (result ← on_server (S := S) (W := W) (F := F)
     (broadcast_package rpc tor_push rpc_error_text tor_error_text strings_to_vec interfere push_env mode txs);
   answer_json result TTL_SHORT) s = (r, s') → stays_private targets s s'.
Proof.
  unfold on_server, on_peer, st_map_err, mbind, stM_bind.
  destruct (broadcast_package _ _ _ _ _ _ _ _ _ (rt_peer s)) as [v p] eqn:Eb.
  apply (broadcast_package_private _ _ _ _ _ _ _ _ targets) in Eb as [Hn Hp]; [|done..].
  intros H. assert (s' = {| rt_peer := p; rt_fee_cache := rt_fee_cache s |}) as -> by (destruct v; by injection H).
  split; [done|]. eapply pushed_since_mono; [|done]. intros sent Hs.
  exists (tor_package targets), (lit "application/json"), (strings_to_vec txs). auto.
Qed.

Lemma submissions_private request s r s' :
  broadcast_via server_config = ViaTor → is_submission (req_http request) →
  route' request s = (r, s') → stays_private targets s s'.
Proof.
  intros Hvia Hsub. unfold route.
  destruct Hsub as [[Hm Hseg]|[Hm Hseg]]; rewrite Hm.
  - rewrite !elem_of_cons, elem_of_nil in Hseg. destruct Hseg as [Hseg|[Hseg|[Hseg|[]]]]; rewrite Hseg.
    + change (post_tx (S := S) (W := W) (F := F) rpc tor_push rpc_error_text tor_error_text utf8_error_text
        interfere push_env mode request s = (r, s') → stays_private targets s s').
      apply lift_private. intros raw r' s1. apply rest_broadcast_private.
    + change (txs_test (S := S) (W := W) (F := F) server_config rpc rpc_error_text request s = (r, s') →
        stays_private targets s s').
      unfold txs_test. rewrite bool_decide_eq_true_2 by done. intros [= <- <-]. apply stays_private_refl.
    + change (txs_package (S := S) (W := W) (F := F) server_config rpc tor_push rpc_error_text tor_error_text
        strings_to_vec interfere push_env mode request s = (r, s') → stays_private targets s s').
      unfold txs_package. apply lift_private. intros txs r1 s1. apply lift_private. intros fr r2 s2.
      apply lift_private. intros burn r3 s3. apply lift_private. intros [] r4 s4.
      rewrite bool_decide_eq_true_2 by done. apply package_private.
  - rewrite Hseg.
    change (get_broadcast (S := S) (W := W) (F := F) rpc tor_push rpc_error_text tor_error_text
      interfere push_env mode request s = (r, s') → stays_private targets s s').
    apply lift_private. intros raw r' s1. apply rest_broadcast_private.
Qed.
End handlers.

(** ** Pages of the mempool *)

Lemma sorted_txids_sorted m : StronglySorted bytes_le (sorted_txids m) ∧ NoDup (sorted_txids m).
Proof.
  unfold sorted_txids, txids_list. split; [apply (StronglySorted_merge_sort _ _)|].
  rewrite merge_sort_Permutation. apply NoDup_elements.
Qed.

(** The ids that a page after [cursor] is cut from. *)
Definition remaining (l : list hash32) (cursor : option hash32) : list hash32 :=
  match cursor with Some c => filter (λ id, bytes_lt c id) l | None => l end.

Lemma sorted_split a x b :
  StronglySorted bytes_le (a ++ x :: b) → NoDup (a ++ x :: b) →
  Forall (λ id, bytes_le id x) a ∧ Forall (bytes_lt x) b.
Proof.
  intros Hs Hnd. split.
  - apply Forall_forall. intros y Hy. eapply StronglySorted_app_1_elem_of; [done..|]. set_solver.
  - apply StronglySorted_app_1_r, StronglySorted_inv in Hs as [_ Hx].
    rewrite Forall_forall in *. intros y Hy. split; [by apply Hx|]. intros ->.
    apply NoDup_app in Hnd as (_ & _ & [? _]%NoDup_cons). done.
Qed.

Lemma remaining_drop l c :
  StronglySorted bytes_le l → drop (start_after l c) l = remaining l (Some c).
Proof.
  unfold start_after, remaining. induction 1 as [|x l Hs IH Hx]; [done|]. rewrite !filter_cons.
  destruct (decide (bytes_le x c)) as [Hle|Hgt].
  - rewrite decide_False by by rewrite bytes_lt_nle; auto. cbn [length drop]. apply IH.
  - rewrite decide_True by by rewrite bytes_lt_nle. rewrite Forall_forall in Hx.
    assert (∀ y, y ∈ l → ¬ bytes_le y c) as Hall.
    { intros y Hy Hyc. apply Hgt. etrans; [by apply Hx|done]. }
    rewrite filter_none by by apply Forall_forall. cbn [length drop].
    rewrite filter_all; [done|]. apply Forall_forall. intros y Hy. by apply bytes_lt_nle, Hall.
Qed.

Lemma page_of_remaining l cursor limit :
  StronglySorted bytes_le l → page_of l cursor limit = take (Z.to_nat limit) (remaining l cursor).
Proof.
  intros Hs. unfold page_of. destruct cursor as [c|]; cbn [from_option]; [|done].
  by rewrite remaining_drop.
Qed.

(** The next page goes on where a page ended. *)
Lemma next_page l cursor limit c :
  StronglySorted bytes_le l → NoDup l → last (page_of l cursor limit) = Some c →
  remaining l cursor = page_of l cursor limit ++ remaining l (Some c).
Proof.
  intros Hs Hnd Hlast. rewrite page_of_remaining in * by done. set (r := remaining l cursor) in *.
  rewrite <-(take_drop (Z.to_nat limit) r) at 1. f_equal.
  apply last_Some in Hlast as [init Hinit].
  assert (∃ before, l = before ++ r) as [before Hl].
  { unfold r. destruct cursor as [k|]; [|by exists []]. rewrite <-remaining_drop by done.
    exists (take (start_after l k) l). by rewrite take_drop. }
  assert (l = (before ++ init) ++ c :: drop (Z.to_nat limit) r) as Hsplit.
  { rewrite Hl. rewrite <-(take_drop (Z.to_nat limit) r) at 1. by rewrite Hinit, <-!app_assoc. }
  clearbody r. generalize dependent (drop (Z.to_nat limit) r). intros d Hsplit. rewrite Hsplit in Hs, Hnd.
  destruct (sorted_split _ _ _ Hs Hnd) as [Hb Ha]. cbn [remaining].
  rewrite Hsplit, filter_app, filter_cons, filter_none, decide_False, filter_all; [done..| |].
  - by intros [_ ?].
  - eapply Forall_impl; [done|]. intros y Hy. by rewrite bytes_lt_nle; auto.
Qed.

(** Following the pages of a mempool that does not change lists it whole. *)
Fixpoint walk_pages (l : list hash32) (limit : Z) (fuel : nat) (cursor : option hash32) : list hash32 :=
  match fuel with
  | O => []
  | S fuel =>
      let page := page_of l cursor limit in
      match last page with
      | Some c => page ++ walk_pages l limit fuel (Some c)
      | None => []
      end
  end.
Lemma walk_pages_all l limit fuel cursor :
  StronglySorted bytes_le l → NoDup l → 0 < limit → (length (remaining l cursor) < fuel)%nat →
  walk_pages l limit fuel cursor = remaining l cursor.
Proof.
  intros Hs Hnd Hlim. revert cursor. induction fuel as [|fuel IH]; intros cursor Hf; [lia|].
  cbn [walk_pages]. destruct (last (page_of l cursor limit)) as [c|] eqn:El.
  - pose proof (next_page l cursor limit c Hs Hnd El) as Hnext. rewrite Hnext. f_equal. apply IH.
    rewrite Hnext, length_app in Hf.
    assert (page_of l cursor limit ≠ []) as Hne by (by intros E; rewrite E in El).
    destruct (page_of l cursor limit); [done|]. cbn [length] in Hf. lia.
  - apply last_None in El. rewrite page_of_remaining in El by done.
    destruct (remaining l cursor) as [|x r]; [done|]. 
    destruct (Z.to_nat limit) eqn:E; [lia|done].
Qed.

(** ** Fee bins *)

Section bins.
Context `{RT : !Rates, RL : !RatesLaws}.

Lemma sorted_sublist {A} (R : relation A) l1 l2 : l1 `sublist_of` l2 → StronglySorted R l2 → StronglySorted R l1.
Proof.
  induction 1 as [|x l1 l2 Hsub IH|x l1 l2 Hsub IH]; [done|..]; intros [Hs Hx]%StronglySorted_inv; [|auto].
  constructor; [by apply IH|]. rewrite Forall_forall in *. intros y Hy. apply Hx.
  by eapply elem_of_sublist.
Qed.

Definition open_bin (bin_size : Z) (rate : f32) : list f32 := if 0 <? bin_size then [rate] else [].

Lemma bins_loop l h b r h' b' r' :
  foldl bin_step (h, b, r) l = (h', b', r') → Forall (λ p, 0 < p.2) l → 0 ≤ b →
  b + sumZ (snd <$> l) < 2 ^ 32 →
  sumZ (snd <$> h') + b' = sumZ (snd <$> h) + b + sumZ (snd <$> l) ∧ 0 ≤ b' < 2 ^ 32 ∧
  (StronglySorted f32_ge (h.*1 ++ open_bin b r ++ l.*1) → StronglySorted f32_ge (h'.*1 ++ open_bin b' r')).
Proof.
  intros Hf Hl. revert h b r Hf. induction Hl as [|[rate v] l Hv Hl IH]; intros h b r Hf Hb Hsum.
  - injection Hf as <- <- <-. cbn in *. rewrite app_nil_r. split_and!; [lia|lia|lia|done].
  - cbn [foldl] in Hf. cbn [fmap list_fmap sumZ snd] in *.
    assert (0 ≤ sumZ (snd <$> l)) as Hpos.
    { clear -Hl. induction Hl as [|p l Hp _ IH]; [done|]. cbn. lia. }
    unfold bin_step at 2 in Hf. destruct ((50000 <? b) && f32_differ r rate) eqn:Ecut.
    + apply andb_true_iff in Ecut as [Hbig%Z.ltb_lt _].
      unfold saturate32 in Hf. rewrite Z.min_l in Hf by lia.
      apply IH in Hf as (Htot & Hb' & Hs); [|rewrite wrap64_small by (split; lia); lia..].
      rewrite wrap64_small in Htot by (split; lia). rewrite fmap_app, sumZ_app in Htot. cbn in Htot.
      split_and!; [lia|lia|lia|]. intros Hsorted. apply Hs.
      rewrite wrap64_small by (split; lia). unfold open_bin in *.
      rewrite (proj2 (Z.ltb_lt 0 b)) in Hsorted by lia. rewrite (proj2 (Z.ltb_lt 0 _)) by lia.
      rewrite fmap_app, <-app_assoc. exact Hsorted.
    + apply IH in Hf as (Htot & Hb' & Hs); [|rewrite wrap64_small by (split; lia); lia..].
      rewrite wrap64_small in Htot by (split; lia).
      split_and!; [lia|lia|lia|]. intros Hsorted. apply Hs.
      rewrite wrap64_small by (split; lia). unfold open_bin in *.
      rewrite (proj2 (Z.ltb_lt 0 _)) by lia. cbn [fst]. revert Hsorted. apply sorted_sublist.
      apply sublist_app; [done|]. destruct (0 <? b); [by apply sublist_cons|done].
Qed.


Lemma fee_histogram_bins_spec m :
  let vsizes := filter (λ v, 0 < v) (mt_vsize <$> (snd <$> map_to_list (txs m))) in
  sumZ vsizes < 2 ^ 32 →
  sumZ (snd <$> fee_histogram_bins m) = sumZ vsizes ∧
  StronglySorted f32_ge (fst <$> fee_histogram_bins m).
Proof.
  intros vsizes Hsum. unfold fee_histogram_bins.
  destruct (foldl bin_step ([], 0, f32_zero) (fee_rates m)) as [[h b] r] eqn:Ef.
  assert ((snd <$> fee_rates m) ≡ₚ vsizes) as Hperm.
  { unfold fee_rates. rewrite sort_by_perm, <-list_fmap_compose. unfold vsizes.
    generalize (snd <$> map_to_list (txs m)) as l. intros l. clear.
    induction l as [|tx l IH]; [done|]. rewrite fmap_cons, !filter_cons.
    case_decide as Hd; cbn in *; [by rewrite IH|done]. }
  assert (Forall (λ p : f32 * Z, 0 < p.2) (fee_rates m)) as Hpos.
  { assert (Forall (λ v, 0 < v) (snd <$> fee_rates m)) as Hv.
    { rewrite Hperm. apply Forall_forall. unfold vsizes. by intros v [? _]%list_elem_of_filter. }
    by apply (Forall_fmap snd (Z.lt 0)) in Hv. }
  apply sumZ_perm in Hperm.
  destruct (bins_loop _ _ _ _ _ _ _ Ef Hpos) as (Htot & Hb & Hs); [done|lia|].
  cbn in Htot. assert (StronglySorted f32_ge (h.*1 ++ open_bin b r)) as Hsorted.
  { apply Hs. cbn. unfold fee_rates. apply sort_by_sorted; apply _. }
  unfold open_bin in Hsorted. destruct (Z.ltb_spec 0 b).
  - unfold saturate32. rewrite Z.min_l by lia. rewrite !fmap_app, sumZ_app. cbn.
    split; [lia|]. exact Hsorted.
  - rewrite app_nil_r in Hsorted. split; [lia|done].
Qed.
End bins.

(** ** Merged histories *)

Lemma wrap64_add_l a b : wrap64 (wrap64 a + b) = wrap64 (a + b).
Proof. unfold wrap64. apply Z.add_mod_idemp_l. lia. Qed.

Definition same_tx (id : hash32) (row : ScriptHistoryRow) : Prop := shr_txid row = id.
#[export] Instance same_tx_dec id row : Decision (same_tx id row).
Proof. unfold same_tx. apply _. Defined.

(** What is merged of a transaction: the place of its first row, and the sums. *)
Definition merged_of (rows : list ScriptHistoryRow) (id : hash32) (r : MergedRow) : Prop :=
  ∃ row, head (filter (same_tx id) rows) = Some row ∧
    r = {| mr_txid := id; mr_height := shr_height row; mr_position := shr_position row;
           mr_funded := wrap64 (sumZ (shr_funded <$> filter (same_tx id) rows));
           mr_spent := wrap64 (sumZ (shr_spent <$> filter (same_tx id) rows)) |}.

Lemma merge_rows_spec rows :
  let m := foldl merge_row ∅ rows in
  ∀ id, match m !! id with
        | Some r => merged_of rows id r
        | None => filter (same_tx id) rows = []
        end.
Proof.
  cbn zeta. induction rows as [|row rows IH] using rev_ind; intros id; [done|].
  rewrite foldl_snoc. set (m := foldl merge_row ∅ rows) in *. unfold merge_row.
  rewrite lookup_insert. case_decide as Heq.
  - subst id. specialize (IH (shr_txid row)). unfold merged_of. rewrite !filter_app, !filter_cons, !filter_nil.
    rewrite !decide_True by done. rewrite !fmap_app, !sumZ_app.
    destruct (m !! shr_txid row) as [e|]; cbn [from_option id fmap list_fmap sumZ].
    + destruct IH as (first & Hfirst & ->). exists first. cbn [mr_txid mr_height mr_position mr_funded mr_spent].
      split; [by destruct (filter _ rows)|]. by rewrite !wrap64_add_l, !Z.add_0_r.
    + rewrite IH. cbn. exists row. by rewrite !Z.add_0_r.
  - specialize (IH id). unfold merged_of. rewrite !filter_app, !filter_cons, !filter_nil.
    rewrite !decide_False by done. rewrite app_nil_r. exact IH.
Qed.

Lemma rows_desc_spec hs :
  let rows := h_entries hs ≫= λ e, sh_rows e.2 in
  StronglySorted (lex_le Z.lt Z.le) (row_key <$> rows_desc hs) ∧ NoDup (mr_txid <$> rows_desc hs) ∧
  ∀ r, r ∈ rows_desc hs ↔ merged_of rows (mr_txid r) r.
Proof.
  intros rows. set (m := foldl merge_row ∅ rows).
  pose proof (merge_rows_spec rows) as Hm. cbn zeta in Hm. fold m in Hm.
  assert (∀ id r, m !! id = Some r → mr_txid r = id) as Hid.
  { intros id r Hr. specialize (Hm id). rewrite Hr in Hm. by destruct Hm as (? & _ & ->). }
  assert (rows_desc hs ≡ₚ snd <$> map_to_list m) as Hperm
    by (unfold rows_desc; by rewrite !sort_by_perm).
  split_and!.
  - unfold rows_desc. apply sort_by_sorted; apply _.
  - rewrite Hperm, <-list_fmap_compose.
    assert (mr_txid ∘ snd <$> map_to_list m = (map_to_list m).*1) as ->.
    { apply list_fmap_ext. intros i [id r] Hr. cbn. apply Hid, elem_of_map_to_list.
      by eapply list_elem_of_lookup_2. }
    apply NoDup_fst_map_to_list.
  - intros r. rewrite Hperm, list_elem_of_fmap. split.
    + intros ([id r'] & -> & Hr%elem_of_map_to_list). cbn. specialize (Hm id). rewrite Hr in Hm.
      by rewrite (Hid _ _ Hr).
    + intros Hr. exists (mr_txid r, r). split; [done|]. apply elem_of_map_to_list.
      specialize (Hm (mr_txid r)). destruct (m !! mr_txid r) as [r'|] eqn:Er.
      * f_equal. destruct Hm as (row1 & H1 & Hr1), Hr as (row2 & H2 & Hr2). rewrite H1 in H2.
        injection H2 as ->. by rewrite Hr1, Hr2 at 1.
      * destruct Hr as (row & Hrow & _). by rewrite Hm in Hrow.
Qed.
