(* ===== verification/RestQuerySpec.v ===== *)
(** * The REST API: what the queries answer

    A transaction that [find_tx] finds is one of the chain at the place it
    reports, or one of the mempool; what [outspend] reports of an output, and
    what the statistics and the unspent outputs of a script are computed from,
    is right for a chain and a mempool the server had meanwhile. *)

From S2P Require Import Prelude External Text Utf8 Index Fmt Headers Batch Store StoreSpec Client Chain.
From S2P Require Import ChainSpec ChainSync ChainQuery Merkle Protocol ProtocolSpec Mempool CoreRest.
From S2P Require Import ScriptFold ScriptFoldSpec Adapter AdapterSpec TorPush Config Bitcoind Monitor.
From S2P Require Import Server Deadline Http RestTypes RestQuery RestAddress RestHandlers.

(** What a build's reads promise, on states that are [ok]: block times are those
    of [time_at], and an unspent output is answered as [shown_utxo] says. *)
Class BlockTimes (S W F : Type) `{FO : !Format, FR : !FormatReads S W F} (ok : Rest S W F → Prop)
    (time_at : Z → Z → Prop) : Prop :=
  read_block_time_ok height s time s' :
    ok s → read_block_time height s = (Ok time, s') → ok s' ∧ time_at height time.
Class UtxoValues (S W F : Type) `{FO : !Format, FR : !FormatReads S W F} (ok : Rest S W F → Prop)
    (shown_utxo : OutPoint → TransactionStatus → Z → option format_UtxoValue → Prop) : Prop :=
  read_utxo_value_ok o status value s v s' :
    ok s → read_utxo_value o status value s = (Ok v, s') → ok s' ∧ shown_utxo o status value v.

Section spec.
Context {S W F : Type} `{HS : !Hashes, HSL : !HashLaws, HX : !Hex, HXL : !HexLaws, HT : !HashText,
  ST : !ScriptHashText, STL : !ScriptHashTextLaws, TT : !TxidText, TP : !TxidParse,
  BT : !BlockHashText, SO : !ScriptOps, VI : !VarInt, VIL : !VarIntLaws, SL : !Slices,
  SLL : !SlicesLaws, CS : !Consensus, RD : !RocksDB S, RL : !RocksDBLaws S, HA : !HttpAgent W,
  NL : !NodeLaws W, RA : !RpcAgent W, FS : !Files, JT : !JsonText, JF : !JsonFloats, SD : !Serde,
  MS : !Millis F, TX : !Transactions, SC : !Scripts, TR : !TxOutReader,
  FO : !Format, FR : !FormatReads S W F}.
Context (adapter_error_text : adapter_error slices_error → str).
Context (interfere : nat → Adapter S → Adapter S) (mempool_at : nat → MempoolIndex) (clock : nat → Z).
Implicit Types (s : Rest S W F).

(** What every thread keeps true of the chain. *)
Context (I : IndexedChain S → Prop)
  (Hother : ∀ n a, adapter_ok (W := W) I a → adapter_ok (W := W) I (interfere n a))
  (HI : ∀ c, I c → ∃ bs, chain_inv (W := W) c bs).

Abbreviation on_chain := (on_chain (S := S) (W := W) (F := F) adapter_error_text).
Abbreviation find_tx := (find_tx (S := S) (W := W) (F := F) adapter_error_text interfere mempool_at).
Abbreviation outspend :=
  (outspend (S := S) (W := W) (F := F) adapter_error_text interfere mempool_at clock).

Definition rest_ok s : Prop := world_ok (W := W) I (pr_world (rt_peer s)).

(** ** The parts of the state *)

Lemma on_chain_ok {A} (m : stM (World S W) (adapter_error slices_error) A) s a s' :
  on_chain m s = (Ok a, s') → m (pr_world (rt_peer s)) = (Ok a, pr_world (rt_peer s')).
Proof.
  intros Hm%st_map_err_ok. unfold on_peer, on_world in Hm.
  destruct (m (pr_world (rt_peer s))) as [r w]. by injection Hm as -> <-.
Qed.

Lemma mempool_read_ok s m s' :
  rest_ok s → mempool_read interfere mempool_at s = (Ok m, s') →
  rest_ok s' ∧ ∃ k, m = mempool_at k.
Proof using Hother.
  intros Hs. unfold mempool_read, on_peer, read_mempool, on_world. intros [= <- <-].
  split; [by apply Hother|by eexists].
Qed.

Lemma check_deadline_ok d s u s' :
  rest_ok s → check_deadline adapter_error_text interfere clock d s = (Ok u, s') → rest_ok s'.
Proof using Hother.
  intros Hs (passed & s1 & Hp%on_chain_ok & Hc)%st_bind_ok. injection Hp as _ Hw.
  assert (rest_ok s1) as Hs1 by (unfold rest_ok; rewrite <-Hw; by apply next_tick_ok).
  destruct passed; [done|]. by apply st_ret_ok in Hc as [_ ->].
Qed.

Context (time_at : Z → Z → Prop) {BL : BlockTimes S W F rest_ok time_at}.

(** ** Transactions *)

(** Where a transaction that was found lives. *)
Inductive lives (id : hash32) (found : FoundTx) : Prop :=
| lives_in_chain c bs n i j hdr d tx spent hash time :
    I c → chain_inv (W := W) c bs → chain_tx (W := W) bs n i j hdr d tx spent →
    Fmt.txid (stx_raw tx) = Ok id → ft_raw found = stx_raw tx →
    parse_block_hash (hash_to_string (ih_hash hdr)) = Ok hash → time_at (Z.of_nat i) time →
    ft_status found = status_confirmed (Z.of_nat i) hash time →
    ft_position found = Some (Z.of_nat j) → lives id found
| lives_in_mempool k :
    raw_transaction (mempool_at k) id = Some (ft_raw found) →
    ft_status found = status_unconfirmed → ft_position found = None → lives id found.

(** Nothing there: the chain had no such transaction, nor then the mempool. *)
Definition unknown (id : hash32) : Prop :=
  (∃ c bs, I c ∧ chain_inv (W := W) c bs ∧ located_in (W := W) bs id None) ∧
  ∃ k, raw_transaction (mempool_at k) id = None.

Definition found_ok (id : hash32) (r : option FoundTx) : Prop :=
  match r with
  | Some found => format_decode_tx (ft_raw found) = Ok (ft_tx found) ∧ lives id found
  | None => unknown id
  end.

Lemma decode_ok raw what tx : decode raw what = Ok tx → format_decode_tx raw = Ok tx.
Proof. apply map_err_ok. Qed.

Lemma find_tx_ok id s r s' :
  hash_wf id → rest_ok s → find_tx id s = (Ok r, s') → rest_ok s' ∧ found_ok id r.
Proof using Hother HI HSL VIL SLL RL NL BL.
  intros Hid Hs (located & s1 & Hl%on_chain_ok & Hf)%st_bind_ok.
  apply (located_transaction_ok interfere I Hother) in Hl as (Hs1 & c & bs & Hc & Hinv & Hl); [|done..].
  destruct located as [t|].
  - apply st_bind_ok in Hf as (tx & s2 & [Htx%decode_ok ->]%st_lift_ok & Hf).
    apply st_bind_ok in Hf as (hash & s2 & [Hh ->]%st_lift_ok & Hf).
    apply st_bind_ok in Hf as (time & s2 & [Hs2 Ht]%read_block_time_ok & [-> ->]%st_ret_ok); [|done].
    split; [done|]. split; [done|].
    destruct Hl as (n & i & j & hdr & d & tx' & spent & Hct & Htid & Hraw & Hhei & Hbh & Hpos).
    rewrite Hhei in Ht. rewrite Hbh in Hh. cbn.
    eapply (lives_in_chain _ _ c bs n i j hdr d tx' spent hash time); try done; cbn; congruence.
  - apply st_bind_ok in Hf as (m & s2 & [Hs2 [k ->]]%mempool_read_ok & Hf); [|done].
    destruct (raw_transaction (mempool_at k) id) as [raw|] eqn:Er.
    + apply st_bind_ok in Hf as (tx & s3 & [Htx%decode_ok ->]%st_lift_ok & [-> ->]%st_ret_ok).
      split; [done|]. split; [done|]. by eapply (lives_in_mempool _ _ k).
    + apply st_ret_ok in Hf as [-> ->]. split; [done|]. split; [by exists c, bs|by exists k].
Qed.

(** ** Who spent an output *)

(** The script hash an output is indexed under. *)
Definition hash_of_output (out : format_TxOut) : ElectrumScripthash :=
  {| esh_bytes := rev (sha256 (format_output_script out)) |}.
(** The mempool has no spender of the output that it could show. *)
Definition no_mempool_spender (m : MempoolIndex) (o : OutPoint) : Prop :=
  (sp ← spender m o; raw_transaction m sp) = None.

(** What may be said of the spending of output [vout] of transaction [id]. *)
Inductive spending_right (id : hash32) (vout : Z) : SpendingValue → Prop :=
| sr_no_output : unknown id → spending_right id vout spending_unspent
| sr_out_of_range found :
    found_ok id (Some found) → format_output (ft_tx found) vout = None → spending_right id vout spending_unspent
| sr_unspendable found out :
    found_ok id (Some found) → format_output (ft_tx found) vout = Some out → format_is_unspendable out = true →
    spending_right id vout spending_unspent
| sr_in_mempool found out k sp raw tx :
    found_ok id (Some found) → format_output (ft_tx found) vout = Some out →
    spender (mempool_at k) {| op_txid := id; op_vout := vout |} = Some sp →
    raw_transaction (mempool_at k) sp = Some raw → format_decode_tx raw = Ok tx →
    spending_right id vout
      (spending_spent sp (default 0 (format_spending_input tx {| op_txid := id; op_vout := vout |}))
         status_unconfirmed)
| sr_unconfirmed found out k :
    found_ok id (Some found) → format_output (ft_tx found) vout = Some out →
    status_height (ft_status found) = None →
    no_mempool_spender (mempool_at k) {| op_txid := id; op_vout := vout |} →
    spending_right id vout spending_unspent
| sr_unspent found out k height c bs :
    found_ok id (Some found) → format_output (ft_tx found) vout = Some out →
    status_height (ft_status found) = Some height →
    no_mempool_spender (mempool_at k) {| op_txid := id; op_vout := vout |} →
    I c → chain_inv (W := W) c bs →
    spender_in (W := W) c bs {| op_txid := id; op_vout := vout |} (hash_of_output out) height None →
    spending_right id vout spending_unspent
| sr_spent found out k height c bs sp time :
    found_ok id (Some found) → format_output (ft_tx found) vout = Some out →
    status_height (ft_status found) = Some height →
    no_mempool_spender (mempool_at k) {| op_txid := id; op_vout := vout |} →
    I c → chain_inv (W := W) c bs →
    spender_in (W := W) c bs {| op_txid := id; op_vout := vout |} (hash_of_output out) height (Some sp) →
    time_at (sp_height sp) time →
    spending_right id vout
      (spending_spent (sp_txid sp) (sp_vin sp) (status_confirmed (sp_height sp) (sp_block_hash sp) time)).

Lemma hash_of_output_wf out : esh_wf (hash_of_output out).
Proof using HSL.
  destruct (sha256_wf (format_output_script out)) as [? Hl]. split; [by apply bytes_wf_rev|].
  unfold hash_of_output. cbn [esh_bytes]. by rewrite length_rev.
Qed.

Lemma outspend_ok id vout deadline s v s' :
  hash_wf id → rest_ok s → outspend id vout deadline s = (Ok v, s') →
  rest_ok s' ∧ spending_right id vout v.
Proof using Hother HI HSL HXL STL VIL SLL RL NL BL.
  intros Hid Hs (u & s1 & Hs1%check_deadline_ok & Ho)%st_bind_ok; [|done].
  apply st_bind_ok in Ho as (r & s2 & [Hs2 Hr]%find_tx_ok & Ho); [|done..].
  destruct r as [found|]; [|by apply st_ret_ok in Ho as [-> ->]; split; [|constructor]].
  destruct (format_output (ft_tx found) vout) as [out|] eqn:Eo;
    [|apply st_ret_ok in Ho as [-> ->]; split; [done|by eapply sr_out_of_range]].
  destruct (format_is_unspendable out) eqn:Eu;
    [apply st_ret_ok in Ho as [-> ->]; split; [done|by eapply sr_unspendable]|].
  apply st_bind_ok in Ho as (m & s3 & [Hs3 [k ->]]%mempool_read_ok & Ho); [|done].
  set (o := {| op_txid := id; op_vout := vout |}) in *.
  destruct (spender (mempool_at k) o ≫= λ sp, raw_transaction (mempool_at k) sp) as [raw|] eqn:Em.
  - apply bind_Some in Em as (sp & Esp & Eraw). rewrite Esp in Ho. cbn [mbind option_bind] in Ho.
    rewrite Eraw in Ho. cbn [mbind option_bind] in Ho.
    apply st_bind_ok in Ho as (tx & s4 & [Htx%decode_ok ->]%st_lift_ok & [-> ->]%st_ret_ok).
    split; [done|]. by eapply sr_in_mempool.
  - assert ((sp ← spender (mempool_at k) o; raw ← raw_transaction (mempool_at k) sp; Some (sp, raw)) = None)
      as Hnone.
    { revert Em. destruct (spender (mempool_at k) o) as [sp|]; [|done]. cbn [mbind option_bind].
      by intros ->. }
    rewrite Hnone in Ho. destruct (status_height (ft_status found)) as [height|] eqn:Eh;
      [|apply st_ret_ok in Ho as [-> ->]; split; [done|by eapply sr_unconfirmed]].
    rewrite esh_from_script_ok in Ho.
    apply st_bind_ok in Ho as (sh & s4 & [Hsh ->]%st_lift_ok & Ho). injection Hsh as <-.
    apply st_bind_ok in Ho as (sp & s5 & Hsp%on_chain_ok & Ho).
    apply (find_spender_ok interfere _ I Hother) in Hsp as (Hs5 & c & bs & Hc & Hinv & Hsp);
      [|done|apply hash_of_output_wf|done].
    destruct sp as [sp|]; [|apply st_ret_ok in Ho as [-> ->]; split; [done|by eapply sr_unspent]].
    apply st_bind_ok in Ho as (time & s6 & [Hs6 Ht]%read_block_time_ok & [-> ->]%st_ret_ok); [|done].
    split; [done|]. by eapply sr_spent.
Qed.

(** ** Unspent outputs of a script *)

Lemma key_electrum_wf key sh : key_electrum key = Ok sh → esh_wf sh.
Proof using HSL HXL STL.
  destruct key as [address script|hash]; cbn [key_electrum].
  - rewrite esh_from_script_ok. intros [= <-]. destruct (sha256_wf script) as [? Hl].
    split; [by apply bytes_wf_rev|]. cbn [esh_bytes]. by rewrite length_rev.
  - intros (b & Hb%ok_or_ok & Hsh)%bind_ok. case_bool_decide as Hlen; [|done].
    injection Hsh as <-. apply hex_decode_wf in Hb. split; [by apply bytes_wf_rev|].
    cbn [esh_bytes]. by rewrite length_rev.
Qed.

(** A chain the adapter had has this block at a height. *)
Definition block_at (height : Z) (hash : hash32) : Prop :=
  ∃ c, I c ∧ block_hash_at_height (ic_headers c) height = Some hash.
Definition blocks_ok (blocks : gmap Z (hash32 * Z)) : Prop :=
  map_Forall (λ height e, block_at height e.1 ∧ time_at height e.2) blocks.

Lemma cached_block_ok blocks height s e blocks' s' :
  rest_ok s → blocks_ok blocks →
  cached_block adapter_error_text interfere blocks height s = (Ok (e, blocks'), s') →
  rest_ok s' ∧ blocks_ok blocks' ∧ block_at height e.1 ∧ time_at height e.2.
Proof using Hother BL.
  intros Hs Hb. unfold cached_block. destruct (blocks !! height) as [entry|] eqn:Eb.
  - intros [[= -> ->] ->]%st_ret_ok. split_and!; [done..| |]; by apply (Hb height entry).
  - intros (hash & s1 & Hh%on_chain_ok & Hr)%st_bind_ok.
    apply st_bind_ok in Hh as (c & w & [Hw Hc]%(read_chain_ok interfere I Hother) & [-> Hw']%st_ret_ok);
      [|done].
    assert (rest_ok s1) as Hs1 by (unfold rest_ok; by rewrite Hw').
    apply st_bind_ok in Hr as (hash & s2 & [Hhash%ok_or_ok ->]%st_lift_ok & Hr).
    apply st_bind_ok in Hr as (time & s3 & [Hs3 Ht]%read_block_time_ok & [[= -> ->] ->]%st_ret_ok); [|done].
    split; [done|]. assert (block_at height hash) by by exists c.
    split_and!; [|done..]. by apply map_Forall_insert_2.
Qed.

Context (shown_utxo : OutPoint → TransactionStatus → Z → option format_UtxoValue → Prop)
  {UL : UtxoValues S W F rest_ok shown_utxo}.

(** What is answered for an unspent output of the chain, and of the mempool. *)
Definition confirmed_utxo (u : ScriptUtxo) (v : option format_UtxoValue) : Prop :=
  ∃ hash time, block_at (su_height u) hash ∧ time_at (su_height u) time ∧
    shown_utxo (su_outpoint u) (status_confirmed (su_height u) hash time) (su_value u) v.
Definition unconfirmed_utxo (o : OutPoint * Z) (v : option format_UtxoValue) : Prop :=
  shown_utxo o.1 status_unconfirmed o.2 v.

Lemma confirmed_utxos_ok spent utxos blocks s values s' :
  rest_ok s → blocks_ok blocks →
  confirmed_utxos adapter_error_text interfere spent blocks utxos s = (Ok values, s') →
  rest_ok s' ∧ ∃ shown, Forall2 confirmed_utxo (filter (λ u, su_outpoint u ∉ spent) utxos) shown ∧
    values = omap id shown.
Proof using Hother BL UL.
  revert blocks s values s'. induction utxos as [|u utxos IH]; intros blocks s values s' Hs Hb;
    cbn [confirmed_utxos].
  { intros [-> ->]%st_ret_ok. split; [done|]. by exists []. }
  rewrite filter_cons. case_bool_decide as Hu; [rewrite decide_False by auto; by apply IH|].
  rewrite decide_True by done.
  intros ([[hash time] blocks'] & s1 & (Hs1 & Hb1 & Hhash & Htime)%cached_block_ok & Hr)%st_bind_ok;
    [|done..].
  apply st_bind_ok in Hr as (v & s2 & [Hs2 Hv]%read_utxo_value_ok & Hr); [|done].
  apply st_bind_ok in Hr as (rest & s3 & (Hs3 & shown & Hshown & ->)%IH & [-> ->]%st_ret_ok); [|done..].
  split; [done|]. exists (v :: shown). split; [|by destruct v]. constructor; [|done]. by exists hash, time.
Qed.
Lemma unconfirmed_utxos_ok spent outputs s values s' :
  rest_ok s → unconfirmed_utxos spent outputs s = (Ok values, s') →
  rest_ok s' ∧ ∃ shown, Forall2 unconfirmed_utxo (filter (λ o : OutPoint * Z, o.1 ∉ spent) outputs) shown ∧
    values = omap id shown.
Proof using UL.
  revert s values s'. induction outputs as [|[o amount] outputs IH]; intros s values s' Hs;
    cbn [unconfirmed_utxos].
  { intros [-> ->]%st_ret_ok. split; [done|]. by exists []. }
  rewrite filter_cons. case_bool_decide as Hu; [rewrite decide_False by auto; by apply IH|].
  rewrite decide_True by done. intros (v & s1 & [Hs1 Hv]%read_utxo_value_ok & Hr)%st_bind_ok; [|done].
  apply st_bind_ok in Hr as (rest & s3 & (Hs3 & shown & Hshown & ->)%IH & [-> ->]%st_ret_ok); [|done].
  split; [done|]. exists (v :: shown). split; [by constructor|by destruct v].
Qed.

Lemma history_of_ok sh deadline s h s' :
  (∀ c bs, I c → chain_inv (W := W) c bs → consensus_valid (W := W) bs (rev (esh_bytes sh))) →
  esh_wf sh → rest_ok s →
  history_of (F := F) adapter_error_text interfere clock sh deadline s = (Ok h, s') →
  rest_ok s' ∧ ∃ c bs l, I c ∧ chain_inv (W := W) c bs ∧
    script_txs (W := W) bs (rev (esh_bytes sh)) txnum_default l ∧ history_spec sh l h.
Proof using Hother HI HSL HXL STL VIL SLL RL NL.
  intros Hcv Hsh Hs Hh%on_chain_ok. by apply (script_history_ok interfere _ I Hother) in Hh.
Qed.

Lemma spent_in_spec m l o : o ∈ l → o ∉ spent_in m l ↔ spender m o = None.
Proof using.
  intros Ho. unfold spent_in. rewrite elem_of_list_to_set, list_elem_of_filter, eq_None_not_Some. tauto.
Qed.
Lemma filter_unspent {A} (f : A → OutPoint) m (l : list A) outs :
  (∀ x, x ∈ l → f x ∈ outs) →
  filter (λ x, f x ∉ spent_in m outs) l = filter (λ x, spender m (f x) = None) l.
Proof using.
  induction l as [|x l IH]; intros Hin; [done|]. rewrite !filter_cons.
  rewrite IH by (intros; apply Hin; by right).
  assert (f x ∉ spent_in m outs ↔ spender m (f x) = None) as Hiff by (apply spent_in_spec, Hin; by left).
  destruct (decide (spender m (f x) = None)); [rewrite decide_True by tauto|rewrite decide_False by tauto]; done.
Qed.

Context (config : RestConfig).

Lemma utxo_route_ok key deadline s response s' :
  (∀ c bs sh, I c → chain_inv (W := W) c bs → consensus_valid (W := W) bs (rev (esh_bytes sh))) →
  rest_ok s → utxo_route config adapter_error_text interfere mempool_at clock key deadline s = (Ok response, s') →
  rest_ok s' ∧ ∃ sh h c bs l k confirmed unconfirmed, key_electrum key = Ok sh ∧ I c ∧ chain_inv (W := W) c bs ∧
    script_txs (W := W) bs (rev (esh_bytes sh)) txnum_default l ∧ history_spec sh l h ∧
    peak_live_utxos h ≤ rc_utxos_limit config ∧
    Forall2 confirmed_utxo
      (filter (λ u, spender (mempool_at k) (su_outpoint u) = None) (sh_utxos h)) confirmed ∧
    Forall2 unconfirmed_utxo
      (filter (λ o : OutPoint * Z, spender (mempool_at k) o.1 = None) (outputs_of (mempool_at k) sh))
      unconfirmed ∧
    response = response_json (json_to_string (JArray (format_utxo_json <$>
      omap id confirmed ++ omap id unconfirmed))) (Some TTL_SHORT).
Proof using Hother HI HSL HXL STL VIL SLL RL NL BL UL.
  intros Hcv Hs (sh & s1 & [Hsh ->]%st_lift_ok & Hr)%st_bind_ok.
  pose proof (key_electrum_wf _ _ Hsh) as Hwf.
  apply st_bind_ok in Hr as (h & s2 & Hh & Hr).
  apply history_of_ok in Hh as (Hs2 & c & bs & l & Hc & Hinv & Hl & Hspec); [|intros ?? Hc Hi; by apply (Hcv _ _ sh Hc Hi)|done..].
  destruct (Z.ltb_spec (rc_utxos_limit config) (peak_live_utxos h)) as [|Hlim]; [done|].
  apply st_bind_ok in Hr as (m & s3 & [Hs3 [k ->]]%mempool_read_ok & Hr); [|done].
  apply st_bind_ok in Hr as (cs & s4 & (Hs4 & confirmed & Hconf & ->)%confirmed_utxos_ok & Hr); [|done..].
  apply st_bind_ok in Hr as (us & s5 & (Hs5 & unconfirmed & Hun & ->)%unconfirmed_utxos_ok & Hr); [|done..].
  injection Hr as <- <-. split; [done|]. exists sh, h, c, bs, l, k, confirmed, unconfirmed.
  rewrite filter_unspent in Hconf
    by (intros u Hu; apply elem_of_app; left; apply list_elem_of_fmap; eauto).
  rewrite (filter_unspent fst) in Hun
    by (intros u Hu; apply elem_of_app; right; apply list_elem_of_fmap; eauto).
  split_and!; done.
Qed.
End spec.

(** ** The Bitcoin build *)

Section bitcoin.
Context {S W F : Type} `{HS : !Hashes, HX : !Hex, HT : !HashText,
  ST : !ScriptHashText, TT : !TxidText, TP : !TxidParse,
  BT : !BlockHashText, SO : !ScriptOps, VI : !VarInt, SL : !Slices,
  CS : !Consensus, RD : !RocksDB S, HA : !HttpAgent W,
  RA : !RpcAgent W, FS : !Files, JT : !JsonText, JF : !JsonFloats, SD : !Serde,
  MS : !Millis F, TX : !Transactions, SC : !Scripts, TR : !TxOutReader}.
Context (adapter_error_text : adapter_error slices_error → str) (corerest_error_text : corerest_error → str).
Context (interfere : nat → Adapter S → Adapter S).
Context (I : IndexedChain S → Prop)
  (Hother : ∀ n a, adapter_ok (W := W) I a → adapter_ok (W := W) I (interfere n a)).

(** The time of the block at a height, in a chain the adapter had. *)
Definition bitcoin_time_at (height time : Z) : Prop :=
  ∃ c raw, I c ∧ block_header_raw_at_height c height = Ok (Some raw) ∧
    header_time raw = Some time.

Lemma block_time_ok height s time s' :
  rest_ok (F := F) I s → block_time adapter_error_text interfere height s = (Ok time, s') →
  rest_ok (F := F) I s' ∧ bitcoin_time_at height time.
Proof using Hother.
  intros Hs (header & s1 & Hh%on_chain_ok & Hr)%st_bind_ok.
  apply st_lift_ok in Hr as [Hr%ok_or_ok ->].
  apply st_bind_ok in Hh as (raw & w1 & Hraw & Hh).
  apply st_bind_ok in Hraw as (c & w2 & [Hw Hc]%(read_chain_ok interfere I Hother) & Hraw); [|done].
  apply raw_header_at_stored in Hraw as [Hraw ->].
  destruct raw as [raw|]; [|by apply st_ret_ok in Hh as [-> _]].
  apply st_bind_ok in Hh as (t & w3 & [Ht%ok_or_ok ->]%st_lift_ok & [-> Hw']%st_ret_ok).
  injection Hr as <-. unfold rest_ok. rewrite Hw'. split; [done|]. by exists c, raw.
Qed.

(** An unspent output is answered with its amount. *)
Definition bitcoin_utxo (o : OutPoint) (status : TransactionStatus) (value : Z) (v : option UtxoValue) : Prop :=
  v = Some (utxo_value o status value).

Lemma bitcoin_block_times :
  BlockTimes S W F (FO := bitcoin_format) (FR := bitcoin_reads adapter_error_text corerest_error_text interfere)
    (rest_ok I) bitcoin_time_at.
Proof using Hother. intros height s time s'. apply block_time_ok. Qed.
Lemma bitcoin_utxo_values :
  UtxoValues S W F (FO := bitcoin_format) (FR := bitcoin_reads adapter_error_text corerest_error_text interfere)
    (rest_ok I) bitcoin_utxo.
Proof using Type. by intros o status value s v s' Hs [-> ->]%st_ret_ok. Qed.

Definition confirmed_bitcoin_utxo (u : ScriptUtxo) (v : UtxoValue) : Prop :=
  ∃ hash time, block_at I (su_height u) hash ∧ bitcoin_time_at (su_height u) time ∧
    v = utxo_value (su_outpoint u) (status_confirmed (su_height u) hash time) (su_value u).
Lemma shown_confirmed us vs :
  Forall2 (confirmed_utxo (FO := bitcoin_format) I bitcoin_time_at bitcoin_utxo) us vs →
  Forall2 confirmed_bitcoin_utxo us (omap id vs).
Proof using Type.
  induction 1 as [|u v us vs (hash & time & Hb & Ht & ->) _ IH]; constructor; [|done]. by exists hash, time.
Qed.
Lemma shown_unconfirmed us vs :
  Forall2 (unconfirmed_utxo (FO := bitcoin_format) bitcoin_utxo) us vs →
  omap id vs = (λ o : OutPoint * Z, utxo_value o.1 status_unconfirmed o.2) <$> us.
Proof using Type. induction 1 as [|o v us vs -> _ IH]; [done|]. cbn. by rewrite <-IH. Qed.
End bitcoin.
