(* ===== verification/LiquidTypes.v ===== *)
(** * The REST API on Liquid: response shapes

    [bindex-electrum/src/rest/liquid_types.rs] and the [liquid] half of
    [rest/format.rs], compiled under the [liquid] feature. What [rust-elements]
    and [rust-bitcoin] compute of scripts, assets and issuances are parameters. *)

From S2P Require Import Prelude External Text Utf8 Index Fmt Headers Client Chain LiquidIndex.
From S2P Require Import Protocol Mempool Adapter Bitcoind Server RestTypes.

(** ** Parameters *)

#[export] Instance network_eq_dec : EqDecision network.
Proof. solve_decision. Defined.

Inductive address_params := LIQUID | LIQUID_TESTNET | ELEMENTS.

Record PegoutData := { pg_asset : confidential_asset; pg_genesis_hash : hash32; pg_script : bytes }.

(** A header: its time, and its extension data as JSON. *)
Record elements_header := { eh_time : Z; eh_ext : str + json }.

(** An instruction of a script: a push, an opcode, or what cannot be read. *)
Inductive script_instr := InstrPush (data : bytes) | InstrOp (opcode : Z) | InstrError.

Class ElementsScripts := {
  els_asm : bytes → str;
  els_is_p2pk : bytes → bool; els_is_p2pkh : bytes → bool; els_is_p2sh : bytes → bool;
  els_is_v0_p2wpkh : bytes → bool; els_is_v0_p2wsh : bytes → bool; els_is_v1_p2tr : bytes → bool;
  els_is_witness_program : bytes → bool; els_is_provably_unspendable : bytes → bool;
  els_instructions : bytes → list script_instr;
  btc_instructions : bytes → list script_instr;
  els_address : bytes → address_params → option str;
  els_address_parse : str → address_params → str + bytes;   (* its script *)
}.
Class ElementsTxs := {
  elt_decode : bytes → str + elements_tx;
  elt_decode_block : bytes → str + list elements_tx;
  elt_is_coinbase : elements_tx → bool;
  elt_size : elements_tx → Z;
  elt_fee_in : elements_tx → hash32 → Z;
  eli_is_coinbase : elements_txin → bool;
  eli_has_issuance : elements_txin → bool;
  elo_is_fee : elements_txout → bool;
  elo_pegout_data : elements_txout → option PegoutData;
  serialize_value : confidential_value → bytes;
  serialize_asset : confidential_asset → bytes;
  serialize_nonce : confidential_nonce → bytes;
  ZERO_TWEAK : bytes;
  generate_asset_entropy : OutPoint → bytes → bytes;   (* of a contract hash *)
  asset_from_entropy : bytes → hash32;
  asset_to_string : hash32 → str;
  asset_from_str : str → option hash32;
  midstate_to_string : bytes → str;
  contract_hash_to_string : bytes → str;
  genesis_block_hash : network → hash32;
  elh_deserialize : bytes → str + elements_header;
}.
(** Fee outputs are explicit outputs with an empty script. *)
Class ElementsTxsLaws `{ElementsTxs} := {
  elo_is_fee_ok o : elo_is_fee o = true ↔
    eo_script o = [] ∧ (∃ v, eo_value o = ValueExplicit v) ∧ ∃ a, eo_asset o = AssetExplicit a;
}.

(** ** [format.rs] *)

Record Params := {
  par_address : address_params; par_parent : network; par_parent_genesis : hash32;
  par_policy_asset : hash32; par_pegouts : bool;
}.

Definition INITIAL_ISSUANCE_PREVOUTS : list str :=
  [lit "50cdc410c9d0d61eeacc531f52d2c70af741da33af127c364e52ac1ee7c030a5";
   lit "0c52d2526a5c9f00e9fb74afd15dd3caaf17c823159a514f929ae25193a43a52"].

Section format.
Context `{EL : !Elements, ES : !ElementsScripts, ET : !ElementsTxs, TT : !TxidText}.

(** The network is the parent chain; [Err] carries its name. *)
Definition liquid_params (network : network) : outcome string Params :=
  '(address, policy_asset) ← match network with
    | NetBitcoin =>
        Ok (LIQUID, lit "6f0279e9ed041c3d710a9f57d0c02928416460c4b722ae3457a11eec381c526d")
    | NetTestnet | NetTestnet4 =>
        Ok (LIQUID_TESTNET, lit "144c654344aa716d6f3abcc1ca90e5641e4e2a7f633bc09fe3baf64585819a49")
    | NetRegtest =>
        Ok (ELEMENTS, lit "5ac9f65c0efcc4775e0baec4ec03abdde22473cd3cf33c0419ca290e0751b225")
    | other => Err (network_to_string other)
    end;
  policy_asset ← expect "valid asset id" (asset_from_str policy_asset);
  mret {| par_address := address; par_parent := network; par_parent_genesis := genesis_block_hash network;
          par_policy_asset := policy_asset; par_pegouts := bool_decide (network = NetBitcoin) |}.

Definition liquid_decode_tx (raw : bytes) : outcome str elements_tx :=
  match elt_decode raw with inr tx => Ok tx | inl e => Err e end.
Definition liquid_decode_block_txs (raw : bytes) : outcome str (list elements_tx) :=
  match elt_decode_block raw with inr txs => Ok txs | inl e => Err e end.
Definition has_prevout (i : elements_txin) : bool :=
  if eli_is_coinbase i || ei_is_pegin i then false
  else negb (bool_decide (txid_to_string (op_txid (ei_prevout i)) ∈ INITIAL_ISSUANCE_PREVOUTS)).
Definition liquid_prevout_outpoints (tx : elements_tx) : list (option OutPoint) :=
  (λ i, if has_prevout i then Some (ei_prevout i) else None) <$> et_inputs tx.
Definition liquid_output_count (tx : elements_tx) : nat := length (et_outputs tx).
Definition liquid_output (tx : elements_tx) (vout : Z) : option elements_txout :=
  et_outputs tx !! Z.to_nat vout.
Definition liquid_is_unspendable (o : elements_txout) : bool :=
  bool_decide (eo_script o = []) || els_is_provably_unspendable (eo_script o).
Definition liquid_spending_input (tx : elements_tx) (outpoint : OutPoint) : option Z :=
  (λ index, wrap32 (Z.of_nat index)) <$>
    position (λ i, negb (ei_is_pegin i) && bool_decide (ei_prevout i = outpoint)) (et_inputs tx).
End format.

(** ** Outputs *)

Record PegoutValue := {
  pv_genesis_hash : str; pv_scriptpubkey : str; pv_asm : str; pv_address : option str;
}.
Record LiquidTxOutValue := {
  lo_scriptpubkey : str; lo_asm : str; lo_type : str; lo_address : option str;
  lo_value : option Z; lo_valuecommitment : option str; lo_asset : option str;
  lo_assetcommitment : option str; lo_pegout : option PegoutValue;
}.
Record IssuanceValue := {
  iss_asset_id : str; iss_is_reissuance : bool; iss_blinding_nonce : option str;
  iss_contract_hash : option str; iss_entropy : str;
  iss_assetamount : option Z; iss_assetamountcommitment : option str;
  iss_tokenamount : option Z; iss_tokenamountcommitment : option str;
}.
Record LiquidTxInValue := {
  li_txid : str; li_vout : Z; li_prevout : option LiquidTxOutValue; li_scriptsig : str;
  li_scriptsig_asm : str; li_witness : option (list str); li_is_coinbase : bool; li_sequence : Z;
  li_inner_redeemscript_asm : option str; li_inner_witnessscript_asm : option str;
  li_is_pegin : bool; li_issuance : option IssuanceValue;
}.
Record LiquidTransactionValue := {
  lt_txid : str; lt_version : Z; lt_locktime : Z; lt_vin : list LiquidTxInValue;
  lt_vout : list LiquidTxOutValue; lt_size : Z; lt_weight : Z; lt_sigops : Z; lt_fee : Z;
  lt_status : TransactionStatus;
}.
Record LiquidUtxoValue := {
  lu_txid : str; lu_vout : Z; lu_status : TransactionStatus;
  lu_value : option Z; lu_valuecommitment : option str; lu_asset : option str;
  lu_assetcommitment : option str; lu_nonce : option str; lu_noncecommitment : option str;
}.

(** [OP_M … OP_N OP_CHECKMULTISIG], public keys unchecked. *)
Definition OP_PUSHNUM_1 : Z := 81.
Definition OP_PUSHNUM_15 : Z := 95.
Definition OP_CHECKSIG : Z := 172.
Definition OP_CHECKSIGVERIFY : Z := 173.
Definition OP_CHECKMULTISIG : Z := 174.
Definition OP_CHECKMULTISIGVERIFY : Z := 175.
Definition is_bare_multisig (b : bytes) : bool :=
  let len := length b in
  let byte i := default 0 (b !! i) in
  bool_decide (37 ≤ len)%nat && (byte (len - 1)%nat =? OP_CHECKMULTISIG) &&
  (OP_PUSHNUM_1 <=? byte (len - 2)%nat) && (byte (len - 2)%nat <=? OP_PUSHNUM_15) &&
  (OP_PUSHNUM_1 <=? byte 0%nat) && (byte 0%nat <=? byte (len - 2)%nat).

Section values.
Context `{EL : !Elements, ES : !ElementsScripts, ET : !ElementsTxs, HX : !Hex, TT : !TxidText,
  BT : !BlockHashText, SC : !Scripts}.

Definition value_commitment (v : confidential_value) : option str :=
  match v with ValueConfidential _ => Some (hex_encode (serialize_value v)) | _ => None end.
Definition explicit_asset (a : confidential_asset) : option str :=
  match a with AssetExplicit id => Some (asset_to_string id) | _ => None end.
Definition asset_commitment (a : confidential_asset) : option str :=
  match a with AssetConfidential _ => Some (hex_encode (serialize_asset a)) | _ => None end.
Definition liquid_script_address (script : bytes) (params : Params) : option str :=
  els_address script (par_address params).

Definition liquid_script_type (o : elements_txout) : str :=
  let script := eo_script o in
  if elo_is_fee o then lit "fee"
  else if bool_decide (script = []) then lit "empty"
  else if els_is_provably_unspendable script then lit "op_return"
  else if els_is_p2pk script then lit "p2pk"
  else if els_is_p2pkh script then lit "p2pkh"
  else if els_is_p2sh script then lit "p2sh"
  else if els_is_v0_p2wpkh script then lit "v0_p2wpkh"
  else if els_is_v0_p2wsh script then lit "v0_p2wsh"
  else if els_is_v1_p2tr script then lit "v1_p2tr"
  else if bool_decide (script = ANCHOR_SCRIPT) then lit "anchor"
  else if is_bare_multisig script then lit "multisig"
  else lit "unknown".

Definition pegout_from_txout (o : elements_txout) (params : Params) : option PegoutValue :=
  if negb (par_pegouts params) then None
  else
    pegout ← elo_pegout_data o;
    if bool_decide (pg_asset pegout ≠ AssetExplicit (par_policy_asset params)) ||
       bool_decide (pg_genesis_hash pegout ≠ par_parent_genesis params)
    then None
    else
      let script := pg_script pegout in
      Some {| pv_genesis_hash := block_hash_to_string (pg_genesis_hash pegout);
              pv_scriptpubkey := hex_encode script; pv_asm := to_asm_string script;
              pv_address := address_from_script script (par_parent params) |}.

Definition liquid_txout_value (o : elements_txout) (params : Params) : LiquidTxOutValue :=
  let script := eo_script o in
  {| lo_scriptpubkey := hex_encode script; lo_asm := els_asm script; lo_type := liquid_script_type o;
     lo_address := liquid_script_address script params; lo_value := explicit_value (eo_value o);
     lo_valuecommitment := value_commitment (eo_value o); lo_asset := explicit_asset (eo_asset o);
     lo_assetcommitment := asset_commitment (eo_asset o); lo_pegout := pegout_from_txout o params |}.

(** ** Inputs *)

Definition issuance_amount (v : confidential_value) : option Z :=
  match v with ValueExplicit amount => Some amount | ValueNull => Some 0 | ValueConfidential _ => None end.
Definition issuance_value (i : elements_txin) : IssuanceValue :=
  let issuance := ei_issuance i in
  let is_reissuance := negb (bool_decide (is_blinding_nonce issuance = ZERO_TWEAK)) in
  let entropy := if is_reissuance then is_entropy issuance
                 else generate_asset_entropy (ei_prevout i) (is_entropy issuance) in
  {| iss_asset_id := asset_to_string (asset_from_entropy entropy);
     iss_is_reissuance := is_reissuance;
     iss_blinding_nonce := if is_reissuance then Some (hex_encode (is_blinding_nonce issuance)) else None;
     iss_contract_hash := if negb is_reissuance
                          then Some (contract_hash_to_string (is_entropy issuance)) else None;
     iss_entropy := midstate_to_string entropy;
     iss_assetamount := issuance_amount (is_amount issuance);
     iss_assetamountcommitment := value_commitment (is_amount issuance);
     iss_tokenamount := issuance_amount (is_inflation_keys issuance);
     iss_tokenamountcommitment := value_commitment (is_inflation_keys issuance) |}.

(** [instructions().last()], when it is a push. *)
Definition last_instr_push (script : list script_instr) : option bytes :=
  match last script with Some (InstrPush data) => Some data | _ => None end.

Definition liquid_witness_script (i : elements_txin) (prevout : elements_txout) (redeem : option bytes)
    : option bytes :=
  let witness := ei_script_witness i in
  let script := eo_script prevout in
  let wants_witness_script := els_is_v0_p2wsh script || els_is_v1_p2tr script ||
                              from_option els_is_v0_p2wsh false redeem in
  if negb wants_witness_script then None
  else if els_is_v1_p2tr script then
    let len := length witness in
    last ← last witness;
    let from_last := if bool_decide (2 ≤ len)%nat && bool_decide (head last = Some 80)
                     then 3%nat else 2%nat in
    if bool_decide (from_last ≤ len)%nat then witness !! (len - from_last)%nat else None
  else last witness.
Definition liquid_inner_scripts (i : elements_txin) (prevout : elements_txout)
    : option str * option str :=
  let redeem := if els_is_p2sh (eo_script prevout)
                then last_instr_push (els_instructions (ei_script_sig i)) else None in
  (els_asm <$> redeem, els_asm <$> liquid_witness_script i prevout redeem).

Definition liquid_txin_value (i : elements_txin) (prevout : option elements_txout) (params : Params)
    : LiquidTxInValue :=
  let '(inner_redeemscript_asm, inner_witnessscript_asm) :=
    match prevout with Some prevout => liquid_inner_scripts i prevout | None => (None, None) end in
  {| li_txid := txid_to_string (op_txid (ei_prevout i)); li_vout := op_vout (ei_prevout i);
     li_prevout := (λ o, liquid_txout_value o params) <$> prevout;
     li_scriptsig := hex_encode (ei_script_sig i); li_scriptsig_asm := els_asm (ei_script_sig i);
     li_witness := match ei_script_witness i with [] => None | w => Some (hex_encode <$> w) end;
     li_is_coinbase := eli_is_coinbase i; li_sequence := ei_sequence i;
     li_inner_redeemscript_asm := inner_redeemscript_asm;
     li_inner_witnessscript_asm := inner_witnessscript_asm; li_is_pegin := ei_is_pegin i;
     li_issuance := if eli_has_issuance i then Some (issuance_value i) else None |}.

(** ** Signature operations *)

(** The loop of [count_sigops], with the count so far and the last number pushed. *)
Definition sigop_step (accurate : bool) (acc : Z * option Z) (instr : script_instr) : Z * option Z :=
  let '(n, pushnum) := acc in
  match instr with
  | InstrOp op =>
      if (op =? OP_CHECKSIG) || (op =? OP_CHECKSIGVERIFY) then (n + 1, pushnum)
      else if (op =? OP_CHECKMULTISIG) || (op =? OP_CHECKMULTISIGVERIFY) then
        (n + match accurate, pushnum with true, Some keys => keys | _, _ => 20 end, pushnum)
      else (n, if (81 <=? op) && (op <=? 96) then Some (op - 80) else None)
  | _ => (n, None)
  end.
Definition count_sigops (script : bytes) (accurate : bool) : Z :=
  (foldl (sigop_step accurate) (0, None) (btc_instructions script)).1.

Definition is_push (i : script_instr) : bool := match i with InstrPush _ => true | _ => false end.
Definition witness_sigops (i : elements_txin) (prevout : elements_txout) : Z :=
  let script_sig := ei_script_sig i in
  let instrs := btc_instructions script_sig in
  let program :=
    if els_is_witness_program (eo_script prevout) then Some (eo_script prevout)
    else if els_is_p2sh (eo_script prevout) && negb (bool_decide (script_sig = [])) && forallb is_push instrs
    then last_instr_push instrs
    else None in
  match program with
  | None => 0
  | Some script =>
      if els_is_v0_p2wsh script then from_option (λ s, count_sigops s true) 0 (last (ei_script_witness i))
      else if els_is_v0_p2wpkh script then 1
      else 0
  end.

Definition p2sh_sigops (i : elements_txin) (prevout : elements_txout) : Z :=
  if els_is_p2sh (eo_script prevout) then
    from_option (λ redeem, count_sigops redeem true * 4) 0 (last_instr_push (els_instructions (ei_script_sig i)))
  else 0.
Definition legacy_sigops (tx : elements_tx) : Z :=
  sumZ ((λ i, count_sigops (ei_script_sig i) false) <$> et_inputs tx) +
  sumZ ((λ o, count_sigops (eo_script o) false) <$> et_outputs tx).
Definition sigop_cost (tx : elements_tx) (prevouts : list (option elements_txout)) : Z :=
  let cost := legacy_sigops tx * 4 in
  if elt_is_coinbase tx || existsb ei_is_pegin (et_inputs tx) then cost
  else match mapM id prevouts with
  | None => cost
  | Some prevouts =>
      if bool_decide (length prevouts ≠ length (et_inputs tx)) then cost
      else
        let pairs := zip (et_inputs tx) prevouts in
        cost + sumZ ((λ p, p2sh_sigops p.1 p.2) <$> pairs) + sumZ ((λ p, witness_sigops p.1 p.2) <$> pairs)
  end.

(** ** Transactions, blocks, unspent outputs *)

Definition liquid_transaction_value (tx : elements_tx) (prevouts : list (option elements_txout))
    (status : TransactionStatus) (params : Params) : LiquidTransactionValue :=
  {| lt_txid := txid_to_string (el_txid tx); lt_version := et_version tx; lt_locktime := et_locktime tx;
     lt_vin := imap (λ index i, liquid_txin_value i (default None (prevouts !! index)) params) (et_inputs tx);
     lt_vout := (λ o, liquid_txout_value o params) <$> et_outputs tx;
     lt_size := elt_size tx; lt_weight := el_weight tx; lt_sigops := sigop_cost tx prevouts;
     lt_fee := elt_fee_in tx (par_policy_asset params); lt_status := status |}.

Definition liquid_utxo_value (outpoint : OutPoint) (status : TransactionStatus) (o : elements_txout)
    : LiquidUtxoValue :=
  {| lu_txid := txid_to_string (op_txid outpoint); lu_vout := op_vout outpoint; lu_status := status;
     lu_value := explicit_value (eo_value o); lu_valuecommitment := value_commitment (eo_value o);
     lu_asset := explicit_asset (eo_asset o); lu_assetcommitment := asset_commitment (eo_asset o);
     lu_nonce := match eo_nonce o with NonceExplicit nonce => Some (hex_encode nonce) | _ => None end;
     lu_noncecommitment := match eo_nonce o with
                           | NonceConfidential _ => Some (hex_encode (serialize_nonce (eo_nonce o)))
                           | _ => None
                           end |}.

Record LiquidBlockValue := {
  lb_id : str; lb_height : Z; lb_version : Z; lb_timestamp : Z; lb_tx_count : Z; lb_size : Z;
  lb_weight : Z; lb_merkle_root : str; lb_previousblockhash : option str; lb_mediantime : Z;
  lb_ext : option json;
}.
Definition liquid_from_core_json (v : json) : option LiquidBlockValue :=
  id ← get_str v "hash";
  height ← get_u32 v "height";
  version ← get_u32 v "version";
  timestamp ← get_u32 v "time";
  tx_count ← get_u32 v "nTx";
  size ← get_u32 v "size";
  weight ← get_u64 v "weight";
  merkle_root ← get_str v "merkleroot";
  let previousblockhash := get_str v "previousblockhash" in
  mediantime ← get_u32 v "mediantime";
  Some {| lb_id := id; lb_height := height; lb_version := version; lb_timestamp := timestamp;
          lb_tx_count := tx_count; lb_size := size; lb_weight := weight; lb_merkle_root := merkle_root;
          lb_previousblockhash := previousblockhash; lb_mediantime := mediantime; lb_ext := None |}.
Definition header_ext (raw_header : bytes) : outcome str json :=
  match elh_deserialize raw_header with
  | inr header => match eh_ext header with inr ext => Ok ext | inl e => Err e end
  | inl e => Err e
  end.
Definition liquid_header_time (raw_header : bytes) : outcome str Z :=
  match elh_deserialize raw_header with inr header => Ok (eh_time header) | inl e => Err e end.

(** The sums are accepted and dropped. *)
Record LiquidScriptStats := { ls_funded_count : Z; ls_spent_count : Z; ls_tx_count : Z }.
Definition liquid_script_stats_new (tx_count funded_txo_count spent_txo_count : Z)
    (_funded_txo_sum _spent_txo_sum : Z) : LiquidScriptStats :=
  {| ls_funded_count := funded_txo_count; ls_spent_count := spent_txo_count; ls_tx_count := tx_count |}.
Definition liquid_summary_value (_funded _spent : Z) : Z := 0.
End values.

(** ** As JSON *)

Definition pegout_value_json (p : PegoutValue) : json :=
  JObject ([jstr "genesis_hash" (pv_genesis_hash p); jstr "scriptpubkey" (pv_scriptpubkey p);
            jstr "scriptpubkey_asm" (pv_asm p)] ++ jopt "scriptpubkey_address" (JString <$> pv_address p)).
Definition liquid_txout_value_json (o : LiquidTxOutValue) : json :=
  JObject ([jstr "scriptpubkey" (lo_scriptpubkey o); jstr "scriptpubkey_asm" (lo_asm o);
            jstr "scriptpubkey_type" (lo_type o)] ++
           jopt "scriptpubkey_address" (JString <$> lo_address o) ++
           jopt "value" (JNumber <$> lo_value o) ++
           jopt "valuecommitment" (JString <$> lo_valuecommitment o) ++
           jopt "asset" (JString <$> lo_asset o) ++
           jopt "assetcommitment" (JString <$> lo_assetcommitment o) ++
           jopt "pegout" (pegout_value_json <$> lo_pegout o)).
Definition issuance_value_json (i : IssuanceValue) : json :=
  JObject ([jstr "asset_id" (iss_asset_id i); jfield "is_reissuance" (JBool (iss_is_reissuance i))] ++
           jopt "asset_blinding_nonce" (JString <$> iss_blinding_nonce i) ++
           jopt "contract_hash" (JString <$> iss_contract_hash i) ++
           [jstr "asset_entropy" (iss_entropy i)] ++
           jopt "assetamount" (JNumber <$> iss_assetamount i) ++
           jopt "assetamountcommitment" (JString <$> iss_assetamountcommitment i) ++
           jopt "tokenamount" (JNumber <$> iss_tokenamount i) ++
           jopt "tokenamountcommitment" (JString <$> iss_tokenamountcommitment i)).
Definition liquid_txin_value_json (i : LiquidTxInValue) : json :=
  JObject ([jstr "txid" (li_txid i); jnum "vout" (li_vout i);
            jnullable "prevout" (liquid_txout_value_json <$> li_prevout i);
            jstr "scriptsig" (li_scriptsig i); jstr "scriptsig_asm" (li_scriptsig_asm i)] ++
           jopt "witness" ((λ w, JArray (JString <$> w)) <$> li_witness i) ++
           [jfield "is_coinbase" (JBool (li_is_coinbase i)); jnum "sequence" (li_sequence i)] ++
           jopt "inner_redeemscript_asm" (JString <$> li_inner_redeemscript_asm i) ++
           jopt "inner_witnessscript_asm" (JString <$> li_inner_witnessscript_asm i) ++
           [jfield "is_pegin" (JBool (li_is_pegin i))] ++
           jopt "issuance" (issuance_value_json <$> li_issuance i)).
Definition liquid_transaction_value_json (t : LiquidTransactionValue) : json :=
  JObject [jstr "txid" (lt_txid t); jnum "version" (lt_version t); jnum "locktime" (lt_locktime t);
           jfield "vin" (JArray (liquid_txin_value_json <$> lt_vin t));
           jfield "vout" (JArray (liquid_txout_value_json <$> lt_vout t));
           jnum "size" (lt_size t); jnum "weight" (lt_weight t); jnum "sigops" (lt_sigops t);
           jnum "fee" (lt_fee t); jfield "status" (status_value_json (lt_status t))].
Definition liquid_block_value_json (b : LiquidBlockValue) : json :=
  JObject ([jstr "id" (lb_id b); jnum "height" (lb_height b); jnum "version" (lb_version b);
            jnum "timestamp" (lb_timestamp b); jnum "tx_count" (lb_tx_count b);
            jnum "size" (lb_size b); jnum "weight" (lb_weight b); jstr "merkle_root" (lb_merkle_root b);
            jnullable "previousblockhash" (JString <$> lb_previousblockhash b);
            jnum "mediantime" (lb_mediantime b)] ++ jopt "ext" (lb_ext b)).
Definition liquid_utxo_value_json (u : LiquidUtxoValue) : json :=
  JObject ([jstr "txid" (lu_txid u); jnum "vout" (lu_vout u);
            jfield "status" (status_value_json (lu_status u))] ++
           jopt "value" (JNumber <$> lu_value u) ++
           jopt "valuecommitment" (JString <$> lu_valuecommitment u) ++
           jopt "asset" (JString <$> lu_asset u) ++
           jopt "assetcommitment" (JString <$> lu_assetcommitment u) ++
           jopt "nonce" (JString <$> lu_nonce u) ++
           jopt "noncecommitment" (JString <$> lu_noncecommitment u)).
Definition liquid_script_stats_json (s : LiquidScriptStats) : json :=
  JObject [jnum "funded_txo_count" (ls_funded_count s); jnum "spent_txo_count" (ls_spent_count s);
           jnum "tx_count" (ls_tx_count s)].
(** The value, mostly blinded, is not reported. *)
Definition liquid_recent_tx_json (r : RecentTx) : json :=
  JObject [jstr "txid" (rt_txid r); jnum "fee" (rt_fee r); jnum "vsize" (rt_vsize r)].
