(* ===== verification/LiquidRest.v ===== *)
(** * The REST API on Liquid: data access

    What the [liquid] feature adds to [bindex-electrum/src/corerest.rs],
    [bitcoind.rs], [rest/query.rs] and [rest/address.rs]: reads over the node's
    RPC interface, and prevouts taken from funding transactions;
    [rest/assets.rs], the routes forwarded to an upstream server; and the
    interfaces of [RestQuery] implemented with them, so that the routes of
    [RestHandlers] are those of the Liquid build too. *)

From S2P Require Import Prelude External Text Utf8 Index Fmt Headers Batch Store Client Chain LiquidIndex.
From S2P Require Import Merkle Protocol Mempool CoreRest ScriptFold Adapter TorPush Config Bitcoind.
From S2P Require Import Monitor Server Deadline Http RestTypes RestQuery RestAddress RestHandlers LiquidTypes.

(** ** Calls to the node *)

(** A POST whose status is not an error: the status, and the body as JSON. *)
Class RpcSyncAgent (W : Type) := {
  rpc_post_sync : W → option (str * str) → json → (rpc_error + Z * (rpc_error + json)) * W;
}.

(** [str::contains] *)
Fixpoint contains (needle s : str) : bool :=
  starts_with s needle || match s with [] => false | _ :: s => contains needle s end.

Section core.
Context {W : Type} `{HA : !HttpAgent W, RA : !RpcAgent W, RS : !RpcSyncAgent W, FS : !Files,
  JT : !JsonText, SD : !Serde, HX : !Hex, TT : !TxidText, BT : !BlockHashText}.
Context (rpc_error_text : rpc_error → str) (rpc : option RpcClient).

(** An error of the node is a value ([inl]). *)
Definition call_sync (self : RpcClient) (method : str) (params : json) : stM W rpc_error (json + json) :=
  creds ← st_lift (credentials self);
  '(status, body) ← (λ w, match rpc_post_sync w creds (rpc_request method params) with
                          | (inr r, w) => (Ok r, w) | (inl e, w) => (Err e, w) end);
  if status =? 401 then st_lift (Err (RpcAuth Refused))
  else
    response ← st_lift match body with inr v => Ok v | inl e => Err e end;
    match json_get response (lit "error") with
    | Some JNull | None =>
        result ← st_lift (ok_or (RpcFailed (lit "missing JSON-RPC result")) (json_get response (lit "result")));
        mret (inr result)
    | Some err => mret (inl err)
    end.

Definition core_failed (method err : str) : corerest_error := CoreRpc (method ++ lit ": " ++ err).
(** What an error of the node means: [-5], [-8] and a pruned block are not found. *)
Definition core_rpc_error (method : str) (err : json) : corerest_error :=
  let message := default [] (m ← json_get err (lit "message"); as_str m) in
  match c ← json_get err (lit "code"); as_i64_value c with
  | Some code =>
      if (code =? -5) || (code =? -8) then NotFound
      else if (code =? -1) && contains (lit "pruned") message then NotFound
      else core_failed method (json_to_string err)
  | None => core_failed method (json_to_string err)
  end.
(** [CoreRest::rpc]: [None] without an RPC client. *)
Definition core_rpc (method : str) (params : json) : stM W corerest_error (option json) :=
  match rpc with
  | None => mret None
  | Some rpc =>
      r ← st_try (call_sync rpc method params);
      match r with
      | inr (inr value) => mret (Some value)
      | inr (inl err) => st_lift (Err (core_rpc_error method err))
      | inl err => st_lift (Err (core_failed method (rpc_error_text err)))
      end
  end.

Definition liquid_block_json (hash : hash32) : stM W corerest_error json :=
  r ← core_rpc (lit "getblock") (JArray [JString (block_hash_to_string hash); JNumber 1]);
  match r with Some json => mret json | None => block_json hash end.
Definition liquid_tx_raw (id : hash32) : stM W corerest_error bytes :=
  r ← core_rpc (lit "getrawtransaction") (JArray [JString (txid_to_string id); JBool false]);
  match r with
  | Some hex =>
      hex ← st_lift (ok_or (Decode DecodeNonString) (as_str hex));
      st_lift (ok_or (Decode DecodeHex) (hex_decode hex))
  | None => tx_raw id
  end.
Definition liquid_mempool_contents : stM W corerest_error json :=
  r ← core_rpc (lit "getrawmempool") (JArray [JBool true]);
  match r with Some json => mret json | None => mempool_contents end.
End core.

(** ** [assets.rs] *)

(** What the upstream server answers: its status, headers that are text, and the
    body up to the limit. *)
Record UpstreamResponse := { up_status : Z; up_header : str → option str; up_body : str + bytes }.
Class Upstream (W : Type) := { upstream_get : W → str → option UpstreamResponse * W }.

Definition is_ascii_alphanumeric (b : Z) : bool :=
  ((48 <=? b) && (b <=? 57)) || ((65 <=? b) && (b <=? 90)) || ((97 <=? b) && (b <=? 122)).
Definition hex_upper (d : Z) : Z := if d <? 10 then 48 + d else 55 + d.

Definition is_plain (s : str) : bool :=
  negb (bool_decide (s = [])) && forallb (λ b, is_ascii_alphanumeric b || (b =? 95) || (b =? 45)) s.
Definition is_unreserved (b : Z) : bool :=
  is_ascii_alphanumeric b || bool_decide (b ∈ lit "-_.~").
Definition percent_encode (value : str) : str :=
  value ≫= λ byte, if is_unreserved byte then [byte] else [37; hex_upper (byte / 16); hex_upper (byte mod 16)].
Definition trim_end_slashes (s : str) : str := rev (drop_while (λ c, c =? 47) (rev s)).

Definition query_pairs (query : gmap str str) : list (str * str) :=
  sort_by bytes_le fst (map_to_list query).
Definition asset_url (upstream : str) (segments : list str) (query : gmap str str) : outcome HttpError str :=
  if negb (forallb is_plain segments) then Err (bad_request (lit "Invalid asset path"))
  else Ok (trim_end_slashes upstream ++ [47] ++ join_with 47 segments ++
           concat (imap (λ index p, (if bool_decide (index = 0%nat) then 63 else 38) ::
                                    percent_encode p.1 ++ 61 :: percent_encode p.2) (query_pairs query))).

Section assets.
Context {W : Type} `{UP : !Upstream W}.

Definition asset_content_type (header : option str) : str :=
  match header with
  | Some ct =>
      if starts_with ct (lit "application/json") then lit "application/json"
      else if starts_with ct (lit "application/octet-stream") then lit "application/octet-stream"
      else lit "text/plain"
  | None => lit "text/plain"
  end.
Definition asset_fetch (url : str) : stM W HttpError HttpResponse := λ w,
  match upstream_get w url with
  | (None, w) => (Err (http_error_new 503 (lit "asset upstream unavailable")), w)
  | (Some response, w) =>
      let passed name as_name := from_option (λ v, [(lit as_name, v)]) [] (up_header response (lit name)) in
      (match up_body response with
       | inr body =>
           Ok {| rs_status := up_status response;
                 rs_content_type := asset_content_type (up_header response (lit "content-type"));
                 rs_body := body; rs_cache_max_age := None;
                 rs_extra_headers := passed "x-total-results" "X-Total-Results" ++
                                     passed "cache-control" "Cache-Control" |}
       | inl err => Err (http_error_new 503 (lit "asset upstream body: " ++ err))
       end, w)
  end.
Definition asset_proxy (asset_upstream : option str) (request : HttpRequest) : stM W HttpError HttpResponse :=
  upstream ← st_lift (ok_or (not_found (lit "Asset id not found")) asset_upstream);
  url ← st_lift (asset_url upstream (segments request) (rq_query request));
  asset_fetch url.
End assets.

(** ** The format *)

Definition liquid_address_key `{ES : !ElementsScripts} (value : str) (params : Params)
    : outcome HttpError ScriptKey :=
  match els_address_parse value (par_address params) with
  | inr script => Ok (KeyAddress value script)
  | inl err => Err (bad_request err)
  end.

Definition liquid_format `{EL : !Elements, ES : !ElementsScripts, ET : !ElementsTxs, HX : !Hex,
    TT : !TxidText, BT : !BlockHashText, SC : !Scripts} : Format := {|
  format_Tx := elements_tx; format_TxOut := elements_txout; format_Params := Params;
  format_decode_tx := liquid_decode_tx; format_decode_block_txs := liquid_decode_block_txs;
  format_prevout_outpoints := liquid_prevout_outpoints; format_output_count := liquid_output_count;
  format_output := liquid_output; format_output_script := eo_script;
  format_is_unspendable := liquid_is_unspendable; format_spending_input := liquid_spending_input;
  format_address_key := liquid_address_key;
  format_TransactionValue := LiquidTransactionValue;
  format_transaction_value := liquid_transaction_value;
  format_tv_status := lt_status; format_transaction_json := liquid_transaction_value_json;
  format_BlockValue := LiquidBlockValue; format_from_core_json := liquid_from_core_json;
  format_block_json := liquid_block_value_json;
  format_UtxoValue := LiquidUtxoValue; format_utxo_json := liquid_utxo_value_json;
  format_ScriptStats := LiquidScriptStats; format_script_stats_new := liquid_script_stats_new;
  format_stats_json := liquid_script_stats_json; format_summary_value := liquid_summary_value;
  format_recent_json := liquid_recent_tx_json;
|}.

(** ** Reads *)

(** Raw headers are fetched, not stored: the adapter and the Electrum server of
    the Liquid build are those of [Adapter] and [Server] with these, and with the
    decoder [liquid_consensus]. *)
Definition fetched_headers {S W} `{HA : !HttpAgent W, EL : !Elements, SL : !Slices} : RawHeaders S W :=
  liquid_block_headers_raw.

Section query.
Context {S W F : Type} `{HS : !Hashes, HX : !Hex, HT : !HashText, ST : !ScriptHashText,
  TT : !TxidText, TP : !TxidParse, BT : !BlockHashText, SO : !ScriptOps, VI : !VarInt,
  SL : !Slices, CS : !Consensus, RD : !RocksDB S, HA : !HttpAgent W, RA : !RpcAgent W,
  FS : !Files, JT : !JsonText, JF : !JsonFloats, SD : !Serde, MS : !Millis F,
  RS : !RpcSyncAgent W, UP : !Upstream W, EL : !Elements, ES : !ElementsScripts, ET : !ElementsTxs,
  SC : !Scripts}.
Context (adapter_error_text : adapter_error slices_error → str)
  (corerest_error_text : corerest_error → str) (rpc_error_text : rpc_error → str).
Context (interfere : nat → Adapter S → Adapter S) (mempool_at : nat → MempoolIndex)
  (clock : nat → Z) (rpc : option RpcClient) (asset_upstream : option str).

Abbreviation M := (stM (Rest S W F) HttpError).
Abbreviation on_chain := (on_chain adapter_error_text).

Definition liquid_block_time (height : Z) : M Z :=
  raw ← on_chain (header_raw_at_height (RH := fetched_headers) interfere height);
  raw ← st_lift (ok_or (not_found (lit "Block not found")) raw);
  st_lift (map_err server_error (liquid_header_time raw)).

(** The node's transaction, if it knows one. *)
Definition node_tx (id : hash32) : M (option bytes) :=
  r ← st_try (on_core (liquid_tx_raw rpc_error_text rpc id));
  match r with
  | inr raw => mret (Some raw)
  | inl NotFound => mret None
  | inl err => st_lift (Err (server_error (corerest_error_text err)))
  end.

Definition funding_tx (id : hash32) : M (option elements_tx) :=
  raw ← on_chain (transaction_by_txid interfere id);
  raw ← match raw with Some raw => mret (Some raw) | None => node_tx id end;
  match raw with
  | None => mret None
  | Some raw => tx ← (st_lift (decode (FO := liquid_format) raw (txid_to_string id)) : M elements_tx);
      mret (Some tx)
  end.

(** The ids of a block, the last place for each. *)
Definition in_block_of (txs : list elements_tx) : gmap hash32 nat :=
  foldl (λ m p, <[el_txid p.2 := p.1]> m) ∅ (imap pair txs).
Abbreviation Funding := (gmap hash32 (option elements_tx)).

(** One prevout; a funding transaction is looked up once. *)
Definition block_prevout (txs : list elements_tx) (in_block : gmap hash32 nat) (funding : Funding)
    (outpoint : OutPoint) : M (option elements_txout * Funding) :=
  match in_block !! op_txid outpoint with
  | Some index =>
      tx ← st_lift (expect "index out of bounds" (txs !! index));
      mret (liquid_output tx (op_vout outpoint), funding)
  | None =>
      '(found, funding) ← match funding !! op_txid outpoint with
        | Some found => mret (found, funding)
        | None => found ← funding_tx (op_txid outpoint); mret (found, <[op_txid outpoint := found]> funding)
        end;
      mret (tx ← (found : option elements_tx); liquid_output tx (op_vout outpoint), funding)
  end.
Fixpoint block_prevouts (txs : list elements_tx) (in_block : gmap hash32 nat) (funding : Funding)
    (outpoints : list (option OutPoint)) : M (list (option elements_txout) * Funding) :=
  match outpoints with
  | [] => mret ([], funding)
  | outpoint :: outpoints =>
      '(prevout, funding) ← match outpoint with
                            | None => mret (None, funding)
                            | Some outpoint => block_prevout txs in_block funding outpoint
                            end;
      '(rest, funding) ← block_prevouts txs in_block funding outpoints;
      mret (prevout :: rest, funding)
  end.
Fixpoint block_prevouts_of (deadline : Deadline) (txs : list elements_tx) (in_block : gmap hash32 nat)
    (funding : Funding) (range : list elements_tx) : M (list (elements_tx * list (option elements_txout))) :=
  match range with
  | [] => mret []
  | tx :: range =>
      _ ← check_deadline adapter_error_text interfere clock deadline;
      '(prevouts, funding) ← block_prevouts txs in_block funding (liquid_prevout_outpoints tx);
      rest ← block_prevouts_of deadline txs in_block funding range;
      mret ((tx, prevouts) :: rest)
  end.
Definition liquid_block_transactions (hash : hash32) (from to : Z) (deadline : Deadline)
    : M (list (elements_tx * list (option elements_txout))) :=
  raw ← query_block_raw corerest_error_text hash;
  txs ← (st_lift (decode_block (FO := liquid_format) raw hash) : M (list elements_tx));
  let end_ := Nat.min (Z.to_nat to) (length txs) in
  let start := Nat.min (Z.to_nat from) end_ in
  block_prevouts_of deadline txs (in_block_of txs) ∅ (take (end_ - start) (drop start txs)).

(** The history listed the output, so its funding transaction must be there. *)
Definition liquid_utxo (outpoint : OutPoint) (status : TransactionStatus) (_value : Z)
    : M (option LiquidUtxoValue) :=
  txout ← (prevout_or (FO := liquid_format) adapter_error_text interfere mempool_at node_tx outpoint
             : M (option elements_txout));
  txout ← st_lift (ok_or (server_error (lit "utxo " ++ txid_to_string (op_txid outpoint) ++ lit ":" ++
                                        show_unsigned (op_vout outpoint) ++
                                        lit " has no funding transaction")) txout);
  mret (Some (liquid_utxo_value outpoint status txout)).

(** What [GET /block/:hash] adds: the header's extension data. *)
Definition with_ext (hash : hash32) (value : LiquidBlockValue) : M LiquidBlockValue :=
  raw ← st_map_err (from_corerest_error corerest_error_text) (on_core (header_raw hash));
  ext ← st_lift (map_err server_error (header_ext raw));
  mret {| lb_id := lb_id value; lb_height := lb_height value; lb_version := lb_version value;
          lb_timestamp := lb_timestamp value; lb_tx_count := lb_tx_count value; lb_size := lb_size value;
          lb_weight := lb_weight value; lb_merkle_root := lb_merkle_root value;
          lb_previousblockhash := lb_previousblockhash value; lb_mediantime := lb_mediantime value;
          lb_ext := Some ext |}.

(** The upstream server is, like the node, in the world outside. *)
Definition on_upstream {A} (m : stM W HttpError A) : M A :=
  on_peer (on_world (λ w, let '(r, n) := m (wd_node w) in
    (r, {| wd_adapter := wd_adapter w; wd_tick := wd_tick w; wd_node := n |}))).

Definition liquid_reads : FormatReads S W F (FO := liquid_format) :=
  Build_FormatReads S W F liquid_format liquid_block_time node_tx (liquid_block_json rpc_error_text rpc)
    liquid_block_transactions liquid_utxo with_ext None
    (Some (λ request, on_upstream (asset_proxy asset_upstream request))).
End query.
