(* ===== verification/LiquidSpec.v ===== *)
(** * The REST API on Liquid: proofs

    Values and commitments exclude each other; peg-outs are what the parent
    chain is paid; signature operations are bounded; the prevouts of a block are
    those of one choice of funding transactions; what reaches the upstream
    server of assets. *)

From S2P Require Import Prelude External Text Utf8 Index Fmt Headers Batch Store Client Chain LiquidIndex.
From S2P Require Import Merkle Protocol Mempool CoreRest ScriptFold Adapter TorPush Config Bitcoind.
From S2P Require Import AdapterSpec Monitor Server Deadline Http RestTypes RestQuery RestAddress RestHandlers.
From S2P Require Import RestQuerySpec LiquidTypes LiquidRest.

(** ** Response shapes *)

Section shapes.
Context `{EL : !Elements, ES : !ElementsScripts, ET : !ElementsTxs, ETL : !ElementsTxsLaws, HX : !Hex,
  TT : !TxidText, BT : !BlockHashText, SC : !Scripts}.

(** A field that is shown is the amount or the commitment, never both. *)
Lemma explicit_or_commitment v :
  match v with
  | ValueNull => explicit_value v = None ∧ value_commitment v = None
  | ValueExplicit a => explicit_value v = Some a ∧ value_commitment v = None
  | ValueConfidential _ => explicit_value v = None ∧ is_Some (value_commitment v)
  end.
Proof using Type. by destruct v. Qed.
Lemma asset_or_commitment a : explicit_asset a = None ∨ asset_commitment a = None.
Proof using Type. destruct a; auto. Qed.

Lemma liquid_script_type_fee o : liquid_script_type o = lit "fee" ↔ elo_is_fee o = true.
Proof using Type.
  unfold liquid_script_type. destruct (elo_is_fee o); [done|].
  repeat case_match; (split; [intros Hf; vm_compute in Hf; discriminate Hf|done]).
Qed.

Lemma pegout_from_txout_ok o params p :
  pegout_from_txout o params = Some p →
  par_pegouts params = true ∧ ∃ pegout, elo_pegout_data o = Some pegout ∧
    pg_asset pegout = AssetExplicit (par_policy_asset params) ∧
    pg_genesis_hash pegout = par_parent_genesis params ∧
    pv_scriptpubkey p = hex_encode (pg_script pegout).
Proof using Type.
  unfold pegout_from_txout. destruct (par_pegouts params); [|done]. cbn [negb].
  intros (pegout & Hp & H)%bind_Some. split; [done|]. exists pegout. split; [done|].
  case_bool_decide as Ha; [done|]. case_bool_decide as Hg; [done|]. injection H as <-.
  done.
Qed.

Lemma liquid_params_pegouts net params :
  liquid_params net = Ok params → par_pegouts params = true ↔ net = NetBitcoin.
Proof using Type.
  unfold liquid_params. intros ([a p] & _ & H)%bind_ok. apply bind_ok in H as (id & _ & [= <-]).
  cbn. apply bool_decide_eq_true.
Qed.
End shapes.

(** ** Signature operations *)

Section sigops.
Context `{EL : !Elements, ES : !ElementsScripts, ET : !ElementsTxs}.

(** Counting keys never gives more than counting twenty for each multisig. *)
Lemma sigop_fold_le instrs n m p p' :
  0 ≤ n ≤ m → (∀ k, p = Some k → 1 ≤ k ≤ 16) →
  0 ≤ (foldl (sigop_step true) (n, p) instrs).1 ≤ (foldl (sigop_step false) (m, p') instrs).1.
Proof using Type.
  revert n m p p'. induction instrs as [|i l IH]; intros n m p p' Hn Hp; [done|]. cbn [foldl].
  destruct i as [d|op|]; cbn [sigop_step]; [by apply IH| |by apply IH].
  destruct ((op =? OP_CHECKSIG) || (op =? OP_CHECKSIGVERIFY)); [apply IH; [lia|done]|].
  destruct ((op =? OP_CHECKMULTISIG) || (op =? OP_CHECKMULTISIGVERIFY)).
  - destruct p as [k|]; (apply IH; [|done]); [specialize (Hp k eq_refl); lia|lia].
  - apply IH; [done|]. intros k. destruct (Z.leb_spec 81 op), (Z.leb_spec op 96); cbn; try done.
    intros [= <-]. lia.
Qed.
Lemma sigop_fold_bound instrs n p :
  (foldl (sigop_step false) (n, p) instrs).1 ≤ n + 20 * Z.of_nat (length instrs).
Proof using Type.
  revert n p. induction instrs as [|i l IH]; intros n p; cbn [foldl length]; [cbn; lia|].
  destruct i as [d|op|]; cbn [sigop_step].
  2: destruct ((op =? OP_CHECKSIG) || (op =? OP_CHECKSIGVERIFY));
     [|destruct ((op =? OP_CHECKMULTISIG) || (op =? OP_CHECKMULTISIGVERIFY))].
  all: etrans; [apply IH|]; lia.
Qed.

Lemma count_sigops_bounds script :
  0 ≤ count_sigops script true ≤ count_sigops script false ∧
  count_sigops script false ≤ 20 * Z.of_nat (length (btc_instructions script)).
Proof using Type.
  unfold count_sigops. split; [by apply sigop_fold_le|]. apply (sigop_fold_bound _ 0).
Qed.

Lemma count_sigops_nonneg script b : 0 ≤ count_sigops script b.
Proof using Type. destruct (count_sigops_bounds script). destruct b; lia. Qed.

(** The legacy operations count four times whatever is known of the prevouts,
    and alone for a coinbase, a peg-in or unknown prevouts. *)
Lemma sigop_cost_legacy tx prevouts :
  legacy_sigops tx * 4 ≤ sigop_cost tx prevouts ∧
  (elt_is_coinbase tx = true ∨ existsb ei_is_pegin (et_inputs tx) = true ∨ None ∈ prevouts →
   sigop_cost tx prevouts = legacy_sigops tx * 4).
Proof using Type.
  assert (∀ p : elements_txin * elements_txout, 0 ≤ p2sh_sigops p.1 p.2) as Hp.
  { intros [i o]. unfold p2sh_sigops. cbn. repeat case_match; [|done].
    destruct (last_instr_push _) as [r|]; cbn; [|done]. pose proof (count_sigops_nonneg r true). lia. }
  assert (∀ p : elements_txin * elements_txout, 0 ≤ witness_sigops p.1 p.2) as Hw.
  { intros [i o]. assert (∀ w : option bytes, 0 ≤ from_option (λ s, count_sigops s true) 0 w) as Hc.
    { intros [w|]; cbn; [apply count_sigops_nonneg|done]. }
    unfold witness_sigops. cbn -[from_option]. repeat case_match; done || apply Hc. }
  unfold sigop_cost. split.
  - repeat case_match; try lia.
    pose proof (sumZ_nonneg ((λ p, p2sh_sigops p.1 p.2) <$> zip (et_inputs tx) l)) as Hs1.
    pose proof (sumZ_nonneg ((λ p, witness_sigops p.1 p.2) <$> zip (et_inputs tx) l)) as Hs2.
    rewrite Forall_fmap in Hs1, Hs2. specialize (Hs1 ltac:(by apply Forall_true)).
    specialize (Hs2 ltac:(by apply Forall_true)). lia.
  - intros H. destruct (elt_is_coinbase tx || existsb ei_is_pegin (et_inputs tx)) eqn:E; [done|].
    apply orb_false_iff in E as [E1 E2]. destruct H as [H|[H|H]]; [congruence..|].
    destruct (mapM id prevouts) eqn:Em; [|done]. apply mapM_Some in Em.
    apply list_elem_of_lookup in H as [i Hi]. eapply Forall2_lookup_l in Em as (y & _ & Hy); [|done]. done.
Qed.
End sigops.

(** ** Prevouts of a block *)

Section prevouts.
Context {S W F : Type} `{HS : !Hashes, HX : !Hex, HT : !HashText, ST : !ScriptHashText,
  TT : !TxidText, TP : !TxidParse, BT : !BlockHashText, SO : !ScriptOps, VI : !VarInt,
  SL : !Slices, CS : !Consensus, RD : !RocksDB S, HA : !HttpAgent W, RA : !RpcAgent W,
  FS : !Files, JT : !JsonText, JF : !JsonFloats, SD : !Serde, MS : !Millis F,
  RS : !RpcSyncAgent W, EL : !Elements, ES : !ElementsScripts, ET : !ElementsTxs, SC : !Scripts}.
Context (adapter_error_text : adapter_error slices_error → str)
  (corerest_error_text : corerest_error → str) (rpc_error_text : rpc_error → str).
Context (interfere : nat → Adapter S → Adapter S) (mempool_at : nat → MempoolIndex)
  (clock : nat → Z) (rpc : option RpcClient).

Lemma in_block_of_app txs tx : in_block_of (txs ++ [tx]) = <[el_txid tx := length txs]> (in_block_of txs).
Proof using Type. unfold in_block_of. rewrite imap_app. rewrite foldl_app. cbn. by rewrite Nat.add_0_r. Qed.
Lemma in_block_of_ok txs id :
  match in_block_of txs !! id with
  | Some i => ∃ tx, txs !! i = Some tx ∧ el_txid tx = id ∧ ∀ j tx', txs !! j = Some tx' → el_txid tx' = id → (j ≤ i)%nat
  | None => ∀ tx, tx ∈ txs → el_txid tx ≠ id
  end.
Proof using Type.
  induction txs as [|tx txs IH] using rev_ind; [unfold in_block_of; cbn; rewrite lookup_empty; by intros tx ?%not_elem_of_nil|].
  rewrite in_block_of_app. destruct (decide (el_txid tx = id)) as [<-|Hne].
  - rewrite lookup_insert_eq. exists tx. rewrite list_lookup_middle by done. split_and!; [done..|].
    intros j tx' Hj _. apply lookup_lt_Some in Hj. rewrite length_app in Hj. cbn in Hj. lia.
  - rewrite lookup_insert_ne by done. destruct (in_block_of txs !! id) as [i|].
    + destruct IH as (tx0 & Hi & Hid & Hlast). exists tx0. split_and!; [by apply lookup_app_l_Some|done|].
      intros j tx' [Hj|[Hl Hj]]%lookup_app_Some Hid'; [by eapply Hlast|].
      apply list_lookup_singleton_Some in Hj as [_ <-]. done.
    + intros tx' [Hin|Hin%list_elem_of_singleton]%elem_of_app; [by apply IH|congruence].
Qed.

(** The prevout of an outpoint, given the funding transactions outside the block. *)
Definition prevout_in (txs : list elements_tx) (fund : hash32 → option elements_tx) (outpoint : OutPoint)
    : option elements_txout :=
  match in_block_of txs !! op_txid outpoint with
  | Some index => tx ← txs !! index; liquid_output tx (op_vout outpoint)
  | None => tx ← fund (op_txid outpoint); liquid_output tx (op_vout outpoint)
  end.
Definition prevouts_in (txs : list elements_tx) (fund : hash32 → option elements_tx)
    (outpoints : list (option OutPoint)) : list (option elements_txout) :=
  (λ o, outpoint ← o; prevout_in txs fund outpoint) <$> outpoints.

(** A funding transaction was answered by the index or the node. *)
Definition answered (id : hash32) (found : option elements_tx) : Prop :=
  ∃ s s', funding_tx (S := S) (W := W) (F := F) adapter_error_text corerest_error_text rpc_error_text interfere rpc id s
          = (Ok found, s').
(** Every cached answer was one. *)
Definition all_answered (funding : gmap hash32 (option elements_tx)) : Prop :=
  ∀ id found, funding !! id = Some found → answered id found.

Lemma block_prevout_ok txs funding outpoint s p funding' s' :
  all_answered funding →
  block_prevout (S := S) (W := W) (F := F) adapter_error_text corerest_error_text rpc_error_text interfere rpc
    txs (in_block_of txs) funding outpoint s = (Ok (p, funding'), s') →
  all_answered funding' ∧ funding ⊆ funding' ∧
  ∀ fund, (∀ id found, funding' !! id = Some found → fund id = found) → p = prevout_in txs fund outpoint.
Proof using Type.
  intros Hall. unfold block_prevout, prevout_in. destruct (in_block_of txs !! op_txid outpoint) as [i|] eqn:Ei.
  { intros (tx & s1 & [Htx%expect_ok ->]%st_lift_ok & [[= -> ->] _]%st_ret_ok)%st_bind_ok.
    split_and!; [done..|]. intros fund _. by rewrite Htx. }
  intros ([found f1] & s1 & Hf & [[= -> ->] _]%st_ret_ok)%st_bind_ok.
  destruct (funding !! op_txid outpoint) as [found'|] eqn:Ef.
  - apply st_ret_ok in Hf as [[= -> ->] _]. split_and!; [done..|]. intros fund Hfund.
    by rewrite (Hfund _ _ Ef).
  - apply st_bind_ok in Hf as (found' & s2 & Hf & [[= -> ->] _]%st_ret_ok). split_and!.
    + intros id x [[<- <-]|[_ Hx]]%lookup_insert_Some; [by do 2 eexists|by apply Hall].
    + by apply insert_subseteq.
    + intros fund Hfund. by rewrite (Hfund _ _ (lookup_insert_eq _ _ _)).
Qed.

Lemma block_prevouts_ok txs funding outpoints s ps funding' s' :
  all_answered funding →
  block_prevouts (S := S) (W := W) (F := F) adapter_error_text corerest_error_text rpc_error_text interfere rpc
    txs (in_block_of txs) funding outpoints s = (Ok (ps, funding'), s') →
  all_answered funding' ∧ funding ⊆ funding' ∧
  ∀ fund, (∀ id found, funding' !! id = Some found → fund id = found) → ps = prevouts_in txs fund outpoints.
Proof using Type.
  revert funding s ps funding' s'. induction outpoints as [|o outpoints IH]; intros funding s ps funding' s' Hall;
    cbn [block_prevouts].
  { intros [[= -> ->] _]%st_ret_ok. by split_and!. }
  intros ([p f1] & s1 & Hp & H)%st_bind_ok.
  apply st_bind_ok in H as ([rest f2] & s2 & Hrest & [[= -> ->] _]%st_ret_ok).
  assert (all_answered f1 ∧ funding ⊆ f1 ∧ ∀ fund, (∀ id found, f1 !! id = Some found → fund id = found) →
    p = (outpoint ← o; prevout_in txs fund outpoint)) as (Hall1 & Hsub & Hp').
  { destruct o as [outpoint|]; [by eapply block_prevout_ok|]. apply st_ret_ok in Hp as [[= -> ->] _]. done. }
  apply IH in Hrest as (Hall2 & Hsub2 & Hrest); [|done]. split_and!; [done|by etrans|].
  intros fund Hfund. cbn. rewrite <-Hp', (Hrest fund); [done|done|].
  intros id found Hf. apply Hfund. by eapply lookup_weaken.
Qed.

(** The answers taken together: one choice of funding transactions. *)
Lemma block_prevouts_of_ok deadline txs funding range s out s' :
  all_answered funding →
  block_prevouts_of (S := S) (W := W) (F := F) adapter_error_text corerest_error_text rpc_error_text interfere
    clock rpc deadline txs (in_block_of txs) funding range s = (Ok out, s') →
  ∃ funding', all_answered funding' ∧ funding ⊆ funding' ∧
    ∀ fund, (∀ id found, funding' !! id = Some found → fund id = found) →
      out = (λ tx, (tx, prevouts_in txs fund (liquid_prevout_outpoints tx))) <$> range.
Proof using Type.
  revert funding s out s'. induction range as [|tx range IH]; intros funding s out s' Hall;
    cbn [block_prevouts_of].
  { intros [-> _]%st_ret_ok. by exists funding. }
  intros (u & s1 & _ & H)%st_bind_ok. apply st_bind_ok in H as ([ps f1] & s2 & Hp & H).
  apply st_bind_ok in H as (rest & s3 & Hrest & [-> _]%st_ret_ok).
  apply block_prevouts_ok in Hp as (Hall1 & Hsub & Hp); [|done].
  apply IH in Hrest as (f2 & Hall2 & Hsub2 & Hrest); [|done].
  exists f2. split_and!; [done|by etrans|]. intros fund Hfund. cbn. rewrite <-(Hrest fund Hfund).
  rewrite <-Hp; [done|]. intros id found Hf. apply Hfund. by eapply lookup_weaken.
Qed.
(** [GET /block/:hash/txs]: the slice asked for of the transactions of the block
    the node serves, each with the outputs its inputs spend. *)
Lemma liquid_block_transactions_ok hash from to deadline s out s' :
  liquid_block_transactions (S := S) (W := W) (F := F) adapter_error_text corerest_error_text rpc_error_text
    interfere clock rpc hash from to deadline s = (Ok out, s') →
  ∃ raw s1 txs funding, query_block_raw corerest_error_text hash s = (Ok raw, s1) ∧
    liquid_decode_block_txs raw = Ok txs ∧ all_answered funding ∧
    ∀ fund, (∀ id found, funding !! id = Some found → fund id = found) →
      let end_ := Nat.min (Z.to_nat to) (length txs) in
      let start := Nat.min (Z.to_nat from) end_ in
      out = (λ tx, (tx, prevouts_in txs fund (liquid_prevout_outpoints tx))) <$>
              take (end_ - start) (drop start txs).
Proof using Type.
  unfold liquid_block_transactions. intros (raw & s1 & Hraw & H)%st_bind_ok.
  apply st_bind_ok in H as (txs & s2 & [Htxs%map_err_ok ->]%st_lift_ok & H).
  apply block_prevouts_of_ok in H as (funding & Hall & _ & Hout); [|by intros ? ?].
  by exists raw, s1, txs, funding.
Qed.
End prevouts.

(** ** What the reads promise *)

Section reads.
Context {S W F : Type} `{HS : !Hashes, HX : !Hex, HT : !HashText, ST : !ScriptHashText,
  TT : !TxidText, TP : !TxidParse, BT : !BlockHashText, SO : !ScriptOps, VI : !VarInt,
  SL : !Slices, CS : !Consensus, RD : !RocksDB S, HA : !HttpAgent W, RA : !RpcAgent W,
  FS : !Files, JT : !JsonText, JF : !JsonFloats, SD : !Serde, MS : !Millis F,
  RS : !RpcSyncAgent W, UP : !Upstream W, EL : !Elements, ELL : !ElementsLaws, ES : !ElementsScripts,
  ET : !ElementsTxs, SC : !Scripts}.
Context (adapter_error_text : adapter_error slices_error → str)
  (corerest_error_text : corerest_error → str) (rpc_error_text : rpc_error → str).
Context (interfere : nat → Adapter S → Adapter S) (mempool_at : nat → MempoolIndex)
  (clock : nat → Z) (rpc : option RpcClient) (asset_upstream : option str).
Context (I : IndexedChain S → Prop)
  (Hother : ∀ n a, adapter_ok (W := W) I a → adapter_ok (W := W) I (interfere n a)).
Implicit Types (s : Rest S W F).

(** The node answered a header that hashes to that of a chain the adapter had. *)
Definition liquid_time_at (height time : Z) : Prop :=
  ∃ c h raw, I c ∧ header_at_height (ic_headers c) height = Some h ∧
    el_header_hash raw = Some (ih_hash h) ∧ liquid_header_time raw = Ok time.

Lemma liquid_header_raw_ok height (w : World S W) raw w' :
  world_ok (W := W) I w →
  header_raw_at_height (RH := fetched_headers) interfere height w = (Ok (Some raw), w') →
  world_ok (W := W) I w' ∧
  ∃ c h, I c ∧ header_at_height (ic_headers c) height = Some h ∧ el_header_hash raw = Some (ih_hash h).
Proof using Hother ELL.
  intros Hw (c & w1 & [Hw1 Hc]%(read_chain_ok interfere I Hother) & H)%st_bind_ok; [|done].
  apply st_bind_ok in H as (raws & w2 & [Hw2 Hr%st_map_err_ok]%(on_node_ok I) & [Hraw ->]%st_ret_ok); [|done].
  split; [done|]. destruct raws as [|raw' raws]; [done|]. injection Hraw as <-.
  destruct (decide (0 ≤ height)) as [Hh|Hh].
  - apply liquid_block_headers_raw_ok in Hr as [_ Hr]; [|lia..].
    destruct (Hr 0%nat raw eq_refl) as (h & Hh' & Hhash). rewrite Z.add_0_r in Hh'. by exists c, h.
  - exfalso. revert Hr. unfold raw_headers, fetched_headers, liquid_block_headers_raw, header_at_height.
    rewrite bool_decide_eq_false_2 by lia. done.
Qed.

Lemma liquid_block_times :
  BlockTimes S W F (FO := liquid_format)
    (FR := liquid_reads adapter_error_text corerest_error_text rpc_error_text interfere mempool_at clock
             rpc asset_upstream)
    (rest_ok I) liquid_time_at.
Proof using Hother ELL.
  intros height s time s' Hs (raw & s1 & Hr%on_chain_ok & H)%st_bind_ok.
  apply st_bind_ok in H as (raw' & s2 & [->%ok_or_ok ->]%st_lift_ok & [Ht%map_err_ok ->]%st_lift_ok).
  apply liquid_header_raw_ok in Hr as [Hs1 (c & h & ? & ? & ?)]; [|done]. split; [exact Hs1|].
  by exists c, h, raw'.
Qed.

(** The bytes of a transaction: the mempool had them under that id, the chain
    had them and they have that id, or the node answered them for it. *)
Definition known_tx (id : hash32) (raw : bytes) : Prop :=
  (∃ k, raw_transaction (mempool_at k) id = Some raw) ∨ Fmt.txid raw = Ok id ∨
  ∃ w w' : W, liquid_tx_raw rpc_error_text rpc id w = (Ok raw, w').
(** A value shows the output of such a transaction, whatever amount is listed. *)
Definition liquid_utxo_shown (o : OutPoint) (status : TransactionStatus) (_amount : Z)
    (v : option LiquidUtxoValue) : Prop :=
  ∃ raw tx out, known_tx (op_txid o) raw ∧ liquid_decode_tx raw = Ok tx ∧
    liquid_output tx (op_vout o) = Some out ∧ v = Some (liquid_utxo_value o status out).

Lemma find_located_txid c tip id locs (n : W) t n' :
  find_located (S := S) c tip id locs n = (Ok (Some t), n') → Fmt.txid (lt_raw t) = Ok id.
Proof using Type.
  revert n. induction locs as [|loc locs IH]; intros n; cbn [find_located].
  { by intros [? _]%st_ret_ok. }
  intros (raw & n1 & _ & H)%st_bind_ok.
  apply st_bind_ok in H as (got & n2 & [Hgot%map_err_ok ->]%st_lift_ok & H). case_decide as Heq; [|by eapply IH].
  apply st_ret_ok in H as [[= ->] ->]. cbn. congruence.
Qed.
Lemma transaction_known id (w : World S W) raw w' :
  world_ok (W := W) I w → transaction_by_txid interfere id w = (Ok raw, w') →
  world_ok (W := W) I w' ∧ ∀ b, raw = Some b → Fmt.txid b = Ok id.
Proof using Hother.
  intros Hw (t & w1 & Ht & [-> ->]%st_ret_ok)%st_bind_ok.
  apply st_bind_ok in Ht as (c & w2 & [Hw2 Hc]%(read_chain_ok interfere I Hother) & H); [|done].
  apply st_bind_ok in H as (locs & w3 & [_ ->]%st_lift_ok & [Hw3 Hf]%(on_node_ok I)); [|done].
  split; [done|]. intros b (t' & -> & ->)%fmap_Some_1. by apply find_located_txid in Hf.
Qed.

Lemma node_tx_known id s raw s' :
  rest_ok (W := W) I s → node_tx corerest_error_text rpc_error_text rpc id s = (Ok raw, s') →
  rest_ok (W := W) I s' ∧ ∀ b, raw = Some b → ∃ w w' : W, liquid_tx_raw rpc_error_text rpc id w = (Ok b, w').
Proof using Type.
  intros Hs (r & s1 & Hr & H)%st_bind_ok.
  assert (rest_ok (W := W) I s1 ∧
    ∀ b, r = inr b → ∃ w w' : W, liquid_tx_raw rpc_error_text rpc id w = (Ok b, w')) as [Hs1 Hb].
  { unfold st_try, on_core, on_peer, on_world in Hr.
    destruct (liquid_tx_raw rpc_error_text rpc id _) as [[b|e|m] n] eqn:E; simplify_eq Hr; intros; subst;
      (split; [exact Hs|]); intros b' [= ->]. by do 2 eexists. }
  destruct r as [e|b].
  - destruct e; try done. by apply st_ret_ok in H as [-> ->].
  - apply st_ret_ok in H as [-> ->]. split; [done|]. intros b' [= ->]. by apply Hb.
Qed.

Lemma liquid_utxo_values :
  UtxoValues S W F (FO := liquid_format)
    (FR := liquid_reads adapter_error_text corerest_error_text rpc_error_text interfere mempool_at clock
             rpc asset_upstream)
    (rest_ok I) liquid_utxo_shown.
Proof using Hother.
  intros o status amount s v s' Hs (out & s1 & Hp & H)%st_bind_ok.
  apply st_bind_ok in H as (out' & s2 & [->%ok_or_ok ->]%st_lift_ok & [-> ->]%st_ret_ok).
  apply st_bind_ok in Hp as (m & s2 & [Hs2 [k ->]]%(mempool_read_ok interfere mempool_at I Hother) & Hp); [|done].
  apply st_bind_ok in Hp as (found & s3 & Hfound & Hp).
  assert (rest_ok (W := W) I s3 ∧ ∀ b, found = Some b → known_tx (op_txid o) b) as [Hs3 Hk].
  { destruct (raw_transaction (mempool_at k) (op_txid o)) as [raw|] eqn:Er.
    - apply st_ret_ok in Hfound as [-> ->]. split; [done|]. intros b [= ->]. left. by exists k.
    - apply on_chain_ok, transaction_known in Hfound as [? Hb]; [|done]. split; [done|].
      intros b Eb. right. left. by apply Hb. }
  apply st_bind_ok in Hp as (raw & s4 & Hraw & Hp).
  assert (rest_ok (W := W) I s4 ∧ ∀ b, raw = Some b → known_tx (op_txid o) b) as [Hs4 Hk4].
  { destruct found as [b|].
    - apply st_ret_ok in Hraw as [-> ->]. split; [done|]. intros b' [= ->]. by apply Hk.
    - apply node_tx_known in Hraw as [? Hb]; [|done]. split; [done|]. intros b Eb. right. right. by apply Hb. }
  destruct raw as [raw|]; [|by apply st_ret_ok in Hp as [? _]].
  apply st_bind_ok in Hp as (tx & s5 & [Htx%map_err_ok ->]%st_lift_ok & [Ho ->]%st_ret_ok).
  split; [done|]. exists raw, tx, out'. split_and!; [by apply Hk4|done..].
Qed.
End reads.

(** ** What reaches the upstream server *)

Section assets.

Lemma hex_upper_digit d : 0 ≤ d < 16 → hex_digit (hex_upper d) = Some d ∧ hex_upper d ≠ 37 ∧
  hex_upper d ≠ 38 ∧ hex_upper d ≠ 61.
Proof.
  intros Hd. assert (d = 0 ∨ d = 1 ∨ d = 2 ∨ d = 3 ∨ d = 4 ∨ d = 5 ∨ d = 6 ∨ d = 7 ∨ d = 8 ∨ d = 9 ∨
    d = 10 ∨ d = 11 ∨ d = 12 ∨ d = 13 ∨ d = 14 ∨ d = 15) as H by lia.
  by destruct H as [->|[->|[->|[->|[->|[->|[->|[->|[->|[->|[->|[->|[->|[->|[->| ->]]]]]]]]]]]]]]].
Qed.

Lemma unreserved_plain b : is_unreserved b = true → b ≠ 37 ∧ b ≠ 38 ∧ b ≠ 61.
Proof. intros H. split_and!; intros ->; by vm_compute in H. Qed.

(** Encoding has no separator, and is undone by decoding. *)
Lemma percent_encode_no_sep s c : bytes_wf s → c = 38 ∨ c = 61 → c ∉ percent_encode s.
Proof.
  intros Hs Hc. unfold percent_encode. rewrite list_elem_of_bind. intros (b & Hin & Hb).
  pose proof (proj1 (Forall_forall _ _) Hs b Hb) as Hu. unfold is_u8 in Hu.
  destruct (is_unreserved b) eqn:Eb.
  - apply unreserved_plain in Eb. apply list_elem_of_singleton in Hin as ->. lia.
  - assert (0 ≤ b / 16 < 16 ∧ 0 ≤ b mod 16 < 16) as [Hd Hm].
    { split; [split; [apply Z.div_pos|apply Z.div_lt_upper_bound]; lia|apply Z.mod_pos_bound; lia]. }
    apply hex_upper_digit in Hd as (_ & _ & H1 & H2), Hm as (_ & _ & H3 & H4).
    repeat (apply elem_of_cons in Hin as [->|Hin]; [lia|]). by apply not_elem_of_nil in Hin.
Qed.

Lemma percent_encode_cons b s :
  percent_encode (b :: s) =
  (if is_unreserved b then [b] else [37; hex_upper (b / 16); hex_upper (b mod 16)]) ++ percent_encode s.
Proof. done. Qed.

Lemma percent_bytes_encode s : bytes_wf s → percent_bytes (percent_encode s) = s.
Proof.
  induction 1 as [|b s Hb Hs IH]; [done|]. rewrite percent_encode_cons. unfold is_u8 in Hb.
  destruct (is_unreserved b) eqn:Eb.
  - apply unreserved_plain in Eb as (Hne & _). cbn [app percent_bytes].
    rewrite (proj2 (Z.eqb_neq b 37)) by done. rewrite IH.
    by destruct (percent_encode s) as [|? [|? ?]].
  - assert (0 ≤ b / 16 < 16 ∧ 0 ≤ b mod 16 < 16) as [Hd Hm].
    { split; [split; [apply Z.div_pos|apply Z.div_lt_upper_bound]; lia|apply Z.mod_pos_bound; lia]. }
    apply hex_upper_digit in Hd as (Hd & _), Hm as (Hm & _). cbn [app percent_bytes].
    rewrite Z.eqb_refl, Hd, Hm, IH. f_equal. rewrite (Z.div_mod b 16) at 3 by lia. lia.
Qed.

Lemma percent_encode_plain s : bytes_wf s → 37 ∉ percent_encode s → percent_encode s = s.
Proof.
  induction 1 as [|b s Hb Hs IH]; [done|]. rewrite percent_encode_cons.
  destruct (is_unreserved b); cbn [app]; intros Hn.
  - apply not_elem_of_cons in Hn as [_ Hn]. by rewrite IH.
  - by apply not_elem_of_cons in Hn as [? _].
Qed.

(** A text: bytes that are UTF-8. *)
Definition is_text (s : str) : Prop := bytes_wf s ∧ from_utf8_lossy s = s.

Lemma percent_decode_encode s : is_text s → percent_decode (percent_encode s) = s.
Proof.
  intros [Hw Ht]. unfold percent_decode. case_bool_decide.
  - by rewrite percent_bytes_encode.
  - by apply percent_encode_plain.
Qed.
End assets.

Section asset_urls.
Implicit Types (query : gmap str str) (pairs : list (str * str)).

Definition encoded_pair (p : str * str) : str := percent_encode p.1 ++ 61 :: percent_encode p.2.
Definition is_text_pair (p : str * str) : Prop := is_text p.1 ∧ is_text p.2.

Lemma asset_query_join pairs :
  concat (imap (λ index p, (if bool_decide (index = 0%nat) then 63 else 38) ::
                           percent_encode p.1 ++ 61 :: percent_encode p.2) pairs) =
  match pairs with [] => [] | _ => 63 :: join_with 38 (encoded_pair <$> pairs) end.
Proof.
  assert (∀ l, imap (λ index p, (if bool_decide (S index = 0%nat) then 63 else 38) ::
    percent_encode p.1 ++ 61 :: percent_encode p.2) l = (λ p, 38 :: encoded_pair p) <$> l) as Htail.
  { intros l. trans (imap (const (λ p, 38 :: encoded_pair p)) l); [by apply imap_ext|apply imap_const]. }
  destruct pairs as [|p pairs]; [done|]. rewrite imap_cons. unfold compose. rewrite Htail. clear Htail.
  cbn [concat]. rewrite bool_decide_eq_true_2 by done. cbn [app]. f_equal. fold (encoded_pair p).
  revert p. induction pairs as [|q pairs IH]; intros p; cbn [fmap list_fmap concat]; [by rewrite app_nil_r|].
  specialize (IH q). cbn [fmap list_fmap] in IH.
  change (join_with 38 (encoded_pair p :: ?l)) with (encoded_pair p ++ 38 :: join_with 38 l).
  rewrite <-IH. by rewrite <-app_comm_cons.
Qed.

Lemma query_pair_encoded p : is_text_pair p → query_pair (encoded_pair p) = p.
Proof.
  destruct p as [k v]. intros [Hk Hv]. unfold query_pair, split_once, find_byte, encoded_pair. cbn [fst snd].
  assert (61 ∉ percent_encode k) as Hn by (apply percent_encode_no_sep; [apply Hk|by right]).
  fold (find_byte 61 (percent_encode k ++ 61 :: percent_encode v)). rewrite find_byte_app by done.
  cbn [mbind option_bind]. rewrite take_app_length.
  rewrite drop_S_app. by rewrite !percent_decode_encode.
Qed.

Lemma insert_all pairs query :
  NoDup pairs.*1 → pairs ≡ₚ map_to_list query →
  foldl (λ (m : gmap str str) p, <[p.1:=p.2]> m) ∅ pairs = query.
Proof.
  intros Hnd Hp. apply map_eq. intros k.
  assert (∀ l (m : gmap str str), NoDup l.*1 → foldl (λ (m : gmap str str) p, <[p.1:=p.2]> m) m l !! k =
    match list_to_map (M := gmap str str) l !! k with Some v => Some v | None => m !! k end) as Hgen.
  { induction l as [|[x v] l IH]; intros m Hn; [by cbn|]. cbn in Hn. apply NoDup_cons in Hn as [Hx Hn].
    cbn [foldl]. rewrite IH by done. rewrite list_to_map_cons. cbn [fst snd].
    destruct (decide (x = k)) as [<-|Hne]; [|by rewrite !lookup_insert_ne by done].
    rewrite !lookup_insert_eq. by rewrite not_elem_of_list_to_map_1 by done. }
  rewrite Hgen by done. rewrite (list_to_map_proper _ _ Hnd Hp), list_to_map_to_list, lookup_empty.
  by destruct (query !! k).
Qed.

(** A query of texts is read back from its encoding. *)
Lemma parse_query_encoded query :
  map_Forall (λ k v, is_text_pair (k, v)) query → query ≠ ∅ →
  parse_query (join_with 38 (encoded_pair <$> query_pairs query)) = query.
Proof.
  intros Ht Hne. unfold parse_query. set (pairs := query_pairs query).
  assert (pairs ≡ₚ map_to_list query) as Hp by apply sort_by_perm.
  assert (Forall is_text_pair pairs) as Hall.
  { rewrite Hp. apply Forall_forall. intros [k v] Hin%elem_of_map_to_list. by apply Ht. }
  assert (pairs ≠ []) as Hpne.
  { intros Hnil. rewrite Hnil in Hp. symmetry in Hp. apply Permutation_nil_r in Hp.
    by apply map_to_list_empty_iff in Hp. }
  rewrite split_join.
  2: { by intros ?%fmap_nil_inv. }
  2: { apply Forall_fmap. eapply Forall_impl; [done|]. intros [k v] [Hk Hv]. cbn.
    unfold encoded_pair. cbn [fst snd]. rewrite elem_of_app, elem_of_cons.
    intros [Hin|[Hin|Hin]]; [|done|]; revert Hin; apply percent_encode_no_sep; (apply Hk || apply Hv || by left). }
  rewrite filter_all.
  2: { apply Forall_fmap, Forall_true. intros [k v]. unfold encoded_pair, compose. cbn [fst snd].
    by intros [_ ?]%app_nil. }
  transitivity (foldl (λ (m : gmap str str) p, <[p.1:=p.2]> m) ∅ pairs).
  2: { apply insert_all; [|done]. rewrite Hp. apply NoDup_fst_map_to_list. }
  generalize (∅ : gmap str str). clear Hpne Hp Hne. induction Hall as [|p l Hpt _ IH]; intros m; [done|].
  cbn [fmap list_fmap foldl]. rewrite query_pair_encoded by done. destruct p as [k v]. apply IH.
Qed.

(** A segment that may be sent: letters, digits, [_] and [-] only, so that it has
    no separator, escape or dot. *)
Definition plain_byte (c : Z) : Prop :=
  48 ≤ c ≤ 57 ∨ 65 ≤ c ≤ 90 ∨ 97 ≤ c ≤ 122 ∨ c = 95 ∨ c = 45.
Definition plain_segment (s : str) : Prop := s ≠ [] ∧ Forall plain_byte s.
#[export] Instance plain_byte_dec c : Decision (plain_byte c).
Proof. unfold plain_byte. apply _. Defined.
#[export] Instance plain_segment_dec s : Decision (plain_segment s).
Proof. unfold plain_segment. apply _. Defined.

Lemma is_plain_ok s : is_plain s = true ↔ plain_segment s.
Proof.
  unfold is_plain, plain_segment. rewrite andb_true_iff, negb_true_iff, bool_decide_eq_false, forallb_forall.
  apply and_iff_compat_l. rewrite Forall_forall. setoid_rewrite <-list_elem_of_In.
  apply forall_proper. intros c. apply forall_proper. intros _.
  unfold is_ascii_alphanumeric, plain_byte.
  rewrite !orb_true_iff, !andb_true_iff, !Z.leb_le, !Z.eqb_eq. lia.
Qed.

(** The query of a URL, with its mark. *)
Definition asset_query (query : gmap str str) : str :=
  match query_pairs query with [] => [] | _ => 63 :: join_with 38 (encoded_pair <$> query_pairs query) end.

(** The URL of a request: the server, plain segments, and the encoded query. *)
Lemma asset_url_plain upstream segments query :
  Forall plain_segment segments →
  asset_url upstream segments query =
    Ok (trim_end_slashes upstream ++ 47 :: join_with 47 segments ++ asset_query query).
Proof.
  intros Hp. unfold asset_url, asset_query. rewrite asset_query_join.
  replace (forallb is_plain segments) with true; [done|]. symmetry. apply forallb_forall.
  intros s Hs%list_elem_of_In. apply is_plain_ok. by eapply Forall_forall in Hp.
Qed.
Lemma asset_url_refused upstream segments query :
  ¬ Forall plain_segment segments →
  asset_url upstream segments query = Err (bad_request (lit "Invalid asset path")).
Proof.
  intros Hp. unfold asset_url. destruct (forallb is_plain segments) eqn:E; [|done].
  destruct Hp. apply Forall_forall. intros s Hs%list_elem_of_In. apply is_plain_ok.
  by eapply forallb_forall in E.
Qed.
Lemma asset_query_read_back query :
  map_Forall (λ k v, is_text_pair (k, v)) query →
  match asset_query query with
  | [] => query = ∅
  | c :: text => c = 63 ∧ parse_query text = query
  end.
Proof.
  intros Ht. unfold asset_query. destruct (query_pairs query) as [|p l] eqn:E.
  - assert ([] ≡ₚ map_to_list query) as Hp by (rewrite <-E; apply sort_by_perm).
    symmetry in Hp. apply Permutation_nil_r in Hp. by apply map_to_list_empty_iff.
  - split; [done|]. rewrite <-E. apply parse_query_encoded; [done|]. intros ->.
    unfold query_pairs in E. rewrite map_to_list_empty in E. done.
Qed.
Lemma asset_fetch_content_type {W} `{!Upstream W} url (w w' : W) response :
  asset_fetch url w = (Ok response, w') →
  rs_content_type response ∈ [lit "application/json"; lit "application/octet-stream"; lit "text/plain"].
Proof.
  unfold asset_fetch. destruct (upstream_get w url) as [[up|] w1]; [|done].
  destruct (up_body up); [done|]. intros [= <- _]. cbn [rs_content_type].
  unfold asset_content_type. repeat case_match; rewrite !elem_of_cons; auto.
Qed.

Lemma asset_proxy_ok {W} `{UP : !Upstream W} upstream request (w : W) r w' :
  map_Forall (λ k v, is_text_pair (k, v)) (rq_query request) →
  asset_proxy upstream request w = (r, w') →
  match upstream with
  | None => r = Err (not_found (lit "Asset id not found")) ∧ w' = w
  | Some server =>
      if decide (Forall plain_segment (segments request)) then
        ∃ q, asset_fetch (trim_end_slashes server ++ 47 :: join_with 47 (segments request) ++ q) w = (r, w') ∧
          match q with
          | [] => rq_query request = ∅
          | c :: text => c = 63 ∧ parse_query text = rq_query request
          end ∧
          ∀ response, r = Ok response →
            rs_content_type response ∈ [lit "application/json"; lit "application/octet-stream"; lit "text/plain"]
      else r = Err (bad_request (lit "Invalid asset path")) ∧ w' = w
  end.
Proof.
  intros Hq. destruct upstream as [server|]; [|by intros [= <- <-]].
  change (asset_proxy (Some server) request w) with
    ((url ← st_lift (asset_url server (segments request) (rq_query request)); asset_fetch url) w).
  case_decide as Hplain.
  - rewrite (asset_url_plain server _ (rq_query request) Hplain). intros H.
    eexists. split; [exact H|]. split; [by apply asset_query_read_back|].
    intros response ->. exact (asset_fetch_content_type _ _ _ _ H).
  - rewrite asset_url_refused by done. unfold mbind, stM_bind, st_lift. by intros [= <- <-].
Qed.
End asset_urls.

(** ** The asset routes *)

Section routes.
Context {S W F : Type} `{HS : !Hashes, HX : !Hex, HT : !HashText, ST : !ScriptHashText,
  TT : !TxidText, TP : !TxidParse, BT : !BlockHashText, SO : !ScriptOps, VI : !VarInt,
  SL : !Slices, CS : !Consensus, RD : !RocksDB S, HA : !HttpAgent W, RA : !RpcAgent W,
  FS : !Files, JT : !JsonText, JF : !JsonFloats, SD : !Serde, MS : !Millis F, SC : !Scripts,
  RF : !RestFloats, RT : !Rates, RS : !RpcSyncAgent W, UP : !Upstream W, EL : !Elements,
  ES : !ElementsScripts, ET : !ElementsTxs}.
Context (params : Params) (config : RestConfig) (server_config : Config) (rpc : RpcClient)
  (tor_push : option TorTargets).
Context (adapter_error_text : adapter_error slices_error → str)
  (corerest_error_text : corerest_error → str) (rpc_error_text : rpc_error → str)
  (tor_error_text : tor_error → str) (utf8_error_text : bytes → str) (debug_str : str → str)
  (strings_to_vec : list str → bytes).
Context (interfere : nat → Adapter S → Adapter S) (mempool_at : nat → MempoolIndex)
  (push_env : nat → PushEnv) (mode : overflow_mode) (clock : nat → Z) (asset_upstream : option str).

(** The routes of the Liquid build, which gives its REST client the node's RPC
    client ([rest_core]). *)
Definition liquid_route : Req → stM (Rest S W F) HttpError HttpResponse :=
  route (FO := liquid_format)
    (FR := liquid_reads adapter_error_text corerest_error_text rpc_error_text interfere mempool_at clock
             (Some rpc) asset_upstream)
    params config server_config rpc tor_push adapter_error_text corerest_error_text rpc_error_text
    tor_error_text utf8_error_text debug_str strings_to_vec interfere mempool_at push_env mode clock.

Definition asset_path (segments : list str) : Prop :=
  ∃ a rest, segments = a :: rest ∧ (a = lit "asset" ∨ a = lit "assets").

Lemma liquid_route_asset request :
  rq_method (req_http request) = lit "GET" → asset_path (segments (req_http request)) →
  liquid_route request = on_upstream (asset_proxy asset_upstream (req_http request)).
Proof using Type.
  intros Hm (a & rest & Hseg & Ha). unfold liquid_route, route. rewrite Hm, Hseg.
  destruct Ha as [-> | ->]; reflexivity.
Qed.

(** Nothing but the world outside can change. *)
Lemma on_upstream_ok {A} (m : stM W HttpError A) (s : Rest S W F) r s' :
  on_upstream m s = (r, s') →
  ∃ n, m (wd_node (pr_world (rt_peer s))) = (r, n) ∧ wd_node (pr_world (rt_peer s')) = n.
Proof using Type.
  unfold on_upstream, on_peer, on_world. destruct (m _) as [r' n]. intros [= <- <-]. by exists n.
Qed.
End routes.
