(* ===== verification/Web.v ===== *)
(** * The web front end

    [bindex-web/src/main.rs]: a search page over an index the process keeps in
    sync itself. A worker answers one request on the shared chain, node and
    monitor; the syncer follows the node. Texts of errors of other crates, the
    decimal display of amounts and the control connection to the Electrum server
    are parameters; [F] stands for [f64] milliseconds. *)

From S2P Require Import Prelude External Text Utf8 Index Fmt Headers Batch Store Client Chain Cache History.
From S2P Require Import Protocol Mempool ScriptFold Adapter Bitcoind Monitor MonitorSnapshot Server.
From S2P Require Import RestTypes.

Definition WORKERS : Z := 4.
Definition WEB_RECENT_LIMIT : nat := 120.
Definition NETWORK : network := NetBitcoin.

(** Messages of errors, as [{:#}] prints them. *)
Class WebTexts `{Slices} := {
  address_error_text : str → str;
  network_error_text : str → str;
  txid_error_text : str → str;
  cache_error_text : cache_error → str;
  chain_error_text : chain_error slices_error → str;
  header_error_text : bytes → str;
  sqlite_overflow_text : str;
  debug_str : str → str;                 (* [{:?}] of a string *)
  address_to_string : str → str;         (* the address a text parses to *)
  btc_text : Z → str;                    (* [{:.8}] of satoshis in BTC *)
  signed_btc_text : Z → str;             (* [{:+.8}] *)
}.

(** ** The monitor *)

Record QuerySample (F : Type) := {
  qs_unix : Z; qs_route : str; qs_target : str; qs_ok : bool; qs_duration_ms : F; qs_error : option str;
}.
Arguments Build_QuerySample {F} _ _ _ _ _ _.
Record SyncMetrics (F : Type) := {
  sm_runs : Z; sm_indexed_blocks : Z; sm_bytes_read : Z; last_started_unix : option Z;
  last_finished_unix : option Z; last_indexed_blocks : option Z; last_elapsed_ms : option F;
  last_tip : option str; last_sync_error : option str;
}.
Arguments Build_SyncMetrics {F} _ _ _ _ _ _ _ _ _.
Arguments sm_runs {F} _.
Arguments sm_indexed_blocks {F} _.
Arguments sm_bytes_read {F} _.
Record WebMonitor (F : Type) := {
  wm_routes : gmap str (MethodMetrics F); wm_recent : list (QuerySample F); wm_sync : SyncMetrics F;
}.
Arguments Build_WebMonitor {F} _ _ _.
Arguments wm_routes {F} _.
Arguments wm_recent {F} _.
Arguments wm_sync {F} _.

Section monitor.
Context {F : Type} `{MS : !Millis F, SF : !SnapshotFloats F}.

Definition web_monitor_default : WebMonitor F :=
  {| wm_routes := ∅; wm_recent := [];
     wm_sync := {| sm_runs := 0; sm_indexed_blocks := 0; sm_bytes_read := 0; last_started_unix := None;
                   last_finished_unix := None; last_indexed_blocks := None; last_elapsed_ms := None;
                   last_tip := None; last_sync_error := None |} |}.

(** A route's metrics count as those of an Electrum method do. *)
Definition web_record_request (route target : str) (ok : bool) (duration_ms : F) (error : option str)
    (now : Z) (state : WebMonitor F) : WebMonitor F :=
  {| wm_routes := <[route := metrics_record ok duration_ms
                               (default metrics_default (wm_routes state !! route))]> (wm_routes state);
     wm_recent := keep_first WEB_RECENT_LIMIT
       ({| qs_unix := now; qs_route := route; qs_target := target; qs_ok := ok;
           qs_duration_ms := duration_ms; qs_error := error |} :: wm_recent state);
     wm_sync := wm_sync state |}.

Definition record_sync_success `{BT : !BlockHashText} (stats : Stats) (elapsed_ms : F) (now : Z)
    (state : WebMonitor F) : WebMonitor F :=
  let s := wm_sync state in
  {| wm_routes := wm_routes state; wm_recent := wm_recent state;
     wm_sync := {| sm_runs := wrap64 (sm_runs s + 1);
                   sm_indexed_blocks := wrap64 (sm_indexed_blocks s + indexed_blocks stats);
                   sm_bytes_read := wrap64 (sm_bytes_read s + size_read stats);
                   last_started_unix := last_started_unix _ s; last_finished_unix := Some now;
                   last_indexed_blocks := Some (indexed_blocks stats);
                   last_elapsed_ms := Some elapsed_ms;
                   last_tip := Some (block_hash_to_string (st_tip stats)); last_sync_error := None |} |}.
Definition record_sync_start (now : Z) (state : WebMonitor F) : WebMonitor F :=
  let s := wm_sync state in
  {| wm_routes := wm_routes state; wm_recent := wm_recent state;
     wm_sync := {| sm_runs := sm_runs s; sm_indexed_blocks := sm_indexed_blocks s;
                   sm_bytes_read := sm_bytes_read s; last_started_unix := Some now;
                   last_finished_unix := last_finished_unix _ s;
                   last_indexed_blocks := last_indexed_blocks _ s;
                   last_elapsed_ms := last_elapsed_ms _ s; last_tip := last_tip _ s;
                   last_sync_error := last_sync_error _ s |} |}.
Definition record_sync_error (error : str) (now : Z) (state : WebMonitor F) : WebMonitor F :=
  let s := wm_sync state in
  {| wm_routes := wm_routes state; wm_recent := wm_recent state;
     wm_sync := {| sm_runs := sm_runs s; sm_indexed_blocks := sm_indexed_blocks s;
                   sm_bytes_read := sm_bytes_read s; last_started_unix := last_started_unix _ s;
                   last_finished_unix := Some now; last_indexed_blocks := last_indexed_blocks _ s;
                   last_elapsed_ms := last_elapsed_ms _ s; last_tip := last_tip _ s;
                   last_sync_error := Some error |} |}.
Definition reset_request_metrics (state : WebMonitor F) : WebMonitor F :=
  {| wm_routes := ∅; wm_recent := []; wm_sync := wm_sync state |}.

(** *** As JSON *)

Definition opt_json {A} (f : A → json) (o : option A) : json := from_option f JNull o.
Definition route_json {E} (entry : str * MethodMetrics F) : outcome E json :=
  let m := entry.2 in
  let samples := sort_by f_le id (samples_ms m) in
  p50 ← percentile samples P50;
  p95 ← percentile samples P95;
  mret (JObject [jfield "route" (JString entry.1); jfield "count" (JNumber (mm_count m));
    jfield "errors" (JNumber (mm_errors m));
    jfield "avg_ms" (f_json (if mm_count m =? 0 then f_zero else f_average (total_ms m) (mm_count m)));
    jfield "p50_ms" (f_json p50); jfield "p95_ms" (f_json p95); jfield "max_ms" (f_json (max_ms m))]).
Definition sample_json (q : QuerySample F) : json :=
  JObject [jfield "time" (JNumber (qs_unix _ q)); jfield "route" (JString (qs_route _ q));
    jfield "target" (JString (qs_target _ q)); jfield "ok" (JBool (qs_ok _ q));
    jfield "duration_ms" (f_json (qs_duration_ms _ q)); jfield "error" (opt_json JString (qs_error _ q))].
Definition sync_json (s : SyncMetrics F) : json :=
  JObject [jfield "runs" (JNumber (sm_runs s)); jfield "indexed_blocks" (JNumber (sm_indexed_blocks s));
    jfield "bytes_read" (JNumber (sm_bytes_read s));
    jfield "last_started_at" (opt_json JNumber (last_started_unix _ s));
    jfield "last_finished_at" (opt_json JNumber (last_finished_unix _ s));
    jfield "last_indexed_blocks" (opt_json JNumber (last_indexed_blocks _ s));
    jfield "last_elapsed_ms" (opt_json f_json (last_elapsed_ms _ s));
    jfield "last_tip" (opt_json JString (last_tip _ s));
    jfield "last_error" (opt_json JString (last_sync_error _ s))].
Definition monitor_json {E} (started_unix uptime : Z) (chain_status electrum : json) (state : WebMonitor F)
    : outcome E json :=
  routes ← mapM route_json (by_name (wm_routes state));
  mret (JObject [jfield "ok" (JBool true); jfield "started_at" (JNumber started_unix);
    jfield "uptime_secs" (JNumber uptime); jfield "workers" (JNumber WORKERS);
    jfield "chain" chain_status; jfield "sync" (sync_json (wm_sync state));
    jfield "routes" (JArray routes); jfield "recent" (JArray (sample_json <$> wm_recent state));
    jfield "electrum" electrum]).
End monitor.

(** ** Helpers *)

(** [u8::from_str_radix] of two characters, which takes a leading plus sign. *)
Definition hex_pair (hi lo : Z) : option Z :=
  if hi =? 43 then hex_digit lo
  else match hex_digit hi, hex_digit lo with Some h, Some l => Some (h * 16 + l) | _, _ => None end.
(** A place of a string where a slice may begin or end. *)
Definition char_boundary (s : bytes) : bool := match s with [] => true | c :: _ => negb (is_cont c) end.
(** The loop of [pct_decode]; slicing within a character panics. *)
Fixpoint pct_bytes {E} (s : bytes) : outcome E bytes :=
  match s with
  | [] => Ok []
  | c :: s' =>
      match s' with
      | hi :: lo :: rest =>
          if c =? 37 then
            if char_boundary s' && char_boundary rest then
              match hex_pair hi lo with
              | Some b => rest ← pct_bytes rest; mret (b :: rest)
              | None => rest ← pct_bytes s'; mret (c :: rest)
              end
            else Panic "byte index is not a char boundary"
          else rest ← pct_bytes s'; mret (c :: rest)
      | _ => rest ← pct_bytes s'; mret (c :: rest)
      end
  end.
Definition pct_decode {E} (s : str) : outcome E str := from_utf8_lossy <$> pct_bytes s.

Definition err_json (e : str) : json :=
  JObject [jfield "ok" (JBool false); jfield "error" (JString e)].
Definition json_ok (j : json) : bool :=
  default false (v ← json_get j (lit "ok"); match v with JBool b => Some b | _ => None end).
Definition json_error (j : json) : option str :=
  v ← json_get j (lit "error"); match v with JString s => Some s | _ => None end.

(** [unwrap_or_else(err_json)] *)
Definition or_err_json {E} (r : outcome str json) : outcome E json :=
  match r with Ok j => Ok j | Err e => Ok (err_json e) | Panic m => Panic m end.

(** ** Queries *)

(** [chain.read()]: [None] when the lock is poisoned. *)
Definition chain_lock {A} (chain : option A) : outcome str A := ok_or (lit "chain lock") chain.

(** *** Address histories *)

Section queries.
Context {S W F : Type} `{HS : !Hashes, VI : !VarInt, SL : !Slices, SO : !ScriptOps, CS : !Consensus,
  RD : !RocksDB S, HA : !HttpAgent W, ST : !SliceTransactions, TX : !Transactions, SC : !Scripts,
  BT : !BlockHashText, TT : !TxidText, TP : !TxidParse, HX : !Hex, WT : !WebTexts}.

(** One transaction of the history, and the balance after it. *)
Definition address_tx (balance : Z) (row : DeltaRow) (time : Z) : json :=
  JObject [jfield "txid" (JString (txid_to_string (dr_txid row)));
    jfield "height" (JNumber (dr_height row)); jfield "block_offset" (JNumber (dr_offset row));
    jfield "time" (JNumber time); jfield "delta_sat" (JNumber (dr_delta row));
    jfield "delta_btc" (JString (signed_btc_text (dr_delta row)));
    jfield "balance_sat" (JNumber balance); jfield "balance_btc" (JString (btc_text balance))].
(** The loop over the rows; [i64] addition wraps. *)
Fixpoint address_txs (balance : Z) (rows : list DeltaRow) : outcome str (Z * list json) :=
  match rows with
  | [] => Ok (balance, [])
  | row :: rows =>
      let balance := as_i64 (balance + dr_delta row) in
      time ← ok_or (lit "bad header: " ++ header_error_text (dr_header row)) (header_time (dr_header row));
      '(last, txs) ← address_txs balance rows;
      mret (last, address_tx balance row time :: txs)
  end.
(** The answer, from the tables of the cache. *)
Definition address_report (address : str) (t : Tables) : outcome str json :=
  rows ← ok_or sqlite_overflow_text (delta_rows t);
  '(balance, txs) ← address_txs 0 rows;
  received ← ok_or sqlite_overflow_text
    (sql_sum (filter (λ a, 0 < a) (snd <$> map_to_list (tb_history t))));
  mret (JObject [jfield "ok" (JBool true); jfield "kind" (JString (lit "address"));
    jfield "address" (JString address); jfield "tx_count" (JNumber (Z.of_nat (length txs)));
    jfield "balance_sat" (JNumber balance); jfield "balance_btc" (JString (btc_text balance));
    jfield "total_received_btc" (JString (btc_text received)); jfield "txs" (JArray (reverse txs))]).

Definition parse_address (addr_str : str) : outcome str Address :=
  parsed ← ok_or (lit "invalid address " ++ debug_str addr_str ++ lit ": " ++
                  address_error_text (trim addr_str)) (address_from_str (trim addr_str));
  if (parsed : bytes * (network → bool)).2 NETWORK
  then Ok {| addr_script_pubkey := parsed.1; addr_text := address_to_string (trim addr_str) |}
  else Err (lit "wrong network for address: " ++ network_error_text (trim addr_str)).

(** A cache in memory, of this address alone. *)
Definition address_cache (chain : option (IndexedChain S)) (address : Address)
    : stM (Cache W) str () :=
  _ ← st_map_err (λ e, lit "cache add: " ++ cache_error_text e) (cache_add [address]);
  chain ← st_lift (chain_lock chain);
  st_map_err (λ e, lit "cache sync: " ++ cache_error_text e) (cache_sync chain).
Definition address_json (chain : option (IndexedChain S)) (addr_str : str) : stM W str json := λ n,
  match parse_address addr_str with
  | Ok address =>
      match cache_open None n with
      | (Ok _, cache) =>
          let '(r, cache) := address_cache chain address cache in
          (r ≫= λ _, address_report (addr_text address) (ca_tables cache), ca_node cache)
      | (Err e, cache) => (Err (lit "cache open: " ++ cache_error_text e), ca_node cache)
      | (Panic m, cache) => (Panic m, ca_node cache)
      end
  | Err e => (Err e, n)
  | Panic m => (Panic m, n)
  end.

(** *** Transactions *)

Definition output_json (o : bitcoin_txout) : json :=
  JObject [jfield "value_sat" (JNumber (btxout_value o)); jfield "value_btc" (JString (btc_text (btxout_value o)));
    jfield "address" (JString match address_from_script (btxout_script o) NETWORK with
                              | Some a => a
                              | None => lit "script:" ++ hex_encode (btxout_script o)
                              end)].
(** [u64] sums wrap. *)
Definition total_out (tx : rest_tx) : Z := wrap64 (sumZ (btxout_value <$> rx_outputs tx)).
Definition tx_report (id : hash32) (loc : Location) (raw : bytes) (tx : rest_tx) : json :=
  JObject [jfield "ok" (JBool true); jfield "kind" (JString (lit "tx"));
    jfield "txid" (JString (txid_to_string id)); jfield "height" (JNumber (loc_block_height loc));
    jfield "block_hash" (JString (block_hash_to_string (ih_hash (loc_indexed_header loc))));
    jfield "version" (JNumber (rx_version tx)); jfield "lock_time" (JNumber (rx_locktime tx));
    jfield "size" (JNumber (Z.of_nat (length raw))); jfield "weight" (JNumber (tx_weight tx));
    jfield "is_coinbase" (JBool (is_coinbase tx));
    jfield "input_count" (JNumber (Z.of_nat (length (rx_inputs tx))));
    jfield "output_count" (JNumber (Z.of_nat (length (rx_outputs tx))));
    jfield "total_out_sat" (JNumber (total_out tx)); jfield "total_out_btc" (JString (btc_text (total_out tx)));
    jfield "outputs" (JArray (output_json <$> rx_outputs tx))].

Definition web_fetch (chain : IndexedChain S) (loc : Location) : stM W str (bytes * rest_tx) :=
  raw ← st_map_err (λ e, lit "get tx: " ++ chain_error_text e) (get_tx_bytes chain loc);
  tx ← st_lift (map_err (λ e, lit "decode tx: " ++ e) (decode_tx raw));
  mret (raw, tx).
(** The loop: a candidate with another id is passed over. *)
Fixpoint find_web_tx (chain : IndexedChain S) (id : hash32) (locations : list Location) : stM W str json :=
  match locations with
  | [] => mret (JObject [jfield "ok" (JBool false);
                         jfield "error" (JString (lit "transaction not found in index"))])
  | loc :: locations =>
      '(raw, tx) ← web_fetch chain loc;
      if bool_decide (compute_txid tx = id) then mret (tx_report id loc raw tx)
      else find_web_tx chain id locations
  end.
Definition tx_json (chain : option (IndexedChain S)) (txid_str : str) : stM W str json :=
  id ← st_lift (ok_or (lit "invalid txid: " ++ txid_error_text (trim txid_str))
                  (txid_from_str (trim txid_str)));
  chain ← st_lift (chain_lock chain);
  locations ← st_lift (map_err (λ e, lit "lookup: " ++ chain_error_text e)
                         (locations_by_txid (E := chain_error slices_error) Release chain id));
  find_web_tx chain id locations.

Definition web_status_json (chain : option (IndexedChain S)) : outcome str json :=
  chain ← chain_lock chain;
  mret (JObject [jfield "ok" (JBool true);
    jfield "tip_hash" (JString (block_hash_to_string (tip_hash (ic_headers chain))));
    jfield "tip_height" (opt_json JNumber (tip_height (ic_headers chain)))]).

(** *** The Electrum server's monitor *)

Context `{SD : !Serde, JT : !JsonText}.

(** The snapshot file, or why it cannot be read. *)
Definition electrum_monitor_json (file : str + bytes) : json :=
  match file with
  | inr data => match json_from_slice data with Some v => v | None => err_json json_error_text end
  | inl e => err_json (lit "electrum monitor unavailable: " ++ e)
  end.
Definition reset_request : json :=
  JObject [jfield "jsonrpc" (JString (lit "2.0")); jfield "id" (JString (lit "bindex-web-reset"));
    jfield "method" (JString (lit "server.reset_monitor")); jfield "params" (JArray [])].
(** The line the server answers the request with, or why there is none. *)
Definition reset_electrum_monitor (reply : json → str + bytes) : outcome str json :=
  line ← match reply reset_request with inr line => Ok line | inl e => Err e end;
  response ← ok_or json_error_text (json_from_slice line);
  match json_get response (lit "error") with
  | Some error => Err (lit "electrum reset failed: " ++ json_to_string error)
  | None => mret (JObject [jfield "ok" (JBool true);
                           jfield "electrum" (default JNull (json_get response (lit "result")))])
  end.

(** ** Requests *)

Context `{MS : !Millis F, SF : !SnapshotFloats F}.

Inductive http_method := MethodGet | MethodPost | MethodOther.
#[export] Instance http_method_eq_dec : EqDecision http_method.
Proof. solve_decision. Defined.
Record WebRequest := { wr_method : http_method; wr_url : str }.
Record WebResponse := { ws_code : Z; ws_type : str; ws_body : bytes }.

(** What the workers and the syncer share. *)
Record WebState := {
  web_chain : option (IndexedChain S); web_node : W; web_monitor : WebMonitor F;
}.
(** What a request meets: the time it takes and the clock, the two pages, when
    the server started and for how long it is up, the file and the control
    connection of the Electrum server. *)
Record WebEnv := {
  we_duration_ms : F; we_now : Z; we_index_html : bytes; we_monitor_html : bytes;
  we_started_unix : Z; we_uptime : Z; we_monitor_file : str + bytes; we_control : json → str + bytes;
}.

Definition plain_text : str := lit "text/plain".
Definition html_type : str := lit "text/html; charset=utf-8".
Definition respond_json (j : json) : WebResponse :=
  {| ws_code := 200; ws_type := lit "application/json"; ws_body := json_to_string j |}.
Definition respond_plain (code : Z) (message : str) : WebResponse :=
  {| ws_code := code; ws_type := plain_text; ws_body := message |}.

(** [metrics.record_request], at the end of a branch of [handle]. *)
Definition recorded (env : WebEnv) (route target : str) (ok : bool) (error : option str)
    (s : WebState) : WebState :=
  {| web_chain := web_chain s; web_node := web_node s;
     web_monitor := web_record_request route target ok (we_duration_ms env) error (we_now env)
                      (web_monitor s) |}.
Definition answer_query (env : WebEnv) (route target : str) (j : json) (s : WebState)
    : WebResponse * WebState :=
  (respond_json j, recorded env route target (json_ok j) (json_error j) s).

(** A query on the node, its error as JSON. *)
Definition run_query (query : stM W str json) (s : WebState) : outcome str json * WebState :=
  let '(r, n) := query (web_node s) in
  (or_err_json r, {| web_chain := web_chain s; web_node := n; web_monitor := web_monitor s |}).

(** A result and the state after it: [Err] is not an answer of [handle]. *)
Definition st_of (o : outcome str json * WebState) (k : json → WebState → WebResponse * WebState)
    : outcome str WebResponse * WebState :=
  match o with
  | (Ok j, s) => let '(r, s) := k j s in (Ok r, s)
  | (Err e, s) => (Err e, s)
  | (Panic m, s) => (Panic m, s)
  end.

Definition handle_query (env : WebEnv) (route rest : str) (query : str → stM W str json) (s : WebState)
    : outcome str WebResponse * WebState :=
  match pct_decode rest with
  | Ok q => st_of (run_query (query q) s) (answer_query env route q)
  | Err e => (Err e, s)
  | Panic m => (Panic m, s)
  end.

Definition web_handle (env : WebEnv) (req : WebRequest) (s : WebState)
    : outcome str WebResponse * WebState :=
  let path := default [] (head (split_on 63 (wr_url req))) in
  if bool_decide (path = lit "/api/monitor/reset") && bool_decide (wr_method req = MethodPost) then
    let s := {| web_chain := web_chain s; web_node := web_node s;
                web_monitor := reset_request_metrics (web_monitor s) |} in
    st_of (or_err_json (reset_electrum_monitor (we_control env)), s)
      (answer_query env (lit "monitor_reset") (lit "/api/monitor/reset"))
  else if negb (bool_decide (wr_method req = MethodGet)) then
    (Ok (respond_plain 405 (lit "method not allowed")),
     recorded env (lit "method") path false (Some (lit "method not allowed")) s)
  else if bool_decide (path = lit "/") then
    (Ok {| ws_code := 200; ws_type := html_type; ws_body := we_index_html env |},
     recorded env (lit "page") (lit "/") true None s)
  else if bool_decide (path = lit "/monitor") then
    (Ok {| ws_code := 200; ws_type := html_type; ws_body := we_monitor_html env |},
     recorded env (lit "page") (lit "/monitor") true None s)
  else if bool_decide (path = lit "/api/status") then
    st_of (or_err_json (web_status_json (web_chain s)), s)
      (answer_query env (lit "status") (lit "/api/status"))
  else if bool_decide (path = lit "/api/monitor") then
    st_of (chain_status ← or_err_json (web_status_json (web_chain s));
           monitor_json (we_started_unix env) (we_uptime env) chain_status
             (electrum_monitor_json (we_monitor_file env)) (web_monitor s), s)
      (λ j s, (respond_json j, recorded env (lit "monitor") (lit "/api/monitor") true None s))
  else match strip_prefix (lit "/api/address/") path with
  | Some rest => handle_query env (lit "address") rest (address_json (web_chain s)) s
  | None =>
  match strip_prefix (lit "/api/tx/") path with
  | Some rest => handle_query env (lit "tx") rest (tx_json (web_chain s)) s
  | None =>
    (Ok (respond_plain 404 (lit "not found")),
     recorded env (lit "not_found") path false (Some (lit "not found")) s)
  end
  end.

(** ** The syncer *)

(** A round of [sync_loop]'s inner loop: whether it goes on. The times are those
    of the start, of the end and taken. *)
Definition sync_once (started finished : Z) (elapsed_ms : F) (s : WebState) : outcome str bool * WebState :=
  match web_chain s with
  | None => (Ok false, s)
  | Some chain =>
      let m := record_sync_start started (web_monitor s) in
      let '(r, (chain, n)) := Chain.sync 1000 (chain, web_node s) in
      let after m := {| web_chain := Some chain; web_node := n; web_monitor := m |} in
      match r with
      | Ok stats => (Ok (0 <? indexed_blocks stats), after (record_sync_success stats elapsed_ms finished m))
      | Err e => (Ok false, after (record_sync_error (chain_error_text e) finished m))
      | Panic msg => (Panic msg, {| web_chain := None; web_node := n; web_monitor := m |})
      end
  end.
(** The rounds under one write lock: until nothing is new or a round fails. *)
Inductive sync_rounds : WebState → WebState → Prop :=
| rounds_end s s' started finished ms :
    sync_once started finished ms s = (Ok false, s') → sync_rounds s s'
| rounds_more s s1 s' started finished ms :
    sync_once started finished ms s = (Ok true, s1) → sync_rounds s1 s' → sync_rounds s s'.
End queries.
