(* ===== verification/WebSpec.v ===== *)
(** * The web front end: what it answers

    The history answered for an address is exactly that of the chain; a
    transaction that is found is one of the chain; every request is counted
    once, and escapes in a path are undone. *)

From S2P Require Import Prelude External Text Utf8 Index TxPos HashIndex Fmt Headers Batch Store StoreSpec.
From S2P Require Import Client Chain ChainSpec ChainSync ChainQuery Cache CacheSpec CacheSync.
From S2P Require Import History HistorySpec.
From S2P Require Import Protocol Mempool ScriptFold Adapter Bitcoind Monitor MonitorSnapshot Server.
From S2P Require Import RestTypes Web.

(** ** Sums *)

Lemma as_i64_add a b : as_i64 (as_i64 a + b) = as_i64 (a + b).
Proof.
  unfold as_i64. replace ((a + 2 ^ 63) mod 2 ^ 64 - 2 ^ 63 + b + 2 ^ 63) with ((a + 2 ^ 63) mod 2 ^ 64 + b) by lia.
  rewrite Zplus_mod_idemp_l. f_equal. f_equal. lia.
Qed.

(** ** Histories of addresses *)

Section address.
Context {S W F : Type} `{HS : !Hashes, HSL : !HashLaws, SO : !ScriptOps, VI : !VarInt,
  VIL : !VarIntLaws, SL : !Slices, SLL : !SlicesLaws, CS : !Consensus, RD : !RocksDB S,
  RL : !RocksDBLaws S, HA : !HttpAgent W, NL : !NodeLaws W, ST : !SliceTransactions,
  STL : !SliceTransactionsLaws, TX : !Transactions, SC : !Scripts, BT : !BlockHashText,
  TT : !TxidText, TP : !TxidParse, HX : !Hex, WT : !WebTexts}.
Implicit Types (bs : list Batch) (t : Tables) (sh : hash32).

(** The rows of an address, in chain order. *)
Definition address_rows bs sh : list DeltaRow → Prop := history_rows (W := W) bs (eq sh).

(** The running balance ends at the sum, modulo 2^64. *)
Lemma address_txs_ok balance rows last txs :
  address_txs balance rows = Ok (last, txs) →
  (rows ≠ [] → last = as_i64 (balance + sumZ (dr_delta <$> rows))) ∧ (rows = [] → last = balance) ∧
  length txs = length rows.
Proof using Type.
  revert balance last txs. induction rows as [|row rows IH]; intros balance last txs; cbn [address_txs].
  { by intros [= <- <-]. }
  intros (time & _ & H)%bind_ok. apply bind_ok in H as ([l ts] & H & [= <- <-]).
  apply IH in H as (H1 & H2 & H3). split_and!; [|done|cbn; by f_equal]. intros _. cbn.
  destruct rows as [|r rows].
  - rewrite H2 by done. cbn. f_equal. lia.
  - rewrite H1, as_i64_add by done. f_equal. lia.
Qed.

(** A new cache of one address, synchronized. *)
Lemma address_cache_ok chain bs address (n : W) c c' :
  chain_inv (W := W) chain bs → cache_open None n = (Ok tt, c) →
  address_cache (Some chain) address c = (Ok tt, c') →
  exactly_rows (W := W) bs (eq (scripthash_new (addr_script_pubkey address))) (ca_tables c').
Proof using HSL NL RL SLL STL VIL.
  intros Hinv Hopen. unfold cache_open, run, begin_transaction, commit in Hopen. cbn in Hopen.
  injection Hopen as <-. unfold address_cache.
  intros (u & c1 & Hadd%st_map_err_ok & H)%st_bind_ok.
  apply st_bind_ok in H as (chain' & c2 & [[= ->] ->]%st_lift_ok & Hs%st_map_err_ok).
  unfold cache_add in Hadd. apply st_bind_ok in Hadd as (k & c2 & Hadd & [_ ->]%st_ret_ok).
  apply add_addresses_ok in Hadd as (Ht & Ho & _). cbn [ca_tables ca_open] in Ht, Ho.
  set (sh := scripthash_new (addr_script_pubkey address)).
  assert (cache_ok (W := W) [] (ca_tables c2)) as Hok.
  { rewrite Ht. apply add_watch_cache_ok; [by repeat constructor|apply empty_cache_ok]. }
  destruct (cache_sync_ok chain' [] bs c2 c') as (Hok' & _ & Hw & Hc); [by repeat constructor|done..|].
  assert (∀ s, is_Some (tb_watch (ca_tables c2) !! s) ↔ s = sh) as Hwatch.
  { intros s. rewrite Ht. cbn. rewrite (left_id_L ∅ (∪)). fold sh. split.
    - intros [x [[<- _]|[_ Hx]]%lookup_insert_Some]; [done|]. by rewrite lookup_empty in Hx.
    - intros ->. eexists. apply lookup_insert_eq. }
  split; [apply Hok'|]. intros key a. split.
  - intros Hk. destruct (to_watch _ (ro_tables _ _ (co_rows _ _ Hok')) _ _ Hk) as [x Hx].
    rewrite Hw in Hx. apply mk_is_Some, Hwatch in Hx.
    apply (Hc sh) in Hk as (m & He); [by exists m, sh|by apply Hwatch|done].
  - intros (m & ? & <- & He). apply (Hc sh); [by apply Hwatch|by eapply expected_key|by exists m].
Qed.

(** The answer to a query for an address. *)
Lemma address_json_ok chain bs text (n : W) j n' :
  chain_inv (W := W) chain bs → address_json (Some chain) text n = (Ok j, n') →
  ∃ address rows txs received, parse_address text = Ok address ∧
    address_rows bs (scripthash_new (addr_script_pubkey address)) rows ∧
    address_txs 0 rows = Ok (as_i64 (sumZ (dr_delta <$> rows)), txs) ∧
    j = JObject [jfield "ok" (JBool true); jfield "kind" (JString (lit "address"));
      jfield "address" (JString (addr_text address)); jfield "tx_count" (JNumber (Z.of_nat (length rows)));
      jfield "balance_sat" (JNumber (as_i64 (sumZ (dr_delta <$> rows))));
      jfield "balance_btc" (JString (btc_text (as_i64 (sumZ (dr_delta <$> rows)))));
      jfield "total_received_btc" (JString (btc_text received)); jfield "txs" (JArray (reverse txs))].
Proof using HSL NL RL SLL STL VIL.
  intros Hinv. unfold address_json.
  destruct (parse_address text) as [address| |] eqn:Ep; [|done..].
  destruct (cache_open None n) as [[[]| |] c] eqn:Eo; [|done..].
  destruct (address_cache (Some chain) address c) as [r c'] eqn:Ec. intros [= Hr <-].
  apply bind_ok in Hr as ([] & -> & Hr).
  pose proof (address_cache_ok _ _ _ _ _ _ Hinv Eo Ec) as Hos. unfold address_report in Hr.
  apply bind_ok in Hr as (rows & Hrows%ok_or_ok & Hr).
  apply bind_ok in Hr as ([balance txs] & Htxs & Hr).
  apply bind_ok in Hr as (received & _ & [= <-]).
  pose proof (address_txs_ok _ _ _ _ Htxs) as (H1 & H2 & Hlen).
  assert (balance = as_i64 (sumZ (dr_delta <$> rows))) as ->.
  { destruct rows as [|r rows]; [by rewrite H2|]. rewrite H1 by done. f_equal. }
  exists address, rows, txs, received. split_and!; [done| |done|by rewrite Hlen].
  eapply delta_rows_ok; [apply Hinv|done..].
Qed.

(** ** Transactions *)

(** The answer for an id: the first transaction of the chain that decodes to
    it, or none when there is none. *)
Definition web_located bs (id : hash32) (j : json) : Prop :=
  (∃ n i k h d tx spent (x : rest_tx), chain_tx (W := W) bs n i k h d tx spent ∧
     decode_tx (stx_raw tx) = Ok x ∧ compute_txid x = id ∧
     j = tx_report id (tx_location n i k h) (stx_raw tx) x) ∨
  ((∀ n i k h d tx spent, chain_tx (W := W) bs n i k h d tx spent →
      prefix_new (stx_txid tx) = prefix_new id →
      ∃ x : rest_tx, decode_tx (stx_raw tx) = Ok x ∧ compute_txid x ≠ id) ∧
   j = JObject [jfield "ok" (JBool false); jfield "error" (JString (lit "transaction not found in index"))]).

Lemma find_web_tx_ok chain bs id locs (n : W) j n' :
  chain_inv (W := W) chain bs → (∀ loc, loc ∈ locs → ∃ m i k h d tx sp,
    chain_tx (W := W) bs m i k h d tx sp ∧ loc = tx_location m i k h) →
  find_web_tx chain id locs n = (Ok j, n') →
  (∃ m i k h d tx spent (x : rest_tx), chain_tx (W := W) bs m i k h d tx spent ∧
     decode_tx (stx_raw tx) = Ok x ∧ compute_txid x = id ∧
     j = tx_report id (tx_location m i k h) (stx_raw tx) x) ∨
  ((∀ m i k h d tx spent, chain_tx (W := W) bs m i k h d tx spent → tx_location m i k h ∈ locs →
      ∃ x : rest_tx, decode_tx (stx_raw tx) = Ok x ∧ compute_txid x ≠ id) ∧
   j = JObject [jfield "ok" (JBool false); jfield "error" (JString (lit "transaction not found in index"))]).
Proof using HSL NL RL SLL VIL.
  intros Hinv. revert n. induction locs as [|loc locs IH]; intros n Hl; cbn [find_web_tx].
  { intros [-> _]%st_ret_ok. right. split; [|done]. by intros * _ ?%not_elem_of_nil. }
  intros ([raw t] & n1 & Hf & Hr)%st_bind_ok.
  destruct (Hl loc) as (m & i & k & h & d & tx & sp & Hct & ->); [left|].
  unfold web_fetch in Hf. apply st_bind_ok in Hf as (raw' & n2 & Hraw%st_map_err_ok & Hf).
  apply (get_tx_bytes_spec _ _ _ _ _ _ _ _ _ _ _ _ Hinv Hct) in Hraw as ->.
  apply st_bind_ok in Hf as (t' & n3 & [Ht%map_err_ok ->]%st_lift_ok & [[= -> ->] ->]%st_ret_ok).
  case_bool_decide as Hid.
  - apply st_ret_ok in Hr as [-> _]. left. by do 8 eexists.
  - apply IH in Hr as [Hr|[Hnone ->]]; [by left|right|intros; apply Hl; by right]. split; [|done].
    intros m' i' k' h' d' tx' sp' Hct' [Heq|Hin]%elem_of_cons; [|by eapply Hnone].
    injection Heq as -> Hi Hk ->. apply Nat2Z.inj in Hi as ->. apply Nat2Z.inj in Hk as ->.
    destruct (chain_tx_place _ _ _ _ _ _ _ _ _ _ _ _ _ (ci_batches _ _ Hinv) Hct Hct') as (_ & _ & <-).
    by exists t'.
Qed.

Lemma tx_json_ok chain bs text (n : W) j n' :
  chain_inv (W := W) chain bs → (∀ id, txid_from_str (trim text) = Some id → hash_wf id) →
  tx_json (Some chain) text n = (Ok j, n') →
  ∃ id, txid_from_str (trim text) = Some id ∧ web_located bs id j.
Proof using HSL NL RL SLL VIL.
  intros Hinv Hwf. unfold tx_json. intros (id & n1 & [Hid%ok_or_ok ->]%st_lift_ok & H)%st_bind_ok.
  apply st_bind_ok in H as (chain' & n2 & [[= ->] ->]%st_lift_ok & H).
  apply st_bind_ok in H as (locs & n2 & [Hl%map_err_ok ->]%st_lift_ok & H).
  exists id. split; [done|].
  destruct (locations_by_txid_spec (E := chain_error slices_error) chain' bs id Hinv (Hwf _ Hid))
    as (locs' & Hl' & _ & Hloc). rewrite Hl in Hl'. injection Hl' as <-.
  apply (find_web_tx_ok _ bs) in H as [H|[Hnone ->]]; [by left| |done|].
  - right. split; [|done]. intros m i k h d tx sp Hct Hp. eapply Hnone; [done|].
    apply Hloc. by do 7 eexists.
  - intros loc (m & i & k & h & d & tx & sp & Hct & _ & ->)%Hloc. by do 7 eexists.
Qed.
End address.

(** ** Escapes in paths *)

(** A text, and a way of writing it in a path: each byte as an escape or, if it
    is ASCII and no percent sign, as it is. *)
Inductive escaped : bytes → str → Prop :=
| escaped_nil : escaped [] []
| escaped_plain c s e : 0 ≤ c < 128 → c ≠ 37 → escaped s e → escaped (c :: s) (c :: e)
| escaped_byte c s e : is_u8 c → escaped s e →
    escaped (c :: s) (37 :: hex_char (c / 16) :: hex_char (c mod 16) :: e).

Lemma escaped_id s : is_ascii s → 37 ∉ s → escaped s s.
Proof.
  induction 1 as [|c s Hc _ IH]; [by constructor|]. intros [Hne Hs]%not_elem_of_cons.
  apply escaped_plain; [done|congruence|by apply IH].
Qed.

Lemma escaped_boundary s e : escaped s e → char_boundary e = true.
Proof.
  destruct 1 as [|c s e Hc _ _|]; [done| |done]. cbn. unfold is_cont, in_range.
  rewrite (proj2 (Z.leb_gt 128 c)) by lia. done.
Qed.

Lemma hex_char_plain d : 0 ≤ d < 16 → hex_char d ≠ 43 ∧ char_boundary [hex_char d] = true.
Proof.
  intros Hd. unfold hex_char, char_boundary, is_cont, in_range.
  destruct (Z.ltb_spec d 10); (split; [lia|]).
  - by rewrite (proj2 (Z.leb_gt 128 (48 + d))) by lia.
  - by rewrite (proj2 (Z.leb_gt 128 (87 + d))) by lia.
Qed.

Lemma pct_bytes_escaped {E} s e : escaped s e → pct_bytes (E := E) e = Ok s.
Proof.
  induction 1 as [|c s e Hc Hne He IH|c s e Hc He IH]; [done|..].
  - cbn [pct_bytes]. rewrite (proj2 (Z.eqb_neq c 37)) by done. rewrite IH.
    by destruct e as [|? [|? ?]].
  - assert (0 ≤ c / 16 < 16 ∧ 0 ≤ c mod 16 < 16) as [Hd Hm].
    { unfold is_u8 in Hc. split; [split; [apply Z.div_pos|apply Z.div_lt_upper_bound]; lia|].
      apply Z.mod_pos_bound. lia. }
    cbn [pct_bytes]. change (37 =? 37) with true. cbv match.
    destruct (hex_char_plain _ Hd) as [Hp Hb]. change (char_boundary (hex_char (c / 16) :: ?x))
      with (char_boundary [hex_char (c / 16)]).
    change (char_boundary (hex_char (c / 16) :: hex_char (c mod 16) :: e)) with (char_boundary [hex_char (c / 16)]).
    rewrite Hb, (escaped_boundary _ _ He). cbn [andb]. unfold hex_pair.
    rewrite (proj2 (Z.eqb_neq _ 43)) by done. rewrite !hex_digit_char by done. rewrite IH. osimpl.
    do 2 f_equal. rewrite (Z.div_mod c 16) at 3 by lia. lia.
Qed.

Lemma pct_decode_escaped {E} s e : is_ascii s → escaped s e → pct_decode (E := E) e = Ok s.
Proof. intros Ha He. unfold pct_decode. rewrite (pct_bytes_escaped _ _ He). osimpl. by rewrite ascii_lossy. Qed.

(** Decoding an ASCII path cannot panic. *)
Lemma pct_bytes_total {E} s : is_ascii s → ∃ r, pct_bytes (E := E) s = Ok r.
Proof.
  assert (∀ n s, (length s ≤ n)%nat → is_ascii s → ∃ r, pct_bytes (E := E) s = Ok r) as Hgen; [|by eapply Hgen].
  clear s. intros n. induction n as [|n IH]; intros s Hl Ha; [destruct s; [by exists []|cbn in Hl; lia]|].
  destruct s as [|c s]; [by exists []|]. cbn [length] in Hl.
  assert (∀ s, is_ascii s → char_boundary s = true) as Hb.
  { intros [|x l]; [done|]. intros [Hx _]%Forall_cons. cbn. unfold is_cont, in_range.
    by rewrite (proj2 (Z.leb_gt 128 x)) by lia. }
  pose proof Ha as [_ Has]%Forall_cons. destruct (IH s ltac:(lia) Has) as [r Hr].
  cbn [pct_bytes]. rewrite Hr. destruct s as [|hi [|lo rest]]; [by eexists..|].
  destruct (c =? 37); [|by eexists].
  pose proof Has as [_ [_ Hrest]%Forall_cons]%Forall_cons.
  rewrite (Hb (hi :: lo :: rest)), (Hb rest) by done. cbn [andb].
  destruct (IH rest ltac:(cbn in Hl; lia) Hrest) as [r' Hr'].
  destruct (hex_pair hi lo); [rewrite Hr'|]; by eexists.
Qed.

(** ** Requests *)

Section requests.
Context {S W F : Type} `{HS : !Hashes, HSL : !HashLaws, SO : !ScriptOps, VI : !VarInt,
  VIL : !VarIntLaws, SL : !Slices, SLL : !SlicesLaws, CS : !Consensus, RD : !RocksDB S,
  RL : !RocksDBLaws S, HA : !HttpAgent W, NL : !NodeLaws W, ST : !SliceTransactions,
  STL : !SliceTransactionsLaws, TX : !Transactions, SC : !Scripts, BT : !BlockHashText,
  TT : !TxidText, TP : !TxidParse, HX : !Hex, WT : !WebTexts, SD : !Serde, JT : !JsonText,
  MS : !Millis F, SF : !SnapshotFloats F}.
Implicit Types (env : WebEnv (F := F)) (s : WebState (S := S) (W := W) (F := F)).

Definition requests_of (m : WebMonitor F) : Z := sumZ (mm_count <$> (map_to_list (wm_routes m)).*2).

(** One sample is recorded, on [m]. *)
Definition recorded_on (m m' : WebMonitor F) (r : WebResponse) : Prop :=
  ∃ route target ok ms error now, m' = web_record_request route target ok ms error now m ∧
    (ws_code r ≠ 200 → ok = false).

Lemma st_of_ok (o : outcome str json * WebState (S := S) (W := W) (F := F)) k r s' :
  st_of o k = (Ok r, s') → ∃ j s, o = (Ok j, s) ∧ k j s = (r, s').
Proof using Type.
  unfold st_of. destruct o as [[j| |] s]; [|done..]. destruct (k j s) eqn:E. intros [= <- <-]. eauto.
Qed.

(** A request for fresh counters, and the monitor a request is counted on. *)
Definition asks_reset (req : WebRequest) : bool :=
  bool_decide (default [] (head (split_on 63 (wr_url req))) = lit "/api/monitor/reset") &&
  bool_decide (wr_method req = MethodPost).
Definition counted_on (req : WebRequest) (m : WebMonitor F) : WebMonitor F :=
  if asks_reset req then reset_request_metrics m else m.

(** A response is recorded once; the chain is not changed. *)
Lemma web_handle_recorded env req s r s' :
  web_handle env req s = (Ok r, s') →
  web_chain s' = web_chain s ∧ recorded_on (counted_on req (web_monitor s)) (web_monitor s') r.
Proof using Type.
  unfold web_handle, counted_on, asks_reset. set (path := default [] _).
  assert (∀ route target j (x : WebState (S := S) (W := W) (F := F)),
    web_chain x = web_chain s → answer_query env route target j x = (r, s') →
    web_chain s' = web_chain s ∧ recorded_on (web_monitor x) (web_monitor s') r) as Hanswer.
  { intros route target j x Hc [= <- <-]. split; [done|]. by do 6 eexists. }
  assert (∀ route rest query, handle_query env route rest query s = (Ok r, s') →
    web_chain s' = web_chain s ∧ recorded_on (web_monitor s) (web_monitor s') r) as Hquery.
  { intros route rest query. unfold handle_query. destruct (pct_decode rest); [|done..].
    intros (j & x & Hq & Ha)%st_of_ok. unfold run_query in Hq. destruct (query a (web_node s)) as [o n].
    injection Hq as _ <-. by apply Hanswer in Ha. }
  destruct (_ && _); [by intros (j & x & [= _ <-] & Ha%Hanswer)%st_of_ok|].
  repeat match goal with
  | |- (if ?b then _ else _) = _ → _ => destruct b
  | |- (match ?o with Some _ => _ | None => _ end) = _ → _ => destruct o
  end; try apply Hquery.
  1-3, 6: intros [= <- <-]; split; [done|]; by do 6 eexists.
  - by intros (j & x & [= _ <-] & Ha%Hanswer)%st_of_ok.
  - intros (j & x & [= _ <-] & [= <- <-])%st_of_ok. split; [done|]. by do 6 eexists.
Qed.

Lemma requests_of_record route target ok ms error now (m : WebMonitor F) :
  requests_of (web_record_request route target ok ms error now m) = requests_of m + 1.
Proof using Type.
  unfold requests_of. cbn [web_record_request wm_routes]. rewrite methods_sum_insert by done.
  cbn [metrics_record mm_count]. lia.
Qed.

(** Which query a path selects. *)
Lemma web_handle_query env (prefix route : str) (query : str → stM W str json) text enc s :
  (prefix = lit "/api/address/" ∧ route = lit "address" ∧ query = address_json (web_chain s)) ∨
  (prefix = lit "/api/tx/" ∧ route = lit "tx" ∧ query = tx_json (web_chain s)) →
  is_ascii text → escaped text enc → 63 ∉ enc →
  web_handle env {| wr_method := MethodGet; wr_url := prefix ++ enc |} s =
  st_of (run_query (query text) s) (answer_query env route text).
Proof using Type.
  intros Hp Ha He Hq. unfold web_handle. cbn [wr_method wr_url].
  assert (63 ∉ prefix) as Hpq.
  { destruct Hp as [(-> & _)|(-> & _)]; intros Hin; vm_compute in Hin;
      repeat (apply elem_of_cons in Hin as [Hin|Hin]; [lia|]); by apply not_elem_of_nil in Hin. }
  assert (∀ p : str, p !! 1%nat ≠ Some 97 ∨ (p !! 5%nat ≠ Some 97 ∧ p !! 5%nat ≠ Some 116) →
    prefix ++ enc ≠ p) as Hne.
  { intros p H <-. destruct Hp as [(-> & _)|(-> & _)]; cbn in H; naive_solver. }
  assert ((∃ r, strip_prefix (lit "/api/address/") (prefix ++ enc) = Some enc ∧ route = lit "address" ∧
            query = address_json (web_chain s) ∧ r = 0) ∨
          (strip_prefix (lit "/api/address/") (prefix ++ enc) = None ∧
           strip_prefix (lit "/api/tx/") (prefix ++ enc) = Some enc ∧ route = lit "tx" ∧
           query = tx_json (web_chain s))) as Hs.
  { destruct Hp as [(-> & -> & ->)|(-> & -> & ->)].
    - left. exists 0. split; [apply strip_prefix_app|done].
    - right. split; [by vm_compute|]. split; [apply strip_prefix_app|done]. }
  assert (split_on 63 (prefix ++ enc) = [prefix ++ enc]) as ->.
  { apply split_on_none. by intros [?|?]%elem_of_app. }
  remember (prefix ++ enc) as url eqn:Hurl. clear Hp Hpq Hurl.
  cbn [head default from_option id].
  rewrite !(bool_decide_eq_false_2 (url = _)) by (apply Hne; vm_compute; naive_solver).
  cbn [andb]. rewrite bool_decide_eq_true_2 by done. cbn [negb]. unfold handle_query.
  destruct Hs as [(_ & -> & -> & -> & _)|(-> & -> & -> & ->)]; by rewrite (pct_decode_escaped _ _ Ha He).
Qed.

(** A query's answer is recorded under its route and text. *)
Lemma run_query_ok env route (query : stM W str json) text s r s' :
  st_of (run_query query s) (answer_query env route text) = (Ok r, s') →
  ∃ j n, r = respond_json j ∧
    web_monitor s' = web_record_request route text (json_ok j) (we_duration_ms env) (json_error j)
                       (we_now env) (web_monitor s) ∧
    ((∃ e, query (web_node s) = (Err e, n) ∧ j = err_json e) ∨ query (web_node s) = (Ok j, n)).
Proof using Type.
  intros (j & x & Hr & [= <- <-])%st_of_ok. unfold run_query in Hr.
  destruct (query (web_node s)) as [o n] eqn:Eq. injection Hr as Ho <-.
  exists j, n. split_and!; [done..|]. destruct o as [j'|e|]; cbn in Ho; injection Ho as <- || done.
  - by right.
  - left. by exists e.
Qed.

(** A round of the syncer on a chain in step. *)
Lemma sync_once_ok chain bs s started finished ms more s' :
  chain_inv (W := W) chain bs → web_chain s = Some chain →
  sync_once started finished ms s = (Ok more, s') →
  ∃ chain' bs', web_chain s' = Some chain' ∧
    let m := wm_sync (web_monitor s') in
    match last_sync_error _ m with
    | None => chain_inv (W := W) chain' bs' ∧
        last_tip _ m = Some (block_hash_to_string (tip_hash (ic_headers chain'))) ∧
        ∃ n, last_indexed_blocks _ m = Some n ∧ 0 ≤ n ∧ more = (0 <? n)
    | Some _ => more = false ∧ (chain_inv (W := W) chain' bs' ∨ out_of_step chain' bs')
    end.
Proof using HSL NL RL SLL VIL.
  intros Hinv Hc. unfold sync_once. rewrite Hc.
  destruct (Chain.sync 1000 (chain, web_node s)) as [r [chain' n]] eqn:Es.
  pose proof (sync_spec _ _ _ _ _ _ _ Hinv Es) as Hs.
  destruct r as [stats|e|]; intros [= <- <-]; cbn.
  - destruct Hs as (kept & new & _ & Hi & Ht & Hn). exists chain', (kept ++ new).
    split; [done|]. split; [done|]. rewrite Ht. split; [done|]. eexists. split; [done|]. split; [|done].
    rewrite Hn. unfold wrap64. apply Z.mod_pos_bound. lia.
  - destruct Hs as [bs' Hs]. by exists chain', bs'.
Qed.
End requests.
