(* ===== verification/Cli.v ===== *)
(** * The command-line tool

    [bindex-cli/src/bin/bindex-cli.rs]: an index and an address cache kept in
    step with the node, and the history of the watched addresses printed when
    the tip changes. Parsing the command line, reading the file of addresses and
    drawing the table are input and output. *)

From S2P Require Import Prelude External Text Utf8 Index Fmt Headers Batch Store Client Chain Cache History.
From S2P Require Import Protocol Mempool Adapter Bitcoind RestTypes.

Inductive cli_error `{Slices} :=
| CliSqlite
| CliCache (e : cache_error)
| CliChain (e : chain_error slices_error)
| CliAddress (text : str)
| CliIo.
Arguments CliSqlite {_}.
Arguments CliCache {_} e.
Arguments CliChain {_} e.
Arguments CliAddress {_} text.
Arguments CliIo {_}.

(** The texts of times, amounts and addresses. *)
Class CliTexts := {
  utc_text : Z → str;                    (* [{}] of a [DateTime<Utc>] *)
  delta_text : Z → str;                  (* [{:+.8}] of satoshis in BTC *)
  balance_text : Z → str;                (* [{:.8}] *)
  address_canonical : str → str;         (* [to_string] of the address a text parses to *)
}.

(** A row of the table that is printed. *)
Record Entry := {
  en_txid : str; en_time : str; en_height : str; en_offset : str; en_delta : str; en_balance : str;
}.
Definition entry_dots : Entry :=
  let s := lit "..." in
  {| en_txid := s; en_time := s; en_height := s; en_offset := s; en_delta := s; en_balance := s |}.

Section cli.
Context {S W : Type} `{HS : !Hashes, VI : !VarInt, SL : !Slices, SO : !ScriptOps, CS : !Consensus,
  RD : !RocksDB S, HA : !HttpAgent W, ST : !SliceTransactions, TX : !Transactions, SC : !Scripts,
  TT : !TxidText, CT : !CliTexts}.
Abbreviation result := (outcome cli_error).

#[export] Instance Address_eq_dec : EqDecision Address.
Proof. solve_decision. Defined.

(** ** [get_history] *)

(** [SignedAmount] addition panics on overflow. *)
Definition signed_add {E} (a b : Z) : outcome E Z :=
  if in_i64 (a + b) then Ok (a + b) else Panic "SignedAmount addition error".
(** The closure over the rows, with the balance it captures. *)
Fixpoint entries_of_rows (balance : Z) (rows : list DeltaRow) : result (Z * list Entry) :=
  match rows with
  | [] => mret (balance, [])
  | row :: rows =>
      balance ← signed_add balance (dr_delta row);
      time ← expect "bad header bytes" (header_time (dr_header row));
      '(last, entries) ← entries_of_rows balance rows;
      mret (last, {| en_txid := txid_to_string (dr_txid row); en_time := utc_text time;
                     en_height := show_unsigned (dr_height row);
                     en_offset := show_unsigned (dr_offset row);
                     en_delta := delta_text (dr_delta row); en_balance := balance_text balance |} :: entries)
  end.
Definition history_amounts (t : Tables) : list Z := (map_to_list (tb_history t)).*2.
Definition get_history (t : Tables) : result (list Entry) :=
  let addresses := size (tb_watch t) in
  if bool_decide (addresses = 0%nat) then mret []
  else
    rows ← ok_or CliSqlite (delta_rows t);
    '(balance, entries) ← entries_of_rows 0 rows;
    _ ← assert_that "assertion failed: !balance.is_negative()" (0 <=? balance);
    balance_check ← ok_or CliSqlite (sql_sum (history_amounts t));
    _ ← assert_that "assertion left == right failed" (balance_check =? balance);
    utxos ← ok_or CliSqlite (sql_sum (Z.sgn <$> history_amounts t));
    _ ← ok_or CliSqlite (if 0 <=? utxos then Some utxos else None);
    mret entries.

(** [print_history]: the rows of the table, [None] when nothing is printed. *)
Definition print_history (entries : list Entry) (history_limit : nat) : option (list Entry) :=
  if bool_decide (0 < history_limit)%nat then
    let is_truncated := bool_decide (history_limit < length entries)%nat in
    let entries := take history_limit (reverse entries) in
    let entries := if is_truncated then entries ++ [entry_dots] else entries in
    match entries with [] => None | _ => Some entries end
  else None.

(** ** [collect_addresses] *)

(** The text of the file, of the standard input for [-], or none. *)
Definition address_text (address_file stdin : option str) (read_to_string : str → option str) : result str :=
  match address_file with
  | None => mret []
  | Some path => ok_or CliIo (if bool_decide (path = lit "-") then stdin else read_to_string path)
  end.
Definition collect_address (network : network) (addr : str) : result Address :=
  parsed ← ok_or (CliAddress addr) (address_from_str addr);
  if (parsed : bytes * (Chain.network → bool)).2 network
  then mret {| addr_script_pubkey := parsed.1; addr_text := address_canonical addr |}
  else Err (CliAddress addr).
(** The addresses of the [HashSet], in the order of the text. *)
Definition collect_addresses (network : network) (text : str) : result (list Address) :=
  addresses ← mapM (collect_address network) (split_whitespace text);
  mret (remove_dups addresses).

(** ** [run] *)

(** What [run] keeps; the tables it printed, and the node, in the cache. *)
Record CliState := {
  cl_chain : IndexedChain S; cl_cache : Cache W; cl_tip : hash32; cl_first : bool;
  cl_printed : list (list Entry);
}.
Definition with_cache (c : Cache W) (s : CliState) : CliState :=
  {| cl_chain := cl_chain s; cl_cache := c; cl_tip := cl_tip s; cl_first := cl_first s;
     cl_printed := cl_printed s |}.
Definition with_node (n : W) (c : Cache W) : Cache W :=
  {| ca_tables := ca_tables c; ca_open := ca_open c; ca_node := n |}.
Definition cli_start (chain : IndexedChain S) (c : Cache W) : CliState :=
  {| cl_chain := chain; cl_cache := c; cl_tip := tip_hash (ic_headers chain); cl_first := true;
     cl_printed := [] |}.

(** [chain.sync(1000)?] *)
Definition cli_sync (s : CliState) : result Stats * CliState :=
  let '(r, (chain, n)) := Chain.sync 1000 (cl_chain s, ca_node (cl_cache s)) in
  (map_err CliChain r,
   {| cl_chain := chain; cl_cache := with_node n (cl_cache s); cl_tip := cl_tip s;
      cl_first := cl_first s; cl_printed := cl_printed s |}).
(** [while chain.sync(1000)?.indexed_blocks > 0 {}] *)
Inductive catch_up : CliState → result () → CliState → Prop :=
| catch_up_done s stats s' :
    cli_sync s = (Ok stats, s') → indexed_blocks stats = 0 → catch_up s (Ok tt) s'
| catch_up_more s stats s1 r s' :
    cli_sync s = (Ok stats, s1) → 0 < indexed_blocks stats → catch_up s1 r s' → catch_up s r s'
| catch_up_error s e s' : cli_sync s = (Err e, s') → catch_up s (Err e) s'
| catch_up_panic s msg s' : cli_sync s = (Panic msg, s') → catch_up s (Panic msg) s'.

(** [cache.sync(&chain)?] *)
Definition cli_cache_sync : stM CliState cli_error () := λ s,
  let '(r, c) := cache_sync (cl_chain s) (cl_cache s) in (map_err CliCache r, with_cache c s).
(** The history is printed when the tip changed, and the first time. *)
Definition cli_show (history_limit : nat) : stM CliState cli_error () := λ s,
  let tip := tip_hash (ic_headers (cl_chain s)) in
  if negb (bool_decide (cl_tip s = tip)) || cl_first s then
    let '(r, tip, printed) := match get_history (ca_tables (cl_cache s)) with
      | Ok entries => (Ok tt, tip, from_option (λ t, [t]) [] (print_history entries history_limit))
      | Err e => (Err e, cl_tip s, [])
      | Panic msg => (Panic msg, cl_tip s, [])
      end in
    (r, {| cl_chain := cl_chain s; cl_cache := cl_cache s; cl_tip := tip; cl_first := false;
           cl_printed := cl_printed s ++ printed |})
  else (Ok tt, s).
Definition cli_update (history_limit : nat) : stM CliState cli_error () :=
  _ ← cli_cache_sync; cli_show history_limit.
(** A round of the loop, up to the sleep. *)
Inductive cli_round (history_limit : nat) : CliState → result () → CliState → Prop :=
| round_fails s r s' : catch_up s r s' → r ≠ Ok tt → cli_round history_limit s r s'
| round_updates s s1 r s' :
    catch_up s (Ok tt) s1 → cli_update history_limit s1 = (r, s') → cli_round history_limit s r s'.
End cli.
