(* ===== verification/CliSpec.v ===== *)
(** * The command-line tool: what it prints

    The history is computed without an error: sums neither overflow nor become
    negative, since an output is spent once at most. A round prints the history
    of the chain it synchronized. *)

From S2P Require Import Prelude External Text Utf8 Index TxPos HashIndex Fmt Headers Batch Store StoreSpec.
From S2P Require Import Client Chain ChainSpec ChainSync ChainQuery Cache CacheSpec CacheSync.
From S2P Require Import History HistorySpec Protocol Mempool Adapter Bitcoind RestTypes Cli.

(** ** Sums that do not overflow *)

Definition pos_part (a : Z) : Z := Z.max 0 a.
Definition neg_part (a : Z) : Z := Z.max 0 (- a).
Definition pos_sum (l : list Z) : Z := sumZ (pos_part <$> l).
Definition neg_sum (l : list Z) : Z := sumZ (neg_part <$> l).

Lemma pos_part_nonneg a : 0 ≤ pos_part a.
Proof. unfold pos_part. lia. Qed.
Lemma neg_part_nonneg a : 0 ≤ neg_part a.
Proof. unfold neg_part. lia. Qed.
Lemma pos_sum_nonneg l : 0 ≤ pos_sum l.
Proof. apply sumZ_nonneg, Forall_fmap, Forall_true, pos_part_nonneg. Qed.
Lemma neg_sum_nonneg l : 0 ≤ neg_sum l.
Proof. apply sumZ_nonneg, Forall_fmap, Forall_true, neg_part_nonneg. Qed.
Lemma pos_sum_cons a l : pos_sum (a :: l) = pos_part a + pos_sum l.
Proof. done. Qed.
Lemma neg_sum_cons a l : neg_sum (a :: l) = neg_part a + neg_sum l.
Proof. done. Qed.
Lemma sum_pos_neg l : sumZ l = pos_sum l - neg_sum l.
Proof.
  induction l as [|a l IH]; [done|]. rewrite pos_sum_cons, neg_sum_cons. cbn [sumZ].
  unfold pos_part, neg_part. lia.
Qed.

Lemma sql_sum_total_from l s :
  s + pos_sum l < 2 ^ 63 → - 2 ^ 63 ≤ s - neg_sum l →
  foldl (λ s a, s ← s; if in_i64 (s + a) then Some (s + a) else None) (Some s) l = Some (s + sumZ l).
Proof.
  revert s. induction l as [|a l IH]; intros s Hp Hn; cbn [foldl sumZ]; [f_equal; lia|].
  pose proof (pos_sum_nonneg l). pose proof (neg_sum_nonneg l).
  rewrite pos_sum_cons in Hp. rewrite neg_sum_cons in Hn. unfold pos_part, neg_part in *.
  cbn [mbind option_bind]. assert (in_i64 (s + a) = true) as ->.
  { unfold in_i64. apply andb_true_iff. rewrite Z.leb_le, Z.ltb_lt. lia. }
  rewrite IH; [f_equal|..]; lia.
Qed.
Lemma sql_sum_total l : pos_sum l < 2 ^ 63 → neg_sum l ≤ 2 ^ 63 → sql_sum l = Some (sumZ l).
Proof. intros Hp Hn. unfold sql_sum. rewrite sql_sum_total_from; [done|lia..]. Qed.

(** Signs sum up to less than amounts. *)
Lemma sgn_sums l : pos_sum (Z.sgn <$> l) ≤ pos_sum l ∧ neg_sum (Z.sgn <$> l) ≤ neg_sum l.
Proof.
  induction l as [|a l [IH1 IH2]]; [done|]. rewrite fmap_cons, !pos_sum_cons, !neg_sum_cons.
  unfold pos_part, neg_part. lia.
Qed.

(** A part of a list sums up to less. *)
Lemma sumZ_filter_le {A} (P : A → Prop) `{!∀ x, Decision (P x)} (f : A → Z) l :
  (∀ x, 0 ≤ f x) → sumZ (f <$> filter P l) ≤ sumZ (f <$> l).
Proof.
  intros Hf. induction l as [|x l IH]; [done|]. rewrite filter_cons. pose proof (Hf x).
  case_decide; cbn; lia.
Qed.
(** A sum is that of its parts by key. *)
Lemma sumZ_parts {A K} `{EqDecision K} (key : A → K) (f : A → Z) l places :
  NoDup places → (∀ x, x ∈ l → key x ∈ places) →
  sumZ ((λ p, sumZ (f <$> filter (λ x, key x = p) l)) <$> places) = sumZ (f <$> l).
Proof.
  intros Hnd. induction l as [|x l IH]; intros Hin.
  { cbn. clear. induction places as [|p places IH]; [done|]. cbn. rewrite IH. lia. }
  assert (key x ∈ places) as Hx by (apply Hin; left).
  specialize (IH ltac:(intros y Hy; apply Hin; by right)). cbn [fmap list_fmap sumZ]. rewrite <-IH.
  clear IH Hin. induction Hnd as [|p places Hn _ IHp]; [by apply elem_of_nil in Hx|].
  cbn [fmap list_fmap sumZ]. rewrite filter_cons. apply elem_of_cons in Hx as [<-|Hx].
  - rewrite decide_True by done. cbn [fmap list_fmap sumZ].
    assert (∀ ps, key x ∉ ps → sumZ ((λ p, sumZ (f <$> filter (λ x, key x = p) (x :: l))) <$> ps) =
      sumZ ((λ p, sumZ (f <$> filter (λ x, key x = p) l)) <$> ps)) as Hrest.
    { clear. induction ps as [|q ps IH]; [done|]. intros [Hq Hps]%not_elem_of_cons.
      cbn [fmap list_fmap sumZ]. rewrite filter_cons, decide_False by done. rewrite <-IH by done. done. }
    rewrite Hrest by done. lia.
  - rewrite decide_False by (by intros <-). rewrite IHp by done. lia.
Qed.

(** ** The amounts of a history *)

Section amounts.
Implicit Types m : gmap HistoryKey Z.

(** Rows of spendings are matched with the rows of the outputs they spend. *)
Record matched m (R : HistoryKey → HistoryKey → Prop) : Prop := {
  ma_output k a : m !! k = Some a → hk_is_output k = true → 0 ≤ a;
  ma_spending k a : m !! k = Some a → hk_is_output k = false →
    ∃ f, R k f ∧ hk_is_output f = true ∧ m !! f = Some (- a);
  ma_once k k' f : R k f → R k' f → k = k';
}.

Lemma matched_outputs m R (l : list (HistoryKey * Z)) :
  matched m R → NoDup l.*1 → Forall (λ e, m !! e.1 = Some e.2 ∧ hk_is_output e.1 = false) l →
  ∃ fs : list (HistoryKey * Z), NoDup fs.*1 ∧ Forall2 (λ e f, R e.1 f.1 ∧ f.2 = - e.2) l fs ∧
    Forall (λ e, m !! e.1 = Some e.2 ∧ hk_is_output e.1 = true) fs.
Proof.
  intros Hm Hnd Hl. induction Hl as [|[k a] l [Hk Ho] _ IH].
  { exists []. split_and!; [constructor|constructor|constructor]. }
  apply NoDup_cons in Hnd as [Hn Hnd]. destruct (IH Hnd) as (fs & Hfs & HR & Hall).
  destruct (ma_spending _ _ Hm _ _ Hk Ho) as (f & Hkf & Hof & Hf).
  exists ((f, - a) :: fs). split_and!; [|by constructor|by constructor].
  apply NoDup_cons. split; [|done]. intros ([f' x] & Heq & Hin)%list_elem_of_fmap. cbn in Heq. subst f'.
  destruct (list_elem_of_lookup_1 _ _ Hin) as [i Hi].
  destruct (Forall2_lookup_r _ _ _ _ _ HR Hi) as ([k' a'] & Hk' & Hr & _). cbn in Hr.
  apply Hn, list_elem_of_fmap. exists (k', a'). split; [by eapply ma_once|by eapply list_elem_of_lookup_2].
Qed.

(** What is spent was paid before; [w] is the amount or its sign. *)
Lemma matched_sum m R (w : Z → Z) :
  matched m R → (∀ a, w (- a) = - w a) → (∀ a, 0 ≤ a → 0 ≤ w a) →
  0 ≤ sumZ (w <$> (map_to_list m).*2).
Proof.
  intros Hm Hodd Hpos. set (l := map_to_list m).
  set (outs := filter (λ e : HistoryKey * Z, hk_is_output e.1 = true) l).
  set (spends := filter (λ e : HistoryKey * Z, ¬ hk_is_output e.1 = true) l).
  assert (sumZ (w <$> l.*2) = sumZ (w <$> outs.*2) + sumZ (w <$> spends.*2)) as ->.
  { rewrite <-sumZ_app, <-!fmap_app. apply sumZ_perm. do 2 f_equiv. symmetry. apply filter_app_complement. }
  assert (∀ e, e ∈ l → m !! e.1 = Some e.2) as Hl by (by intros [k a] Hin%elem_of_map_to_list).
  destruct (matched_outputs m R spends Hm) as (fs & Hnd & HR & Hfs).
  { eapply sublist_NoDup; [apply (NoDup_fst_map_to_list m)|]. apply fmap_sublist, sublist_filter. }
  { apply Forall_forall. intros e [Ho He]%list_elem_of_filter. split; [by apply Hl|].
    by destruct (hk_is_output e.1). }
  assert (sumZ (w <$> spends.*2) = - sumZ (w <$> fs.*2)) as ->.
  { clear -HR Hodd. induction HR as [|e f s fs [_ Hf] _ IH]; [done|].
    rewrite !fmap_cons, Hf, Hodd. cbn [sumZ]. lia. }
  assert (fs ⊆+ outs) as [rest Hrest]%submseteq_Permutation.
  { apply NoDup_submseteq; [by eapply NoDup_fmap_1|]. intros [k a] Hin.
    rewrite Forall_forall in Hfs. destruct (Hfs _ Hin) as [Hk Ho]. apply list_elem_of_filter.
    split; [done|]. by apply elem_of_map_to_list. }
  assert (sumZ (w <$> outs.*2) = sumZ (w <$> fs.*2) + sumZ (w <$> rest.*2)) as ->.
  { rewrite <-sumZ_app, <-!fmap_app. apply sumZ_perm. by do 2 f_equiv. }
  assert (0 ≤ sumZ (w <$> rest.*2)); [|lia]. apply sumZ_nonneg, Forall_fmap, Forall_fmap, Forall_forall.
  intros [k a] Hin. apply Hpos. assert ((k, a) ∈ outs) as [Ho Hk]%list_elem_of_filter.
  { rewrite Hrest. apply elem_of_app. by right. }
  by eapply (ma_output _ _ Hm); [apply (Hl _ Hk)|].
Qed.
End amounts.

(** ** The query never overflows *)

Section query.
Implicit Types t : Tables.

Lemma amounts_at_parts (f : Z → Z) t :
  sumZ ((λ p, sumZ (f <$> amounts_at t p)) <$> history_places t) = sumZ (f <$> history_amounts t).
Proof.
  unfold amounts_at, history_amounts. rewrite <-list_fmap_compose.
  rewrite <-(sumZ_parts (λ e : HistoryKey * Z, row_place e.1) (f ∘ snd) (map_to_list (tb_history t))
    (history_places t)).
  - f_equal. apply list_fmap_ext. intros i p _. by rewrite <-list_fmap_compose.
  - destruct (history_places_ok t) as [Hs _]. revert Hs. generalize (history_places t). intros l Hs.
    induction Hs as [|p l _ IH Hp]; constructor; [|done]. intros Hin. rewrite Forall_forall in Hp.
    specialize (Hp _ Hin). unfold place_lt in Hp. lia.
  - intros [key a] Hin%elem_of_map_to_list. apply history_places_ok. by exists key, a.
Qed.

Lemma sumZ_le {A} (f g : A → Z) l : (∀ x, f x ≤ g x) → sumZ (f <$> l) ≤ sumZ (g <$> l).
Proof.
  intros Hfg. induction l as [|x l IH]; [done|]. rewrite !fmap_cons. cbn [sumZ]. pose proof (Hfg x). lia.
Qed.
Lemma amounts_at_le (f : Z → Z) t place :
  (∀ a, 0 ≤ f a) → sumZ (f <$> amounts_at t place) ≤ sumZ (f <$> history_amounts t).
Proof.
  intros Hf. unfold amounts_at, history_amounts. rewrite <-!list_fmap_compose.
  apply (sumZ_filter_le _ (f ∘ snd)). intros [? ?]. apply Hf.
Qed.

(** Less than [2^63] was paid, and not more was spent. *)
Record amounts_bounded t : Prop := {
  ab_paid : pos_sum (history_amounts t) < 2 ^ 63;
  ab_spent : neg_sum (history_amounts t) ≤ pos_sum (history_amounts t);
}.

Lemma delta_rows_total t : amounts_bounded t → is_Some (delta_rows t).
Proof.
  intros [Hp Hn]. unfold delta_rows. assert (is_Some (mapM (delta_row t) (history_places t))) as [os ->];
    [|by eexists]. apply mapM_is_Some, Forall_true. intros place. unfold compose, delta_row.
  rewrite sql_sum_total; [by eexists|..].
  - pose proof (amounts_at_le pos_part t place pos_part_nonneg). unfold pos_sum in *. lia.
  - pose proof (amounts_at_le neg_part t place neg_part_nonneg). unfold pos_sum, neg_sum in *. lia.
Qed.

Lemma deltas_bounded t :
  let deltas := (λ p, sumZ (amounts_at t p)) <$> history_places t in
  sumZ deltas = sumZ (history_amounts t) ∧ pos_sum deltas ≤ pos_sum (history_amounts t) ∧
  neg_sum deltas ≤ neg_sum (history_amounts t).
Proof.
  cbv zeta. split; [|split].
  - pose proof (amounts_at_parts id t) as H. rewrite list_fmap_id in H. rewrite <-H. f_equal.
    apply list_fmap_ext. intros i p _. by rewrite list_fmap_id.
  - unfold pos_sum at 2. rewrite <-(amounts_at_parts pos_part t). unfold pos_sum.
    rewrite <-list_fmap_compose. apply sumZ_le. intros p. unfold compose.
    pose proof (sum_pos_neg (amounts_at t p)). pose proof (pos_sum_nonneg (amounts_at t p)).
    pose proof (neg_sum_nonneg (amounts_at t p)). unfold pos_sum in *. unfold pos_part at 1. lia.
  - unfold neg_sum at 2. rewrite <-(amounts_at_parts neg_part t). unfold neg_sum.
    rewrite <-list_fmap_compose. apply sumZ_le. intros p. unfold compose.
    pose proof (sum_pos_neg (amounts_at t p)). pose proof (pos_sum_nonneg (amounts_at t p)).
    pose proof (neg_sum_nonneg (amounts_at t p)). unfold neg_sum in *. unfold neg_part at 1. lia.
Qed.
End query.

Section entries.
Context `{SL : !Slices, TX : !Transactions, SC : !Scripts, TT : !TxidText, CT : !CliTexts}.

(** What is printed for the rows: each with its time, and the balance after it. *)
Definition shows (rows : list DeltaRow) (entries : list Entry) : Prop :=
  length entries = length rows ∧
  ∀ k row, rows !! k = Some row → ∃ time, header_time (dr_header row) = Some time ∧
    entries !! k = Some {| en_txid := txid_to_string (dr_txid row); en_time := utc_text time;
      en_height := show_unsigned (dr_height row); en_offset := show_unsigned (dr_offset row);
      en_delta := delta_text (dr_delta row);
      en_balance := balance_text (sumZ (dr_delta <$> take (S k) rows)) |}.

Lemma entries_of_rows_total balance rows :
  balance + pos_sum (dr_delta <$> rows) < 2 ^ 63 → - 2 ^ 63 ≤ balance - neg_sum (dr_delta <$> rows) →
  Forall (λ row, is_Some (header_time (dr_header row))) rows →
  ∃ entries, entries_of_rows balance rows = Ok (balance + sumZ (dr_delta <$> rows), entries).
Proof using Type.
  intros Hp Hn Hh. revert balance Hp Hn. induction Hh as [|row rows [time Ht] _ IH]; intros balance Hp Hn.
  { exists []. cbn. do 2 f_equal. lia. }
  rewrite fmap_cons in *. rewrite pos_sum_cons in Hp. rewrite neg_sum_cons in Hn.
  pose proof (pos_sum_nonneg (dr_delta <$> rows)). pose proof (neg_sum_nonneg (dr_delta <$> rows)).
  destruct (IH (balance + dr_delta row)) as [entries He]; [unfold pos_part, neg_part in *; lia..|].
  cbn [entries_of_rows]. unfold signed_add.
  assert (in_i64 (balance + dr_delta row) = true) as ->.
  { unfold in_i64. apply andb_true_iff. rewrite Z.leb_le, Z.ltb_lt. unfold pos_part, neg_part in *. lia. }
  osimpl. rewrite Ht. osimpl. rewrite He. osimpl. eexists. cbn [sumZ]. do 2 f_equal. lia.
Qed.

Lemma entries_of_rows_ok balance rows last entries :
  entries_of_rows balance rows = Ok (last, entries) →
  last = balance + sumZ (dr_delta <$> rows) ∧ length entries = length rows ∧
  ∀ k row, rows !! k = Some row → ∃ time, header_time (dr_header row) = Some time ∧
    entries !! k = Some {| en_txid := txid_to_string (dr_txid row); en_time := utc_text time;
      en_height := show_unsigned (dr_height row); en_offset := show_unsigned (dr_offset row);
      en_delta := delta_text (dr_delta row);
      en_balance := balance_text (balance + sumZ (dr_delta <$> take (S k) rows)) |}.
Proof using Type.
  revert balance last entries. induction rows as [|row rows IH]; intros balance last entries; cbn [entries_of_rows].
  { intros [= <- <-]. split; [cbn; lia|]. done. }
  intros (b & Hb & H)%bind_ok. unfold signed_add in Hb. destruct (in_i64 _); [|done]. injection Hb as <-.
  apply bind_ok in H as (time & Ht%expect_ok & H). apply bind_ok in H as ([l es] & H & [= <- <-]).
  apply IH in H as (-> & Hlen & Hrows). split; [rewrite fmap_cons; cbn [sumZ]; lia|]. split; [cbn; by f_equal|].
  intros [|k] r Hr; cbn in Hr.
  - injection Hr as <-. exists time. split; [done|]. cbn. rewrite take_0. cbn. do 4 f_equal. lia.
  - destruct (Hrows k r Hr) as (time' & Ht' & He). exists time'. split; [done|]. etrans; [exact He|].
    cbn [take]. rewrite fmap_cons. cbn [sumZ]. do 3 f_equal. lia.
Qed.
End entries.

(** ** The history of the watched scripts *)

Section history.
Context {S W : Type} `{HS : !Hashes, HSL : !HashLaws, SO : !ScriptOps, VI : !VarInt,
  VIL : !VarIntLaws, SL : !Slices, SLL : !SlicesLaws, CS : !Consensus, RD : !RocksDB S,
  RL : !RocksDBLaws S, HA : !HttpAgent W, NL : !NodeLaws W, ST : !SliceTransactions,
  STL : !SliceTransactionsLaws, TX : !Transactions, SC : !Scripts, TT : !TxidText, CT : !CliTexts}.
Implicit Types (bs : list Batch) (t : Tables) (sh : hash32) (P : hash32 → Prop).

(** What consensus says of the transactions of the scripts: amounts are not
    negative, and an output is spent once. *)
Record history_consensus bs P : Prop := {
  hc_amounts sh n i j p v a :
    P sh → script_tx (W := W) bs sh n i j p → pays sh p v a → 0 ≤ a;
  hc_once sh n i j p k op a m i' j' q l :
    P sh → script_tx (W := W) bs sh n i j p → btx_inputs p !! k = Some op →
    funded_before (W := W) bs sh n op a →
    script_tx (W := W) bs sh m i' j' q → btx_inputs q !! l = Some op → n = m ∧ k = l;
}.

(** The row of an input, and that of the output it spends. *)
Definition spends_row_of bs P (k f : HistoryKey) : Prop :=
  ∃ sh n i j p x op a m i' j' q v, P sh ∧ script_tx (W := W) bs sh n i j p ∧
    btx_inputs p !! x = Some op ∧ k = row_of sh i j false x ∧ funded_before (W := W) bs sh n op a ∧
    script_tx (W := W) bs sh m i' j' q ∧ btx_txid q = op_txid op ∧ op_vout op = Z.of_nat v ∧
    f = row_of sh i' j' true v.

Lemma history_matched bs P t :
  chain_batches (W := W) bs → exactly_rows (W := W) bs P t → history_consensus bs P →
  matched (tb_history t) (spends_row_of bs P).
Proof using HSL NL SLL VIL.
  intros Hcb Her Hc. split.
  - intros k a (n & sh & HP & He)%(er_history _ _ _ Her) Ho. destruct He; [|done]. by eapply hc_amounts.
  - intros k a (n & sh & HP & He)%(er_history _ _ _ Her) Ho.
    destruct He as [|i j p x op amount Hp Hx Hf]; [done|].
    pose proof Hf as (m & i' & j' & q & v & Hq & Hm & Hid & Hv & Hpay).
    exists (row_of sh i' j' true v). split_and!; [|done|].
    + by exists sh, n, i, j, p, x, op, amount, m, i', j', q, v.
    + rewrite Z.opp_involutive. apply (er_history _ _ _ Her). exists m, sh. split; [done|].
      by eapply expected_funding.
  - intros k k' f (sh & n & i & j & p & x & op & a & m & i' & j' & q & v & HP & Hp & Hx & -> & Hf & Hq & Hid & Hv & ->)
      (sh2 & n2 & i2 & j2 & p2 & x2 & op2 & a2 & m2 & i2' & j2' & q2 & v2 & _ & Hp2 & Hx2 & -> & _ & Hq2 & Hid2 & Hv2 & Heq).
    unfold row_of, history_key in Heq. injection Heq as <- <-%Nat2Z.inj <-%Nat2Z.inj <-%Nat2Z.inj.
    destruct (script_tx_place _ _ _ _ _ _ _ _ _ Hcb Hq Hq2) as [_ <-].
    assert (op2 = op) as -> by (destruct op, op2; cbn in *; congruence).
    destruct (hc_once _ _ Hc _ _ _ _ _ _ _ _ _ _ _ _ _ HP Hp Hx Hf Hp2 Hx2) as [<- <-].
    by destruct (script_tx_num _ _ _ _ _ _ _ _ _ _ Hcb Hp Hp2) as (<- & <- & _).
Qed.

Lemma history_bounded bs P t :
  chain_batches (W := W) bs → exactly_rows (W := W) bs P t → history_consensus bs P →
  pos_sum (history_amounts t) < 2 ^ 63 → amounts_bounded t.
Proof using HSL NL SLL VIL.
  intros Hcb Her Hc Hp. split; [done|].
  pose proof (matched_sum _ _ id (history_matched _ _ _ Hcb Her Hc) (λ _, eq_refl) (λ _ H, H)) as H.
  rewrite list_fmap_id in H. fold (history_amounts t) in H. rewrite sum_pos_neg in H. lia.
Qed.

Definition watches t sh : Prop := is_Some (tb_watch t !! sh).

(** Every row that is shown is that of a transaction of the chain. *)
Lemma get_history_ok bs t entries :
  chain_batches (W := W) bs → exactly_rows (W := W) bs (watches t) t → get_history t = Ok entries →
  ∃ rows, history_rows (W := W) bs (watches t) rows ∧ shows rows entries.
Proof using HSL NL RL SLL STL VIL.
  intros Hcb Her. unfold get_history. case_bool_decide as Hw.
  { intros [= <-]. exists []. split; [|done]. split; [constructor|]. intros row. split; [by intros ?%elem_of_nil|].
    intros (n & i & j & p & b & rows & (sh & [x Hx] & _) & _). apply map_size_empty_inv in Hw.
    by rewrite Hw, lookup_empty in Hx. }
  intros (rows & Hrows%ok_or_ok & H)%bind_ok. apply bind_ok in H as ([balance es] & He & H). inv_ok. subst es.
  exists rows. split; [by eapply delta_rows_ok|]. apply entries_of_rows_ok in He as (_ & Hlen & Hk). by split.
Qed.

(** The cached headers can be read. *)
Definition headers_decode t : Prop := map_Forall (λ _ row, is_Some (header_time row.2)) (tb_headers t).

(** Nothing fails: no sum overflows, and no assertion. *)
Lemma get_history_total bs t :
  chain_batches (W := W) bs → exactly_rows (W := W) bs (watches t) t → history_consensus bs (watches t) →
  headers_decode t → pos_sum (history_amounts t) < 2 ^ 63 → ∃ entries, get_history t = Ok entries.
Proof using HSL NL RL SLL STL VIL.
  intros Hcb Her Hc Hh Hp. unfold get_history. case_bool_decide; [by eexists|].
  pose proof (history_bounded _ _ _ Hcb Her Hc Hp) as Hb. pose proof Hb as [_ Hs].
  destruct (delta_rows_total _ Hb) as [rows Hrows]. rewrite Hrows. osimpl.
  destruct (delta_rows_ok _ _ _ _ Hcb Her Hrows) as [_ Hd].
  destruct (deltas_bounded t) as (D1 & D2 & D3). rewrite <-Hd in D1, D2, D3.
  destruct (entries_of_rows_total 0 rows) as [entries He]; [lia|lia| |].
  { apply Forall_forall. intros row (x & hash & Hx)%(delta_rows_header _ _ _ Hrows). by apply (Hh x _ Hx). }
  rewrite He, Z.add_0_l, D1. osimpl.
  pose proof (sum_pos_neg (history_amounts t)) as Hsum. rewrite (proj2 (Z.leb_le 0 _)) by lia. osimpl.
  pose proof (pos_sum_nonneg (history_amounts t)). rewrite (sql_sum_total (history_amounts t)) by lia. osimpl.
  rewrite Z.eqb_refl. osimpl.
  pose proof (history_matched _ _ _ Hcb Her Hc) as Hm.
  assert (0 ≤ sumZ (Z.sgn <$> history_amounts t)) as Hsgn.
  { eapply matched_sum; [done|by intros a; rewrite Z.sgn_opp|intros a; apply Z.sgn_nonneg]. }
  destruct (sgn_sums (history_amounts t)) as [S1 S2]. rewrite sql_sum_total by lia. osimpl.
  rewrite (proj2 (Z.leb_le 0 _)) by done. by eexists.
Qed.
End history.
