(* ===== verification/ElectrumInstances.v ===== *)
(** * Concrete instances for the servers

    The interfaces of [bindex-electrum]'s components, on top of the instances
    and the three-block node of [Instances]: hexadecimal text, the displays and
    parsers of hashes, outputs in a reader, and simplified JSON, RPC and floats.
    They let concrete inputs be evaluated; nothing about the program depends on
    them. *)

From S2P Require Import Prelude External Index Fmt Headers Batch Store StoreSpec Client Chain.
From S2P Require Import ChainSpec ChainSync ChainQuery Instances Text Utf8 Protocol ProtocolSpec.
From S2P Require Import Mempool CoreRest ScriptFold ScriptFoldSpec Adapter AdapterSpec TorPush.
From S2P Require Import Config Bitcoind Monitor MonitorSnapshot Server.

Module HexText.
Definition encode (b : bytes) : str := b ≫= λ x, [hex_char (x / 16); hex_char (x mod 16)].
Fixpoint decode (s : str) : option bytes :=
  match s with
  | [] => Some []
  | h :: l :: s =>
      h ← hex_digit h; l ← hex_digit l; rest ← decode s; Some (16 * h + l :: rest)
  | _ => None
  end.

Lemma hex_digit_bound c d : hex_digit c = Some d → 0 ≤ d < 16.
Proof. unfold hex_digit, in_range. repeat case_match; intros [= <-]; lia. Qed.
Lemma hex_char_range d : 0 ≤ d < 16 → 48 ≤ hex_char d ≤ 57 ∨ 97 ≤ hex_char d ≤ 102.
Proof. unfold hex_char. case_match; lia. Qed.
Lemma nibbles x : is_u8 x → 0 ≤ x / 16 < 16 ∧ 0 ≤ x mod 16 < 16 ∧ 16 * (x / 16) + x mod 16 = x.
Proof.
  intros Hx. pose proof (Z.div_mod x 16 ltac:(lia)). pose proof (Z.mod_pos_bound x 16 ltac:(lia)).
  unfold is_u8 in Hx. lia.
Qed.

Lemma decode_wf s b : decode s = Some b → bytes_wf b.
Proof.
  assert ((∀ b, decode s = Some b → bytes_wf b) ∧ ∀ c b, decode (c :: s) = Some b → bytes_wf b)
    as [Hs _]; [|apply Hs]. clear b.
  induction s as [|x s [IH1 IH2]].
  { split; [intros b [= <-]; constructor|]. intros c b Hd. done. }
  split; [apply IH2|]. intros c b. cbn [decode].
  intros (h & Hh%hex_digit_bound & (l & Hl%hex_digit_bound &
    (rest & Hr & [= <-])%bind_Some)%bind_Some)%bind_Some.
  constructor; [unfold is_u8; lia|by apply IH1].
Qed.
Lemma decode_encode b : bytes_wf b → decode (encode b) = Some b.
Proof.
  induction 1 as [|x b Hx _ IH]; [done|]. destruct (nibbles x Hx) as (Hh & Hl & Hv).
  change (encode (x :: b)) with (hex_char (x / 16) :: hex_char (x mod 16) :: encode b).
  cbn [decode]. rewrite !hex_digit_char by done. cbn [mbind option_bind]. rewrite IH.
  cbn [mbind option_bind]. by rewrite Hv.
Qed.
Lemma encode_chars b : bytes_wf b → Forall (λ c, 48 ≤ c ≤ 57 ∨ 97 ≤ c ≤ 102) (encode b).
Proof.
  induction 1 as [|x b Hx _ IH]; [constructor|]. destruct (nibbles x Hx) as (Hh & Hl & _).
  change (encode (x :: b)) with (hex_char (x / 16) :: hex_char (x mod 16) :: encode b).
  constructor; [by apply hex_char_range|]. constructor; [by apply hex_char_range|exact IH].
Qed.

#[export] Instance hex : Hex := { hex_encode := encode; hex_decode := decode }.
#[export] Instance hex_laws : HexLaws.
Proof. split; [apply decode_encode|apply decode_wf|apply encode_chars]. Qed.

(** Hashes are displayed backwards. *)
Definition backward (h : hash32) : str := encode (rev h).
Definition from_backward (s : str) : option hash32 :=
  match decode s with
  | Some b => if bool_decide (length b = 32%nat) then Some (rev b) else None
  | None => None
  end.

#[export] Instance hash_text : HashText := { hash_to_string := backward }.
#[export] Instance txid_text : TxidText := { txid_to_string := backward }.
#[export] Instance txid_text_laws : TxidTextLaws.
Proof. by split. Qed.
#[export] Instance txid_parse : TxidParse := { txid_from_str := from_backward }.
#[export] Instance scripthash_text : ScriptHashText := {
  scripthash_to_string := backward; scripthash_from_str := from_backward;
}.
#[export] Instance scripthash_text_laws : ScriptHashTextLaws.
Proof.
  split; [done|]. intros h [Hw Hl]. cbn. unfold from_backward.
  rewrite decode_encode by (by apply List.Forall_rev).
  rewrite bool_decide_eq_true_2 by (by rewrite length_rev). by rewrite rev_involutive.
Qed.
End HexText.

Module EToy.
Export Toy HexText.

(** ** Outputs and varints in a reader *)

Lemma drop_suffix {A} (n : nat) (b : list A) : (0 < n)%nat → (n ≤ length b)%nat → ∃ p, p ≠ [] ∧ b = p ++ drop n b.
Proof.
  intros Hn Hl. exists (take n b). rewrite take_drop. split; [|done].
  destruct b, n; simpl in *; done || lia.
Qed.

#[export] Instance txout_reader : TxOutReader := {
  txout_decode b :=
    match parse_output b with
    | Some (s, u) => Some ({| btxout_script := s; btxout_value := 1 |}, drop u b)
    | None => None
    end
}.
#[export] Instance txout_reader_laws : TxOutReaderLaws.
Proof.
  split. intros b o rest. cbn. destruct (parse_output b) as [[s u]|] eqn:E; [|done].
  intros [= <- <-]. destruct (parse_output_prefix _ _ _ [] E) as [Hu _].
  apply drop_suffix; [|done]. destruct b as [|n b]; [done|]. cbn in E.
  destruct (_ && _); [|done]. injection E as _ <-. lia.
Qed.
#[export] Instance varint_read_laws : VarIntReadLaws.
Proof.
  split. intros b x rest. cbn. destruct (scan b) as [[y u]|] eqn:E; [|done].
  intros [= <- <-]. pose proof (scan_ok _ _ _ E) as (_ & Hu & Ht). apply drop_suffix; [|done].
  destruct u as [|u]; [|lia]. exfalso. unfold CompactSize.encode in Ht. rewrite take_0 in Ht.
  destruct (y <? 253); [done|]. destruct (y <? 2 ^ 16); [done|]. by destruct (y <? 2 ^ 32).
Qed.

(** ** JSON, RPC, files and floats

    A line is [{], a digit (the id; [0] for none), the method, and after a
    semicolon a string parameter; or [[] and the methods of a batch of
    notifications, separated by commas. *)
Definition call_of (line : str) : json :=
  match line with
  | i :: line =>
      match split_on 59 line with
      | [m; p] => JArray [JNumber (i - 48); JString m; JString p]
      | _ => JArray [JNumber (i - 48); JString line]
      end
  | [] => JNull
  end.
#[export] Instance serde : Serde := {
  json_from_slice b :=
    match b with
    | 123 :: line => Some (JObject [(lit "call", call_of line)])
    | 91 :: rest => Some (JArray (JString <$> split_on 44 rest))
    | _ => None
    end;
  request_from_value v :=
    match v with
    | JObject [(_, JArray (JNumber n :: JString m :: ps))] =>
        Some {| req_jsonrpc := None; req_id := if n =? 0 then None else Some (IdNumber n);
                req_method := m; req_params := ParamsArray ps |}
    | JString m =>
        Some {| req_jsonrpc := None; req_id := None; req_method := m; req_params := ParamsNone |}
    | _ => None
    end;
  json_error_text := lit "bad json";
}.
#[export] Instance json_text : JsonText := { json_to_string _ := lit "json" }.
#[export] Instance json_floats : JsonFloats := {
  f64 := Z;
  json_as_f64 v := match v with JNumber n => Some n | _ => None end;
  json_of_f64 := JNumber; f64_of_Z z := z; f64_milli z := z / 1000;
}.
#[export] Instance rpc_agent : RpcAgent Z := {
  rpc_post w _ _ := (inr (JObject [(lit "result", JString (lit "ok"))]), w)
}.
#[export] Instance files : Files := { read_to_string _ := None }.
#[export] Instance millis : Millis Z := { f_zero := 0; f_add := Z.add; f_max := Z.max }.
#[export] Instance snapshot_floats : SnapshotFloats Z := {
  f_average := Z.div; f_le := Z.le;
  f_index n q := match q with P50 => (n - n / 2)%nat | P95 => (n - n / 20)%nat end;
  f_json := JNumber;
}.
#[export] Instance snapshot_floats_laws : SnapshotFloatsLaws Z.
Proof. split; [apply _|intros ??; cbn; lia|]. intros n []; cbn; lia. Qed.

(** ** A server on the synchronized chain *)

Definition adapter_0 : Adapter MapDB.T :=
  {| ad_chain := synced_chain; ad_scripts := cache_new 1000 |}.
Definition world_0 : World MapDB.T Z := {| wd_adapter := adapter_0; wd_tick := 0; wd_node := 0 |}.
Definition peer_0 : Peer MapDB.T Z Z := {|
  pr_session := session_new v1_6; pr_monitor := monitor_default; pr_world := world_0;
  pr_pushed := [];
|}.
Definition config_0 : Config := {|
  cfg_network := NetBitcoin; cfg_db_name := None; bindex_db_path := lit "db";
  cfg_secondary_path := None; bitcoind_rpc_user := None; bitcoind_rpc_password := None;
  bitcoind_rpc_cookie := None; bitcoind_rpc_conf := None; tls_listen := None; tls_cert := None;
  tls_key := None; script_cache_refs := 1000; cfg_monitor_path := None; protocol_min := v1_4; protocol_max := v1_6;
  mempool_poll_secs := 5; secondary_refresh_ms := 1000; zmq_rawtx := None; zmq_rawblock := None;
  max_batch_size := 10;
  max_subscriptions_per_session := 1; broadcast_via := ViaTor; tor_broadcast_url := None;
  tor_package_url := None; banner := lit "hello"; cfg_peers := []; donation_address := None; http_addr := None;
|}.
Definition rpc_0 : RpcClient :=
  {| rpc_user := None; rpc_password := None; cookie_path := None; conf_path := None |}.

(** ** The transactions of the chains of the node *)

Definition genesis_block : bytes := mk_block genesis_header [[script_a]].
Definition block_2 : bytes := mk_block header_2 [[script_b]].
Definition block_txs (b : bytes) : list slice_tx := default [] (fst <$> parse_block b).
Definition parsed_txs (slices : list slice_tx) : list ParsedTx :=
  omap (λ tx, match Fmt.parse_tx (stx_raw tx) with Ok p => Some p | _ => None end) slices.

Lemma served_block_inv h d : served (W := Z) (rest_block h) d → fst <$> find_block h = Some d.
Proof.
  intros [w Ha]%served_inv. cbn [answer] in Ha. destruct (w =? 3); [done|].
  destruct (find_block h) as [[x y]|]; [|done]. by injection Ha as ->.
Qed.
Lemma visit_txs d txs : block_visit d = (block_events txs, inr []) → txs = block_txs d.
Proof.
  cbn. unfold block_txs. destruct (parse_block d) as [[txs' r]|]; [|done]. intros Hv. cbn.
  symmetry. apply block_events_txs_inj. congruence.
Qed.

(** A chain of the genesis block and a block [b] after it. *)
Definition two_blocks (rows : Headers) (b : bytes) : bool :=
  match rows with
  | [g; h] => bool_decide (fst <$> find_block (ih_hash g) = Some genesis_block) &&
              bool_decide (fst <$> find_block (ih_hash h) = Some b) && bool_decide (ih_next_txnum g = 1)
  | _ => false
  end.

Section chain.
Context (bs : list Batch) (b : bytes) (slices : list slice_tx)
  (Hblocks : two_blocks (batch_header <$> bs) b = true)
  (Hslices : slices = block_txs genesis_block ++ block_txs b)
  (Hone : length (block_txs genesis_block) = 1%nat).

Lemma slice_at n i j hdr d tx spent :
  chain_tx (W := Z) bs n i j hdr d tx spent → ∃ k, n = Z.of_nat k ∧ slices !! k = Some tx.
Proof using Hblocks Hslices Hone.
  intros [Hb Hd Hn (txs & Hv & Htx) _]. apply visit_txs in Hv as ->. apply served_block_inv in Hd.
  unfold two_blocks in Hblocks.
  destruct (batch_header <$> bs) as [|g [|h [|? ?]]] eqn:Ers; [done..| |done].
  apply andb_true_iff in Hblocks as [[Hg%bool_decide_eq_true Hh%bool_decide_eq_true]%andb_true_iff
    Hnext%bool_decide_eq_true].
  destruct i as [|[|i]]; cbn in Hb; [..|done]; injection Hb as <-.
  - rewrite Hg in Hd. injection Hd as <-. exists j. split; [unfold first_txnum, txnum_default in Hn; lia|].
    rewrite Hslices. by apply lookup_app_l_Some.
  - rewrite Hh in Hd. injection Hd as <-. exists (1 + j)%nat. cbn [first_txnum lookup list_lookup] in Hn. split; [lia|].
    rewrite Hslices, <-Hone. rewrite lookup_app_r by lia.
    by replace (length (block_txs genesis_block) + j - length (block_txs genesis_block))%nat with j by lia.
Qed.

Context (txs : list ParsedTx)
  (Hparsed : (λ tx, Fmt.parse_tx (stx_raw tx)) <$> slices = Ok <$> txs).

Lemma parsed_in h n p : parsed_at (W := Z) bs h n p → ∃ k, n = Z.of_nat k ∧ txs !! k = Some p.
Proof using Hblocks Hslices Hone Hparsed.
  intros (i & j & hdr & d & tx & spent & Hct & _ & Hp).
  destruct (slice_at _ _ _ _ _ _ _ Hct) as (k & -> & Hk). exists k. split; [done|].
  pose proof (f_equal (lookup k) Hparsed) as Heq.
  rewrite !list_lookup_fmap, Hk in Heq. cbn [fmap option_fmap option_map] in Heq. rewrite Hp in Heq.
  destruct (txs !! k) as [p'|]; [|done]. by injection Heq as <-.
Qed.

(** The rules of consensus, for the transactions at [n] and [m]. *)
Definition follows (x y : nat * ParsedTx) : bool :=
  bool_decide (pt_txid x.2 = pt_txid y.2 → x.1 = y.1) &&
  forallb (λ o, bool_decide (op_txid o = pt_txid y.2 → (y.1 < x.1)%nat) &&
                bool_decide (o ∈ pt_inputs y.2 → x.1 = y.1)) (pt_inputs x.2).
Definition sound_tx (p : ParsedTx) : bool :=
  (Z.of_nat (length (pt_outputs p)) <=? 2 ^ 32) && bool_decide (NoDup (pt_inputs p)).
Definition all_follow : bool :=
  forallb (λ x, forallb (follows x) (imap pair txs)) (imap pair txs) && forallb sound_tx txs.

Lemma valid_chain h : all_follow = true → consensus_valid (W := Z) bs h.
Proof using Hblocks Hslices Hone Hparsed.
  intros [Hf Hs]%andb_true_iff. rewrite forallb_forall in Hf, Hs.
  assert (∀ n m p q, parsed_at (W := Z) bs h n p → parsed_at (W := Z) bs h m q →
    (pt_txid p = pt_txid q → n = m) ∧
    (∀ o, o ∈ pt_inputs p → op_txid o = pt_txid q → m < n) ∧
    (∀ o, o ∈ pt_inputs p → o ∈ pt_inputs q → n = m)) as Hrules.
  { intros n m p q (n' & -> & Hn)%parsed_in (m' & -> & Hm)%parsed_in.
    assert (follows (n', p) (m', q) = true) as [H1%bool_decide_eq_true H2]%andb_true_iff.
    { assert (∀ k x, txs !! k = Some x → In (k, x) (imap pair txs)) as Hin.
      { intros k x Hx. apply list_elem_of_In, (list_elem_of_lookup_2 _ k). by rewrite list_lookup_imap, Hx. }
      pose proof (Hf _ (Hin _ _ Hn)) as Hf'. rewrite forallb_forall in Hf'. by apply Hf', Hin. }
    cbn [fst snd] in H1, H2. rewrite forallb_forall in H2.
    split_and!; [intros ?; f_equal; auto|..].
    all: intros o Ho%list_elem_of_In%H2; apply andb_true_iff in Ho as [Ha%bool_decide_eq_true Hb%bool_decide_eq_true].
    - intros ?%Ha. cbn in *. lia.
    - intros ?%Hb. cbn in *. lia. }
  assert (∀ n p, parsed_at (W := Z) bs h n p → sound_tx p = true) as Hsound.
  { intros n p (k & _ & Hk)%parsed_in. apply Hs, list_elem_of_In. by eapply list_elem_of_lookup_2. }
  split.
  - intros n m p q Hp Hq. by apply (Hrules n m p q).
  - intros n p [Hl%Z.leb_le _]%Hsound%andb_true_iff. done.
  - intros n p [_ Hd%bool_decide_eq_true]%Hsound%andb_true_iff. done.
  - intros n m p q o Hp Hq. by apply (Hrules n m p q).
  - intros n m p q o Hp Hq. by apply (Hrules n m p q).
Qed.
End chain.

(** The transactions of the synchronized chain by number, and parsed. *)
Definition synced_slices : list slice_tx := Eval vm_compute in
  block_txs genesis_block ++ block_txs block_1.
Definition synced_txs : list ParsedTx := Eval vm_compute in parsed_txs synced_slices.

Lemma synced_slice_at bs n i j hdr d tx spent :
  chain_inv (W := Z) synced_chain bs → chain_tx (W := Z) bs n i j hdr d tx spent →
  ∃ k, n = Z.of_nat k ∧ synced_slices !! k = Some tx.
Proof.
  intros Hi. apply (slice_at bs block_1); [rewrite <-(ci_headers _ _ Hi)|..]; vm_compute; reflexivity.
Qed.
Lemma synced_parsed bs h n p :
  chain_inv (W := Z) synced_chain bs → parsed_at (W := Z) bs h n p →
  ∃ k, n = Z.of_nat k ∧ synced_txs !! k = Some p.
Proof.
  intros Hi. apply (parsed_in bs block_1 synced_slices);
    [rewrite <-(ci_headers _ _ Hi)|..]; vm_compute; reflexivity.
Qed.

(** No transaction of the chains breaks the rules of consensus. *)
Lemma synced_headers_valid bs h :
  ic_headers synced_chain = batch_header <$> bs → consensus_valid (W := Z) bs h.
Proof.
  intros Hh. apply (valid_chain bs block_1 synced_slices) with (txs := synced_txs);
    [rewrite <-Hh|..]; vm_compute; reflexivity.
Qed.
Lemma synced_valid bs h : chain_inv (W := Z) synced_chain bs → consensus_valid (W := Z) bs h.
Proof. intros Hi. apply synced_headers_valid, Hi. Qed.
Lemma reorged_valid bs h :
  ic_headers reorged_chain = batch_header <$> bs → consensus_valid (W := Z) bs h.
Proof.
  intros Hh. set (slices := block_txs genesis_block ++ block_txs block_2).
  apply (valid_chain bs block_2 slices) with (txs := parsed_txs slices);
    [rewrite <-Hh|..]; vm_compute; reflexivity.
Qed.

(** ** Threads that leave the chain as it is *)

Definition undisturbed (n : nat) (a : Adapter MapDB.T) : Adapter MapDB.T := a.
Definition no_deadline (n : nat) : bool := false.
Definition chain_is_synced (c : IndexedChain MapDB.T) : Prop := c = synced_chain.

Lemma undisturbed_ok n a :
  adapter_ok (W := Z) chain_is_synced a → adapter_ok (W := Z) chain_is_synced (undisturbed n a).
Proof. done. Qed.
Lemma chain_is_synced_inv c : chain_is_synced c → ∃ bs, chain_inv (W := Z) c bs.
Proof. intros ->. apply synced_inv. Qed.
Lemma world_0_ok : world_ok (W := Z) chain_is_synced world_0.
Proof. split; [done|]. intros sh e. cbn. by rewrite lookup_empty. Qed.

Definition sh_a : ElectrumScripthash := {| esh_bytes := rev (checksum script_a) |}.
Definition outpoint_a : OutPoint := {| op_txid := genesis_txid; op_vout := 0 |}.
Lemma sh_a_wf : esh_wf sh_a.
Proof.
  destruct (checksum_wf script_a) as [? Hl]. split; [by apply bytes_wf_rev|].
  unfold sh_a. cbn [esh_bytes]. by rewrite length_rev.
Qed.

Lemma pair_fst_eq {A B} (p : A * B) a : p.1 = a → p = (a, p.2).
Proof. by destruct p; cbn; intros ->. Qed.
Definition history_run := script_history undisturbed no_deadline sh_a world_0.
Definition history_a : ScriptHistory := Eval vm_compute in
  match history_run.1 with Ok h => h | _ => finish fold_default end.
Lemma history_run_ok : history_run = (Ok history_a, history_run.2).
Proof. refine (pair_fst_eq history_run (Ok history_a) _). vm_compute. reflexivity. Qed.

Definition spender_run := find_spender undisturbed no_deadline outpoint_a sh_a 0 world_0.
Definition spender_a : option Spender := Eval vm_compute in
  match spender_run.1 with Ok s => s | _ => None end.
Lemma spender_run_ok : spender_run = (Ok spender_a, spender_run.2).
Proof. refine (pair_fst_eq spender_run (Ok spender_a) _). vm_compute. reflexivity. Qed.

(** ** A proxy and an endpoint that accept a push *)

Definition iso_0 : Isolation := {| iso_pid := 1; iso_nanos := 2; iso_seq := 3 |}.
Definition target_0 : PushTarget := {| pt_host := lit "host"; pt_port := 80; pt_path := lit "/api/tx" |}.
Definition conn_0 : Conn := {|
  incoming := [5; 2] ++ [1; 0] ++ [5; 0; 0; 1] ++ [127; 0; 0; 1; 0; 80] ++
              lit "HTTP/1.1 200 OK" ++ CRLF ++ lit "Content-Length: 2" ++ CRLF ++ CRLF ++ lit "ok";
  ends_cleanly := true; sent := []; writes_left := 9;
|}.
Definition push_env_0 (n : nat) : PushEnv :=
  {| pe_timeout := false; pe_conn := Some conn_0; pe_iso := iso_0 |}.
Definition targets_0 : TorTargets := {| tor_tx := target_0; tor_package := target_0 |}.

(** ** Runs of the server *)

Definition text_0 {A} (_ : A) : str := lit "error".
Definition no_mempool (n : nat) : MempoolIndex := index_empty.
Definition now_0 (n : nat) : Z := 7.
Definition elapsed_0 (n : nat) : Z := 5.
Definition serve (line : str) : stM (Peer MapDB.T Z Z) protocol_error (option outgoing) :=
  handle_line config_0 rpc_0 (Some targets_0) text_0 text_0 text_0 text_0 text_0 text_0 undisturbed
    no_mempool push_env_0 Wrapping now_0 elapsed_0 (lit "peer") line.
Abbreviation notify := (notifications (F := Z) text_0 undisturbed no_mempool).

Definition subscribe_line : str :=
  lit "{1blockchain.scripthash.subscribe;" ++ esh_to_string sh_a.
Definition subscribed := serve subscribe_line peer_0.
Definition peer_1 : Peer MapDB.T Z Z := subscribed.2.
Definition tip_1 : HeaderNotification := {| hn_height := 1; hn_hex := hex_encode header_1 |}.
Definition changes_1 : Changes := {| ch_tip := Some tip_1; ch_mempool := 0 |}.
Definition notified := notify changes_1 peer_1.
Definition peer_2 : Peer MapDB.T Z Z := notified.2.
Definition notified_again := notify changes_1 peer_2.

Definition subscribe_request : Request := {|
  req_jsonrpc := None; req_id := Some (IdNumber 1);
  req_method := lit "blockchain.scripthash.subscribe";
  req_params := ParamsArray [JString (esh_to_string sh_a)];
|}.
Lemma subscribe_parsed : parse_line subscribe_line = Ok (Single subscribe_request).
Proof. vm_compute. reflexivity. Qed.
Definition answer_1 : option outgoing := Eval vm_compute in
  match subscribed.1 with Ok o => o | _ => None end.
Lemma subscribed_ok : subscribed = (Ok answer_1, peer_1).
Proof. refine (pair_fst_eq subscribed (Ok answer_1) _). vm_compute. reflexivity. Qed.
Definition notes_1 : list json := Eval vm_compute in
  match notified.1 with Ok o => o | _ => [] end.
Lemma notified_ok : notify changes_1 peer_1 = (Ok notes_1, peer_2).
Proof. refine (pair_fst_eq notified (Ok notes_1) _). vm_compute. reflexivity. Qed.
Lemma notified_again_ok : notify changes_1 peer_2 = (Ok notes_1, notified_again.2).
Proof. refine (pair_fst_eq notified_again (Ok notes_1) _). vm_compute. reflexivity. Qed.

(** A session that was told that nothing touches the script. *)
Definition session_stale : Session := {|
  negotiated_protocol := v1_6; header_subscribed := true; last_header := None; checked_tip := None;
  scripthashes := {[sh_a := {| ss_confirmed := finish fold_default; ss_status := None |}]};
  peers_seen := ∅;
|}.
Definition peer_stale : Peer MapDB.T Z Z := {|
  pr_session := session_stale; pr_monitor := monitor_default; pr_world := world_0; pr_pushed := [];
|}.
Definition notified_stale := notify changes_1 peer_stale.
Definition notes_stale : list json := Eval vm_compute in
  match notified_stale.1 with Ok o => o | _ => [] end.
Lemma notified_stale_ok : notified_stale = (Ok notes_stale, notified_stale.2).
Proof. refine (pair_fst_eq notified_stale (Ok notes_stale) _). vm_compute. reflexivity. Qed.

Definition merkle_params : Params :=
  ParamsArray [JString (txid_to_string (stx_txid tx_1)); JNumber 1].
Definition merkle_run := transaction_get_merkle (F := Z) text_0 undisturbed merkle_params peer_0.
Definition merkle_answer : json := Eval vm_compute in
  match merkle_run.1 with Ok v => v | _ => JNull end.
Lemma merkle_run_ok : merkle_run = (Ok merkle_answer, merkle_run.2).
Proof. refine (pair_fst_eq merkle_run (Ok merkle_answer) _). vm_compute. reflexivity. Qed.

Definition push_run :=
  push Wrapping false (Some conn_0) iso_0 target_0 (lit "text/plain") (lit "00").
Lemma push_run_ok : push_run = (Ok (lit "ok"), push_run.2).
Proof. refine (pair_fst_eq push_run (Ok (lit "ok")) _). vm_compute. reflexivity. Qed.
End EToy.
