(* ===== verification/TasksSpec.v ===== *)
(** * The running server: invariants

    What holds between the turns of the server's tasks: the chain a session sees
    is an index of the writer's blocks, the published tip is its tip, no change
    is hidden from a session, and no announcement is lost. *)

From S2P Require Import Prelude External Text Utf8 Index Fmt Headers Batch Store StoreSpec Client.
From S2P Require Import Chain ChainSpec ChainSync ChainQuery ChainSecondary Merkle Protocol Mempool.
From S2P Require Import CoreRest ScriptFold Adapter TorPush Config Bitcoind Monitor MonitorSnapshot.
From S2P Require Import Server ServerSpec RestTypes Tls Tasks.

(** The writer: what it writes shows in a reader's view only after a catch-up, and
    whenever the reader catches up it finds an index of a chain of blocks. *)
Class PrimaryLaws (S W : Type) `{HS : !Hashes, SO : !ScriptOps, VI : !VarInt, SL : !Slices,
    CS : !Consensus, RD : !RocksDB S, HA : !HttpAgent W, PR : !Primary S} := {
  index_ready : S → Prop;
  primary_hidden p s cf k : rocks_get (primary_writes p s) cf k = rocks_get s cf k;
  ready_opened primary secondary s :
    rocks_open_secondary primary secondary = Some s → index_ready s;
  ready_writes p s : index_ready s → index_ready (primary_writes p s);
  ready_caught_up s s' :
    index_ready s → rocks_catch_up s = Some s' →
    index_ready s' ∧ ∃ bs, chain_batches (W := W) bs ∧ indexes (rocks_get s') bs;
}.

(** ** The follower *)

Section follower.
Context {S W N : Type} `{HS : !Hashes, HSL : !HashLaws, SO : !ScriptOps, VI : !VarInt,
  VIL : !VarIntLaws, SL : !Slices, SLL : !SlicesLaws, CS : !Consensus, RD : !RocksDB S,
  RL : !RocksDBLaws S, CJ : !ConfigJson, HA : !HttpAgent W, NL : !NodeLaws W, HX : !Hex,
  PR : !Primary S, PL : !PrimaryLaws S W, NO : !Notify N}.
Implicit Types (c : IndexedChain S) (bs : list Batch) (f : Follower S N).

Definition tip_of (bs : list Batch) : option HeaderNotification :=
  b ← last bs;
  Some {| hn_height := Z.of_nat (length bs) - 1; hn_hex := hex_encode (raw_header b) |}.

Lemma chain_tip_ok c bs (n : W) : chain_inv (W := W) c bs → chain_tip c n = Ok (tip_of bs).
Proof.
  intros Hi. unfold chain_tip, ad_tip, tip_of, read_chain, next_tick, mbind, stM_bind.
  cbn [wd_adapter ad_chain]. rewrite (ci_headers _ _ Hi).
  unfold tip_height. rewrite length_fmap.
  destruct bs as [|b bs _] using rev_ind; [done|].
  rewrite length_app. cbn [length]. rewrite checked_sub_ok by lia.
  replace (Z.of_nat (length bs + 1) - 1) with (Z.of_nat (length bs)) by lia.
  unfold raw_header_at, on_node, st_map_err, raw_headers, stored_headers, mbind, stM_bind, st_lift.
  rewrite (block_headers_raw_ok _ _ (length bs) 1 Hi) by lia. osimpl.
  rewrite drop_app_length, last_snoc. done.
Qed.

(** A refresh finds the writer's chain, or fails and leaves everything alone. *)
Lemma refresh_secondary_follows_primary c bs (n : W) :
  chain_inv (W := W) c bs → index_ready (W := W) (db (store c)) →
  ∃ c' n',
    (refresh_secondary (c, n) = (Ok tt, (c', n')) ∨ ∃ e, refresh_secondary (c, n) = (Err e, (c, n'))  ∧ c' = c) ∧
    index_ready (W := W) (db (store c')) ∧ ∃ bs', chain_inv (W := W) c' bs'.
Proof.
  intros Hi Hr. destruct (catch_up_with_primary (store c)) as [s|e|m] eqn:Ec.
  - assert (index_ready (W := W) (db s) ∧ ∃ bs', chain_batches (W := W) bs' ∧ indexes (rocks_get (db s)) bs')
      as (Hr' & bs' & Hcb & Hix).
    { unfold catch_up_with_primary in Ec. destruct (secondary (store c)).
      - apply bind_ok in Ec as (s' & Hs%ok_or_ok & [= <-]). by apply (ready_caught_up (db (store c))).
      - injection Ec as <-. split; [done|]. exists bs. split; apply Hi. }
    eexists _, n. split; [left|].
    { by apply (refresh_secondary_spec c bs bs' s n (ci_batches _ _ Hi) (ci_headers _ _ Hi) Ec). }
    split; [done|]. exists bs'. by split.
  - exists c, n. split; [right|by eauto]. exists (ChainRocksDB e). split; [|done].
    unfold refresh_secondary, on_store, get_chain, st_fst, st_get, st_lift, mbind, stM_bind.
    by rewrite Ec.
  - unfold catch_up_with_primary in Ec. destruct (secondary (store c)); [|done].
    by destruct (rocks_catch_up (db (store c))).
Qed.

(** A secondary is opened with what the writer has written. *)
Lemma from_config_secondary config path (w : W) c w' :
  from_config config w = (Ok c, w') → secondary_path config = Some path →
  ∃ s, rocks_open_secondary (db_path config) path = Some s ∧ rocks_catch_up s = Some (db (store c)).
Proof.
  unfold from_config. intros Hv Hp.
  repeat match type of Hv with
  | (_ ≫= _) _ = (Ok _, _) =>
      let H := fresh "Hstep" in apply st_bind_ok in Hv as (? & ? & H & Hv)
  end.
  apply st_ret_ok in Hv as [-> _]. cbn [store].
  rename select (st_lift (map_err ChainRocksDB _) _ = _) into Ho.
  rewrite Hp in Ho. apply st_lift_ok in Ho as [Ho%map_err_ok _].
  unfold open_as_secondary in Ho. apply bind_ok in Ho as (s & Hs%ok_or_ok & Ho).
  exists s. split; [done|]. unfold catch_up_with_primary in Ho. cbn [secondary db] in Ho.
  apply bind_ok in Ho as (s' & (s1 & Hs1%ok_or_ok & [= <-])%bind_ok & (_ & _ & [= <-])%bind_ok).
  done.
Qed.
Lemma from_config_follows config path (w : W) c w' :
  from_config config w = (Ok c, w') → secondary_path config = Some path →
  index_ready (W := W) (db (store c)) ∧ ∃ bs, chain_inv (W := W) c bs.
Proof.
  intros Hc Hp. destruct (from_config_secondary _ _ _ _ _ Hc Hp) as (s & Hs%ready_opened & Hup).
  destruct (ready_caught_up s _ Hs Hup) as (Hr & bs & Hcb & Hix). split; [done|]. exists bs.
  by apply (from_config_spec _ _ _ _ bs Hc).
Qed.

(** The chain is in step with some blocks; the tip that was published is theirs,
    but after a refresh whose result is not yet published. *)
Definition following f (tip : option HeaderNotification) : Prop :=
  index_ready (W := W) (db (store (fo_chain f))) ∧
  ∃ bs, chain_inv (W := W) (fo_chain f) bs ∧ (fo_task f ≠ RefreshPublishes → tip = tip_of bs).

Lemma following_new c bs now tip :
  index_ready (W := W) (db (store c)) → chain_inv (W := W) c bs → tip = tip_of bs →
  following (new_follower c now) tip.
Proof. intros Hr Hi ->. split; [done|]. by exists bs. Qed.

Lemma following_task f tip task :
  fo_task f ≠ RefreshPublishes → following f tip → following (with_task task f) tip.
Proof. intros Ht (Hr & bs & Hi & Htip). split; [done|]. exists bs. split; [done|]. intros _. auto. Qed.

(** Only the chain and the task matter. *)
Lemma following_same f f' tip :
  fo_chain f' = fo_chain f → fo_task f' = fo_task f → following f tip → following f' tip.
Proof. intros Hc Ht. unfold following. by rewrite Hc, Ht. Qed.

Lemma following_writes f tip c' p :
  c' = with_store (fo_chain f) (with_db (store (fo_chain f)) (primary_writes p (db (store (fo_chain f))))) →
  following f tip →
  following {| fo_chain := c'; fo_last_refresh := fo_last_refresh f; fo_task := fo_task f;
               fo_wake := fo_wake f; fo_announced := fo_announced f |} tip.
Proof.
  intros -> (Hr & bs & [Hb Hh Hs] & Htip). split; [by apply ready_writes|]. exists bs.
  split; [|done]. split; [done..|]. intros cf k Hcf. cbn. rewrite primary_hidden. by apply Hs.
Qed.

Lemma refresh_start_following now w f f' tip :
  refresh_start now w f = Some f' → following f tip → following f' tip.
Proof.
  unfold refresh_start. destruct (fo_task f) eqn:Et; [|done..].
  intros (n & _ & ->)%fmap_Some Hf. apply following_task; [by cbn; rewrite Et|].
  by apply (following_same f).
Qed.

Lemma refresh_end_following now (n : W) f f' tip :
  refresh_end now n f = Some f' → following f tip → following f' tip.
Proof.
  unfold refresh_end, adapter_refresh. destruct (fo_task f) eqn:Et; [done| |done..].
  intros Hf' (Hr & bs & Hi & Htip).
  destruct (refresh_secondary_follows_primary _ _ n Hi Hr) as (c' & n' & Hres & Hr' & bs' & Hi').
  destruct Hres as [Hres|(e & Hres & ->)]; rewrite Hres in Hf'; injection Hf' as <-; split.
  - exact Hr'.
  - by exists bs'.
  - exact Hr'.
  - exists bs. split; [done|]. intros _. apply Htip. by rewrite Et.
Qed.

Lemma announcement_turn_following now i f f' tip :
  announcement_turn now i f = Some f' → following f tip → following f' tip.
Proof.
  unfold announcement_turn. intros (a & _ & H)%bind_Some. destruct (an_offsets a); [done|].
  case_match; [|done]. injection H as <-. by apply following_same.
Qed.
End follower.

(** ** The clients *)

Section clients.
Context {S W F TX RX : Type} `{HS : !Hashes, HX : !Hex, HT : !HashText, ST : !ScriptHashText,
  TT : !TxidText, TP : !TxidParse, SO : !ScriptOps, VI : !VarInt, SL : !Slices, CS : !Consensus,
  RD : !RocksDB S, HA : !HttpAgent W, RA : !RpcAgent W, FS : !Files, JT : !JsonText,
  JF : !JsonFloats, SD : !Serde, MS : !Millis F, WA : !Watch Changes TX RX,
  WL : !WatchLaws Changes TX RX}.
Context (config : Config) (rpc : RpcClient) (tor_push : option TorTargets)
  (adapter_error_text : adapter_error slices_error → str) (rpc_error_text : rpc_error → str)
  (tor_error_text : tor_error → str) (version_error_text : version_error → str)
  (protocol_error_text : protocol_error → str) (strings_to_vec : list str → bytes)
  (mode : overflow_mode).
Hypothesis limit_unsigned : 0 ≤ max_subscriptions_per_session config.
Implicit Types (tx : TX) (l : Live RX) (c : Clients F TX RX).

Abbreviation session_turn' := (session_turn (S := S) (W := W) (F := F) config rpc tor_push
  adapter_error_text rpc_error_text tor_error_text version_error_text protocol_error_text
  strings_to_vec mode).
Abbreviation client_turn' := (client_turn (S := S) (W := W) (F := F) config rpc tor_push
  adapter_error_text rpc_error_text tor_error_text version_error_text protocol_error_text
  strings_to_vec mode).

(** A session watches the changes; with none to see, its scripts have been checked
    at the published tip. *)
Record session_inv tx l : Prop := {
  sn_watching : watching tx (lv_changes l);
  sn_limit : within_limit config (lv_session l);
  sn_checked :
    has_changed tx (lv_changes l) = false → checked_tip (lv_session l) = ch_tip (borrow tx);
}.

Lemma session_start_inv peer tx : session_inv tx (session_start config peer tx).
Proof.
  unfold session_start. pose proof (update_borrow tx (subscribe tx)) as Hb.
  pose proof (watching_update tx _ (watching_subscribe tx)) as Hw.
  destruct (borrow_and_update tx (subscribe tx)) as [current rx]. cbn in Hb, Hw. subst current.
  split; cbn; [done| |done]. unfold within_limit. cbn. by rewrite map_size_empty.
Qed.

Lemma session_turn_inv e tx l l' :
  session_inv tx l → session_turn' e tx l = Some (Some l') →
  session_inv tx l' ∧ lv_peer l' = lv_peer l.
Proof.
  intros [Hw Hlim Hc] Ht. destruct e as [line a written| | |a written]; cbn [session_turn] in Ht;
    [|done..|].
  - destruct (handle_line _ _ _ _ _ _ _ _ _ _ _ _ _ _ _ _ _ _) as [[out| |] p] eqn:Hl; [|done..].
    destruct (negb _ || _); [|done]. injection Ht as <-.
    apply handle_line_session in Hl as [Hlim' Htip]; [|done]. cbn in Htip.
    split; [|done]. split; cbn; [done|done|]. intros Hn. rewrite Htip. by apply Hc.
  - destruct (has_changed tx (lv_changes l)); [|done].
    pose proof (update_borrow tx (lv_changes l)) as Hb.
    pose proof (watching_update tx _ Hw) as Hw'.
    destruct (borrow_and_update tx (lv_changes l)) as [current rx]. cbn in Hb, Hw'. subst current.
    destruct (notifications _ _ _ _ _) as [[notes| |] p] eqn:Hn; [|done..].
    destruct (_ || _); [|done]. injection Ht as <-.
    apply (notifications_session config) in Hn as [Hlim' Htip]; [|done].
    split; [|done]. by split.
Qed.

(** A change of the value that tells the receivers when it moves the tip. *)
Lemma session_inv_send f tx l :
  ((f (borrow tx)).2 = false → ch_tip (f (borrow tx)).1 = ch_tip (borrow tx)) →
  session_inv tx l → session_inv (send_if_modified f tx) l.
Proof.
  intros Hf [Hw Hlim Hc]. split; [by apply watching_send|done|].
  rewrite changed_send by done. rewrite borrow_send. intros [H1 H2]%orb_false_iff.
  rewrite Hf by done. by apply Hc.
Qed.
Lemma set_tip_tells tip (v : Changes) : (set_tip tip v).2 = false → ch_tip (set_tip tip v).1 = ch_tip v.
Proof. unfold set_tip. by case_decide. Qed.
Lemma set_tip_ok tip (v : Changes) : ch_tip (set_tip tip v).1 = tip.
Proof. unfold set_tip. by case_decide. Qed.

(** Every session is so, and every client the monitor shows has a session. *)
Record clients_inv c : Prop := {
  cv_sessions id l : sv_sessions c !! id = Some l → session_inv (sv_changes c) l;
  cv_monitor peer :
    peer ∈ dom (active (sv_monitor c)) → ∃ id l, sv_sessions c !! id = Some l ∧ lv_peer l = peer;
}.

Lemma clients_inv_changes tx c :
  (∀ l, session_inv (sv_changes c) l → session_inv tx l) → clients_inv c → clients_inv (with_changes tx c).
Proof. intros Ht [Hs Hm]. split; cbn; [|done]. intros id l Hl. by eapply Ht, Hs. Qed.

Lemma clients_inv_monitor f c :
  dom (active (f (sv_monitor c))) = dom (active (sv_monitor c)) → clients_inv c → clients_inv (on_monitor f c).
Proof. intros Hd [Hs Hm]. split; cbn; [done|]. rewrite Hd. apply Hm. Qed.

Lemma record_request_clients peer method ok d error now (m : MonitorState F) :
  dom (active (record_request peer method ok d error now m)) = dom (active m).
Proof.
  cbn. destruct (active m !! peer) eqn:E; [|done]. rewrite dom_insert_L.
  apply elem_of_dom_2 in E. set_solver.
Qed.

Lemma connect_inv now id peer c c' :
  connect config now id peer c = Some c' → clients_inv c → clients_inv c'.
Proof.
  unfold connect. case_decide as Hid; [|done]. intros [= <-] [Hs Hm].
  assert (∀ l', partial_alter (λ _, Some l') id (sv_sessions c) = <[id := l']> (sv_sessions c)) as Hins by done.
  split; cbn; rewrite Hins.
  - intros id' l [[<- <-]|[_ Hl]]%lookup_insert_Some; [apply session_start_inv|by eapply Hs].
  - intros q. rewrite dom_insert_L. intros [->%elem_of_singleton|Hq]%elem_of_union.
    + eexists id, _. rewrite lookup_insert_eq. split; [done|].
      unfold session_start. by destruct (borrow_and_update _ _).
    + apply Hm in Hq as (id' & l & Hl & <-). exists id', l. split; [|done].
      rewrite lookup_insert_ne by congruence. done.
Qed.

Lemma client_turn_inv id e c c' : client_turn' id e c = Some c' → clients_inv c → clients_inv c'.
Proof.
  unfold client_turn. intros (l & Hl & (next & Ht & [= <-])%bind_Some)%bind_Some [Hs Hm].
  destruct next as [l'|].
  - destruct (session_turn_inv _ _ _ _ (Hs _ _ Hl) Ht) as [Hl' Hp].
    assert (partial_alter (λ _, Some l') id (sv_sessions c) = <[id := l']> (sv_sessions c)) as Hins by done.
    split; cbn; rewrite Hins.
    + intros id' x [[<- <-]|[_ Hx]]%lookup_insert_Some; [done|by eapply Hs].
    + intros q Hq. apply Hm in Hq as (id' & x & Hx & <-). destruct (decide (id' = id)) as [->|].
      * exists id, l'. rewrite lookup_insert_eq. split; [done|]. congruence.
      * exists id', x. by rewrite lookup_insert_ne.
  - assert (partial_alter (λ _, None) id (sv_sessions c) = base.delete id (sv_sessions c)) as Hdel by done.
    split; cbn; rewrite Hdel.
    + intros id' x [_ Hx]%lookup_delete_Some. by eapply Hs.
    + intros q. rewrite dom_delete_L. intros [Hq Hne]%elem_of_difference.
      apply Hm in Hq as (id' & x & Hx & <-). exists id', x. split; [|done].
      apply lookup_delete_Some. split; [|done]. intros ->. simplify_eq. set_solver.
Qed.

Lemma client_monitor_inv now id e c c' :
  client_monitor now id e c = Some c' → clients_inv c → clients_inv c'.
Proof.
  unfold client_monitor. intros (l & _ & [= <-])%bind_Some Hc.
  destruct e as [method ok d error|]; apply clients_inv_monitor; try done.
  - apply record_request_clients.
  - cbn. by rewrite dom_fmap_L.
Qed.
End clients.

(** ** The server *)

Section running.
Context {S W F N TX RX : Type} `{HS : !Hashes, HSL : !HashLaws, HX : !Hex, HT : !HashText,
  ST : !ScriptHashText, TT : !TxidText, TP : !TxidParse, SO : !ScriptOps, VI : !VarInt,
  VIL : !VarIntLaws, SL : !Slices, SLL : !SlicesLaws, CS : !Consensus, RD : !RocksDB S,
  RL : !RocksDBLaws S, HA : !HttpAgent W, NL : !NodeLaws W, RA : !RpcAgent W, FS : !Files,
  JT : !JsonText, JF : !JsonFloats, SF : !SatFloats, SD : !Serde, MS : !Millis F,
  SN : !SnapshotFloats F, CJ : !ConfigJson, RU : !Rustls, PR : !Primary S, PL : !PrimaryLaws S W,
  NO : !Notify N, NOL : !NotifyLaws N, WA : !Watch Changes TX RX, WL : !WatchLaws Changes TX RX}.
Context (config : Config) (rpc : RpcClient) (tor_push : option TorTargets) (recent_cap : nat)
  (adapter_error_text : adapter_error slices_error → str) (rpc_error_text : rpc_error → str)
  (tor_error_text : tor_error → str) (version_error_text : version_error → str)
  (protocol_error_text : protocol_error → str) (strings_to_vec : list str → bytes)
  (mode : overflow_mode) (file_open : str → option bytes).
Implicit Types (s : Running S F N TX RX) (e : event S W F) (es : list (event S W F)).

Abbreviation turn' := (turn config rpc tor_push recent_cap adapter_error_text rpc_error_text
  tor_error_text version_error_text protocol_error_text strings_to_vec mode).
Abbreviation step' := (step config rpc tor_push recent_cap adapter_error_text rpc_error_text
  tor_error_text version_error_text protocol_error_text strings_to_vec mode).
Abbreviation run' := (run config rpc tor_push recent_cap adapter_error_text rpc_error_text
  tor_error_text version_error_text protocol_error_text strings_to_vec mode).

Lemma run_app es es' s s' :
  run' (es ++ es') s = Some s' ↔ ∃ s1, run' es s = Some s1 ∧ run' es' s1 = Some s'.
Proof.
  revert s. induction es as [|e es IH]; intros s; cbn [app run].
  - split; [by exists s|by intros (s1 & [= <-] & ?)].
  - destruct (step' e s) as [s1|]; [apply IH|]. by split; [|intros (s1 & ? & ?)].
Qed.
(** What every turn preserves holds along a run. *)
Lemma run_invariant (P : Running S F N TX RX → Prop) es s s' :
  (∀ e s s', P s → step' e s = Some s' → P s') → P s → run' es s = Some s' → P s'.
Proof.
  intros Hstep. revert s. induction es as [|e es IH]; intros s Hs; cbn [run].
  - by intros [= <-].
  - intros (s1 & H1 & Hr)%bind_Some. eapply IH; [|done]. by eapply Hstep.
Qed.

(** The parts of the state a turn works on. *)
Lemma on_follower_Some f s s' :
  on_follower f s = Some s' → ∃ x, f (rn_follower s) = Some x ∧ rn_follower s' = x ∧
    rn_clients s' = rn_clients s ∧ rn_poller s' = rn_poller s ∧ rn_now s' = rn_now s ∧
    rn_serving s' = rn_serving s.
Proof. unfold on_follower. intros (x & Hx & ->)%fmap_Some. by exists x. Qed.
Lemma on_poller_Some f s s' :
  on_poller f s = Some s' → ∃ x, f (rn_poller s) = Some x ∧ rn_poller s' = x ∧
    rn_clients s' = rn_clients s ∧ rn_follower s' = rn_follower s ∧ rn_now s' = rn_now s ∧
    rn_serving s' = rn_serving s.
Proof. unfold on_poller. intros (x & Hx & ->)%fmap_Some. by exists x. Qed.
Lemma on_clients_Some f s s' :
  on_clients f s = Some s' → ∃ x, f (rn_clients s) = Some x ∧ rn_clients s' = x ∧
    rn_follower s' = rn_follower s ∧ rn_poller s' = rn_poller s ∧ rn_now s' = rn_now s ∧
    rn_serving s' = rn_serving s.
Proof. unfold on_clients. intros (x & Hx & ->)%fmap_Some. by exists x. Qed.
Lemma block_announced_Some s s' :
  block_announced s = Some s' →
  rn_follower s' = schedule_refreshes (rn_now s) (rn_follower s) ∧
  rn_poller s' = wake_poller (rn_poller s) ∧ rn_clients s' = rn_clients s ∧ rn_now s' = rn_now s ∧
  rn_serving s' = rn_serving s.
Proof. by intros [= <-]. Qed.
Lemma tx_announced_Some s s' :
  tx_announced s = Some s' →
  rn_follower s' = rn_follower s ∧ rn_poller s' = wake_poller (rn_poller s) ∧
  rn_clients s' = rn_clients s ∧ rn_now s' = rn_now s ∧ rn_serving s' = rn_serving s.
Proof. by intros [= <-]. Qed.

Lemma step_turn e s s' : step' e s = Some s' → rn_serving s = true ∧ turn' e s = Some s'.
Proof. unfold step. by destruct (rn_serving s). Qed.

(** *** Following the chain *)

Record server_inv s : Prop := {
  si_follows : following (W := W) (rn_follower s) (ch_tip (borrow (sv_changes (rn_clients s))));
  si_clients : clients_inv config (rn_clients s);
}.

Lemma server_inv_same s s' :
  rn_follower s' = rn_follower s → rn_clients s' = rn_clients s → server_inv s → server_inv s'.
Proof. intros Hf Hc [H1 H2]. split; by rewrite ?Hf, ?Hc. Qed.

Lemma publish_inv n s s' :
  turn' (PublishTip n) s = Some s' → server_inv s → server_inv s'.
Proof.
  cbn [turn]. destruct (fo_task (rn_follower s)) eqn:Et; [done..| |done].
  intros (s1 & (c & [= <-] & Hc & Hf & _)%on_clients_Some & H)%bind_Some.
  apply on_follower_Some in H as (f & [= <-] & Hf' & Hc' & _).
  intros [(Hr & bs & Hi & _) Hcl]. unfold publish_tip in Hc. rewrite (chain_tip_ok _ bs) in Hc by done.
  split.
  - rewrite Hf', Hc', Hc, Hf. split; [done|]. exists bs. split; [done|]. intros _. cbn.
    by rewrite borrow_send, set_tip_ok.
  - rewrite Hc', Hc. apply clients_inv_changes; [|done]. intros l.
    apply session_inv_send, set_tip_tells.
Qed.

Lemma poll_tell_inv s s' : turn' PollTell s = Some s' → server_inv s → server_inv s'.
Proof.
  cbn [turn]. intros ([p tx] & Hp & (s1 & H1 & H2)%bind_Some)%bind_Some [Hfo Hcl].
  apply on_poller_Some in H1 as (? & _ & _ & Hc1 & Hf1 & _).
  apply on_clients_Some in H2 as (c & [= <-] & Hc & Hf & _). rewrite Hc1 in Hc.
  assert (ch_tip (borrow tx) = ch_tip (borrow (sv_changes (rn_clients s))) ∧
          ∀ l, session_inv config (sv_changes (rn_clients s)) l → session_inv config tx l) as [Htip Hs].
  { unfold poll_tell in Hp. destruct (po_task (rn_poller s)); [done|done| |done..].
    injection Hp as _ <-. case_match; [|done]. split; [by unfold send_modify; rewrite borrow_send|].
    intros l. by apply session_inv_send. }
  split; rewrite Hc; cbn; [|by apply clients_inv_changes]. by rewrite Hf, Hf1, Htip.
Qed.

Lemma zmq_inv s1 s s' (called : bool) (announced : Running S F N TX RX → option (Running S F N TX RX)) :
  rn_follower s1 = rn_follower s → rn_clients s1 = rn_clients s →
  (∀ s', announced s1 = Some s' → rn_clients s' = rn_clients s1 ∧
         fo_chain (rn_follower s') = fo_chain (rn_follower s1) ∧
         fo_task (rn_follower s') = fo_task (rn_follower s1)) →
  (if called then announced s1 else Some s1) = Some s' → server_inv s → server_inv s'.
Proof.
  intros Hf Hc Ha. destruct called; [|by intros [= <-]; apply server_inv_same].
  intros (Hc' & Hch & Ht)%Ha [H1 H2]. split; rewrite Hc', Hc; [|done].
  rewrite Hf in Hch, Ht. by apply (following_same (rn_follower s)).
Qed.

Lemma turn_inv (Hlim : 0 ≤ max_subscriptions_per_session config) e s s' :
  turn' e s = Some s' → server_inv s → server_inv s'.
Proof.
  intros Ht Hi. pose proof Hi as [Hfo Hcl].
  destruct e as [nanos|p|w|n|n|w|contents tx_raw| | |ze|ze|i|id peer| | |id peer| | |id se|id me];
    try (by eapply publish_inv); try (by eapply poll_tell_inv); cbn [turn] in Ht;
    try (apply on_follower_Some in Ht as (f & Hf & Hf' & Hc & _));
    try (apply on_poller_Some in Ht as (p' & _ & _ & Hc & Hf & _); by apply (server_inv_same s));
    try (injection Ht as <-; by apply (server_inv_same s)).
  - case_match; [|done]. injection Ht as <-. by apply (server_inv_same s).
  - injection Hf as <-. split; rewrite Hc; [|done]. rewrite Hf'. by eapply following_writes.
  - split; rewrite Hc; [|done]. rewrite Hf'. by eapply refresh_start_following.
  - split; rewrite Hc; [|done]. rewrite Hf'. by eapply refresh_end_following.
  - apply bind_Some in Ht as (t & _ & ([t' called] & _ & Ht)%bind_Some).
    eapply (zmq_inv _ s s' called block_announced) in Ht; [done..| |done].
    intros s1 (Hf & _ & Hc & _)%block_announced_Some. by rewrite Hf.
  - apply bind_Some in Ht as (t & _ & ([t' called] & _ & Ht)%bind_Some).
    eapply (zmq_inv _ s s' called tx_announced) in Ht; [done..| |done].
    intros s1 (Hf & _ & Hc & _)%tx_announced_Some. by rewrite Hf.
  - split; rewrite Hc; [|done]. rewrite Hf'. by eapply announcement_turn_following.
  - apply on_clients_Some in Ht as (c & Hc & Hc' & Hf & _).
    split; rewrite Hc'; [|by eapply connect_inv]. rewrite Hf.
    unfold connect in Hc. case_decide; [|done]. by injection Hc as <-.
  - destruct (sv_tls _); [|done]. apply on_clients_Some in Ht as (c & Hc & Hc' & Hf & _).
    split; rewrite Hc'; [|by eapply connect_inv]. rewrite Hf.
    unfold connect in Hc. case_decide; [|done]. by injection Hc as <-.
  - apply on_clients_Some in Ht as (c & [= <-] & Hc' & Hf & _).
    split; rewrite Hc'; [by rewrite Hf|]. by destruct Hcl as [? ?].
  - apply on_clients_Some in Ht as (c & Hc & Hc' & Hf & _).
    split; rewrite Hc'; [|by eapply client_turn_inv]. rewrite Hf.
    unfold client_turn in Hc. apply bind_Some in Hc as (l & _ & ([next|] & _ & [= <-])%bind_Some); done.
  - apply on_clients_Some in Ht as (c & Hc & Hc' & Hf & _).
    split; rewrite Hc'; [|by eapply client_monitor_inv]. rewrite Hf.
    unfold client_monitor in Hc. apply bind_Some in Hc as (l & _ & [= <-]). by destruct me.
Qed.

Lemma server_new_inv now fates fs n s targets n' :
  server_new (F := F) config now fates fs n = (Ok (s, targets), n') →
  server_inv s ∧ fo_task (rn_follower s) = RefreshWaits.
Proof.
  unfold server_new. intros ([a now'] & n1 & Ha & H)%st_bind_ok.
  apply st_bind_ok in H as (n2 & n3 & [= -> ->] & H).
  apply st_bind_ok in H as (tip & n4 & [Htip%map_err_ok ->]%st_lift_ok & H).
  apply st_bind_ok in H as (mf & n5 & _ & H).
  apply st_bind_ok in H as (tg & n6 & _ & [[= -> ->] _]%st_ret_ok).
  apply st_map_err_ok in Ha. unfold chain_adapter_open in Ha.
  apply st_bind_ok in Ha as (c & n7 & Ho%st_map_err_ok & [[= -> ->] _]%st_ret_ok). cbn [ad_chain] in *.
  unfold open_secondary_named in Ho. eapply from_config_follows in Ho as (Hr & bs & Hi); [|done].
  rewrite (chain_tip_ok _ bs) in Htip by done. injection Htip as <-.
  split; [|done]. split; cbn [rn_follower rn_clients sv_changes].
  - rewrite borrow_channel. by eapply following_new.
  - split; cbn; [done|]. intros q. by rewrite dom_empty_L.
Qed.

Lemma server_run_inv tcp_binds tls_binds s s' :
  server_run config file_open tcp_binds tls_binds s = Ok s' →
  fo_task (rn_follower s) = RefreshWaits → server_inv s → server_inv s'.
Proof.
  unfold server_run. intros (_ & _ & (tls & _ & [= <-])%bind_ok)%bind_ok Ht [Hf [H1 H2]].
  split; [|by split]. apply following_task; [by rewrite Ht|done].
Qed.

Lemma main_ok now fates fs tcp_binds tls_binds n s targets n' :
  main (F := F) config file_open now fates fs tcp_binds tls_binds n = (Ok (s, targets), n') →
  validate config = Ok tt ∧ ∃ s0,
    server_new (F := F) config now fates fs n = (Ok (s0, targets), n') ∧
    server_run config file_open tcp_binds tls_binds s0 = Ok s.
Proof.
  unfold main. intros ([] & n1 & [Hv%map_err_ok ->]%st_lift_ok & H)%st_bind_ok.
  apply st_bind_ok in H as ([s0 tg] & n2 & Hn%st_map_err_ok & H).
  apply st_bind_ok in H as (s1 & n3 & [Hr%map_err_ok ->]%st_lift_ok & [[= -> ->] ->]%st_ret_ok).
  split; [done|]. by exists s0.
Qed.
Lemma main_inv now fates fs tcp_binds tls_binds n s targets n' :
  main (F := F) config file_open now fates fs tcp_binds tls_binds n = (Ok (s, targets), n') → server_inv s.
Proof.
  intros (_ & s0 & [Hs Ht]%server_new_inv & Hr)%main_ok. by eapply server_run_inv.
Qed.

(** With a valid configuration no [unwrap] of [run] panics. *)
Lemma server_run_no_panic tcp_binds tls_binds s m :
  validate config = Ok tt → server_run config file_open tcp_binds tls_binds s ≠ Panic m.
Proof.
  intros (_ & _ & _ & _ & Ht)%validate_limits. unfold server_run, tls_starts.
  destruct tcp_binds; [|done]. cbn. destruct (tls_listen config); [|done].
  destruct Ht as [Hc Hk]; [done|]. destruct (tls_cert config); [|done]. destruct (tls_key config); [|done].
  cbn. destruct (load_server_config _ _ _) eqn:El; [done..|]. by apply load_server_config_calm in El.
Qed.

(** *** The clock *)

Lemma turn_now e s s' :
  turn' e s = Some s' → rn_now s ≤ rn_now s'.
Proof.
  destruct e as [nanos|p|w|n|n|w|contents tx_raw| | |ze|ze|i|id peer| | |id peer| | |id se|id me];
    cbn [turn]; intros Ht;
    try (apply on_follower_Some in Ht as (? & _ & _ & _ & _ & -> & _); lia);
    try (apply on_poller_Some in Ht as (? & _ & _ & _ & _ & -> & _); lia);
    try (apply on_clients_Some in Ht as (? & _ & _ & _ & _ & -> & _); lia);
    try (injection Ht as <-; cbn; lia).
  - destruct (Z.leb_spec 0 nanos); [|done]. injection Ht as <-. cbn. lia.
  - destruct (fo_task _); [done..| |done]. apply bind_Some in Ht as (s1 & H1 & H2).
    apply on_clients_Some in H1 as (? & _ & _ & _ & _ & H1 & _).
    apply on_follower_Some in H2 as (? & _ & _ & _ & _ & H2 & _). lia.
  - apply bind_Some in Ht as ([p tx] & _ & (s1 & H1 & H2)%bind_Some).
    apply on_poller_Some in H1 as (? & _ & _ & _ & _ & H1 & _).
    apply on_clients_Some in H2 as (? & _ & _ & _ & _ & H2 & _). lia.
  - apply bind_Some in Ht as (t & _ & ([t' []] & _ & Ht)%bind_Some); [|injection Ht as <-; cbn; lia].
    apply block_announced_Some in Ht as (_ & _ & _ & -> & _). cbn. lia.
  - apply bind_Some in Ht as (t & _ & ([t' []] & _ & Ht)%bind_Some); injection Ht as <-; cbn; lia.
  - destruct (sv_tls _); [|done]. apply on_clients_Some in Ht as (? & _ & _ & _ & _ & -> & _). lia.
Qed.
Lemma run_now es s s' : run' es s = Some s' → rn_now s ≤ rn_now s'.
Proof.
  intros Hr. apply (run_invariant (λ s', rn_now s ≤ rn_now s') es s s'); [|lia|done].
  intros e s1 s2 H1 [_ H2%turn_now]%step_turn. lia.
Qed.

(** *** How often the mempool is polled *)

(** The instants at which a run starts polls. *)
Fixpoint poll_starts es s : list Z :=
  match es with
  | [] => []
  | e :: es =>
      match step' e s with
      | Some s' => (match e with PollStart _ => [rn_now s] | _ => [] end) ++ poll_starts es s'
      | None => []
      end
  end.
(** No poll starts before this instant. *)
Definition next_start (now : Z) (task : poll_task) : Z :=
  match task with
  | PollWaits => now
  | PollRuns started | PollTells started _ _ => started + MIN_MEMPOOL_POLL_GAP
  | PollSleeps until => until
  | PollPanicked => now
  end.
Definition next_poll s : Z := next_start (rn_now s) (po_task (rn_poller s)).

(** What a turn does to the task that polls. *)
Lemma turn_poll_task e s s' :
  turn' e s = Some s' →
  let t := po_task (rn_poller s) in let t' := po_task (rn_poller s') in
  match e with
  | PollStart _ => t = PollWaits ∧ t' = PollRuns (rn_now s)
  | PollEnd _ _ =>
      ∃ started, t = PollRuns started ∧
        (t' = PollSleeps (started + MIN_MEMPOOL_POLL_GAP) ∨ ∃ a r, t' = PollTells started a r)
  | PollTell => ∃ started a r, t = PollTells started a r ∧ t' = PollSleeps (started + MIN_MEMPOOL_POLL_GAP)
  | PollWake => ∃ until, t = PollSleeps until ∧ until ≤ rn_now s ∧ t' = PollWaits
  | _ => t' = t
  end.
Proof.
  intros Ht. cbv zeta.
  destruct e as [nanos|p|w|n|n|w|contents tx_raw| | |ze|ze|i|id peer| | |id peer| | |id se|id me];
    cbn [turn] in Ht;
    try (apply on_follower_Some in Ht as (? & _ & _ & _ & -> & _); done);
    try (apply on_clients_Some in Ht as (? & _ & _ & _ & -> & _); done);
    try (injection Ht as <-; done).
  - destruct (0 <=? nanos); [|done]. by injection Ht as <-.
  - destruct (fo_task _); [done..| |done]. apply bind_Some in Ht as (s1 & H1 & H2).
    apply on_clients_Some in H1 as (? & _ & _ & _ & H1 & _).
    apply on_follower_Some in H2 as (? & _ & _ & _ & H2 & _). congruence.
  - apply on_poller_Some in Ht as (p & Hp & -> & _). unfold poll_start in Hp.
    destruct (po_task (rn_poller s)); [|done..]. by apply fmap_Some in Hp as (n & _ & ->).
  - apply on_poller_Some in Ht as (p & Hp & -> & _). unfold poll_end in Hp.
    destruct (po_task (rn_poller s)); [done| |done..]. injection Hp as <-. eexists. split; [done|].
    destruct (contents ≫= parse_contents) as [l|]; [right|by left].
    destruct (poll_once l tx_raw recent_cap (po_index (rn_poller s))) as [? [? ?]]. by do 2 eexists.
  - apply bind_Some in Ht as ([p tx] & Hp & (s1 & H1 & H2)%bind_Some).
    apply on_poller_Some in H1 as (p' & [= <-] & Hp' & _).
    apply on_clients_Some in H2 as (? & _ & _ & _ & H2 & _). rewrite H2, Hp'. unfold poll_tell in Hp.
    destruct (po_task (rn_poller s)); [done|done| |done..]. injection Hp as <- _. by do 3 eexists.
  - apply on_poller_Some in Ht as (p & Hp & -> & _). unfold poll_wake in Hp.
    destruct (po_task (rn_poller s)) as [| | |until|]; [done..| |done].
    destruct (Z.leb_spec until (rn_now s)); [|done]. injection Hp as <-. by eexists.
  - apply bind_Some in Ht as (t & _ & ([t' []] & _ & Ht)%bind_Some); by injection Ht as <-.
  - apply bind_Some in Ht as (t & _ & ([t' []] & _ & Ht)%bind_Some); by injection Ht as <-.
  - destruct (sv_tls _); [|done]. by apply on_clients_Some in Ht as (? & _ & _ & _ & -> & _).
Qed.

Lemma step_next_poll e s s' :
  step' e s = Some s' →
  match e with
  | PollStart _ => next_poll s = rn_now s ∧ next_poll s' = rn_now s + MIN_MEMPOOL_POLL_GAP
  | _ => next_poll s ≤ next_poll s'
  end.
Proof.
  intros [_ Ht]%step_turn. pose proof (turn_now _ _ _ Ht) as Hnow. apply turn_poll_task in Ht.
  cbv zeta in Ht. unfold next_poll.
  destruct e; try (rewrite Ht; destruct (po_task (rn_poller s)); cbn; lia).
  - by destruct Ht as [-> ->].
  - destruct Ht as (t & -> & [->|(a & r & ->)]); cbn; lia.
  - destruct Ht as (t & a & r & -> & ->). cbn. lia.
  - destruct Ht as (until & -> & Hu & ->). cbn. lia.
Qed.

(** A period of zero ends the task for good. *)
Lemma panicked_never_polls es s :
  po_task (rn_poller s) = PollPanicked → poll_starts es s = [].
Proof.
  revert s. induction es as [|e es IH]; intros s Hp; [done|]. cbn [poll_starts].
  destruct (step' e s) as [s'|] eqn:Es; [|done]. apply step_turn in Es as [_ Ht%turn_poll_task].
  cbv zeta in Ht. rewrite Hp in Ht. destruct e; try (by apply IH); naive_solver.
Qed.
Lemma zero_interval_never_polls now fates fs tcp_binds tls_binds n s targets n' es :
  mempool_poll_secs config = 0 →
  main (F := F) config file_open now fates fs tcp_binds tls_binds n = (Ok (s, targets), n') →
  poll_starts es s = [].
Proof.
  intros H0 (_ & s0 & _ & Hr)%main_ok. apply panicked_never_polls. revert Hr. unfold server_run.
  intros (_ & _ & (tls & _ & [= <-])%bind_ok)%bind_ok. cbn. unfold mempool_poll_interval. by rewrite H0.
Qed.

(** [l] is at or after [t], and each instant is [gap] after the one before. *)
Fixpoint spaced (gap t : Z) (l : list Z) : Prop :=
  match l with [] => True | x :: l => t ≤ x ∧ spaced gap (x + gap) l end.
Lemma spaced_le gap t t' l : t' ≤ t → spaced gap t l → spaced gap t' l.
Proof. destruct l; [done|]. intros ? [??]. split; [lia|done]. Qed.

Lemma spaced_lookup gap t l i x y :
  spaced gap t l → l !! i = Some x → l !! Datatypes.S i = Some y → x + gap ≤ y.
Proof.
  revert t l. induction i as [|i IH]; intros t [|z l] Hs Hx Hy; try done; destruct Hs as [_ Hs].
  - destruct l as [|z' l]; [done|]. cbn in Hx, Hy. simplify_eq. by destruct Hs.
  - by eapply (IH _ l).
Qed.

Lemma poll_starts_spaced es s : spaced MIN_MEMPOOL_POLL_GAP (next_poll s) (poll_starts es s).
Proof.
  revert s. induction es as [|e es IH]; intros s; [done|]. cbn [poll_starts].
  destruct (step' e s) as [s'|] eqn:Es; [|done]. apply step_next_poll in Es. specialize (IH s').
  destruct e; cbn [app]; try (by eapply spaced_le).
  destruct Es as [-> Hn]. split; [lia|]. by rewrite <-Hn.
Qed.

(** *** Announcements *)

(** What a turn does to the wake-ups and to the refreshes that are scheduled. *)
Lemma turn_wakes e s s' :
  turn' e s = Some s' →
  let f := rn_follower s in let f' := rn_follower s' in
  let p := rn_poller s in let p' := rn_poller s' in
  match e with
  | RefreshStart w => take_wake_up w (fo_wake f) = Some (fo_wake f') ∧ fo_announced f' = fo_announced f
  | AnnouncementTurn i => announcement_turn (rn_now s) i f = Some f'
  | RawBlock _ => fo_wake f' = fo_wake f ∧ fo_announced f `prefix_of` fo_announced f'
  | _ => fo_wake f' = fo_wake f ∧ fo_announced f' = fo_announced f
  end ∧
  match e with
  | PollStart w => take_wake_up w (po_wake p) = Some (po_wake p')
  | RawBlock _ | RawTx _ => po_wake p' = po_wake p ∨ po_wake p' = notify_one (po_wake p)
  | _ => po_wake p' = po_wake p
  end.
Proof.
  cbv zeta.
  destruct e as [nanos|q|w|n|n|w|contents tx_raw| | |ze|ze|i|id peer| | |id peer| | |id se|id me];
    cbn [turn]; intros Ht;
    try (apply on_clients_Some in Ht as (? & _ & _ & -> & -> & _); done);
    try (apply on_follower_Some in Ht as (f & Hf & <- & _ & -> & _));
    try (apply on_poller_Some in Ht as (p & Hp & <- & _ & -> & _));
    try (injection Ht as <-; done).
  - destruct (0 <=? nanos); [|done]. by injection Ht as <-.
  - by injection Hf as <-.
  - unfold refresh_start in Hf. destruct (fo_task _); [|done..]. by apply fmap_Some in Hf as (x & -> & ->).
  - unfold refresh_end in Hf. destruct (fo_task _); [done| |done..].
    destruct (adapter_refresh _ _ _) as [? [[? ?] ?]]. by injection Hf as <-.
  - destruct (fo_task _); [done..| |done]. apply bind_Some in Ht as (s1 & H1 & H2).
    apply on_clients_Some in H1 as (? & _ & _ & Hf1 & Hp1 & _).
    apply on_follower_Some in H2 as (? & [= <-] & Hf2 & _ & Hp2 & _). rewrite Hf2, Hp2, Hp1. cbn.
    by rewrite Hf1.
  - unfold poll_start in Hp. destruct (po_task _); [|done..]. by apply fmap_Some in Hp as (x & -> & ->).
  - unfold poll_end in Hp. destruct (po_task _); [done| |done..]. injection Hp as <-.
    destruct (contents ≫= parse_contents) as [l|]; [|done].
    by destruct (poll_once l tx_raw recent_cap (po_index (rn_poller s))) as [? [? ?]].
  - apply bind_Some in Ht as ([p tx] & Hp & (s1 & H1 & H2)%bind_Some).
    apply on_poller_Some in H1 as (? & [= <-] & Hp1 & _ & Hf1 & _).
    apply on_clients_Some in H2 as (? & _ & _ & Hf2 & Hp2 & _). rewrite Hf2, Hp2, Hf1, Hp1.
    unfold poll_tell in Hp. destruct (po_task _); [done|done| |done..]. by injection Hp as <- _.
  - unfold poll_wake in Hp. destruct (po_task _); [done..| |done].
    destruct (until <=? rn_now s); [|done]. by injection Hp as <-.
  - apply bind_Some in Ht as (t & _ & ([t' []] & _ & Ht)%bind_Some); injection Ht as <-; cbn; [|by auto].
    split; [|by right]. split; [done|]. by eexists.
  - apply bind_Some in Ht as (t & _ & ([t' []] & _ & Ht)%bind_Some); injection Ht as <-; cbn; by auto.
  - done.
  - destruct (sv_tls _); [|done]. by apply on_clients_Some in Ht as (? & _ & _ & -> & -> & _).
Qed.

Abbreviation refresh_pending s := (pending (fo_wake (rn_follower s)) = true).
Abbreviation poll_pending s := (pending (po_wake (rn_poller s)) = true).
(** The refresh of an announcement made at [t] that is due [offset] later. *)
Definition scheduled (t offset : Z) s : Prop :=
  ∃ i a, fo_announced (rn_follower s) !! i = Some a ∧ an_announced a = t ∧ offset ∈ an_offsets a.

Lemma step_refresh_pending e s s' :
  step' e s = Some s' → refresh_pending s → (∃ w, e = RefreshStart w) ∨ refresh_pending s'.
Proof.
  intros [_ [Hf _]%turn_wakes]%step_turn Hp. cbv zeta in Hf.
  destruct e; try (right; rewrite (proj1 Hf); exact Hp); [by eauto|]. right.
  unfold announcement_turn in Hf. apply bind_Some in Hf as (a & _ & Hf).
  destruct (an_offsets a); [done|]. case_match; [|done]. injection Hf as <-. apply pending_notify_one.
Qed.
Lemma step_poll_pending e s s' :
  step' e s = Some s' → poll_pending s → (∃ w, e = PollStart w) ∨ poll_pending s'.
Proof.
  intros [_ [_ Hp']%turn_wakes]%step_turn Hp. cbv zeta in Hp'.
  destruct e; try (right; rewrite Hp'; exact Hp); [by eauto|..];
    right; destruct Hp' as [-> | ->]; (exact Hp || apply pending_notify_one).
Qed.
Lemma step_scheduled t offset e s s' :
  step' e s = Some s' → scheduled t offset s →
  scheduled t offset s' ∨ (refresh_pending s' ∧ t + offset ≤ rn_now s').
Proof.
  intros [_ Ht]%step_turn (i & a & Ha & <- & Ho). pose proof (turn_now _ _ _ Ht) as Hnow.
  pose proof (turn_wakes _ _ _ Ht) as [Hf _]. cbv zeta in Hf.
  destruct e as [| | | | | | | | |ze| |j| | | | | | | |];
    try (left; exists i, a; by rewrite (proj2 Hf)).
  - destruct Hf as [_ [l Hl]]. left. exists i, a. rewrite Hl. split; [|done].
    by apply lookup_app_l_Some.
  - unfold announcement_turn in Hf. apply bind_Some in Hf as (b & Hb & Hf).
    destruct (an_offsets b) as [|o os] eqn:Eo; [done|].
    destruct (Z.leb_spec (an_announced b + o) (rn_now s)) as [Hle|]; [|done]. injection Hf as Hf.
    destruct (decide (j = i)) as [->|Hne].
    + simplify_eq. rewrite Eo in Ho. apply elem_of_cons in Ho as [->|Ho].
      * right. split; [|lia]. rewrite <-Hf. apply pending_notify_one.
      * left. eexists i, _. rewrite <-Hf. cbn. rewrite list_lookup_insert_eq by (by eapply lookup_lt_Some).
        done.
    + left. exists i, a. rewrite <-Hf. cbn. by rewrite list_lookup_insert_ne.
Qed.

(** A refresh, or a poll, starts in the course of [es], not before [t]. *)
Definition refresh_starts (t : Z) es s : Prop :=
  ∃ es1 w es2 s1, es = es1 ++ RefreshStart w :: es2 ∧ run' es1 s = Some s1 ∧ t ≤ rn_now s1.

Lemma refresh_starts_cons t e es s s1 :
  step' e s = Some s1 → refresh_starts t es s1 → refresh_starts t (e :: es) s.
Proof.
  intros He (es1 & w & es2 & s2 & -> & Hr & Ht). exists (e :: es1), w, es2, s2.
  split_and!; [done| |done]. cbn [run]. by rewrite He.
Qed.

Lemma pending_served t es s s' :
  run' es s = Some s' → refresh_pending s → t ≤ rn_now s →
  refresh_starts t es s ∨ refresh_pending s'.
Proof.
  revert s. induction es as [|e es IH]; intros s; cbn [run]; [intros [= <-]; by auto|].
  intros (s1 & He & Hr)%bind_Some Hp Ht.
  destruct (step_refresh_pending _ _ _ He Hp) as [[w ->]|Hp1].
  { left. by exists [], w, es, s. }
  pose proof (proj2 (step_turn _ _ _ He)) as Hnow%turn_now.
  destruct (IH _ Hr Hp1) as [Hs|Hs]; [lia| |by right]. left. by eapply refresh_starts_cons.
Qed.
Lemma poll_pending_served es s s' :
  run' es s = Some s' → poll_pending s → (∃ w, PollStart w ∈ es) ∨ poll_pending s'.
Proof.
  revert s. induction es as [|e es IH]; intros s; cbn [run]; [intros [= <-]; by auto|].
  intros (s1 & He & Hr)%bind_Some Hp.
  destruct (step_poll_pending _ _ _ He Hp) as [[w ->]|Hp1].
  { left. exists w. by left. }
  destruct (IH _ Hr Hp1) as [[w Hw]|Hs]; [|by right]. left. exists w. by right.
Qed.
Lemma scheduled_served t offset es s s' :
  run' es s = Some s' → scheduled t offset s →
  refresh_starts (t + offset) es s ∨ refresh_pending s' ∨ scheduled t offset s'.
Proof.
  revert s. induction es as [|e es IH]; intros s; cbn [run]; [intros [= <-]; by auto|].
  intros (s1 & He & Hr)%bind_Some Hs.
  destruct (step_scheduled _ _ _ _ _ He Hs) as [Hs1|[Hp1 Ht]].
  - destruct (IH _ Hr Hs1) as [Hx|Hx]; [left; by eapply refresh_starts_cons|by right].
  - destruct (pending_served _ _ _ _ Hr Hp1 Ht) as [Hx|Hx]; [left; by eapply refresh_starts_cons|by auto].
Qed.

(** Receiving an announcement wakes the tasks it concerns. *)
Lemma block_announcement_wakes frames s s' :
  step' (RawBlock (ZmqMessage frames)) s = Some s' → announces (lit "rawblock") frames = true →
  poll_pending s' ∧ ∀ offset, offset ∈ BLOCK_REFRESH_OFFSETS → scheduled (rn_now s) offset s'.
Proof.
  intros [_ Ht]%step_turn Ha. cbn [turn] in Ht.
  apply bind_Some in Ht as (t & _ & ([t' called] & Hz & Ht)%bind_Some).
  unfold zmq_turn in Hz. destruct t; [done| |done]. rewrite Ha in Hz. injection Hz as <- <-.
  injection Ht as <-. split; [apply pending_notify_one|]. intros offset Ho.
  eexists (length (fo_announced (rn_follower s))), _. cbn.
  split; [by apply list_lookup_middle|]. done.
Qed.
Lemma tx_announcement_wakes frames s s' :
  step' (RawTx (ZmqMessage frames)) s = Some s' → announces (lit "rawtx") frames = true →
  poll_pending s'.
Proof.
  intros [_ Ht]%step_turn Ha. cbn [turn] in Ht.
  apply bind_Some in Ht as (t & _ & ([t' called] & Hz & Ht)%bind_Some).
  unfold zmq_turn in Hz. destruct t; [done| |done]. rewrite Ha in Hz. injection Hz as <- <-.
  injection Ht as <-. apply pending_notify_one.
Qed.

(** *** The chains of a run *)

(** A chain the server has at some moment from [s] on. *)
Definition chain_since s (c : IndexedChain S) : Prop :=
  ∃ es s', run' es s = Some s' ∧ c = fo_chain (rn_follower s').

(** Only the writer and the refresh move the chain. *)
Lemma turn_chain e s s' :
  turn' e s = Some s' →
  let c := fo_chain (rn_follower s) in
  match e with
  | PrimaryWrites p =>
      fo_chain (rn_follower s') = with_store c (with_db (store c) (primary_writes p (db (store c))))
  | RefreshEnd n => refresh_end (rn_now s) n (rn_follower s) = Some (rn_follower s')
  | _ => fo_chain (rn_follower s') = c
  end.
Proof.
  cbv zeta.
  destruct e as [nanos|q|w|n|n|w|contents tx_raw| | |ze|ze|i|id peer| | |id peer| | |id se|id me];
    cbn [turn]; intros Ht;
    try (apply on_clients_Some in Ht as (? & _ & _ & -> & _); done);
    try (apply on_poller_Some in Ht as (p & _ & _ & _ & -> & _); done);
    try (apply on_follower_Some in Ht as (f & Hf & -> & _));
    try (injection Ht as <-; done).
  - destruct (0 <=? nanos); [|done]. by injection Ht as <-.
  - by injection Hf as <-.
  - unfold refresh_start in Hf. destruct (fo_task _); [|done..]. by apply fmap_Some in Hf as (x & _ & ->).
  - done.
  - destruct (fo_task _); [done..| |done]. apply bind_Some in Ht as (s1 & H1 & H2).
    apply on_clients_Some in H1 as (? & _ & _ & Hf1 & _).
    apply on_follower_Some in H2 as (? & [= <-] & Hf2 & _). rewrite Hf2. cbn. by rewrite Hf1.
  - apply bind_Some in Ht as ([p tx] & _ & (s1 & H1 & H2)%bind_Some).
    apply on_poller_Some in H1 as (? & _ & _ & _ & Hf1 & _).
    apply on_clients_Some in H2 as (? & _ & _ & Hf2 & _). by rewrite Hf2, Hf1.
  - apply bind_Some in Ht as (t & _ & ([t' []] & _ & Ht)%bind_Some); by injection Ht as <-.
  - apply bind_Some in Ht as (t & _ & ([t' []] & _ & Ht)%bind_Some); by injection Ht as <-.
  - unfold announcement_turn in Hf. apply bind_Some in Hf as (a & _ & Hf).
    destruct (an_offsets a); [done|]. destruct (_ <=? _); [|done]. by injection Hf as <-.
  - destruct (sv_tls _); [|done]. by apply on_clients_Some in Ht as (? & _ & _ & -> & _).
Qed.
End running.
