(* ===== verification/ClientView.v ===== *)
(** * What a client knows of its scripts

    The other end of a session: a client that keeps, for every script it has
    subscribed to, the status it was last told, by a response of its own or by a
    notification. [heard] is what it knows after a run of the server. The server's
    record of the session is then exactly what the client knows. *)

From S2P Require Import Prelude External Text Utf8 Index Fmt Headers Batch Store StoreSpec Client.
From S2P Require Import Chain ChainSpec ChainSync Merkle Protocol ProtocolSpec Mempool CoreRest.
From S2P Require Import ScriptFold Adapter TorPush Config Bitcoind Monitor MonitorSnapshot.
From S2P Require Import Server ServerSpec RestTypes Tls Tasks TasksSpec.

Abbreviation Known := (gmap ElectrumScripthash json).

(** ** The client *)

Definition SUBSCRIBE : str := lit "blockchain.scripthash.subscribe".
Definition UNSUBSCRIBE : str := lit "blockchain.scripthash.unsubscribe".

Section client.
Context `{HS : !Hashes, HX : !Hex, ST : !ScriptHashText, SD : !Serde}.

(** What it learns from the response to a request; a subscription that is asked
    for without an id leaves it in the dark. *)
Definition hear (request : Request) (response : option Response) (k : Known) : Known :=
  match parse_scripthash (req_params request) with
  | Ok sh =>
      if bool_decide (req_method request = SUBSCRIBE) then
        match response with
        | Some response => match resp_result response with Some status => <[sh := status]> k | None => k end
        | None => base.delete sh k
        end
      else if bool_decide (req_method request = UNSUBSCRIBE) then base.delete sh k
      else k
  | _ => k
  end.
(** A batch is answered by the responses to its requests with an id, in order. *)
Fixpoint hear_batch (requests : list Request) (responses : list Response) (k : Known) : Known :=
  match requests with
  | [] => k
  | request :: requests =>
      if is_some (req_id request) then
        match responses with
        | response :: responses => hear_batch requests responses (hear request (Some response) k)
        | [] => k
        end
      else hear_batch requests responses (hear request None k)
  end.
Definition hear_line (line : str) (out : option outgoing) (k : Known) : Known :=
  if bool_decide (trim line = []) then k else
  match parse_line line, out with
  | Ok (Single request), Some (OutSingle response) => hear request (Some response) k
  | Ok (Single request), _ => hear request None k
  | Ok (BatchFrame requests), Some (OutBatch responses) => hear_batch requests responses k
  | _, _ => k
  end.
Definition hear_note (k : Known) (note : json) : Known :=
  match json_get note (lit "method"), json_get note (lit "params") with
  | Some (JString method), Some (JArray [JString text; status]) =>
      if bool_decide (method = SUBSCRIBE) then
        match esh_parse text with Ok sh => <[sh := status]> k | _ => k end
      else k
  | _, _ => k
  end.
Definition hear_notes (notes : list json) (k : Known) : Known := foldl hear_note k notes.

(** Every request of the line has an id. *)
Definition asks_with_ids (line : str) : bool :=
  match parse_line line with
  | Ok (Single request) => is_some (req_id request)
  | Ok (BatchFrame requests) => forallb (λ r, is_some (req_id r)) requests
  | _ => true
  end.

(** ** Agreement *)

Definition statuses (s : Session) : Known := (λ st, status_json (ss_status st)) <$> scripthashes s.
(** What is known is right; [exact]: and nothing is missing. *)
Definition agree (exact : bool) (k m : Known) : Prop := if exact then k = m else k ⊆ m.

Lemma agree_insert exact k m sh v : agree exact k m → agree exact (<[sh := v]> k) (<[sh := v]> m).
Proof. destruct exact; cbn; [by intros ->|apply insert_mono]. Qed.
Lemma agree_delete exact k m sh : agree exact k m → agree exact (base.delete sh k) (base.delete sh m).
Proof. destruct exact; cbn; [by intros ->|apply delete_mono]. Qed.
Lemma agree_hear exact request response k m :
  agree exact k m → agree exact (hear request (Some response) k) (hear request (Some response) m).
Proof.
  intros Ha. unfold hear. destruct (parse_scripthash _); [|done..].
  repeat case_bool_decide; [destruct (resp_result response)|..];
    auto using agree_insert, agree_delete.
Qed.
Lemma agree_untold request response k m :
  agree false k m → agree false (hear request None k) (hear request (Some response) m).
Proof.
  cbn. intros Ha. unfold hear. destruct (parse_scripthash _) as [sh| |]; [|done..].
  assert (base.delete sh k ⊆ m) as Hd by (etrans; [apply delete_subseteq|done]).
  repeat case_bool_decide; [|by apply delete_mono|done].
  destruct (resp_result response) as [v|]; [|done].
  etrans; [by apply delete_mono|]. apply map_subseteq_spec. intros i x [Hne Hi]%lookup_delete_Some.
  by rewrite lookup_insert_ne.
Qed.

(** The keys of a session are read back from their text. *)
Definition readable (m : Known) : Prop :=
  ∀ sh, is_Some (m !! sh) → esh_parse (esh_to_string sh) = Ok sh.

Context `{HXL : !HexLaws}.
Lemma esh_parse_text s sh : esh_parse s = Ok sh → esh_parse (esh_to_string sh) = Ok sh.
Proof.
  unfold esh_parse, esh_to_string. intros (b & Hb%ok_or_ok & H)%bind_ok.
  case_bool_decide as Hl; [|done]. injection H as <-. cbn [esh_bytes].
  rewrite hex_decode_encode by (by eapply hex_decode_wf). osimpl. by rewrite bool_decide_eq_true_2.
Qed.
Lemma readable_hear request response m : readable m → readable (hear request response m).
Proof.
  intros Hm. unfold hear. destruct (parse_scripthash _) as [sh| |] eqn:Ep; [|done..].
  assert (readable (base.delete sh m)) as Hd.
  { intros i [x [_ Hx]%lookup_delete_Some]. apply Hm. by exists x. }
  assert (∀ v, readable (<[sh := v]> m)) as Hi.
  { intros v i [x [[-> _]|[_ Hx]]%lookup_insert_Some]; [|apply Hm; by exists x].
    apply bind_ok in Ep as (s & _ & Hs). by eapply esh_parse_text. }
  repeat case_bool_decide; [|done..]. destruct response as [r|]; [|done]. by destruct (resp_result r).
Qed.
End client.

(** ** A session *)

Section session.
Context {S W F : Type} `{HS : !Hashes, HX : !Hex, HXL : !HexLaws, HT : !HashText, ST : !ScriptHashText,
  TT : !TxidText, TP : !TxidParse, SO : !ScriptOps, VI : !VarInt, SL : !Slices, CS : !Consensus,
  RD : !RocksDB S, HA : !HttpAgent W, RA : !RpcAgent W, FS : !Files, JT : !JsonText,
  JF : !JsonFloats, SD : !Serde, MS : !Millis F}.
Context (config : Config) (rpc : RpcClient) (tor_push : option TorTargets)
  (adapter_error_text : adapter_error slices_error → str) (rpc_error_text : rpc_error → str)
  (tor_error_text : tor_error → str) (version_error_text : version_error → str)
  (protocol_error_text : protocol_error → str) (strings_to_vec : list str → bytes)
  (interfere : nat → Adapter S → Adapter S) (mempool_at : nat → MempoolIndex)
  (push_env : nat → PushEnv) (mode : overflow_mode) (now : nat → Z) (elapsed : nat → F).
Implicit Types (p : Peer S W F).

Abbreviation dispatch' := (dispatch config rpc tor_push adapter_error_text rpc_error_text
  tor_error_text version_error_text strings_to_vec interfere mempool_at push_env mode now).
Abbreviation tracked' := (handle_tracked_request config rpc tor_push adapter_error_text
  rpc_error_text tor_error_text version_error_text strings_to_vec interfere mempool_at push_env
  mode now elapsed).
Abbreviation batch' := (handle_batch config rpc tor_push adapter_error_text
  rpc_error_text tor_error_text version_error_text strings_to_vec interfere mempool_at push_env
  mode now elapsed).
Abbreviation handle_line' := (handle_line config rpc tor_push adapter_error_text
  rpc_error_text tor_error_text version_error_text protocol_error_text strings_to_vec interfere
  mempool_at push_env mode now elapsed).
Abbreviation notifications' := (notifications adapter_error_text interfere mempool_at).
Abbreviation told p := (statuses (pr_session p)).

(** The response says what became of the subscriptions. *)
Lemma dispatch_subscribe request :
  req_method request = SUBSCRIBE →
  dispatch' request = scripthash_subscribe (S := S) (W := W) (F := F) config adapter_error_text interfere mempool_at (req_params request).
Proof. intros Hm. unfold dispatch. by rewrite Hm. Qed.
Lemma dispatch_unsubscribe request :
  req_method request = UNSUBSCRIBE → dispatch' request = scripthash_unsubscribe (S := S) (W := W) (F := F) (req_params request).
Proof. intros Hm. unfold dispatch. by rewrite Hm. Qed.
Lemma dispatch_other request p :
  req_method request ≠ SUBSCRIBE → req_method request ≠ UNSUBSCRIBE →
  scripthashes (pr_session (dispatch' request p).2) = scripthashes (pr_session p).
Proof.
  intros Hs Hu.
  pose proof (keeps_dispatch (F := F) config rpc tor_push adapter_error_text rpc_error_text tor_error_text
    version_error_text strings_to_vec interfere mempool_at push_env mode now
    (λ s, scripthashes s = scripthashes (pr_session p)) ltac:(congruence) request) as Hk.
  specialize (Hk ltac:(by intros ?) ltac:(by intros ?) p eq_refl).
  by destruct (dispatch' request p) as [[] p'].
Qed.

Lemma tracked_told peer request p r p' :
  tracked' peer request p = (Ok r, p') → told p' = hear request (Some r) (told p).
Proof.
  unfold handle_tracked_request, handle_request.
  intros (r' & p2 & (res & p1 & Hd & [-> ->]%st_ret_ok)%st_bind_ok & H)%st_bind_ok.
  apply st_bind_ok in H as (u & p3 & [= <- <-] & [-> ->]%st_ret_ok).
  cbn [pr_session with_monitor]. unfold st_try in Hd.
  assert (∀ m, told p = m → match dispatch' request p with
    | (Ok v, q) => told q = match parse_scripthash (req_params request) with
        | Ok sh => if bool_decide (req_method request = SUBSCRIBE) then <[sh := v]> m
                   else if bool_decide (req_method request = UNSUBSCRIBE) then base.delete sh m else m
        | _ => m end
    | (Err _, q) => told q = m ∧ (req_method request = UNSUBSCRIBE →
                                  ∀ sh, parse_scripthash (req_params request) ≠ Ok sh)
    | _ => True end) as Hcase.
  { intros m <-. destruct (decide (req_method request = SUBSCRIBE)) as [Hm|Hs].
    { rewrite dispatch_subscribe by done. rewrite bool_decide_eq_true_2 by done.
      pose proof (scripthash_subscribe_spec config adapter_error_text interfere mempool_at
        (req_params request) p) as Hsub.
      destruct (scripthash_subscribe _ _ _ _ _ p) as [[v|e|s] q]; [|by rewrite Hm, Hsub|done].
      destruct Hsub as (sh & st & -> & -> & -> & _). unfold statuses. cbn [scripthashes with_scripthashes].
      by rewrite fmap_insert. }
    destruct (decide (req_method request = UNSUBSCRIBE)) as [Hm|Hu].
    { rewrite dispatch_unsubscribe by done. rewrite bool_decide_eq_false_2, bool_decide_eq_true_2 by done.
      pose proof (scripthash_unsubscribe_spec (S := S) (W := W) (F := F) (req_params request) p) as Hun.
      destruct (scripthash_unsubscribe _ p) as [[v|e|s] q] eqn:Eu; [| |done].
      - destruct Hun as (sh & -> & ->). unfold statuses. cbn [scripthashes with_scripthashes].
        by rewrite fmap_delete.
      - split; [by rewrite Hun|]. intros _ sh Hp. unfold scripthash_unsubscribe in Eu.
        rewrite Hp in Eu. done. }
    pose proof (dispatch_other request p Hs Hu) as Hk. rewrite !bool_decide_eq_false_2 by done.
    destruct (dispatch' request p) as [[v|e|s] q]; cbn [snd] in Hk; unfold statuses; rewrite ?Hk;
      [by destruct (parse_scripthash _)|by split|done]. }
  specialize (Hcase _ eq_refl). unfold hear.
  destruct (dispatch' request p) as [[v|e|s] q]; [injection Hd as <- <-..|done]; cbn [resp_result response_result].
  - exact Hcase.
  - destruct Hcase as [-> Hu]. assert (resp_result (response_from_error (req_id request) e) = None) as ->
      by (by destruct e).
    destruct (parse_scripthash (req_params request)) as [sh| |] eqn:Ep; [|done..].
    repeat case_bool_decide; [done|by destruct (Hu ltac:(done) sh)|done].
Qed.

Definition in_step (exact : bool) (k : Known) (s : Session) : Prop :=
  agree exact k (statuses s) ∧ readable (statuses s).

Lemma tracked_in_step exact peer request p r p' k :
  tracked' peer request p = (Ok r, p') → in_step exact k (pr_session p) →
  (exact = true → is_some (req_id request) = true) →
  in_step exact (hear request (if is_some (req_id request) then Some r else None) k) (pr_session p').
Proof.
  intros Ht [Ha Hr] Hid. apply tracked_told in Ht. unfold in_step. rewrite Ht.
  split; [|by apply readable_hear]. destruct (is_some (req_id request)); [by apply agree_hear|].
  destruct exact; [by specialize (Hid eq_refl)|by apply agree_untold].
Qed.

Lemma batch_in_step exact peer requests p out p' k :
  batch' peer requests p = (Ok out, p') → in_step exact k (pr_session p) →
  (exact = true → forallb (λ r, is_some (req_id r)) requests = true) →
  in_step exact (hear_batch requests out k) (pr_session p').
Proof.
  revert p out k. induction requests as [|request requests IH]; intros p out k; cbn [handle_batch].
  { by intros [-> ->]%st_ret_ok. }
  intros (r & p1 & Ht & (rest & p2 & Hb & [-> ->]%st_ret_ok)%st_bind_ok)%st_bind_ok Hk Hid.
  cbn [forallb hear_batch] in *.
  eapply tracked_in_step in Ht; [|done|by intros [? _]%Hid%andb_true_iff].
  assert (exact = true → forallb (λ r, is_some (req_id r)) requests = true) as Hid'
    by (by intros [_ ?]%Hid%andb_true_iff).
  destruct (is_some (req_id request)); by eapply IH.
Qed.

Lemma line_in_step exact peer line p out p' k :
  handle_line' peer line p = (Ok out, p') → in_step exact k (pr_session p) →
  (exact = true → asks_with_ids line = true) → in_step exact (hear_line line out k) (pr_session p').
Proof.
  unfold handle_line, hear_line, asks_with_ids. case_bool_decide.
  { by intros [-> ->]%st_ret_ok. }
  destruct (parse_line line) as [[request|requests]|e|m]; intros Hl Hk Hid.
  - apply st_bind_ok in Hl as (r & p1 & Ht & [-> ->]%st_ret_ok).
    eapply tracked_in_step in Ht; [|done..]. by destruct (is_some (req_id request)).
  - destruct (max_batch_size config <? _).
    + by apply st_bind_ok in Hl as (u & p1 & [= <- <-] & [-> ->]%st_ret_ok).
    + apply st_bind_ok in Hl as (rs & p1 & Hb & [-> ->]%st_ret_ok). by eapply batch_in_step.
  - by apply st_bind_ok in Hl as (u & p1 & [= <- <-] & [-> ->]%st_ret_ok).
  - done.
Qed.

(** *** Notifications *)

Lemma hear_note_status sh v k :
  esh_parse (esh_to_string sh) = Ok sh →
  hear_note k (notification SUBSCRIBE (JArray [JString (esh_to_string sh); v])) = <[sh := v]> k.
Proof.
  intros Hp. unfold hear_note.
  change (json_get _ (lit "method")) with (Some (JString SUBSCRIBE)).
  change (json_get _ (lit "params")) with (Some (JArray [JString (esh_to_string sh); v])).
  cbv iota. by rewrite bool_decide_eq_true_2, Hp.
Qed.

Definition statuses_of (m : gmap ElectrumScripthash ScriptState) : Known :=
  (λ st, status_json (ss_status st)) <$> m.
(** A script is told of when its status changes. *)
Lemma notes_agree exact items (m : gmap ElectrumScripthash ScriptState) k :
  NoDup items.*1.*1 → (∀ sh st res, (sh, st, res) ∈ items → m !! sh = Some st) →
  readable (statuses_of m) → agree exact k (statuses_of m) →
  agree exact (hear_notes (notes_of items) k) (statuses_of (update_scripts m items)) ∧
  readable (statuses_of (update_scripts m items)).
Proof.
  revert m k. induction items as [|[[sh st] res] items IH]; intros m k Hnd Hin Hr Ha; [done|].
  cbn [fmap list_fmap fst] in Hnd. apply NoDup_cons in Hnd as [Hn Hnd].
  pose proof (Hin sh st res (list_elem_of_here _ _)) as Hst.
  assert (∀ sh' st' res', (sh', st', res') ∈ items → m !! sh' = Some st' ∧ sh' ≠ sh) as Hin'.
  { intros sh' st' res' Hi. split; [by apply (Hin _ _ res'), list_elem_of_further|]. intros ->. apply Hn.
    apply list_elem_of_fmap. exists (sh, st'). split; [done|]. apply list_elem_of_fmap. by exists (sh, st', res'). }
  unfold notes_of, update_scripts. cbn [omap list_omap foldl fst snd].
  destruct res as [st'|]; [|by apply IH; [|intros ??? [? _]%Hin'|..]].
  fold (update_scripts (<[sh := st']> m) items). fold (notes_of items).
  assert (esh_parse (esh_to_string sh) = Ok sh) as Hp.
  { apply Hr. unfold statuses_of. rewrite lookup_fmap, Hst. by eexists. }
  assert (statuses_of (<[sh := st']> m) = <[sh := status_json (ss_status st')]> (statuses_of m)) as Hs
    by (unfold statuses_of; by rewrite fmap_insert).
  assert (readable (statuses_of (<[sh := st']> m))) as Hr'.
  { rewrite Hs. intros i [x [[<- _]|[_ Hx]]%lookup_insert_Some]; [done|]. apply Hr. by exists x. }
  assert (∀ sh' st'' res', (sh', st'', res') ∈ items → <[sh := st']> m !! sh' = Some st'') as Hm.
  { intros sh' st'' res' [Hi Hne]%Hin'. by rewrite lookup_insert_ne. }
  case_bool_decide as Heq.
  - apply IH; [done..|]. rewrite Hs, insert_id; [done|]. unfold statuses_of. by rewrite lookup_fmap, Hst, Heq.
  - unfold hear_notes. cbn [foldl]. fold SUBSCRIBE. rewrite hear_note_status by done.
    apply IH; [done..|]. rewrite Hs. by apply agree_insert.
Qed.

Lemma notifications_in_step exact changes p out p' k :
  notifications' changes p = (Ok out, p') → in_step exact k (pr_session p) →
  in_step exact (hear_notes out k) (pr_session p').
Proof.
  intros (items & Hi & _ & Hl & Hd & _ & Hout)%notifications_ok [Ha Hr].
  assert (NoDup items.*1.*1) as Hnd by (rewrite Hi; apply NoDup_fst_map_to_list).
  assert (∀ sh st res, (sh, st, res) ∈ items → scripthashes (pr_session p) !! sh = Some st) as Hin.
  { intros sh st res He. apply elem_of_map_to_list. rewrite <-Hi. apply list_elem_of_fmap.
    by exists (sh, st, res). }
  assert (scripthashes (pr_session p') = update_scripts (scripthashes (pr_session p)) items) as Hs'.
  { apply map_eq. intros sh. destruct (scripthashes (pr_session p) !! sh) as [st|] eqn:Est.
    - assert ((sh, st) ∈ items.*1) as ([[sh' st'] res] & [= <- <-] & He)%list_elem_of_fmap
        by (rewrite Hi; by apply elem_of_map_to_list).
      rewrite (Hl _ _ _ He). symmetry. by apply update_scripts_lookup.
    - apply not_elem_of_dom in Est as Hnot. rewrite <-Hd in Hnot. apply not_elem_of_dom in Hnot as ->.
      symmetry. apply not_elem_of_dom. rewrite update_scripts_dom; [by apply not_elem_of_dom|].
      intros [[sh' st'] res] He. apply elem_of_dom. exists st'. by apply (Hin _ _ res). }
  assert (hear_notes out k = hear_notes (notes_of items) k) as ->.
  { rewrite Hout. destruct (header_subscribed _ && _); [|done]. by destruct (ch_tip changes). }
  unfold in_step, statuses. rewrite Hs'. by apply notes_agree.
Qed.
End session.

(** ** The running server *)

Section running.
Context {S W F N TX RX : Type} `{HS : !Hashes, HX : !Hex, HXL : !HexLaws, HT : !HashText,
  ST : !ScriptHashText, TT : !TxidText, TP : !TxidParse, SO : !ScriptOps, VI : !VarInt,
  SL : !Slices, CS : !Consensus, RD : !RocksDB S, HA : !HttpAgent W, RA : !RpcAgent W, FS : !Files,
  JT : !JsonText, JF : !JsonFloats, SF : !SatFloats, SD : !Serde, MS : !Millis F,
  SN : !SnapshotFloats F, CJ : !ConfigJson, RU : !Rustls, PR : !Primary S,
  NO : !Notify N, WA : !Watch Changes TX RX}.
Context (config : Config) (rpc : RpcClient) (tor_push : option TorTargets) (recent_cap : nat)
  (adapter_error_text : adapter_error slices_error → str) (rpc_error_text : rpc_error → str)
  (tor_error_text : tor_error → str) (version_error_text : version_error → str)
  (protocol_error_text : protocol_error → str) (strings_to_vec : list str → bytes)
  (mode : overflow_mode) (file_open : str → option bytes).
Implicit Types (s : Running S F N TX RX) (e : event S W F) (es : list (event S W F)).

Abbreviation turn' := (turn config rpc tor_push recent_cap adapter_error_text rpc_error_text
  tor_error_text version_error_text protocol_error_text strings_to_vec mode).
Abbreviation step' := (step config rpc tor_push recent_cap adapter_error_text rpc_error_text
  tor_error_text version_error_text protocol_error_text strings_to_vec mode).
Abbreviation run' := (run config rpc tor_push recent_cap adapter_error_text rpc_error_text
  tor_error_text version_error_text protocol_error_text strings_to_vec mode).

(** What the client of a session hears in one turn of its loop. *)
Definition session_hears (e : session_event S W F) (tx : TX) (l : Live RX) (k : Known) : Known :=
  match e with
  | LineRead line a _ =>
      match handle_line config rpc tor_push adapter_error_text rpc_error_text tor_error_text
              version_error_text protocol_error_text strings_to_vec (ar_interfere a) (ar_mempool_at a)
              (ar_push_env a) mode (ar_clock a) (ar_elapsed a) (lv_peer l) line
              (around_peer a (lv_session l)) with
      | (Ok out, _) => hear_line line out k
      | _ => k
      end
  | ChangeSeen a _ =>
      match notifications adapter_error_text (ar_interfere a) (ar_mempool_at a)
              (borrow_and_update tx (lv_changes l)).1 (around_peer a (lv_session l)) with
      | (Ok notes, _) => hear_notes notes k
      | _ => k
      end
  | _ => k
  end.
(** What the client [id] knows after a turn; a client that connects knows nothing. *)
Definition hears (id : nat) e s (k : Known) : Known :=
  match e with
  | Connect id' _ | TlsConnect id' _ => if bool_decide (id' = id) then ∅ else k
  | SessionTurn id' se =>
      if bool_decide (id' = id) then
        match sv_sessions (rn_clients s) !! id with
        | Some l => session_hears se (sv_changes (rn_clients s)) l k
        | None => k
        end
      else k
  | _ => k
  end.
Fixpoint heard (id : nat) es s (k : Known) : Known :=
  match es with
  | [] => k
  | e :: es => match step' e s with Some s' => heard id es s' (hears id e s k) | None => k end
  end.
(** The client [id] gives every request an id. *)
Definition always_asks (id : nat) es : Prop :=
  ∀ line around written, SessionTurn id (LineRead line around written) ∈ es → asks_with_ids line = true.

(** Its record at the server, while it is connected. *)
Definition recorded (exact : bool) (id : nat) (k : Known) s : Prop :=
  ∀ l, sv_sessions (rn_clients s) !! id = Some l → in_step exact k (lv_session l).

Lemma session_turn_in_step exact se tx l l' k :
  session_turn config rpc tor_push adapter_error_text rpc_error_text tor_error_text version_error_text
    protocol_error_text strings_to_vec mode se tx l = Some (Some l') →
  in_step exact k (lv_session l) →
  (∀ line a w, se = LineRead line a w → exact = true → asks_with_ids line = true) →
  in_step exact (session_hears se tx l k) (lv_session l').
Proof.
  intros Ht Hk Hid. destruct se as [line a w| | |a w]; cbn [session_turn session_hears] in *; [|done..|].
  - destruct (handle_line _ _ _ _ _ _ _ _ _ _ _ _ _ _ _ _ _ _) as [[out|e|m] p] eqn:E; [|done..].
    destruct (negb (is_some out) || w); [|done]. injection Ht as <-.
    eapply line_in_step in E; [exact E|done|]. by apply (Hid line a w).
  - destruct (has_changed tx (lv_changes l)); [|done].
    destruct (borrow_and_update tx (lv_changes l)) as [cur rx]; cbn [fst] in *.
    destruct (notifications _ _ _ _ _) as [[notes|e|m] p] eqn:E; [|done..].
    destruct (bool_decide (notes = []) || w); [|done]. injection Ht as <-.
    by eapply notifications_in_step in E.
Qed.

(** The sessions after a turn. *)
Lemma turn_sessions e s s' :
  turn' e s = Some s' →
  let m := sv_sessions (rn_clients s) in let m' := sv_sessions (rn_clients s') in
  match e with
  | Connect id peer | TlsConnect id peer =>
      m' = <[id := session_start config peer (sv_changes (rn_clients s))]> m
  | SessionTurn id se =>
      ∃ l next, m !! id = Some l ∧
        session_turn config rpc tor_push adapter_error_text rpc_error_text tor_error_text
          version_error_text protocol_error_text strings_to_vec mode se (sv_changes (rn_clients s)) l =
          Some next ∧
        m' = partial_alter (λ _, next) id m
  | _ => m' = m
  end.
Proof.
  cbv zeta.
  destruct e as [nanos|q|w|n|n|w|contents tx_raw| | |ze|ze|i|id peer| | |id peer| | |id se|id me];
    cbn [turn]; intros Ht;
    try (apply on_poller_Some in Ht as (p & _ & _ & -> & _); done);
    try (apply on_follower_Some in Ht as (f & _ & _ & -> & _); done);
    try (injection Ht as <-; done).
  - destruct (0 <=? nanos); [|done]. by injection Ht as <-.
  - destruct (fo_task _); [done..| |done]. apply bind_Some in Ht as (s1 & H1 & H2).
    apply on_clients_Some in H1 as (? & [= <-] & Hc1 & _).
    apply on_follower_Some in H2 as (? & _ & _ & Hc2 & _). by rewrite Hc2, Hc1.
  - apply bind_Some in Ht as ([p tx] & _ & (s1 & H1 & H2)%bind_Some).
    apply on_poller_Some in H1 as (? & _ & _ & Hc1 & _).
    apply on_clients_Some in H2 as (? & [= <-] & Hc2 & _). by rewrite Hc2; cbn; rewrite Hc1.
  - apply bind_Some in Ht as (t & _ & ([t' []] & _ & Ht)%bind_Some); by injection Ht as <-.
  - apply bind_Some in Ht as (t & _ & ([t' []] & _ & Ht)%bind_Some); by injection Ht as <-.
  - apply on_clients_Some in Ht as (c & Hc & -> & _). unfold connect in Hc. case_decide; [|done].
    by injection Hc as <-.
  - destruct (sv_tls _); [|done]. apply on_clients_Some in Ht as (c & Hc & -> & _).
    unfold connect in Hc. case_decide; [|done]. by injection Hc as <-.
  - apply on_clients_Some in Ht as (c & Hc & -> & _). unfold client_turn in Hc.
    apply bind_Some in Hc as (l & Hl & (next & Hn & [= <-])%bind_Some). exists l, next.
    split_and!; [done|done|]. by destruct next.
  - apply on_clients_Some in Ht as (c & Hc & -> & _). unfold client_monitor in Hc.
    apply bind_Some in Hc as (l & _ & [= <-]). by destruct me.
Qed.

Lemma step_recorded exact id e s s' k :
  step' e s = Some s' → recorded exact id k s → (exact = true → always_asks id [e]) →
  recorded exact id (hears id e s k) s'.
Proof.
  intros [_ Ht%turn_sessions]%step_turn Hk Hid l Hl. cbv zeta in Ht.
  assert (∀ id' peer tx, sv_sessions (rn_clients s') = <[id' := session_start config peer tx]>
    (sv_sessions (rn_clients s)) → in_step exact (if bool_decide (id' = id) then ∅ else k) (lv_session l)) as Hnew.
  { intros id' peer tx Hs. rewrite Hs in Hl. case_bool_decide as Heq.
    - subst id'. rewrite lookup_insert_eq in Hl. injection Hl as <-. unfold session_start.
      destruct (borrow_and_update _ _). split; [by destruct exact|]. intros sh [x Hx]. done.
    - rewrite lookup_insert_ne in Hl by done. by apply Hk. }
  destruct e; cbn [hears]; try (rewrite Ht in Hl; by apply Hk); try (by eapply Hnew).
  destruct Ht as (l0 & next & Hl0 & Hn & Hs). rewrite Hs in Hl. case_bool_decide as Heq.
  - subst. rewrite lookup_partial_alter_eq in Hl. subst next. rewrite Hl0.
    eapply session_turn_in_step; [done|by apply Hk|]. intros line a w -> He.
    apply (Hid He line a w). apply list_elem_of_here.
  - rewrite lookup_partial_alter_ne in Hl by done. by apply Hk.
Qed.

Lemma run_recorded exact id es s s' k :
  run' es s = Some s' → recorded exact id k s → (exact = true → always_asks id es) →
  recorded exact id (heard id es s k) s'.
Proof.
  revert s k. induction es as [|e es IH]; intros s k; cbn [run heard]; [by intros [= <-]|].
  intros (s1 & H1 & Hr)%bind_Some Hk Hid. rewrite H1. eapply IH; [done| |].
  - eapply step_recorded; [done..|]. intros He line a w Hin. apply (Hid He line a w).
    apply list_elem_of_singleton in Hin as ->. apply list_elem_of_here.
  - intros He line a w Hin. by apply (Hid He line a w), list_elem_of_further.
Qed.

Lemma main_no_sessions now fates fs tcp_binds tls_binds n s targets n' :
  main (F := F) config file_open now fates fs tcp_binds tls_binds n = (Ok (s, targets), n') →
  sv_sessions (rn_clients s) = ∅.
Proof.
  intros (_ & s0 & Hs0 & Hr)%main_ok. unfold server_run in Hr.
  apply bind_ok in Hr as (_ & _ & (tls & _ & [= <-])%bind_ok). cbn.
  unfold server_new in Hs0. apply st_bind_ok in Hs0 as ([a now'] & n1 & _ & H).
  apply st_bind_ok in H as (n2 & n3 & _ & H). apply st_bind_ok in H as (tip & n4 & _ & H).
  apply st_bind_ok in H as (mf & n5 & _ & H).
  by apply st_bind_ok in H as (tg & n6 & _ & [[= -> ->] _]%st_ret_ok).
Qed.
End running.
