(* ===== verification/TaskInstances.v ===== *)
(** * Concrete instances for the tasks of the server

    Wake-ups, a channel of changes, TLS, and a database that follows a writer,
    on top of the instances of the servers. They let runs be evaluated; nothing
    about the program depends on them. *)

From S2P Require Import Prelude External Index Fmt Headers Batch Store StoreSpec Client Chain.
From S2P Require Import ChainSpec ChainSync ChainQuery ChainSecondary Instances Text Utf8 Protocol ProtocolSpec.
From S2P Require Import Mempool CoreRest ScriptFold ScriptFoldSpec Adapter AdapterSpec TorPush.
From S2P Require Import Config Bitcoind Monitor MonitorSnapshot Server ElectrumInstances Tls Tasks.
From S2P Require Import TasksSpec.

Module TaskToy.
Export EToy.

(** ** Wake-ups and changes *)

#[export] Instance bool_notify : Notify bool := {
  notify_default := false; notify_one _ := true; pending n := n; notified _ := false;
}.
#[export] Instance bool_notify_laws : NotifyLaws bool.
Proof. by split. Qed.

(** The value and its version; the version a receiver has seen. *)
#[export] Instance version_watch {V} : Watch V (V * Z) Z := {
  channel v := (v, 0);
  borrow := fst;
  send_if_modified f tx := let '(v, b) := f tx.1 in (v, if b then tx.2 + 1 else tx.2);
  subscribe := snd;
  has_changed tx rx := negb (rx =? tx.2);
  borrow_and_update tx rx := (tx.1, tx.2);
}.
#[export] Instance version_watch_laws {V} : WatchLaws V (V * Z) Z.
Proof.
  refine {| watching := λ tx rx, rx ≤ tx.2 |}; cbn; try done.
  - intros f [v n]. cbn. by destruct (f v).
  - intros [v n]. cbn. by rewrite Z.eqb_refl.
  - intros f [v n] rx. cbn. destruct (f v) as [v' []]; cbn; lia.
  - intros f [v n] rx. cbn. destruct (f v) as [v' []]; cbn; [|done].
    intros Hle. by rewrite (proj2 (Z.eqb_neq _ _)) by lia.
  - intros [v n] rx. cbn. by rewrite Z.eqb_refl.
Qed.

(** ** TLS, and amounts *)

#[export] Instance rustls : Rustls := {
  server_config := private_key; rustls_error := ();
  pem_certs b := [Some b]; pem_pkcs8_keys b := [Some b]; pem_rsa_keys b := [];
  with_single_cert _ key := inr key;
}.
#[export] Instance sat_floats : SatFloats := { f64_to_sats z := z }.

(** ** A database that follows a writer

    What the reader sees, and what the writer has written: the index of the
    first or of the second chain of the node. *)
Record T := { view : MapDB.T; written : MapDB.T }.
Definition chain_of (second : bool) : IndexedChain MapDB.T :=
  if second then reorged_chain else synced_chain.
Definition index_of (second : bool) : MapDB.T := db (store (chain_of second)).

Definition with_view (s : T) (v : MapDB.T) : T := {| view := v; written := written s |}.
#[export] Instance follow_db : RocksDB T := {
  rocks_get s := rocks_get (view s);
  rocks_iter_from s := rocks_iter_from (view s);
  rocks_write s ops := with_view s <$> rocks_write (view s) ops;
  rocks_flush s cf := with_view s <$> rocks_flush (view s) cf;
  rocks_enable_compactions s cf := with_view s <$> rocks_enable_compactions (view s) cf;
  rocks_catch_up s := Some {| view := written s; written := written s |};
  rocks_open _ := None;
  rocks_open_secondary _ _ := Some {| view := ∅; written := index_of false |};
}.
#[export] Instance follow_db_laws : RocksDBLaws T.
Proof.
  split; cbn -[rocks_get rocks_iter_from].
  - intros s ops s' cf k [= <-]. by apply (rocks_write_get (view s) ops).
  - intros s. apply (rocks_iter_sorted (view s)).
  - intros s. apply (rocks_iter_elem (view s)).
  - by intros s cf s' cf' k [= <-].
  - by intros s cf s' cf' k [= <-].
Qed.
#[export] Instance primary : Primary T := {
  write_of := bool;
  primary_writes second s := {| view := view s; written := index_of second |};
}.

Lemma chain_of_inv second : ∃ bs, chain_inv (W := Z) (chain_of second) bs.
Proof.
  destruct synced_inv as [bs Hi]. destruct second; [|by exists bs].
  destruct (sync_spec 10 synced_chain bs 1 (Ok stats_2) reorged_chain 1 Hi reorged_ok)
    as (kept & new & _ & Hi2 & _). by exists (kept ++ new).
Qed.
#[export] Instance primary_laws : PrimaryLaws T Z.
Proof.
  refine {| index_ready := λ s, ∃ second, written s = index_of second |}.
  - done.
  - intros p q s [= <-]. by exists false.
  - intros second s _. by exists second.
  - intros s s' [second Hw] [= <-]. split; [by exists second|].
    destruct (chain_of_inv second) as [bs [Hb _ Hs]]. exists bs. split; [done|]. cbn. by rewrite Hw.
Qed.

(** ** Runs *)

Abbreviation Rn := (Running T Z bool (Changes * Z) Z).
Abbreviation Ev := (event T Z Z).

Definition config_1 : Config := {|
  cfg_network := NetBitcoin; cfg_db_name := None; bindex_db_path := lit "db";
  cfg_secondary_path := None; bitcoind_rpc_user := None; bitcoind_rpc_password := None;
  bitcoind_rpc_cookie := None; bitcoind_rpc_conf := None; tls_listen := Some (lit "::1");
  tls_cert := Some (lit "cert"); tls_key := Some (lit "key"); script_cache_refs := 1000;
  cfg_monitor_path := None; protocol_min := v1_4; protocol_max := v1_6; mempool_poll_secs := 5;
  secondary_refresh_ms := 1000; zmq_rawtx := Some (lit "tcp://n"); zmq_rawblock := Some (lit "tcp://n");
  max_batch_size := 10; max_subscriptions_per_session := 1; broadcast_via := ViaTor;
  tor_broadcast_url := None; tor_package_url := None; banner := lit "hello"; cfg_peers := [];
  donation_address := None; http_addr := None;
|}.
Definition pem_files (path : str) : option bytes := Some path.
Definition no_server : Rn := {|
  rn_serving := false; rn_now := 0; rn_follower := new_follower {| genesis_hash := []; ic_headers := [];
    store := {| db := {| view := ∅; written := ∅ |}; compacting := false; secondary := true |} |} 0;
  rn_poller := new_poller; rn_rawblock := None; rn_rawtx := None;
  rn_clients := {| sv_changes := ({| ch_tip := None; ch_mempool := 0 |}, 0); sv_sessions := ∅;
                   sv_monitor := monitor_default; sv_tls := false |} |}.
Definition get_ok {E A} (d : A) (r : outcome E A) : A := match r with Ok a => a | _ => d end.
Definition started : outcome main_error (Rn * option TorTargets) * Z :=
  main config_1 pem_files 5 (IoDone, IoDone) ∅ true true 0.
Definition server_1 : Rn := (get_ok (no_server, None) started.1).1.
Definition targets_1 : option TorTargets := (get_ok (no_server, None) started.1).2.
Lemma started_ok : started = (Ok (server_1, targets_1), started.2).
Proof.
  assert (match started.1 with Ok _ => True | _ => False end) as Hc by (vm_compute; exact I).
  unfold server_1, targets_1. by destruct started as [[[a b]| |] n].
Qed.
(** The defaults, but for the interval of the mempool polls. *)
Definition config_no_polls : Config :=
  let c := config_default (lit "db") in {|
  cfg_network := cfg_network c; cfg_db_name := cfg_db_name c; bindex_db_path := bindex_db_path c;
  cfg_secondary_path := cfg_secondary_path c; bitcoind_rpc_user := bitcoind_rpc_user c;
  bitcoind_rpc_password := bitcoind_rpc_password c; bitcoind_rpc_cookie := bitcoind_rpc_cookie c;
  bitcoind_rpc_conf := bitcoind_rpc_conf c; tls_listen := tls_listen c; tls_cert := tls_cert c;
  tls_key := tls_key c; script_cache_refs := script_cache_refs c; cfg_monitor_path := cfg_monitor_path c;
  protocol_min := protocol_min c; protocol_max := protocol_max c; mempool_poll_secs := 0;
  secondary_refresh_ms := secondary_refresh_ms c; zmq_rawtx := zmq_rawtx c;
  zmq_rawblock := zmq_rawblock c; max_batch_size := max_batch_size c;
  max_subscriptions_per_session := max_subscriptions_per_session c; broadcast_via := broadcast_via c;
  tor_broadcast_url := tor_broadcast_url c; tor_package_url := tor_package_url c; banner := banner c;
  cfg_peers := cfg_peers c; donation_address := donation_address c; http_addr := http_addr c;
|}.
Definition run_1 : list Ev → Rn → option Rn :=
  run config_1 rpc_0 targets_1 10 text_0 text_0 text_0 text_0 text_0 text_0 Wrapping.

Definition around_1 : Around T Z Z := {|
  ar_world := {| wd_adapter := {| ad_chain := {| genesis_hash := genesis_id; ic_headers := [];
      store := {| db := {| view := ∅; written := ∅ |}; compacting := false; secondary := true |} |};
      ad_scripts := cache_new 0 |}; wd_tick := 0; wd_node := 0 |};
  ar_monitor := monitor_default; ar_interfere _ a := a; ar_mempool_at _ := index_empty;
  ar_push_env := push_env_0; ar_clock _ := 7; ar_elapsed _ := 5;
|}.

(** A client connects; the writer reorganizes; a refresh finds it, the tip is
    published, and the session sees the change. *)
Definition follow_events : list Ev :=
  [Connect 0 (lit "peer"); PrimaryWrites true; RefreshStart ByTimer; RefreshEnd 0; PublishTip 0;
   SessionTurn 0 (ChangeSeen around_1 true)].
(** A block and two transactions are announced, and two polls follow. *)
Definition poll_events : list Ev :=
  [RawBlock ZmqConnected; RawTx ZmqConnected; RawBlock (ZmqMessage [lit "rawblock"; [1]]);
   RawTx (ZmqMessage [lit "rawtx"]); PollStart ByNotify; RawTx (ZmqMessage [lit "rawtx"]);
   PollEnd None (λ _, None); Elapse NANOS_PER_SEC; PollWake; PollStart ByNotify].

Definition followed : Rn := default no_server (run_1 follow_events server_1).
Lemma followed_ok : run_1 follow_events server_1 = Some followed.
Proof. vm_compute. reflexivity. Qed.
Definition polled : Rn := default no_server (run_1 poll_events server_1).
Lemma polled_ok : run_1 poll_events server_1 = Some polled.
Proof. vm_compute. reflexivity. Qed.

(** A client subscribes to headers between a refresh and its publication, and a
    change of the mempool is told of before it, too. *)
Definition around_2 : Around T Z Z := {|
  ar_world := {| wd_adapter := {| ad_chain := fo_chain (rn_follower followed); ad_scripts := cache_new 0 |};
                 wd_tick := 0; wd_node := 0 |};
  ar_monitor := monitor_default; ar_interfere _ a := a; ar_mempool_at _ := index_empty;
  ar_push_env := push_env_0; ar_clock _ := 7; ar_elapsed _ := 5;
|}.
Definition contents_1 : json :=
  JObject [(txid_to_string (stx_txid tx_1), JObject [(lit "fee", JNumber 3); (lit "time", JNumber 9)])].
Definition subscribe_events : list Ev :=
  [Connect 0 (lit "peer"); PrimaryWrites true; RefreshStart ByTimer; RefreshEnd 0;
   SessionTurn 0 (LineRead (lit "{1blockchain.headers.subscribe") around_2 true)].
Definition stale_events : list Ev :=
  subscribe_events ++
  [PollStart ByTimer; PollEnd (Some contents_1) (λ _, Some (stx_raw tx_1)); PollTell;
   SessionTurn 0 (ChangeSeen around_2 true)].
(** A client subscribes to a script, and is told of its new status when the chain
    was replaced. *)
Definition around_0 : Around T Z Z := {|
  ar_world := {| wd_adapter := {| ad_chain := fo_chain (rn_follower server_1); ad_scripts := cache_new 0 |};
                 wd_tick := 0; wd_node := 0 |};
  ar_monitor := monitor_default; ar_interfere _ a := a; ar_mempool_at _ := index_empty;
  ar_push_env := push_env_0; ar_clock _ := 7; ar_elapsed _ := 5;
|}.
Definition told_events : list Ev :=
  [Connect 0 (lit "peer"); SessionTurn 0 (LineRead subscribe_line around_0 true); PrimaryWrites true;
   RefreshStart ByTimer; RefreshEnd 0; PublishTip 0; SessionTurn 0 (ChangeSeen around_2 true)].
Definition told : Rn := default no_server (run_1 told_events server_1).
Lemma told_ok : run_1 told_events server_1 = Some told.
Proof. vm_compute. reflexivity. Qed.
Definition tip_of_chain (c : IndexedChain T) : option HeaderNotification :=
  get_ok None (chain_tip c (0 : Z)).
Definition last_sent (es : list Ev) : option HeaderNotification :=
  s ← run_1 es server_1; l ← sv_sessions (rn_clients s) !! 0%nat; last_header (lv_session l).

(** ** The chains of these runs *)

(** The reader sees one of the two chains, and the writer has written one. *)
Definition follows_node (s : Rn) : Prop :=
  let c := fo_chain (rn_follower s) in
  ∃ seen wrote, view (db (store c)) = index_of seen ∧ written (db (store c)) = index_of wrote ∧
    ic_headers c = ic_headers (chain_of seen).

Lemma follows_inv s : follows_node s → ∃ bs, chain_inv (W := Z) (fo_chain (rn_follower s)) bs.
Proof.
  intros (seen & _ & Hv & _ & Hh). destruct (chain_of_inv seen) as [bs [Hb Hb' Hs]]. exists bs.
  split; [done|by rewrite Hh|]. intros cf k. cbn. rewrite Hv. apply Hs.
Qed.

Lemma step_follows e s s' :
  follows_node s →
  Tasks.step config_1 rpc_0 targets_1 10 text_0 text_0 text_0 text_0 text_0 text_0 Wrapping e s = Some s' →
  follows_node s'.
Proof.
  intros Hf [_ Ht%turn_chain]%step_turn. cbv zeta in Ht. pose proof Hf as (seen & wrote & Hv & Hw & Hh).
  destruct e; try (unfold follows_node; rewrite Ht; exact Hf).
  - unfold follows_node. rewrite Ht. by exists seen, p.
  - destruct (follows_inv s Hf) as [bs Hi]. unfold refresh_end, adapter_refresh in Ht.
    destruct (fo_task _); [done| |done..].
    destruct (catch_up_with_primary (store (fo_chain (rn_follower s)))) as [d|e|m] eqn:Ec;
      unfold catch_up_with_primary in Ec; cbn in Ec;
      destruct (secondary (store (fo_chain (rn_follower s)))) eqn:Esec; try done.
    + injection Ec as <-. destruct (chain_of_inv wrote) as [bs' [Hb' Hh' Hs']].
      rewrite (refresh_secondary_spec (fo_chain (rn_follower s)) bs bs'
        (with_db (store (fo_chain (rn_follower s))) {| view := written (db (store (fo_chain (rn_follower s))));
           written := written (db (store (fo_chain (rn_follower s)))) |}) n) in Ht;
        [|apply Hi|apply Hi|by unfold catch_up_with_primary; rewrite Esec|done|].
      * unfold follows_node. injection Ht as <-. cbn. exists wrote, wrote. by rewrite Hw, Hh'.
      * intros cf k. cbn. rewrite Hw. apply Hs'.
    + injection Ec as <-.
      rewrite (refresh_secondary_spec (fo_chain (rn_follower s)) bs bs (store (fo_chain (rn_follower s))) n)
        in Ht; [|apply Hi|apply Hi|by unfold catch_up_with_primary; rewrite Esec|apply Hi|apply Hi].
      unfold follows_node. injection Ht as <-. cbn. exists seen, wrote. by rewrite <-Hh, (ci_headers _ _ Hi).
Qed.

Lemma server_1_follows : follows_node server_1.
Proof. exists false, false. split_and!; vm_compute; reflexivity. Qed.
Lemma run_follows es s : run_1 es server_1 = Some s → follows_node s.
Proof.
  unfold run_1. apply (run_invariant _ _ _ _ _ _ _ _ _ _ _ follows_node); [apply step_follows|].
  apply server_1_follows.
Qed.

Abbreviation since := (chain_since config_1 rpc_0 targets_1 10 text_0 text_0 text_0 text_0 text_0 text_0
  Wrapping server_1).
Lemma since_valid c bs h : since c → chain_inv (W := Z) c bs → consensus_valid (W := Z) bs h.
Proof.
  intros (es & s & Hr & ->) Hi. apply run_follows in Hr as (seen & wrote & Hv & _ & Hh).
  destruct seen; [apply reorged_valid|apply synced_headers_valid]; by rewrite <-(ci_headers _ _ Hi), Hh.
Qed.

(** A query on the script of the genesis block, while the chain is replaced. *)
Definition replaced (k : nat) (a : Adapter T) : Adapter T :=
  {| ad_chain := if (k =? 2)%nat then fo_chain (rn_follower followed) else ad_chain a;
     ad_scripts := ad_scripts a |}.
Definition world_1 : World T Z := {|
  wd_adapter := {| ad_chain := fo_chain (rn_follower server_1); ad_scripts := cache_new 100 |};
  wd_tick := 0; wd_node := 0 |}.
Definition served_run := script_history replaced no_deadline sh_a world_1.
Definition served_history : ScriptHistory :=
  match served_run.1 with Ok h => h | _ => finish fold_default end.
Lemma served_ok : served_run = (Ok served_history, served_run.2).
Proof. refine (pair_fst_eq served_run (Ok served_history) _). vm_compute. reflexivity. Qed.
Lemma since_followed : since (fo_chain (rn_follower followed)).
Proof. exists follow_events, followed. split; [apply followed_ok|done]. Qed.
Lemma world_1_ok : world_ok (W := Z) since world_1.
Proof. split; [by exists [], server_1|]. intros sh e. cbn. by rewrite lookup_empty. Qed.
Lemma replaced_ok k a : adapter_ok (W := Z) since a → adapter_ok (W := Z) since (replaced k a).
Proof. intros [Ha Hc]. split; [|done]. cbn. destruct (k =? 2)%nat; [apply since_followed|done]. Qed.
End TaskToy.
