(* ===== verification/RestInstances.v ===== *)
(** * Concrete instances for the REST API

    The interfaces of the routes, on top of the instances and the synchronized
    chain of [ElectrumInstances]: transactions as the chain format parses them,
    hashes displayed backwards, and rates and floats as integers. They let
    concrete requests be evaluated; nothing about the program depends on them. *)

From S2P Require Import Prelude External Text Utf8 Index Fmt Headers Batch Store StoreSpec Client Chain.
From S2P Require Import Instances Merkle Protocol Mempool CoreRest ScriptFold Adapter TorPush Config.
From S2P Require Import Bitcoind Monitor Server Deadline Http RestTypes RestQuery RestAddress.
From S2P Require Import RestHandlers Rest RestServe ElectrumInstances.

Module RToy.
Export EToy.

(** A decoded transaction keeps the outpoints and the outputs; its id is a
    checksum of them. *)
Definition rest_of_parsed (p : ParsedTx) : rest_tx :=
  {| rx_version := 1; rx_locktime := 0;
     rx_inputs := (λ o, {| ri_prevout := o; ri_script_sig := []; ri_witness := []; ri_sequence := 0 |})
                    <$> pt_inputs p;
     rx_outputs := (λ v : TxOutView, {| btxout_script := tov_script_pubkey v; btxout_value := tov_value v |}) <$> pt_outputs p |}.
Definition rest_decode (raw : bytes) : str + rest_tx :=
  match Fmt.parse_tx raw with Ok p => inr (rest_of_parsed p) | _ => inl (lit "bad transaction") end.
Fixpoint rest_decode_all (raws : list bytes) : str + list rest_tx :=
  match raws with
  | [] => inr []
  | raw :: raws =>
      match rest_decode raw, rest_decode_all raws with
      | inr tx, inr txs => inr (tx :: txs)
      | inl e, _ | _, inl e => inl e
      end
  end.
#[export] Instance transactions : Transactions := {
  rx_deserialize := rest_decode;
  block_deserialize b := rest_decode_all (stx_raw <$> block_txs b);
  compute_txid t := checksum ((rx_inputs t ≫= λ i, op_txid (ri_prevout i)) ++
                              (rx_outputs t ≫= btxout_script));
  is_coinbase t := bool_decide (rx_inputs t = []);
  total_size t := Z.of_nat (length (rx_inputs t) + length (rx_outputs t));
  tx_weight t := 4 * Z.of_nat (length (rx_inputs t) + length (rx_outputs t));
  total_sigop_cost _ _ := 0;
  header_time raw := match drop 68 raw with t :: _ => Some t | [] => None end;
  merkleblock_encode h ids matches := inr (h ++ concat (filter (λ t, matches t = true) ids));
}.
#[export] Instance scripts : Scripts := {
  is_p2pk _ := false; is_p2pkh _ := false; is_p2sh _ := false; is_p2wpkh _ := false;
  is_p2wsh _ := false; is_p2tr _ := false; is_multisig _ := false;
  to_asm_string := encode; instructions b := [PushBytes b];
  address_from_script b _ := Some (encode b);
  address_from_str s := b ← decode s; Some (b, λ _, true);
}.
#[export] Instance block_hash_text : BlockHashText := {
  block_hash_to_string := backward; block_hash_from_str := from_backward;
}.
#[export] Instance rest_floats : RestFloats := {
  f64_from_str s := parse_unsigned (2 ^ 53) s; f64_positive z := 0 <? z;
  f64_eight_decimals := show_unsigned; sat_per_vb z := z;
}.
#[export] Instance rates : Rates := {
  f32 := Z; f32_zero := 0; f32_rate fee vsize := fee / vsize; f32_ge x y := (y <= x)%Z;
  f32_ge_dec x y := decide (y <= x)%Z; f32_differ x y := negb (x =? y); json_of_f32 := JNumber;
}.
#[export] Instance rates_laws : RatesLaws.
Proof.
  split.
  - intros x y z Hxy Hyz. unfold f32_ge in *. cbn in *. lia.
  - intros x y. unfold f32_ge. cbn. lia.
Qed.

(** ** A REST server on the synchronized chain *)

#[export] Instance format_0 : Format := bitcoin_format.
#[export] Instance reads_0 : FormatReads MapDB.T Z Z := bitcoin_reads text_0 text_0 undisturbed.

Definition rest_0 : Rest MapDB.T Z Z := {| rt_peer := peer_0; rt_fee_cache := None |}.
Definition always (n : nat) : permit := Acquired.
Definition vec_0 (l : list str) : bytes := concat l.
Definition debug_0 (s : str) : str := s.
Definition rest_route (request : Req) : stM (Rest MapDB.T Z Z) HttpError HttpResponse :=
  route NetBitcoin rest_config_default config_0 rpc_0 (Some targets_0) text_0 text_0 text_0 text_0
    text_0 debug_0 vec_0 undisturbed no_mempool push_env_0 Wrapping now_0 request.
Definition rest_respond (request : HttpRequest) : stM (Rest MapDB.T Z Z) HttpError HttpResponse :=
  respond NetBitcoin rest_config_default config_0 rpc_0 (Some targets_0) text_0 text_0 text_0 text_0
    text_0 debug_0 vec_0 undisturbed no_mempool push_env_0 Wrapping now_0 always request.
Definition identity_0 (n : nat) : IdentityHeaders :=
  {| id_powered_by := lit "bindex"; id_cors := true; id_bitcoin_version := None |}.
Definition never_expires (n : nat) : bool := false.

(** A [GET] of a target, as a client sends it. *)
Definition host_header : str * str := (lit "Host", lit "localhost").
Definition get_request (target : string) : HttpRequest :=
  build_request (lit "GET") (lit target) (lit "HTTP/1.1") [(lit "host", lit "localhost")] [].

(** ** Permits *)

#[export] Instance counting : Semaphore Z := {
  semaphore_new n := n; try_acquire n := if 0 <? n then Some (n - 1) else None; release n := n + 1;
}.
#[export] Instance counting_laws : SemaphoreLaws Z.
Proof.
  refine {| available_permits := id |}; cbn; try done.
  - intros m m'. destruct (Z.ltb_spec 0 m); [|done]. intros [= <-]. unfold id. lia.
  - intros m. destruct (Z.ltb_spec 0 m); [done|]. unfold id. lia.
Qed.
(** A server for one connection. *)
Definition config_one : RestConfig := {|
  rc_cors := false; rc_address_search := false; rc_default_block_limit := 10;
  rc_default_chain_txs_per_page := 25; rc_default_max_mempool_txs := 50;
  rc_default_max_address_summary_txs := 5000; rc_max_mempool_page_size := 1000;
  rc_max_mempool_txid_page_size := 10000; rc_utxos_limit := 500; rc_request_timeout_secs := 30;
  rc_max_concurrent_queries := 0; rc_max_connections := 1; rc_header_timeout_secs := 10;
  rc_idle_timeout_secs := 30; rc_request_body_bytes_cap := 1000;
|}.
Definition api_of (r : outcome () (RestApi Z)) : RestApi Z :=
  match r with
  | Ok a => a
  | _ => {| ra_identity := identity_0 0; ra_queries := Build_Permits 0 ∅; ra_connections := Build_Permits 0 ∅;
            ra_refusing := ∅; ra_probe := ProbeDone |}
  end.
Definition api_0 : RestApi Z := api_of (rest_api_new config_one).
End RToy.
