(* ===== verification/ElectrumTheorems.v ===== *)
(** * Correctness of the Electrum server's chain side

    The properties of [bindex-electrum]'s Merkle proofs, protocol values,
    mempool index, spent-output parser, script histories and script cache, each
    with the concrete input that shows its hypotheses can hold. *)

From S2P Require Import Prelude External Index Fmt Headers Batch Store StoreSpec Client Chain.
From S2P Require Import ChainSpec ChainSync ChainQuery Instances Merkle Text Utf8 Protocol.
From S2P Require Import ProtocolSpec Mempool MempoolSpec CoreRest ScriptFold ScriptFoldSpec Adapter.
From S2P Require Import AdapterSpec TorPush Config Bitcoind Monitor Server ElectrumInstances.

(** ** Merkle proofs *)

Section merkle.
Context `{HS : !Hashes, HSL : !HashLaws}.

(** C14: [branch_and_root] gives, for every leaf, a branch of logarithmic length
    that leads from the leaf to the root of the tree; and any other leaf and
    branch of that length that lead to the root at the same index exhibit a
    collision of the hash. *)
Theorem merkle_branch_proves {E} leaves idx leaf :
  leaves !! idx = Some leaf → Forall (λ h, length h = HASH_LEN) leaves →
  ∃ br r, branch_and_root (E := E) leaves idx = Ok {| branch := br; root := r |} ∧
    fold_branch leaf idx br = r ∧ merkle_root leaves r ∧
    (length leaves ≤ 2 ^ length br < 2 * length leaves)%nat ∧
    ∀ x bx, length x = HASH_LEN → Forall (λ h, length h = HASH_LEN) bx →
      length bx = length br → fold_branch x idx bx = r →
      (x = leaf ∧ bx = br) ∨ branch_collision x leaf idx bx br.
Proof.
  intros Hi Hw. unfold branch_and_root. pose proof (lookup_lt_Some _ _ _ Hi) as Hlt.
  unfold assert_that. rewrite (bool_decide_eq_true_2 (leaves ≠ [])) by (by destruct leaves).
  rewrite (bool_decide_eq_true_2 (idx < length leaves)%nat) by done. osimpl.
  destruct (branch_loop_spec (E := E) (length leaves) leaves idx leaf [] (le_n _) Hi)
    as (br & r & Heq & Hf & Hr & Hl).
  exists br, r. split_and!; [done..|apply Hl|apply Hl|]. intros x bx Hx Hbx Hlen Hfx.
  pose proof (branch_loop_hashes _ _ _ [] _ Hw (Forall_nil_2 _) Heq) as Hbr.
  apply fold_branch_binding; [done| |done..|congruence].
  rewrite Forall_forall in Hw. by eapply Hw, list_elem_of_lookup_2.
Qed.
End merkle.

(** ** Protocol versions *)

(** Printing and parsing versions are inverse: the text of a well-formed
    version parses to it, and what the parser accepts is well formed (at least
    two [u32] components, no zeros at the end after the second). *)
Theorem version_text_roundtrip v s :
  (version_wf v → version_from_str (version_to_string v) = Ok v) ∧
  (version_from_str s = Ok v → version_wf v).
Proof. split; [apply version_display_parse|apply version_from_str_wf]. Qed.

Definition version_in_range (cmin cmax : option ProtocolVersion) (smin smax v : ProtocolVersion) : Prop :=
  version_le smin v = true ∧ version_le v smax = true ∧
  (∀ m, cmin = Some m → version_le m v = true) ∧ (∀ m, cmax = Some m → version_le v m = true).

(** [negotiate] picks the greatest version that both the client and the
    server accept, and fails exactly when there is none. *)
Theorem negotiate_greatest cmin cmax smin smax :
  match negotiate cmin cmax smin smax with
  | Some v => version_in_range cmin cmax smin smax v ∧
      ∀ u, version_in_range cmin cmax smin smax u → version_le u v = true
  | None => ∀ u, ¬ version_in_range cmin cmax smin smax u
  end.
Proof.
  unfold negotiate.
  set (lo := match cmin with Some v => version_max v smin | None => smin end).
  set (hi := match cmax with Some v => version_min v smax | None => smax end).
  assert (∀ u, version_in_range cmin cmax smin smax u ↔
               version_le lo u = true ∧ version_le u hi = true) as Hr.
  { intros u. unfold version_in_range, lo, hi.
    destruct cmin, cmax; rewrite ?version_max_le, ?version_min_ge; naive_solver. }
  destruct (version_le lo hi) eqn:Hle.
  - rewrite Hr. split; [split; [done|apply version_le_refl]|]. by intros u [_ ?]%Hr.
  - intros u [H1 H2]%Hr. by rewrite (version_le_trans _ _ _ H1 H2) in Hle.
Qed.

(** ** Script hashes and the script status *)

Section status.
Context `{HS : !Hashes, HSL : !HashLaws, HX : !Hex, HXL : !HexLaws, ST : !ScriptHashText,
          STL : !ScriptHashTextLaws}.

(** The script hash a client sends for a script (hash reversed, in hex)
    is parsed, and leads to the hash the index is keyed by. *)
Theorem scripthash_reaches_index {E} script :
  ∃ h, esh_from_script (E := E) script = Ok h ∧ esh_parse (esh_to_string h) = Ok h ∧
    esh_to_bindex h = Ok (sha256 script).
Proof.
  eexists. split_and!; [apply esh_from_script_ok| |apply esh_to_bindex_ok].
  destruct (sha256_wf script) as [Hw Hl].
  unfold esh_parse, esh_to_string. cbn [esh_bytes].
  rewrite hex_decode_encode by (by apply bytes_wf_rev). osimpl.
  by rewrite bool_decide_eq_true_2 by (by rewrite length_rev).
Qed.

(** Equal statuses mean equal histories (ids and heights, in order), or a
    collision of SHA-256 on the two texts that were hashed. *)
Theorem status_binds_history h1 h2 :
  Forall (λ e, 58 ∉ he_tx_hash e) h1 → Forall (λ e, 58 ∉ he_tx_hash e) h2 →
  scripthash_status h1 = scripthash_status h2 →
  history_key <$> h1 = history_key <$> h2 ∨
  (status_payload h1 ≠ status_payload h2 ∧
   sha256 (status_payload h1) = sha256 (status_payload h2)).
Proof. apply scripthash_status_binding. Qed.
End status.

(** ** The mempool index *)

(** Inserting a transaction that conflicts with none of the index's, and
    removing any, keep the index consistent: the script and spent-output maps
    say exactly what the transactions touch and spend. *)
Theorem mempool_edits_consistent self tx t :
  mempool_inv self →
  (admissible self tx → mempool_inv (insert tx self)) ∧
  mempool_inv (remove t self).2 ∧ txs (remove t self).2 = base.delete t (txs self).
Proof.
  intros Hi. split_and!; [by apply insert_inv|by apply remove_inv|apply remove_txs].
Qed.

Section mempool.
Context `{HS : !Hashes, HX : !Hex, ST : !ScriptHashText, TT : !TxidText, CS : !Consensus}.

(** C36: a poll leaves the index with the transactions the node still lists and
    those of its new ones that could be fetched, counts both changes, and
    keeps the index consistent and its transactions well formed. *)
Theorem poll_once_reconciles contents tx_raw cap self self' added removed :
  mempool_ok self →
  all_admissible
    (foldl (λ self txid, (remove txid self).2) self
       (txids_list (dom (txs self) ∖ contents_ids contents)))
    (arrivals_of contents tx_raw self) →
  poll_once contents tx_raw cap self = (self', (added, removed)) →
  mempool_ok self' ∧ added = length (arrivals_of contents tx_raw self) ∧
  removed = size (dom (txs self) ∖ contents_ids contents) ∧
  ∀ t, txs self' !! t =
    match list_find (λ tx, mt_txid tx = t) (arrivals_of contents tx_raw self) with
    | Some (_, tx) => Some tx
    | None => if decide (t ∈ contents_ids contents) then txs self !! t else None
    end.
Proof.
  intros [Hi Hwf] Ha Hp. pose proof (poll_once_spec contents tx_raw cap self Hi Ha) as Hs.
  rewrite Hp in Hs. destruct Hs as (Hi' & Hadd & Hrem & Htx). split_and!; [|done..].
  split; [done|]. intros t tx. rewrite Htx.
  destruct (list_find _ _) as [[k tx']|] eqn:Ef.
  - intros [= ->]. apply list_find_Some in Ef as (Hk & _). by eapply arrivals_wf, list_elem_of_lookup_2.
  - case_decide; [|done]. apply Hwf.
Qed.

(** C35: the mempool view of a script has exactly the unconfirmed transactions
    that pay it, or spend an output of it that is confirmed or itself
    unconfirmed; and exactly its unconfirmed outputs that no unmined
    transaction spends. *)
Theorem script_view_exact self sh conf mined e o v :
  mempool_ok self →
  (e ∈ sm_entries (script_view self sh conf mined) ↔
   ∃ t tx, txs self !! t = Some tx ∧ (t ∉ mined) ∧ involves self sh conf.*1 tx ∧
     e = view_entry self mined tx) ∧
  ((o, v) ∈ sm_utxos (script_view self sh conf mined) ↔
   unconfirmed_output self sh o v ∧ (op_txid o ∉ mined) ∧ ¬ spent_in_mempool self mined o).
Proof. intros Hok. split; [by apply view_entries_exact|by apply view_utxos_exact]. Qed.
End mempool.

(** ** The spent outputs of a block *)

(** [parse_spent_txouts] accepts exactly the encodings of lists of lists of
    outputs, with nothing after them, and returns the lists. *)
Theorem spent_txouts_exact `{VI : !VarInt, VIL : !VarIntLaws, VRL : !VarIntReadLaws,
    TR : !TxOutReader, TRL : !TxOutReaderLaws} b out :
  Z.of_nat (length b) < 2 ^ 58 → parse_spent_txouts b = Ok out ↔ spent_encoding b out.
Proof. apply parse_spent_txouts_ok. Qed.

(** ** The script cache *)

(** [put] keeps the cache consistent and within its bound; the new entry is
    there exactly when it fits; other entries are unchanged or evicted, and
    evicted ones were used before all that are kept. *)
Theorem script_cache_put sh cached self :
  cache_inv self → clock self < 2 ^ 64 - 1 →
  let self' := cache_put sh cached self in
  cache_inv self' ∧ max_refs self' = max_refs self ∧
  (sc_entries self' !! sh =
     if decide (refs_len cached ≤ max_refs self) then Some (cached, clock self + 1) else None) ∧
  (∀ sh' e, sh' ≠ sh → sc_entries self' !! sh' = Some e → sc_entries self !! sh' = Some e) ∧
  (∀ sh1 sh2 e1 e2, sh1 ≠ sh → sc_entries self !! sh1 = Some e1 →
     sc_entries self' !! sh1 = None → sc_entries self' !! sh2 = Some e2 → e1.2 < e2.2).
Proof.
  intros Hi Hc. destruct (cache_put_ok sh cached self Hi Hc) as (? & ? & ? & ? & ? & _). done.
Qed.

(** ** Script histories and spenders *)

Section history.
Context {S W : Type} `{HS : !Hashes, HSL : !HashLaws, HX : !Hex, HXL : !HexLaws, HT : !HashText,
  ST : !ScriptHashText, STL : !ScriptHashTextLaws, SO : !ScriptOps, VI : !VarInt,
  VIL : !VarIntLaws, SL : !Slices, SLL : !SlicesLaws, CS : !Consensus, RD : !RocksDB S,
  RL : !RocksDBLaws S, HA : !HttpAgent W, NL : !NodeLaws W}.
Context (interfere : nat → Adapter S → Adapter S) (expired : nat → bool).
(** What every thread keeps true of the chain; it implies that the chain is
    in step with its database. *)
Context (I : IndexedChain S → Prop).


(** What [find_spender] returns is right for a chain the adapter had: a
    spender is a transaction of the chain with the outpoint among its inputs,
    at the place reported; and when it finds none, no transaction that
    touches the script from the funding height on spends the outpoint. *)
Theorem find_spender_exact o sh fh w found w' :
  (∀ n a, adapter_ok (W := W) I a → adapter_ok (W := W) I (interfere n a)) →
  (∀ c, I c → ∃ bs, chain_inv (W := W) c bs) →
  esh_wf sh → world_ok I w → find_spender interfere expired o sh fh w = (Ok found, w') →
  world_ok I w' ∧ ∃ c bs, I c ∧ chain_inv (W := W) c bs ∧
    let from := from_txnum (ic_headers c) (Some fh) in
    match found with
    | Some s => ∃ n i j hdr d tx spent p r,
        chain_tx (W := W) bs n i j hdr d tx spent ∧ from ≤ n ∧ parse_tx (stx_raw tx) = Ok p ∧
        tbr_block_hash r = ih_hash hdr ∧ tbr_block_height r = Z.of_nat i ∧
        tbr_block_position r = Z.of_nat j ∧ spends_at o r p s
    | None => ∀ n i j hdr d tx spent, chain_tx (W := W) bs n i j hdr d tx spent → from ≤ n →
        ChainQuery.touches (rev (esh_bytes sh)) (stx_scripts tx ++ spent) →
        ∃ p, parse_tx (stx_raw tx) = Ok p ∧ no_spend o p
    end.
Proof. intros Hother. by apply find_spender_ok. Qed.
End history.

(** ** Concrete inputs *)

Section witnesses.
Import EToy.

Lemma merkle_branch_proves_witness :
  ∃ br r, branch_and_root (E := ()%type) [id_1; id_2; genesis_id] 2 =
            Ok {| branch := br; root := r |} ∧
    fold_branch genesis_id 2 br = r.
Proof.
  destruct (merkle_branch_proves (E := ()%type) [id_1; id_2; genesis_id] 2 genesis_id)
    as (br & r & Hb & Hf & _).
  - reflexivity.
  - repeat constructor.
  - exists br, r. exact (conj Hb Hf).
Defined.

Lemma version_text_roundtrip_witness :
  version_from_str (version_to_string v1_6) = Ok v1_6 ∧ version_wf {| components := [1; 4; 2] |}.
Proof.
  split.
  - apply (version_text_roundtrip v1_6 []). split_and!.
    + repeat constructor; done.
    + cbn. lia.
    + cbn. lia.
  - apply (version_text_roundtrip {| components := [1; 4; 2] |} (lit "1.4.2.0")). vm_compute. reflexivity.
Defined.

Lemma scripthash_reaches_index_witness :
  ∃ h, esh_from_script (E := ()%type) script_a = Ok h ∧ esh_parse (esh_to_string h) = Ok h ∧
    esh_to_bindex h = Ok (sha256 script_a).
Proof. exact (scripthash_reaches_index script_a). Defined.

Lemma status_binds_history_witness :
  let h := [{| he_tx_hash := lit "ab"; he_height := -1; he_fee := Some 3 |}] in
  let h' := [{| he_tx_hash := lit "ab"; he_height := -1; he_fee := None |}] in
  history_key <$> h = history_key <$> h' ∨
  (status_payload h ≠ status_payload h' ∧ sha256 (status_payload h) = sha256 (status_payload h')).
Proof.
  apply status_binds_history.
  - constructor; [apply (bool_decide_eq_true_1 (58 ∉ lit "ab")); vm_compute; reflexivity|constructor].
  - constructor; [apply (bool_decide_eq_true_1 (58 ∉ lit "ab")); vm_compute; reflexivity|constructor].
  - vm_compute. reflexivity.
Defined.

Lemma spent_txouts_exact_witness :
  ∃ out, parse_spent_txouts spent_1 = Ok out ∧ spent_encoding spent_1 out.
Proof.
  eexists. split; [vm_compute; reflexivity|].
  apply (spent_txouts_exact spent_1); [by apply Z.ltb_lt; vm_compute|vm_compute; reflexivity].
Defined.

Lemma script_cache_put_witness :
  let cached := {| cs_refs := []; cs_fold := fold_default; cs_history := history_a |} in
  cache_inv (cache_put sh_a cached (cache_new 10)) ∧
  sc_entries (cache_put sh_a cached (cache_new 10)) !! sh_a = Some (cached, 1).
Proof.
  intros cached.
  destruct (script_cache_put sh_a cached (cache_new 10)) as (Hi & _ & He & _).
  - apply cache_new_inv. lia.
  - cbn. lia.
  - split; [exact Hi|]. rewrite He. reflexivity.
Defined.


(** The second transaction of block 1 spends the output of the genesis block. *)
Lemma find_spender_exact_witness :
  ∃ s, spender_a = Some s ∧ ∃ bs n i j hdr d tx spent p r,
    chain_tx (W := Z) bs n i j hdr d tx spent ∧ 0 ≤ n ∧ Fmt.parse_tx (stx_raw tx) = Ok p ∧
    spends_at outpoint_a r p s.
Proof.
  eexists. split; [reflexivity|].
  destruct (find_spender_exact undisturbed no_deadline chain_is_synced outpoint_a sh_a 0 world_0
              spender_a spender_run.2) as (_ & c & bs & -> & Hi & n & i & j & hdr & d & tx & spent & p & r &
              Hct & Hn & Hp & _ & _ & _ & Hs).
  - apply undisturbed_ok.
  - apply chain_is_synced_inv.
  - apply sh_a_wf.
  - apply world_0_ok.
  - apply spender_run_ok.
  - exists bs, n, i, j, hdr, d, tx, spent, p, r. split_and!; [exact Hct|exact Hn|exact Hp|exact Hs].
Defined.

(** A poll that finds one new transaction: the one that spends [outpoint_a]. *)
Definition poll_info : MempoolEntryInfo :=
  {| mi_fee := 5; mi_vsize := 100; mi_ancestor_fees := 5; mi_ancestor_vsize := 100; mi_time := 7 |}.
Definition poll_contents : list (option hash32 * MempoolEntryInfo) :=
  [(None, poll_info); (Some (stx_txid tx_1), poll_info)].
Definition poll_raw (t : hash32) : option bytes :=
  if decide (t = stx_txid tx_1) then Some (stx_raw tx_1) else None.
Definition poll_arrivals : list MempoolTx := arrivals_of poll_contents poll_raw index_empty.
Definition mtx : MempoolTx := default
  {| mt_txid := []; mt_raw := []; mt_fee := 0; mt_vsize := 0; ancestor_fees := 0; ancestor_vsize := 0;
     mt_time := 0; touches := ∅; spends := ∅; outputs := ∅ |} (head poll_arrivals).
Lemma poll_arrivals_one : poll_arrivals = [mtx].
Proof.
  assert (length poll_arrivals = 1%nat) as Hl by (vm_compute; reflexivity).
  unfold mtx. by destruct poll_arrivals as [|x [|y l]].
Qed.
Lemma mtx_admissible : admissible index_empty mtx.
Proof.
  split; [apply lookup_empty|]. intros t tx Ht. exfalso. exact (lookup_empty_Some t tx Ht).
Qed.
#[local] Opaque mtx.
Lemma mempool_one_ok : mempool_ok (insert mtx index_empty).
Proof.
  split; [apply insert_inv; [apply index_empty_inv|apply mtx_admissible]|].
  intros t tx Ht.
  change (<[mt_txid mtx := mtx]> (∅ : gmap hash32 MempoolTx) !! t = Some tx) in Ht.
  apply lookup_insert_Some in Ht as [[_ <-]|[_ Ht]]; [|exfalso; exact (lookup_empty_Some t tx Ht)].
  apply (arrivals_wf poll_contents poll_raw index_empty). change (mtx ∈ poll_arrivals).
  rewrite poll_arrivals_one. by left.
Qed.

Lemma mempool_edits_consistent_witness :
  mempool_inv (insert mtx index_empty) ∧ mempool_inv (remove (mt_txid mtx) index_empty).2.
Proof.
  destruct (mempool_edits_consistent index_empty mtx (mt_txid mtx) index_empty_inv) as (Hi & Hr & _).
  split; [apply Hi, mtx_admissible|exact Hr].
Defined.

Lemma poll_once_reconciles_witness :
  let '(self', (added, removed)) := poll_once poll_contents poll_raw 5 index_empty in
  mempool_ok self' ∧ added = 1%nat ∧ removed = 0%nat.
Proof.
  destruct (poll_once poll_contents poll_raw 5 index_empty) as [self' [added removed]] eqn:Ep.
  destruct (poll_once_reconciles poll_contents poll_raw 5 index_empty self' added removed)
    as (Hok & Ha & Hr & _).
  - split; [apply index_empty_inv|]. intros t tx Ht. exfalso. exact (lookup_empty_Some t tx Ht).
  - change (arrivals_of poll_contents poll_raw index_empty) with poll_arrivals.
    rewrite poll_arrivals_one. split_and!.
    + apply NoDup_singleton.
    + apply Forall_singleton, mtx_admissible.
    + intros a b Ha%list_elem_of_singleton Hb%list_elem_of_singleton Hne. exfalso. apply Hne.
      rewrite Ha, Hb. reflexivity.
  - exact Ep.
  - split_and!; [exact Hok| |].
    + rewrite Ha. change (arrivals_of poll_contents poll_raw index_empty) with poll_arrivals.
      rewrite poll_arrivals_one. reflexivity.
    + rewrite Hr. reflexivity.
Defined.

Lemma script_view_exact_witness :
  let sh := {| esh_bytes := rev (checksum script_b) |} in
  let o := {| op_txid := mt_txid mtx; op_vout := 0 |} in
  (o, 1) ∈ sm_utxos (script_view (insert mtx index_empty) sh [] ∅) ↔
  unconfirmed_output (insert mtx index_empty) sh o 1 ∧ (op_txid o ∉ (∅ : gset hash32)) ∧
  ¬ spent_in_mempool (insert mtx index_empty) ∅ o.
Proof.
  intros sh o.
  exact (proj2 (script_view_exact (insert mtx index_empty) sh [] ∅
                  (view_entry (insert mtx index_empty) ∅ mtx) o 1 mempool_one_ok)).
Defined.
End witnesses.
