(* ===== verification/ServerTheorems.v ===== *)
(** * Correctness of the Electrum server

    The properties of [bindex-electrum]'s broadcasts over Tor, configuration,
    monitor, requests and notifications, each with the concrete input that
    shows its hypotheses can hold. *)

From S2P Require Import Prelude External Index Fmt Headers Batch Store StoreSpec Client Chain.
From S2P Require Import ChainSpec ChainSync ChainQuery Instances Merkle Text Utf8 Protocol.
From S2P Require Import ProtocolSpec Mempool MempoolSpec CoreRest ScriptFold ScriptFoldSpec Adapter.
From S2P Require Import AdapterSpec TorPush TorPushSpec Config Bitcoind Monitor Server ServerSpec.
From S2P Require Import MonitorSnapshot ElectrumInstances.

(** ** Broadcasts over Tor *)


(** Printing and parsing push targets are inverse: the URL of a well-formed
    target parses to it, and what the parser accepts is well formed (a host
    SOCKS can carry, no credentials, a port, an absolute path). *)
Theorem target_url_roundtrip t url :
  (target_wf t → target_parse (target_url t) = Ok t) ∧
  (target_parse url = Ok t → target_wf t).
Proof. split; [apply target_url_parse|apply target_parse_wf]. Qed.

(** [decode_chunked] inverts the chunked transfer encoding, whatever the
    trailers; and on every body its loop ends. *)
Theorem chunked_roundtrip mode chunks trailers body :
  Forall (λ c, c ≠ [] ∧ Z.of_nat (length c) + 2 < 2 ^ 64) chunks →
  decode_chunked mode (chunked_encode chunks trailers) = Ok (concat chunks) ∧
  decode_chunked mode body ≠ Panic "out of fuel".
Proof. intros Hc. split; [by apply decode_chunked_encode|apply decode_chunked_total]. Qed.

(** A chunk size that overflows with the two bytes of the line end makes
    [decode_chunked] panic: at the addition with overflow checks, and without
    them at the slice, since the wrapped sum passes the length check. *)
Theorem chunked_size_overflow mode z rest :
  2 ^ 64 - 2 ≤ z < 2 ^ 64 → z + 2 - 2 ^ 64 ≤ Z.of_nat (length rest) < 2 ^ 64 - 2 →
  decode_chunked mode (show_hex z ++ CRLF ++ rest) =
    Panic (match mode with
           | Checked => "attempt to add with overflow"
           | Wrapping => "range end index out of range"
           end).
Proof. apply decode_chunked_overflow. Qed.

(** ** Configuration *)

(** With a configuration that [validate] accepts, the version range is not
    empty and the limits are not zero; and when broadcasts go over Tor, both
    onion endpoints exist and are well formed, so the server starts with them. *)
Theorem validated_config_starts c :
  validate c = Ok tt →
  version_le (protocol_min c) (protocol_max c) = true ∧
  max_batch_size c ≠ 0 ∧ max_subscriptions_per_session c ≠ 0 ∧
  (broadcast_via c = ViaTor → ∃ targets, server_tor_push c = Ok (Some targets) ∧
     target_wf (tor_tx targets) ∧ target_wf (tor_package targets)).
Proof.
  intros Hv. destruct (validate_limits c Hv) as (Hr & Hb & Hs & _). split_and!; [done..|].
  intros Htor. destruct (validate_tor c Hv Htor) as [(tx & Htx) (package & Hp)].
  exists {| tor_tx := tx; tor_package := package |}. unfold server_tor_push.
  rewrite Htor, Htx. osimpl. rewrite Hp. split; [done|].
  split; [by eapply broadcast_target_wf|by eapply package_target_wf].
Qed.

(** ** The monitor *)

(** In every state the monitor can reach, the totals are the sums over the
    methods, every method has at most as many errors as requests and keeps its
    latest samples, the recent requests are the latest ones, and every client
    has at most as many errors as requests. *)
Theorem monitor_counts {F} `{MS : !Millis F} (s : MonitorState F) :
  monitor_reachable s → monitor_inv s.
Proof. apply monitor_reachable_inv. Qed.

(** A snapshot of any reachable state can be taken: it has one row for each
    method, by falling count, with the method's counters and percentiles that
    split its samples at the index of the quantile; the counts and errors of
    the rows add up to the totals it reports. *)
Theorem monitor_snapshot_exact {F} `{MS : !Millis F, SF : !SnapshotFloats F, SL : !SnapshotFloatsLaws F}
    started now uptime (s : MonitorState F) :
  monitor_reachable s →
  ∃ snap, snapshot (E := ()) started now uptime s = Ok snap ∧
    sn_total_requests snap = total_requests s ∧ sn_total_errors snap = total_errors s ∧
    sn_recent snap = recent_requests s ∧ sn_clients snap ≡ₚ map_to_list (active s) ∧
    StronglySorted Z.ge (ms_count <$> sn_methods snap) ∧
    sumZ (ms_count <$> sn_methods snap) = total_requests s ∧
    sumZ (ms_errors <$> sn_methods snap) = total_errors s ∧
    ∃ rows, rows ≡ₚ sn_methods snap ∧
      Forall2 (λ (e : str * MethodMetrics F) m, method_row e.1 e.2 m) (by_name (methods s)) rows.
Proof.
  intros Hi%monitor_reachable_inv.
  destruct (snapshot_ok (E := ()) started now uptime s) as (snap & Hs & Hr & He & _ & Hrec & Hc & Hsort & Hrows).
  destruct (snapshot_sums _ _ _ _ _ Hi Hs) as [H1 H2]. exists snap. split_and!; congruence || done.
Qed.

(** Whichever of its two file operations fails, [write_atomic] leaves the
    snapshot file with its old contents or all of the new, also between the two
    operations, and reports which; no file but it and its temporary file
    changes. *)
Theorem snapshot_file_atomic fates p data fs :
  let '(ok, fs') := write_atomic fates p data fs in
  (if ok then fs' !! p = Some data else fs' !! p = fs !! p) ∧
  (fs_write fates.1 (tmp_path p) data fs).2 !! p = fs !! p ∧
  ∀ q, q ≠ p → q ≠ tmp_path p → fs' !! q = fs !! q.
Proof. destruct (write_atomic fates p data fs) as [ok fs'] eqn:E. by apply write_atomic_ok in E. Qed.

(** ** Balances *)


(** ** Requests and notifications *)

Section server.
Context {S W F : Type} `{HS : !Hashes, HX : !Hex, HT : !HashText, ST : !ScriptHashText,
  TT : !TxidText, TP : !TxidParse, SO : !ScriptOps, VI : !VarInt, SL : !Slices, CS : !Consensus,
  RD : !RocksDB S, HA : !HttpAgent W, RH : !RawHeaders S W, RA : !RpcAgent W, FS : !Files, JT : !JsonText,
  JF : !JsonFloats, SD : !Serde, MS : !Millis F}.
Context (config : Config) (rpc : RpcClient) (tor_push : option TorTargets)
  (adapter_error_text : adapter_error slices_error → str) (rpc_error_text : rpc_error → str)
  (tor_error_text : tor_error → str) (version_error_text : version_error → str)
  (protocol_error_text : protocol_error → str) (strings_to_vec : list str → bytes)
  (interfere : nat → Adapter S → Adapter S) (mempool_at : nat → MempoolIndex)
  (push_env : nat → PushEnv) (mode : overflow_mode) (now : nat → Z) (elapsed : nat → F).
Implicit Types (p : Peer S W F).

Abbreviation dispatch' := (dispatch config rpc tor_push adapter_error_text rpc_error_text
  tor_error_text version_error_text strings_to_vec interfere mempool_at push_env mode now).
Abbreviation handle_request' := (handle_request config rpc tor_push adapter_error_text
  rpc_error_text tor_error_text version_error_text strings_to_vec interfere mempool_at push_env
  mode now).
Abbreviation tracked' := (handle_tracked_request config rpc tor_push adapter_error_text
  rpc_error_text tor_error_text version_error_text strings_to_vec interfere mempool_at push_env
  mode now elapsed).
Abbreviation batch' := (handle_batch config rpc tor_push adapter_error_text
  rpc_error_text tor_error_text version_error_text strings_to_vec interfere mempool_at push_env
  mode now elapsed).
Abbreviation handle_line' := (handle_line config rpc tor_push adapter_error_text
  rpc_error_text tor_error_text version_error_text protocol_error_text strings_to_vec interfere
  mempool_at push_env mode now elapsed).
Abbreviation notifications' := (notifications adapter_error_text interfere mempool_at).
Abbreviation notify_scripts' := (notify_scripts adapter_error_text interfere mempool_at).
Abbreviation confirmed' := (confirmed adapter_error_text interfere).

(** A request with an id is answered by one response with that id, one
    without is not answered; a batch within the limit is answered by the
    responses to its requests with an id, in order. *)
Theorem handle_line_answers peer line p out p' :
  handle_line' peer line p = (Ok out, p') →
  match parse_line line with
  | Ok (Single request) =>
      trim line ≠ [] →
      match out with
      | Some (OutSingle r) => resp_id r = req_id request ∧ is_Some (req_id request)
      | Some (OutBatch _) => False
      | None => req_id request = None
      end
  | Ok (BatchFrame requests) =>
      trim line ≠ [] → Z.of_nat (length requests) ≤ max_batch_size config →
      ∃ rs, out = Some (OutBatch rs) ∧
        resp_id <$> rs = req_id <$> filter (λ r, is_some (req_id r) = true) requests
  | _ => True
  end.
Proof. apply handle_line_ids. Qed.



(** C17: [notifications] goes over every subscribed script once. It sends the new
    tip if the client subscribed to headers and was not sent it, and a
    script's status exactly if it differs from the last one; each status is
    that of the script's history, refreshed when the tip changed, and of the
    mempool at that moment. Subscriptions are kept. *)
Theorem notifications_exact changes p out (p' : Peer S W F) :
  notifications' changes p = (Ok out, p') →
  let s := pr_session p in let s' := pr_session p' in
  let tip_changed := negb (bool_decide (ch_tip changes = checked_tip s)) in
  ∃ items,
    items.*1 = map_to_list (scripthashes s) ∧
    Forall (λ x, outcome_of (W := W) (F := F) adapter_error_text interfere mempool_at tip_changed x.1.1 x.1.2 x.2) items ∧
    (∀ sh st res, (sh, st, res) ∈ items → scripthashes s' !! sh = Some (default st res)) ∧
    dom (scripthashes s') = dom (scripthashes s) ∧
    checked_tip s' = ch_tip changes ∧
    out = (if header_subscribed s && negb (bool_decide (ch_tip changes = last_header s))
           then from_option (λ tip, [notification (lit "blockchain.headers.subscribe")
                                       (JArray [header_json tip])]) [] (ch_tip changes)
           else []) ++ notes_of items.
Proof. apply notifications_ok. Qed.

(** Once [notifications] has seen a tip, it does not refresh any confirmed
    history until the tip changes again, not even that of a script whose
    refresh failed at that tip. *)
Theorem notifications_do_not_retry changes changes' p out (p' : Peer S W F) q out' (q' : Peer S W F) sh st :
  notifications' changes p = (Ok out, p') → ch_tip changes' = ch_tip changes →
  pr_session q = pr_session p' → notifications' changes' q = (Ok out', q') →
  scripthashes (pr_session p') !! sh = Some st →
  ∃ st', scripthashes (pr_session q') !! sh = Some st' ∧ ss_confirmed st' = ss_confirmed st.
Proof.
  intros Hp Htip Hs Hq Hst.
  destruct (notifications_ok _ _ _ _ _ _ _ Hp) as (_ & _ & _ & _ & _ & Hck & _).
  destruct (notifications_ok _ _ _ _ _ _ _ Hq) as (items & Hi & Hout & Hl & _).
  rewrite Hs, Hck, Htip, bool_decide_eq_true_2 in Hout by done. rewrite Hs in Hi.
  assert ((sh, st) ∈ items.*1) as ([[sh' st'] res] & [= <- <-] & Hin)%list_elem_of_fmap
    by (rewrite Hi; by apply elem_of_map_to_list).
  exists (default st res). split; [by apply Hl|]. rewrite Forall_forall in Hout.
  apply Hout in Hin. cbn in Hin. destruct res as [st'|]; [by destruct Hin|done].
Qed.

(** No request or notification takes a session over the limit of
    subscriptions. *)
Theorem subscriptions_within_limit p (p' : Peer S W F) :
  rtc (session_step config rpc tor_push adapter_error_text rpc_error_text tor_error_text
         version_error_text protocol_error_text strings_to_vec interfere mempool_at push_env mode now
         elapsed) p p' →
  Z.of_nat (size (scripthashes (pr_session p))) ≤ max_subscriptions_per_session config →
  Z.of_nat (size (scripthashes (pr_session p'))) ≤ max_subscriptions_per_session config.
Proof.
  induction 1 as [p|p p1 p' Hstep _ IH]; [done|]. intros Hl. apply IH.
  by eapply (session_step_limit config).
Qed.
End server.

(** ** Concrete inputs *)

Section witnesses.
Import EToy.


Lemma target_0_wf : target_wf target_0.
Proof.
  split.
  - discriminate.
  - cbn. lia.
  - apply (bool_decide_eq_true_1 (47 ∉ pt_host target_0)). vm_compute. reflexivity.
  - apply (bool_decide_eq_true_1 (64 ∉ pt_host target_0)). vm_compute. reflexivity.
  - cbn. lia.
  - eexists. reflexivity.
Qed.
Lemma target_url_roundtrip_witness :
  target_parse (target_url target_0) = Ok target_0 ∧
  target_wf {| pt_host := lit "h"; pt_port := 81; pt_path := lit "/x" |}.
Proof.
  split.
  - apply (target_url_roundtrip target_0 []), target_0_wf.
  - apply (target_url_roundtrip _ (lit "http://h:81/x")). vm_compute. reflexivity.
Defined.

Lemma chunked_roundtrip_witness :
  decode_chunked Wrapping (chunked_encode [lit "ab"; lit "c"] (lit "t")) = Ok (lit "abc").
Proof.
  apply (chunked_roundtrip Wrapping [lit "ab"; lit "c"] (lit "t") []).
  repeat constructor; discriminate.
Defined.

(** ["ffffffffffffffff\r\nx"] *)
Lemma chunked_size_overflow_witness :
  lit "ffffffffffffffff" = show_hex (2 ^ 64 - 1) ∧
  decode_chunked Wrapping (show_hex (2 ^ 64 - 1) ++ CRLF ++ lit "x") =
    Panic "range end index out of range".
Proof.
  split; [vm_compute; reflexivity|].
  apply (chunked_size_overflow Wrapping (2 ^ 64 - 1) (lit "x")).
  - split; [discriminate|reflexivity].
  - split; [discriminate|reflexivity].
Defined.

Lemma validated_config_starts_witness :
  ∃ targets, server_tor_push config_0 = Ok (Some targets) ∧
    target_wf (tor_tx targets) ∧ target_wf (tor_package targets).
Proof.
  apply (validated_config_starts config_0).
  - vm_compute. reflexivity.
  - reflexivity.
Defined.

Lemma monitor_counts_witness :
  monitor_inv (record_request (lit "p") (lit "m") false 3 None 9
                 (monitor_session (lit "p") 8 (monitor_default (F := Z)))).
Proof.
  apply (monitor_counts (F := Z)). eapply reach_step; [|apply step_record].
  eapply reach_step; [apply reach_default|apply step_session].
Defined.

Definition monitored : MonitorState Z :=
  record_request (lit "p") (lit "m") false 3 None 9
    (record_request (lit "p") (lit "n") true 1 None 9
      (record_request (lit "p") (lit "n") true 5 None 8 monitor_default)).
Lemma monitor_snapshot_exact_witness :
  ∃ snap, snapshot (E := ()) 7 10 3 monitored = Ok snap ∧
    sumZ (ms_count <$> sn_methods snap) = 3 ∧ sumZ (ms_errors <$> sn_methods snap) = 1.
Proof.
  destruct (monitor_snapshot_exact 7 10 3 monitored) as (snap & Hs & _ & _ & _ & _ & _ & Hc & He & _).
  { do 3 (eapply reach_step; [|apply step_record]). apply reach_default. }
  exists snap. split; [exact Hs|]. rewrite Hc, He. split; reflexivity.
Defined.

Lemma handle_line_answers_witness :
  ∃ r, answer_1 = Some (OutSingle r) ∧ resp_id r = Some (IdNumber 1) ∧ resp_error r = None.
Proof.
  pose proof (handle_line_answers config_0 rpc_0 (Some targets_0) text_0 text_0 text_0 text_0 text_0
    text_0 undisturbed no_mempool push_env_0 Wrapping now_0 elapsed_0 (lit "peer") subscribe_line
    peer_0 answer_1 peer_1 subscribed_ok) as Ha.
  rewrite subscribe_parsed in Ha.
  assert (trim subscribe_line ≠ []) as Hne by (vm_compute; discriminate).
  specialize (Ha Hne). eexists. split; [reflexivity|]. split; [exact (proj1 Ha)|reflexivity].
Defined.



Lemma notifications_exact_witness :
  length notes_stale = 2%nat ∧ checked_tip (pr_session notified_stale.2) = Some tip_1.
Proof.
  split; [reflexivity|].
  destruct (notifications_exact text_0 undisturbed no_mempool changes_1 peer_stale notes_stale
              notified_stale.2 notified_stale_ok) as (items & _ & _ & _ & _ & Hc & _).
  exact Hc.
Defined.

Lemma notifications_do_not_retry_witness :
  ∃ st st', scripthashes (pr_session peer_2) !! sh_a = Some st ∧
    scripthashes (pr_session notified_again.2) !! sh_a = Some st' ∧
    ss_confirmed st' = ss_confirmed st.
Proof.
  destruct (scripthashes (pr_session peer_2) !! sh_a) as [st|] eqn:Hst; [|vm_compute in Hst; discriminate].
  destruct (notifications_do_not_retry text_0 undisturbed no_mempool changes_1 changes_1 peer_1 notes_1
              peer_2 peer_2 notes_1 notified_again.2 sh_a st notified_ok eq_refl eq_refl
              notified_again_ok Hst) as (st' & Hst' & Hc).
  exists st, st'. split; [reflexivity|exact (conj Hst' Hc)].
Defined.

Lemma subscriptions_within_limit_witness :
  Z.of_nat (size (scripthashes (pr_session peer_1))) ≤ 1 ∧
  size (scripthashes (pr_session peer_1)) = 1%nat.
Proof.
  split; [|vm_compute; reflexivity].
  apply (subscriptions_within_limit config_0 rpc_0 (Some targets_0) text_0 text_0 text_0 text_0 text_0
    text_0 undisturbed no_mempool push_env_0 Wrapping now_0 elapsed_0 peer_0 peer_1).
  - apply rtc_once. eapply step_line. apply subscribed_ok.
  - discriminate.
Defined.
End witnesses.
