(* ===== verification/TaskTheorems.v ===== *)
(** * Correctness of the server's tasks

    The properties of the running Electrum server: its tasks and sessions in any
    order, each with the run that shows its hypotheses can hold. *)

From S2P Require Import Prelude External Text Utf8 Index Fmt Headers Batch Store StoreSpec Client.
From S2P Require Import Chain ChainSpec ChainSync ChainQuery Instances Merkle Protocol Mempool.
From S2P Require Import CoreRest ScriptFold ScriptFoldSpec Adapter AdapterSpec TorPush Config Bitcoind Monitor.
From S2P Require Import MonitorSnapshot Server ServerSpec ElectrumInstances RestTypes Tls Tasks TasksSpec ClientView TaskInstances.

Section running.
Context {S W F N TX RX : Type} `{HS : !Hashes, HSL : !HashLaws, HX : !Hex, HT : !HashText,
  ST : !ScriptHashText, TT : !TxidText, TP : !TxidParse, SO : !ScriptOps, VI : !VarInt,
  VIL : !VarIntLaws, SL : !Slices, SLL : !SlicesLaws, CS : !Consensus, RD : !RocksDB S,
  RL : !RocksDBLaws S, HA : !HttpAgent W, NL : !NodeLaws W, RA : !RpcAgent W, FS : !Files,
  JT : !JsonText, JF : !JsonFloats, SF : !SatFloats, SD : !Serde, MS : !Millis F,
  SN : !SnapshotFloats F, CJ : !ConfigJson, RU : !Rustls, PR : !Primary S, PL : !PrimaryLaws S W,
  NO : !Notify N, NOL : !NotifyLaws N, WA : !Watch Changes TX RX, WL : !WatchLaws Changes TX RX}.
Context (config : Config) (rpc : RpcClient) (tor_push : option TorTargets) (recent_cap : nat)
  (adapter_error_text : adapter_error slices_error → str) (rpc_error_text : rpc_error → str)
  (tor_error_text : tor_error → str) (version_error_text : version_error → str)
  (protocol_error_text : protocol_error → str) (strings_to_vec : list str → bytes)
  (mode : overflow_mode) (file_open : str → option bytes).
Implicit Types (s : Running S F N TX RX) (e : event S W F) (es : list (event S W F)).

Abbreviation run' := (run config rpc tor_push recent_cap adapter_error_text rpc_error_text
  tor_error_text version_error_text protocol_error_text strings_to_vec mode).
Abbreviation poll_starts' := (poll_starts config rpc tor_push recent_cap adapter_error_text
  rpc_error_text tor_error_text version_error_text protocol_error_text strings_to_vec mode).



(** C22: whatever is announced and however the tasks are scheduled, two polls of
    the mempool never start less than [MIN_MEMPOOL_POLL_GAP] apart. *)
Theorem mempool_polls_spaced es s i t t' :
  poll_starts' es s !! i = Some t → poll_starts' es s !! Datatypes.S i = Some t' →
  t + MIN_MEMPOOL_POLL_GAP ≤ t'.
Proof.
  intros Ht Ht'. pose proof (poll_starts_spaced config rpc tor_push recent_cap adapter_error_text
    rpc_error_text tor_error_text version_error_text protocol_error_text strings_to_vec mode es s) as Hs.
  by eapply spaced_lookup.
Qed.



(** C5: what a client was last told of the scripts it subscribed to, by the
    responses to its requests and by notifications, is what the server has
    recorded for its session, in every order of events: no status is stored
    without being sent, and none is sent and not stored. If it gives every
    request an id, it knows of every subscription of the session. *)
Theorem client_in_step `{HXL : !HexLaws} now fates fs tcp_binds tls_binds n s1 n' es s id l :
  main (F := F) config file_open now fates fs tcp_binds tls_binds n = (Ok (s1, tor_push), n') →
  run' es s1 = Some s → sv_sessions (rn_clients s) !! id = Some l →
  let known := heard config rpc tor_push recent_cap adapter_error_text rpc_error_text tor_error_text
                 version_error_text protocol_error_text strings_to_vec mode id es s1 ∅ in
  known ⊆ statuses (lv_session l) ∧ (always_asks id es → known = statuses (lv_session l)).
Proof.
  intros Hm Hr Hl. cbv zeta.
  assert (∀ exact, recorded exact id ∅ s1) as H0.
  { intros exact l'. by rewrite (main_no_sessions _ _ _ _ _ _ _ _ _ _ _ Hm), lookup_empty. }
  split.
  - by apply (run_recorded _ _ _ _ _ _ _ _ _ _ _ false id es s1 s ∅ Hr (H0 false)).
  - intros Ha. by apply (run_recorded _ _ _ _ _ _ _ _ _ _ _ true id es s1 s ∅ Hr (H0 true)).
Qed.
End running.

(** ** Runs *)

Section witnesses.
Import TaskToy.



(** The client knows the new status. *)
Lemma client_in_step_witness :
  ∃ l status, sv_sessions (rn_clients told) !! 0%nat = Some l ∧
    heard config_1 rpc_0 targets_1 10 text_0 text_0 text_0 text_0 text_0 text_0 Wrapping 0 told_events
      server_1 ∅ = statuses (lv_session l) ∧
    statuses (lv_session l) !! sh_a = Some (JString status) ∧
    answer_1 ≠ Some (OutSingle (response_result (Some (IdNumber 1)) (JString status))).
Proof.
  destruct (sv_sessions (rn_clients told) !! 0%nat) as [l|] eqn:El; [|vm_compute in El; discriminate].
  destruct (client_in_step config_1 rpc_0 targets_1 10 text_0 text_0 text_0 text_0 text_0 text_0 Wrapping
    pem_files 5 (IoDone, IoDone) ∅ true true 0 server_1 started.2 told_events told 0%nat l) as [_ Hk].
  - exact started_ok.
  - exact told_ok.
  - exact El.
  - exists l. eexists. split; [reflexivity|]. split.
    + apply Hk. intros line a w Hin. unfold told_events in Hin. rewrite !elem_of_cons in Hin.
      destruct Hin as [Hin|[Hin|[Hin|[Hin|[Hin|[Hin|[Hin|Hin%elem_of_nil]]]]]]];
        [discriminate Hin| |discriminate Hin..|destruct Hin].
      injection Hin as -> _ _. vm_compute. reflexivity.
    + vm_compute in El. injection El as <-. split; [vm_compute; reflexivity|vm_compute; discriminate].
Defined.

(** The second poll waits for the gap. *)
Lemma mempool_polls_spaced_witness :
  poll_starts config_1 rpc_0 targets_1 10 text_0 text_0 text_0 text_0 text_0 text_0 Wrapping
    poll_events server_1 = [5; 5 + NANOS_PER_SEC] ∧
  5 + MIN_MEMPOOL_POLL_GAP ≤ 5 + NANOS_PER_SEC.
Proof.
  assert (poll_starts config_1 rpc_0 targets_1 10 text_0 text_0 text_0 text_0 text_0 text_0 Wrapping
    poll_events server_1 = [5; 5 + NANOS_PER_SEC]) as Hp by (vm_compute; reflexivity).
  split; [exact Hp|].
  apply (mempool_polls_spaced config_1 rpc_0 targets_1 10 text_0 text_0 text_0 text_0 text_0 text_0
    Wrapping poll_events server_1 0); rewrite Hp; reflexivity.
Defined.


(** A session that subscribed to headers right after a refresh was answered with
    the new tip, and is then notified of the old one: a change of the mempool
    reached it before the tip was published. *)
Example stale_header_sent :
  last_sent subscribe_events = tip_of_chain (fo_chain (rn_follower followed)) ∧
  last_sent stale_events = tip_of_chain (fo_chain (rn_follower server_1)) ∧
  last_sent subscribe_events ≠ last_sent stale_events.
Proof. split_and!; vm_compute; [reflexivity..|discriminate]. Qed.

(** A configuration without an interval between mempool polls is accepted; the
    mempool is then never polled ([zero_interval_never_polls]). *)
Example zero_interval_accepted :
  validate config_no_polls = Ok tt ∧ mempool_poll_interval config_no_polls = 0.
Proof. split; vm_compute; reflexivity. Qed.
End witnesses.
