(* ===== verification/RestTheorems.v ===== *)
(** * Correctness of the REST API

    The properties of the HTTP framing, of connections, and of the routes of
    [bindex-electrum/src/rest/], each with the concrete input that shows its
    hypotheses can hold. *)

From S2P Require Import Prelude External Text Utf8 Index Fmt Headers Batch Store StoreSpec Client Chain.
From S2P Require Import ChainSpec ChainSync ChainQuery Instances Merkle Protocol ProtocolSpec Mempool.
From S2P Require Import CoreRest ScriptFold ScriptFoldSpec Adapter AdapterSpec TorPush Config Bitcoind.
From S2P Require Import Monitor Server ServerSpec Deadline Http HttpSpec HttpResponseSpec RestTypes.
From S2P Require Import RestQuery RestAddress RestHandlers Rest RestServe RestSpec RestHandlersSpec.
From S2P Require Import RestQuerySpec ElectrumInstances RestInstances.

(** ** Requests and responses *)

(** C24: [read_request] returns a request exactly when the stream starts with one:
    a line that names the method, the target and an HTTP version (after at most
    one empty line), fewer than a hundred header lines, a blank line, and as
    many bytes of body as the headers agree on, within the limit, without a
    transfer encoding; what follows is left for the next request. *)
Theorem request_framing max rd r rd' :
  read_request max rd = (Ok (RoRequest r), rd') ↔
  framed max (rd_data rd) r (rd_data rd') ∧ rd_clean rd' = rd_clean rd.
Proof. apply read_request_spec. Qed.

(** The request a client renders from a method, a target, headers and a body
    is read back as that request, with the names of the headers in lower case,
    and nothing of what follows it is taken. *)
Theorem requests_read_back max method target headers body rest clean :
  renders max method target headers body →
  read_request max {| rd_data := render_request method target headers body ++ rest; rd_clean := clean |} =
  (Ok (RoRequest (build_request method target (lit "HTTP/1.1") (received headers) body)),
   {| rd_data := rest; rd_clean := clean |}).
Proof. intros Hr. by apply framed_read_request, render_request_framed. Qed.

(** Whatever the peer sends and however reading it ends, one request takes a
    prefix of the stream of at most 103 lines of 64 KiB and the body limit. *)
Theorem request_bounds max rd r rd' :
  read_request max rd = (r, rd') →
  ∃ taken, rd_data rd = taken ++ rd_data rd' ∧
    Z.of_nat (length taken) ≤ 103 * 65536 + Z.max 0 max.
Proof.
  intros (p & Hp & Hlen)%takes_request. exists p. split; [done|].
  pose proof MAX_LINE_eq. change (2 + Datatypes.S MAX_HEADERS)%nat with 103%nat in Hlen. lia.
Qed.


(** ** Connections *)

(** C20: a connection that pipelines requests gets one response to each, in the
    order of the requests, each computed in the state the previous ones left;
    then the loop ends. *)
Theorem connection_answers {A} (respond : HttpRequest → stM A HttpError HttpResponse) cap identity_at
    wait_expires request_expires stream rs w api responses api' :
  pipelined cap stream rs → answers respond rs api = Some (responses, api') →
  (∀ i, wait_expires i = false ∧ request_expires i = false) → (2 * length rs ≤ wr_left w)%nat →
  ∃ c', handle_connection respond cap identity_at wait_expires request_expires
      {| cn_reader := {| rd_data := stream; rd_clean := true |}; cn_writer := w; cn_api := api |} = (Ok tt, c') ∧
    wr_sent (cn_writer c') = wr_sent w ++ answers_bytes identity_at 0 rs responses ∧ cn_api c' = api'.
Proof.
  intros Hp Ha Hexp Hl. eapply loop_answers; [done..|]. cbn. lia.
Qed.

(** The loop of a connection ends, whatever the peer sends, whenever reads
    time out and however writes fail: it can only panic where answering a
    request does. *)
Theorem connection_ends {A} (respond : HttpRequest → stM A HttpError HttpResponse) cap identity_at
    wait_expires request_expires c msg c' :
  handle_connection respond cap identity_at wait_expires request_expires c = (Panic msg, c') →
  ∃ request api, (respond request api).1 = Panic msg.
Proof. apply handle_total. Qed.

(** After bytes that are no request the client gets one error response, the
    server's state is untouched, and nothing after them is answered. *)
Theorem connection_rejects {A} (respond : HttpRequest → stM A HttpError HttpResponse) cap identity_at
    wait_expires request_expires w api stream status message rd' :
  stream ≠ [] → (∀ i, wait_expires i = false ∧ request_expires i = false) → (2 ≤ wr_left w)%nat →
  read_request cap {| rd_data := stream; rd_clean := true |} = (Ok (RoInvalid status message), rd') →
  ∃ c', handle_connection respond cap identity_at wait_expires request_expires
      {| cn_reader := {| rd_data := stream; rd_clean := true |}; cn_writer := w; cn_api := api |} = (Ok tt, c') ∧
    cn_api c' = api ∧ wr_sent (cn_writer c') = wr_sent w ++
      response_head (into_response (http_error_new status message)) (identity_at 0%nat) false ++ message.
Proof. intros Hne Hexp Hl Hr. eapply loop_rejects; try done; apply Hexp. Qed.

(** ** Routes *)

Section routes.
Context {S W F : Type} `{HS : !Hashes, HX : !Hex, HT : !HashText, ST : !ScriptHashText,
  TT : !TxidText, TP : !TxidParse, BT : !BlockHashText, SO : !ScriptOps, VI : !VarInt,
  SL : !Slices, CS : !Consensus, RD : !RocksDB S, HA : !HttpAgent W, RA : !RpcAgent W,
  FS : !Files, JT : !JsonText, JF : !JsonFloats, SD : !Serde, MS : !Millis F,
  TX : !Transactions, SC : !Scripts, TR : !TxOutReader, RF : !RestFloats, RT : !Rates,
  FO : !Format, FR : !FormatReads S W F}.
Context (params : format_Params) (config : RestConfig) (server_config : Config) (rpc : RpcClient)
  (tor_push : option TorTargets).
Context (adapter_error_text : adapter_error slices_error → str)
  (corerest_error_text : corerest_error → str) (rpc_error_text : rpc_error → str)
  (tor_error_text : tor_error → str) (utf8_error_text : bytes → str) (debug_str : str → str)
  (strings_to_vec : list str → bytes).
Context (interfere : nat → Adapter S → Adapter S) (mempool_at : nat → MempoolIndex)
  (push_env : nat → PushEnv) (mode : overflow_mode) (clock : nat → Z).
Abbreviation route_of :=
  (route (S := S) (W := W) (F := F) params config server_config rpc tor_push adapter_error_text
     corerest_error_text rpc_error_text tor_error_text utf8_error_text debug_str strings_to_vec
     interfere mempool_at push_env mode clock).

(** C27: when broadcasts go over Tor, no route that is handed a transaction
    ([POST /tx], [GET /broadcast], [POST /txs/test], [POST /txs/package]) shows
    it to the local node, even when it fails: the node is as it was, and all
    that was sent are pushes on connections of their own to the configured
    endpoints. *)
Theorem rest_submissions_private targets request s r s' :
  fresh_connections push_env → tor_push = Some targets → broadcast_via server_config = ViaTor →
  is_submission (req_http request) → route_of request s = (r, s') →
  wd_node (pr_world (rt_peer s')) = wd_node (pr_world (rt_peer s)) ∧
  pushed_since (rt_peer s) (rt_peer s') (λ sent, ∃ target content_type payload,
    (target = tor_tx targets ∨ target = tor_package targets) ∧
    private_push push_env target content_type payload sent).
Proof. intros. by eapply submissions_private. Qed.

(** A request that [is_expensive] does not send through the query semaphore
    never runs a loop that watches the deadline: whatever deadline it is given,
    the answer and the state after it are the same. *)
Theorem cheap_routes http d1 d2 s :
  is_expensive (rq_method http) (segments http) = false →
  route_of {| req_http := http; req_deadline := d1 |} s =
  route_of {| req_http := http; req_deadline := d2 |} s.
Proof. apply cheap_routes_ignore_deadline. Qed.
End routes.

(** ** What queries answer *)

Section queries.
Context {S W F : Type} `{HS : !Hashes, HSL : !HashLaws, HX : !Hex, HXL : !HexLaws, HT : !HashText,
  ST : !ScriptHashText, STL : !ScriptHashTextLaws, TT : !TxidText, TP : !TxidParse,
  BT : !BlockHashText, SO : !ScriptOps, VI : !VarInt, VIL : !VarIntLaws, SL : !Slices,
  SLL : !SlicesLaws, CS : !Consensus, RD : !RocksDB S, RL : !RocksDBLaws S, HA : !HttpAgent W,
  NL : !NodeLaws W, RA : !RpcAgent W, FS : !Files, JT : !JsonText, JF : !JsonFloats, SD : !Serde,
  MS : !Millis F, TX : !Transactions, SC : !Scripts, TR : !TxOutReader}.
Context (config : RestConfig) (adapter_error_text : adapter_error slices_error → str)
  (corerest_error_text : corerest_error → str) (interfere : nat → Adapter S → Adapter S) (mempool_at : nat → MempoolIndex) (clock : nat → Z)
  (I : IndexedChain S → Prop).
Abbreviation bitcoin_outspend := (outspend (S := S) (W := W) (F := F) (FO := bitcoin_format)
  (FR := bitcoin_reads adapter_error_text corerest_error_text interfere)).
Abbreviation bitcoin_utxo_route := (utxo_route (S := S) (W := W) (F := F) (FO := bitcoin_format)
  (FR := bitcoin_reads adapter_error_text corerest_error_text interfere)).


(** Whatever other threads do meanwhile, the unspent outputs that are answered
    for a script are those of its exact history in a chain the server had that
    a snapshot of the mempool does not spend, each with the hash and time of
    its block, then those of that snapshot that pay the script and are not
    spent in it; more live outputs than the limit are refused. *)
Theorem utxos_exact key deadline (s : Rest S W F) response s' :
  (∀ n a, adapter_ok (W := W) I a → adapter_ok (W := W) I (interfere n a)) →
  (∀ c, I c → ∃ bs, chain_inv (W := W) c bs) →
  (∀ c bs sh, I c → chain_inv (W := W) c bs → consensus_valid (W := W) bs (rev (esh_bytes sh))) →
  rest_ok I s →
  bitcoin_utxo_route config adapter_error_text interfere mempool_at clock key deadline s = (Ok response, s') →
  rest_ok I s' ∧ ∃ sh h c bs l k confirmed, key_electrum key = Ok sh ∧ I c ∧ chain_inv (W := W) c bs ∧
    script_txs (W := W) bs (rev (esh_bytes sh)) txnum_default l ∧ history_spec sh l h ∧
    peak_live_utxos h ≤ rc_utxos_limit config ∧
    Forall2 (confirmed_bitcoin_utxo I)
      (filter (λ u, spender (mempool_at k) (su_outpoint u) = None) (sh_utxos h)) confirmed ∧
    response = response_json (json_to_string (JArray (utxo_value_json <$> confirmed ++
      ((λ o : OutPoint * Z, utxo_value o.1 status_unconfirmed o.2) <$>
       filter (λ o : OutPoint * Z, spender (mempool_at k) o.1 = None) (outputs_of (mempool_at k) sh)))))
      (Some TTL_SHORT).
Proof.
  intros Hother HI Hcv Hs Hr.
  pose proof (bitcoin_block_times (F := F) adapter_error_text corerest_error_text interfere I Hother) as HB.
  pose proof (bitcoin_utxo_values (F := F) adapter_error_text corerest_error_text interfere I) as HU.
  eapply utxo_route_ok in Hr as (? & sh & h & c & bs & l & k & confirmed & unconfirmed & Hr); [|done..].
  destruct Hr as (? & ? & ? & ? & ? & ? & Hc%shown_confirmed & Hu%shown_unconfirmed & ->).
  split; [done|]. exists sh, h, c, bs, l, k, (omap id confirmed). rewrite <-Hu. by split_and!.
Qed.
End queries.

(** ** What routes compute *)

(** C29: the pages of the mempool's ids follow one another: a client that asks for
    each page after the last id of the one before gets every id of an unchanging
    mempool exactly once, in order, and then an empty page. *)
Theorem mempool_pages m limit :
  0 < limit →
  walk_pages (sorted_txids m) limit (Datatypes.S (length (sorted_txids m))) None = sorted_txids m ∧
  StronglySorted bytes_le (sorted_txids m) ∧ NoDup (sorted_txids m) ∧
  ∀ id, id ∈ sorted_txids m ↔ is_Some (txs m !! id).
Proof.
  intros Hl. destruct (sorted_txids_sorted m) as [Hs Hnd]. split_and!; [|done..|].
  - rewrite walk_pages_all; [done..|]. cbn. lia.
  - intros id. unfold sorted_txids, txids_list. rewrite merge_sort_Permutation, elem_of_elements.
    apply elem_of_dom.
Qed.

(** The merged rows of several scripts have one row per transaction, from the
    highest block down; it carries the place of the transaction and the sums of
    what it pays to and spends from all of them, modulo 2^64. *)
Theorem merged_histories hs :
  let rows := h_entries hs ≫= λ e, sh_rows e.2 in
  StronglySorted (lex_le Z.lt Z.le) (row_key <$> rows_desc hs) ∧ NoDup (mr_txid <$> rows_desc hs) ∧
  ∀ r, r ∈ rows_desc hs ↔ merged_of rows (mr_txid r) r.
Proof. apply rows_desc_spec. Qed.

(** The fee bins of the mempool hold the virtual size of all its transactions
    (those of size zero apart), as long as it is below 2^32, by descending
    rate. *)
Theorem fee_bins `{RT : !Rates, RL : !RatesLaws} m :
  let vsizes := filter (λ v, 0 < v) (mt_vsize <$> (snd <$> map_to_list (txs m))) in
  sumZ vsizes < 2 ^ 32 →
  sumZ (snd <$> fee_histogram_bins m) = sumZ vsizes ∧
  StronglySorted f32_ge (fst <$> fee_histogram_bins m).
Proof. apply fee_histogram_bins_spec. Qed.

(** ** Load *)

(** C28: from the start of the REST API on, there are never more connections
    served than the limit, nor more expensive queries at once than theirs (a
    limit of zero counts as one), whatever order connections, queries and
    probes come in; a connection is refused only while the limit is used up;
    and the node's version is told from when it is known on, and then no
    longer asked for. *)
Theorem rest_load_bounded {M W} `{SM : !Semaphore M, SML : !SemaphoreLaws M, RA : !RpcAgent W,
    FS : !Files, JT : !JsonText, JF : !JsonFloats} (config : RestConfig) rpc (a a' : RestApi M) :
  rest_api_new config = Ok a → rtc (api_step (W := W) rpc) a a' →
  Z.of_nat (size (pm_held (ra_connections a'))) ≤ Z.max (rc_max_connections config) 1 ∧
  Z.of_nat (size (pm_held (ra_queries a'))) ≤ Z.max (rc_max_concurrent_queries config) 1 ∧
  (∀ id, id ∉ ra_refusing a' → id ∈ ra_refusing (accept id a') →
     Z.of_nat (size (pm_held (ra_connections a'))) = Z.max (rc_max_connections config) 1) ∧
  (is_Some (id_bitcoin_version (ra_identity a')) ↔ ra_probe a' = ProbeDone).
Proof.
  intros Hn Hr. pose proof (api_reachable_inv config rpc _ _ Hn Hr) as Hi.
  pose proof Hi as [[? ?] [? ?] Hv].
  split_and!; [lia|lia| |done]. intros id. by apply accept_full.
Qed.

(** ** Concrete inputs *)

Section witnesses.
Import RToy.

Definition tip_request : HttpRequest := get_request "/blocks/tip/height".
Definition tip_bytes : bytes :=
  render_request (lit "GET") (lit "/blocks/tip/height") [host_header] [].
Lemma visible_text s : forallb (in_range 33 126) s = true → Forall visible s.
Proof.
  rewrite forallb_forall, Forall_forall. intros Hs c Hc%list_elem_of_In%Hs.
  unfold in_range in Hc. by apply andb_true_iff in Hc as [?%Z.leb_le ?%Z.leb_le].
Qed.
Lemma tip_renders : renders MAX_BODY (lit "GET") (lit "/blocks/tip/height") [host_header] [].
Proof.
  pose proof MAX_LINE_eq. split.
  - split; [done|]. repeat constructor.
  - split; [done|]. by apply visible_text.
  - constructor; [|done]. split_and!; [done|by apply visible_text|by apply find_byte_none].
  - constructor; [|done]. by apply visible_field, visible_text.
  - change (length (render_start _ _)) with 33%nat. lia.
  - constructor; [|done]. change (length (render_header host_header)) with 17%nat. lia.
  - unfold MAX_HEADERS. cbn. lia.
  - refine (bool_decide_eq_false_1 _ _). vm_compute. reflexivity.
  - apply content_length_spec. vm_compute. reflexivity.
  - by vm_compute.
Qed.
Lemma requests_read_back_witness :
  read_request MAX_BODY {| rd_data := tip_bytes ++ tip_bytes; rd_clean := true |} =
  (Ok (RoRequest tip_request), {| rd_data := tip_bytes; rd_clean := true |}).
Proof.
  exact (requests_read_back MAX_BODY (lit "GET") (lit "/blocks/tip/height") [host_header] [] tip_bytes true
           tip_renders).
Defined.

Lemma tip_framed rest : framed MAX_BODY (tip_bytes ++ rest) tip_request rest.
Proof. apply (render_request_framed MAX_BODY _ _ [host_header] [] rest tip_renders). Qed.

Lemma request_bounds_witness :
  ∃ taken, tip_bytes = taken ++ [] ∧ Z.of_nat (length taken) ≤ 103 * 65536 + Z.max 0 MAX_BODY.
Proof.
  pose proof (framed_read_request _ _ _ _ true (tip_framed [])) as Hr. rewrite app_nil_r in Hr.
  exact (request_bounds MAX_BODY _ _ _ Hr).
Defined.

Definition tip_response : HttpResponse := response_text 200 (lit "1") (Some 10).

(** Two requests in one packet. *)
Definition serve_rest := handle_connection rest_respond MAX_BODY identity_0 never_expires never_expires.
Definition tip_run := answers rest_respond [tip_request; tip_request] rest_0.
Definition rest_1 : Rest MapDB.T Z Z := match tip_run with Some p => p.2 | None => rest_0 end.
Lemma tip_run_ok : tip_run = Some ([tip_response; tip_response], rest_1).
Proof.
  assert (fst <$> tip_run = Some [tip_response; tip_response]) as Hr by (vm_compute; reflexivity).
  unfold rest_1. destruct tip_run as [[l api]|]; [|done]. by injection Hr as ->.
Qed.
Lemma connection_answers_witness :
  ∃ c', serve_rest {| cn_reader := {| rd_data := tip_bytes ++ tip_bytes; rd_clean := true |};
                      cn_writer := {| wr_sent := []; wr_left := 9 |}; cn_api := rest_0 |} = (Ok tt, c') ∧
    wr_sent (cn_writer c') = answers_bytes identity_0 0 [tip_request; tip_request] [tip_response; tip_response] ∧
    cn_api c' = rest_1.
Proof.
  apply (connection_answers rest_respond MAX_BODY identity_0 never_expires never_expires
           (tip_bytes ++ tip_bytes) [tip_request; tip_request] {| wr_sent := []; wr_left := 9 |} rest_0).
  - eapply pipelined_next; [apply tip_framed|vm_compute; reflexivity|].
    eapply pipelined_last; [|by right]. pose proof (tip_framed []) as Hf. by rewrite app_nil_r in Hf.
  - exact tip_run_ok.
  - done.
  - cbn. lia.
Defined.

(** A server that panics on every request. *)
Definition broken (request : HttpRequest) : stM () HttpError HttpResponse := st_lift (Panic "broken").
Lemma connection_ends_witness : ∃ request api, (broken request api).1 = Panic "broken".
Proof.
  pose (c := {| cn_reader := {| rd_data := tip_bytes; rd_clean := true |};
                cn_writer := {| wr_sent := []; wr_left := 9 |}; cn_api := tt |}).
  pose (run := handle_connection broken MAX_BODY identity_0 never_expires never_expires c).
  apply (connection_ends broken MAX_BODY identity_0 never_expires never_expires c "broken" run.2).
  refine (pair_fst_eq run (Panic "broken") _). vm_compute. reflexivity.
Defined.

Lemma connection_rejects_witness :
  ∃ c', serve_rest {| cn_reader := {| rd_data := lit "hello" ++ [10]; rd_clean := true |};
                      cn_writer := {| wr_sent := []; wr_left := 9 |}; cn_api := rest_0 |} = (Ok tt, c') ∧
    cn_api c' = rest_0 ∧ wr_sent (cn_writer c') =
      response_head (into_response (bad_request (lit "malformed request line"))) (identity_0 0) false ++
      lit "malformed request line".
Proof.
  pose (rd := {| rd_data := lit "hello" ++ [10]; rd_clean := true |}).
  apply (connection_rejects rest_respond MAX_BODY identity_0 never_expires never_expires
           {| wr_sent := []; wr_left := 9 |} rest_0 (rd_data rd) 400 (lit "malformed request line")
           (read_request MAX_BODY rd).2); [done|done|cbn; lia|].
  refine (pair_fst_eq (read_request MAX_BODY rd) _ _). vm_compute. reflexivity.
Defined.

(** A transaction posted to a server that broadcasts over Tor. *)
Definition post_request : Req := {|
  req_http := build_request (lit "POST") (lit "/tx") (lit "HTTP/1.1") [] (hex_encode (stx_raw tx_1));
  req_deadline := Deadline.never;
|}.
Definition post_run := rest_route post_request rest_0.
Lemma rest_submissions_private_witness :
  length (pr_pushed (rt_peer post_run.2)) = 1%nat ∧
  wd_node (pr_world (rt_peer post_run.2)) = wd_node (pr_world (rt_peer rest_0)).
Proof.
  split; [vm_compute; reflexivity|].
  refine (proj1 (rest_submissions_private (FO := format_0) NetBitcoin rest_config_default config_0 rpc_0 (Some targets_0)
    text_0 text_0 text_0 text_0 text_0 debug_0 vec_0 undisturbed no_mempool push_env_0 Wrapping now_0
    targets_0 post_request rest_0 post_run.1 post_run.2 _ _ _ _ (surjective_pairing post_run))).
  - intros n c Hc. injection Hc as <-. reflexivity.
  - reflexivity.
  - reflexivity.
  - left. split; [reflexivity|]. left.
Defined.

Lemma cheap_routes_witness :
  rest_route {| req_http := tip_request; req_deadline := Deadline.never |} rest_0 =
  rest_route {| req_http := tip_request; req_deadline := after 0 1 |} rest_0.
Proof.
  apply (cheap_routes (FO := format_0) NetBitcoin rest_config_default config_0 rpc_0 (Some targets_0)
    text_0 text_0 text_0 text_0 text_0 debug_0 vec_0 undisturbed no_mempool push_env_0 Wrapping now_0
    tip_request Deadline.never (after 0 1) rest_0).
  vm_compute. reflexivity.
Defined.

Definition mempool_tx (n : Z) : MempoolTx := {|
  mt_txid := replicate 32 n; mt_raw := []; mt_fee := 200 * n; mt_vsize := 100; ancestor_fees := 200 * n;
  ancestor_vsize := 100; mt_time := n; touches := ∅; spends := ∅; outputs := ∅;
|}.
Definition mempool_2 : MempoolIndex := insert (mempool_tx 2) (insert (mempool_tx 1) index_empty).
Lemma mempool_pages_witness :
  walk_pages (sorted_txids mempool_2) 1 3 None = [replicate 32 1; replicate 32 2].
Proof.
  pose proof (proj1 (mempool_pages mempool_2 1 eq_refl)) as Hw.
  assert (sorted_txids mempool_2 = [replicate 32 1; replicate 32 2]) as Hs by (vm_compute; reflexivity).
  rewrite Hs in Hw |- *. exact Hw.
Defined.
Lemma fee_bins_witness :
  sumZ (snd <$> fee_histogram_bins mempool_2) = 200 ∧
  fee_histogram_bins mempool_2 = [(2, 200)].
Proof.
  split; [|vm_compute; reflexivity].
  exact (proj1 (fee_bins mempool_2 eq_refl)).
Defined.


Definition utxo_run :=
  utxo_route (S := MapDB.T) (W := Z) (F := Z) rest_config_default text_0 undisturbed no_mempool now_0
    (KeyAddress (lit "a") script_a) Deadline.never rest_0.
Definition utxo_response : HttpResponse := Eval vm_compute in
  match utxo_run.1 with Ok r => r | _ => response_text 0 [] None end.
Lemma utxos_exact_witness :
  rs_status utxo_response = 200 ∧
  ∃ sh h, key_electrum (KeyAddress (lit "a") script_a) = Ok sh ∧ peak_live_utxos h ≤ 500 ∧
    ∃ bs l, script_txs (W := Z) bs (rev (esh_bytes sh)) txnum_default l ∧ history_spec sh l h.
Proof.
  split; [reflexivity|].
  destruct (utxos_exact rest_config_default text_0 text_0 undisturbed no_mempool now_0 chain_is_synced
    (KeyAddress (lit "a") script_a) Deadline.never rest_0 utxo_response utxo_run.2)
    as (_ & sh & h & c & bs & l & k & confirmed & Hsh & _ & _ & Hl & Hh & Hpeak & _).
  - apply undisturbed_ok.
  - apply chain_is_synced_inv.
  - intros c bs sh -> Hinv. by apply synced_valid.
  - apply world_0_ok.
  - refine (pair_fst_eq utxo_run (Ok utxo_response) _). vm_compute. reflexivity.
  - exists sh, h. split; [exact Hsh|]. split; [exact Hpeak|]. exists bs, l. by split.
Defined.

(** The second connection is refused. *)
Lemma rest_load_bounded_witness :
  Z.of_nat (size (pm_held (ra_connections (accept 2 (accept 1 api_0))))) ≤ 1 ∧
  ra_refusing (accept 2 (accept 1 api_0)) = {[2%nat]}.
Proof.
  split; [|vm_compute; reflexivity].
  apply (rest_load_bounded (W := Z) config_one rpc_0 api_0); [vm_compute; reflexivity|].
  apply (rtc_l _ _ (accept 1 api_0)); [|apply rtc_once]; constructor;
    apply (bool_decide_eq_true_1 (_ ∉ _)); vm_compute; reflexivity.
Defined.
End witnesses.
