(* ===== verification/WebTheorems.v ===== *)
(** * Correctness of the web front end

    The properties of [bindex-web], each with the concrete input that shows its
    hypotheses can hold. *)

From S2P Require Import Prelude External Text Utf8 Index TxPos HashIndex Fmt Headers Batch Store StoreSpec.
From S2P Require Import Client Chain ChainSpec ChainSync ChainQuery Cache CacheSpec CacheSync CacheTheorems.
From S2P Require Import History HistorySpec.
From S2P Require Import Protocol Mempool ScriptFold Adapter Bitcoind Monitor MonitorSnapshot Server.
From S2P Require Import RestTypes Web WebSpec Instances ElectrumInstances RestInstances.

Section theorems.
Context {S W F : Type} `{HS : !Hashes, HSL : !HashLaws, SO : !ScriptOps, VI : !VarInt,
  VIL : !VarIntLaws, SL : !Slices, SLL : !SlicesLaws, CS : !Consensus, RD : !RocksDB S,
  RL : !RocksDBLaws S, HA : !HttpAgent W, NL : !NodeLaws W, ST : !SliceTransactions,
  STL : !SliceTransactionsLaws, TX : !Transactions, SC : !Scripts, BT : !BlockHashText,
  TT : !TxidText, TP : !TxidParse, HX : !Hex, WT : !WebTexts, SD : !Serde, JT : !JsonText,
  MS : !Millis F, SF : !SnapshotFloats F}.
Implicit Types (env : WebEnv (F := F)) (s : WebState (S := S) (W := W) (F := F)).

(** C31: [GET /api/address/...], with the address escaped or not, answers an
    error or the history of the address on the chain: a row for each transaction
    that pays its script or spends such an output of an earlier one, in chain
    order (the answer lists them backwards), with the sum of what it is paid
    less what is spent; the balance is the sum of the rows as an [i64]. The
    request is counted under its route, with whether it succeeded. *)
Theorem web_address_exact env chain bs text enc s r s' :
  chain_inv (W := W) chain bs → web_chain s = Some chain → is_ascii text → escaped text enc → 63 ∉ enc →
  web_handle env {| wr_method := MethodGet; wr_url := lit "/api/address/" ++ enc |} s = (Ok r, s') →
  ∃ j, r = respond_json j ∧
    web_monitor s' = web_record_request (lit "address") text (json_ok j) (we_duration_ms env) (json_error j)
                       (we_now env) (web_monitor s) ∧
    ((∃ e, j = err_json e) ∨
     ∃ address rows txs received, parse_address text = Ok address ∧
       address_rows (W := W) bs (scripthash_new (addr_script_pubkey address)) rows ∧
       address_txs 0 rows = Ok (as_i64 (sumZ (dr_delta <$> rows)), txs) ∧
       j = JObject [jfield "ok" (JBool true); jfield "kind" (JString (lit "address"));
         jfield "address" (JString (addr_text address)); jfield "tx_count" (JNumber (Z.of_nat (length rows)));
         jfield "balance_sat" (JNumber (as_i64 (sumZ (dr_delta <$> rows))));
         jfield "balance_btc" (JString (btc_text (as_i64 (sumZ (dr_delta <$> rows)))));
         jfield "total_received_btc" (JString (btc_text received)); jfield "txs" (JArray (reverse txs))]).
Proof.
  intros Hinv Hc Ha He Hq. erewrite web_handle_query; [|by left|done..].
  intros (j & n & -> & Hm & Hj)%run_query_ok. exists j. split_and!; [done..|].
  destruct Hj as [(e & _ & ->)|Hj]; [left; by exists e|right]. rewrite Hc in Hj.
  by eapply address_json_ok.
Qed.

(** [GET /api/tx/...] answers an error, the report of a transaction of the
    chain that decodes to the id asked for, with its block, or that there is
    none, when no transaction of the chain with the prefix of the id has it. The
    request is counted under its route, with whether it succeeded. *)
Theorem web_tx_exact env chain bs text enc s r s' :
  (∀ id, txid_from_str (trim text) = Some id → hash_wf id) →
  chain_inv (W := W) chain bs → web_chain s = Some chain → is_ascii text → escaped text enc → 63 ∉ enc →
  web_handle env {| wr_method := MethodGet; wr_url := lit "/api/tx/" ++ enc |} s = (Ok r, s') →
  ∃ j, r = respond_json j ∧
    web_monitor s' = web_record_request (lit "tx") text (json_ok j) (we_duration_ms env) (json_error j)
                       (we_now env) (web_monitor s) ∧
    ((∃ e, j = err_json e) ∨ ∃ id, txid_from_str (trim text) = Some id ∧ web_located (W := W) bs id j).
Proof.
  intros Hwf Hinv Hc Ha He Hq. erewrite web_handle_query; [|by right|done..].
  intros (j & n & -> & Hm & Hj)%run_query_ok. exists j. split_and!; [done..|].
  destruct Hj as [(e & _ & ->)|Hj]; [left; by exists e|right]. rewrite Hc in Hj.
  by eapply tx_json_ok.
Qed.

(** Every request that is answered is counted exactly once, whatever its
    method and path (a reset on the emptied counters), newest first among the
    latest [WEB_RECENT_LIMIT], and one not answered with 200 as an error; no
    request changes the chain. *)
Theorem web_requests_counted env req s r s' :
  web_handle env req s = (Ok r, s') →
  web_chain s' = web_chain s ∧
  requests_of (web_monitor s') = (if asks_reset req then 0 else requests_of (web_monitor s)) + 1 ∧
  wm_sync (web_monitor s') = wm_sync (web_monitor s) ∧
  ∃ q, (ws_code r ≠ 200 → qs_ok _ q = false) ∧
    wm_recent (web_monitor s') =
      keep_first WEB_RECENT_LIMIT (q :: if asks_reset req then [] else wm_recent (web_monitor s)).
Proof.
  intros (Hc & route & target & ok & ms & e & now & Hm & Hok)%web_handle_recorded.
  rewrite Hm, requests_of_record. unfold counted_on in *.
  destruct (asks_reset req); split_and!; try done; eexists; (split; [|done]); done.
Qed.

(** The syncer's rounds under one lock: when they end without an error, the
    chain is in step with its database, it is what the monitor shows as the tip,
    and the last round found nothing new; after an error, the chain is in step
    or only its headers are behind. *)
Theorem web_sync_rounds chain bs s s' :
  chain_inv (W := W) chain bs → web_chain s = Some chain → sync_rounds s s' →
  ∃ chain' bs', web_chain s' = Some chain' ∧
    let m := wm_sync (web_monitor s') in
    match last_sync_error _ m with
    | None => chain_inv (W := W) chain' bs' ∧ last_indexed_blocks _ m = Some 0 ∧
        last_tip _ m = Some (block_hash_to_string (tip_hash (ic_headers chain')))
    | Some _ => chain_inv (W := W) chain' bs' ∨ out_of_step chain' bs'
    end.
Proof.
  intros Hinv Hc Hr. revert chain bs Hinv Hc.
  induction Hr as [s s' started finished ms H|s s1 s' started finished ms H _ IH]; intros chain bs Hinv Hc;
    destruct (sync_once_ok _ _ _ _ _ _ _ _ Hinv Hc H) as (chain1 & bs1 & Hc1 & Hs); cbv zeta in Hs |- *.
  - exists chain1, bs1. split; [done|]. destruct (last_sync_error _ _); [by destruct Hs|].
    destruct Hs as (Hi & Ht & n & Hn & Hpos & Hmore). split_and!; [done| |done].
    rewrite Hn. f_equal. apply eq_sym, Z.ltb_ge in Hmore. lia.
  - destruct (last_sync_error _ _); [by destruct Hs|]. destruct Hs as (Hi & _). by eapply IH.
Qed.
End theorems.

(** ** A concrete server *)

Module WToy.
Export RToy CToy.

#[export] Instance web_texts : WebTexts := {
  address_error_text _ := lit "bad address"; network_error_text _ := lit "bad network";
  txid_error_text _ := lit "bad txid"; cache_error_text _ := lit "cache error";
  chain_error_text _ := lit "chain error"; header_error_text _ := lit "bad header";
  sqlite_overflow_text := lit "integer overflow"; debug_str s := s; address_to_string s := s;
  btc_text := show_unsigned; signed_btc_text := show_unsigned;
}.

(** Ids of decoded transactions, as the chain format has them. *)
#[export] Instance transactions_ids : Transactions := {
  rx_deserialize := rest_decode; block_deserialize := block_deserialize;
  compute_txid t := checksum (mk_tx (btxout_script <$> rx_outputs t));
  is_coinbase := is_coinbase; total_size := total_size; tx_weight := tx_weight;
  total_sigop_cost := total_sigop_cost; header_time := header_time; merkleblock_encode := merkleblock_encode;
}.

Definition env_0 : WebEnv (F := Z) := {|
  we_duration_ms := 1; we_now := 0; we_index_html := lit "index"; we_monitor_html := lit "monitor";
  we_started_unix := 0; we_uptime := 0; we_monitor_file := inl (lit "no file");
  we_control := λ _, inl (lit "refused");
|}.
(** The front end of the synchronized chain. *)
Definition web_0 : WebState (S := MapDB.T) (W := Z) (F := Z) :=
  {| web_chain := Some synced_chain; web_node := 0; web_monitor := web_monitor_default |}.
Definition get (url : str) : WebRequest := {| wr_method := MethodGet; wr_url := url |}.

(** The address of [script_a], its first character escaped; the id of the
    genesis transaction. *)
Definition address_text : str := encode script_a.
Definition address_path : str := lit "%35" ++ drop 1 address_text.
Definition address_answer := web_handle env_0 (get (lit "/api/address/" ++ address_path)) web_0.
Definition txid_path : str := backward genesis_txid.
Definition tx_answer := web_handle env_0 (get (lit "/api/tx/" ++ txid_path)) web_0.
(** The syncer's round on the chain before it. *)
Definition empty_web : WebState (S := MapDB.T) (W := Z) (F := Z) :=
  {| web_chain := Some empty_chain; web_node := 0; web_monitor := web_monitor_default |}.
Definition round_1 := sync_once 0 1 2 empty_web.
Definition round_2 := sync_once 3 4 5 round_1.2.
End WToy.

(** A property of a concrete value, by evaluation. *)
#[local] Ltac by_evaluation := apply (bool_decide_unpack _); vm_compute; exact I.

Section witnesses.
Import WToy.

Lemma web_address_exact_witness :
  ∃ bs rows, chain_inv (W := Z) synced_chain bs ∧ address_rows (W := Z) bs sh_a rows ∧
    match address_answer.1 with Ok r => ws_code r = 200 | _ => False end.
Proof.
  destruct synced_inv as [bs Hi].
  destruct (web_address_exact env_0 synced_chain bs address_text address_path web_0
    {| ws_code := 200; ws_type := lit "application/json"; ws_body := lit "json" |} address_answer.2)
    as (j & _ & Hm & [[e ->]|(address & rows & txs & received & Hp & Hrows & _)]).
  - exact Hi.
  - reflexivity.
  - unfold is_ascii. by_evaluation.
  - apply (escaped_byte 53); [unfold is_u8; lia|]. apply escaped_id; [unfold is_ascii|]; by_evaluation.
  - by_evaluation.
  - change (web_handle _ _ web_0) with address_answer. apply result_eq. vm_compute. reflexivity.
  - exfalso. apply (f_equal (λ m, qs_ok _ <$> head (wm_recent m))) in Hm. vm_compute in Hm. discriminate Hm.
  - exists bs, rows. split; [exact Hi|]. injection Hp as <-. split; [exact Hrows|].
    vm_compute. reflexivity.
Defined.

Lemma web_tx_exact_witness :
  ∃ bs j, chain_inv (W := Z) synced_chain bs ∧ web_located (W := Z) bs genesis_txid j ∧
    match tx_answer.1 with Ok r => r = respond_json j | _ => False end.
Proof.
  destruct synced_inv as [bs Hi].
  destruct (web_tx_exact env_0 synced_chain bs txid_path txid_path web_0
    {| ws_code := 200; ws_type := lit "application/json"; ws_body := lit "json" |} tx_answer.2)
    as (j & Hr & Hm & [[e ->]|(id & Hid & Hj)]).
  - intros id Hid. vm_compute in Hid. injection Hid as <-. split; [|reflexivity].
    unfold bytes_wf, is_u8. by_evaluation.
  - exact Hi.
  - reflexivity.
  - unfold is_ascii. by_evaluation.
  - apply escaped_id; [unfold is_ascii|]; by_evaluation.
  - by_evaluation.
  - change (web_handle _ _ web_0) with tx_answer. apply result_eq. vm_compute. reflexivity.
  - exfalso. apply (f_equal (λ m, qs_ok _ <$> head (wm_recent m))) in Hm. vm_compute in Hm. discriminate Hm.
  - exists bs, j. split; [exact Hi|].
    assert (id = genesis_txid) as -> by (vm_compute in Hid; injection Hid as <-; vm_compute; reflexivity).
    split; [exact Hj|]. rewrite <-Hr. vm_compute. reflexivity.
Defined.

(** The address is asked for after the page: two requests, one chain. *)
Lemma web_requests_counted_witness :
  requests_of (web_monitor address_answer.2) = 1 ∧ web_chain address_answer.2 = Some synced_chain.
Proof.
  destruct (web_requests_counted env_0 (get (lit "/api/address/" ++ address_path)) web_0
    {| ws_code := 200; ws_type := lit "application/json"; ws_body := lit "json" |} address_answer.2)
    as (Hc & Hn & _).
  - change (web_handle _ _ web_0) with address_answer. apply result_eq. vm_compute. reflexivity.
  - split; [rewrite Hn; vm_compute; reflexivity|exact Hc].
Defined.

Lemma web_sync_rounds_witness :
  ∃ chain' bs', web_chain round_2.2 = Some chain' ∧ chain_inv (W := Z) chain' bs' ∧
    length (ic_headers chain') = 2%nat.
Proof.
  destruct (web_sync_rounds empty_chain [] empty_web round_2.2) as (chain' & bs' & Hc & H).
  - exact empty_inv.
  - reflexivity.
  - apply (rounds_more _ round_1.2 _ 0 1 2); [apply result_eq; vm_compute; reflexivity|].
    apply (rounds_end _ _ 3 4 5). apply result_eq. vm_compute. reflexivity.
  - exists chain', bs'. split; [exact Hc|].
    assert (last_sync_error _ (wm_sync (web_monitor round_2.2)) = None) as He by (vm_compute; reflexivity).
    cbv zeta in H. rewrite He in H. split; [exact (proj1 H)|].
    assert ((λ c, length (ic_headers c)) <$> web_chain round_2.2 = Some 2%nat) as Hl by (vm_compute; reflexivity).
    rewrite Hc in Hl. by injection Hl.
Defined.
End witnesses.
