(* ===== verification/LiquidTheorems.v ===== *)
(** * Correctness of the Liquid build

    The properties of what the [liquid] feature compiles, each with the concrete
    input that shows its hypotheses can hold. *)

From S2P Require Import Prelude External Text Utf8 Index TxPos HashIndex Fmt Headers Batch Store StoreSpec.
From S2P Require Import Client Chain ChainSpec ChainSync ChainQuery LiquidIndex.
From S2P Require Import Merkle Protocol Mempool CoreRest ScriptFold Adapter TorPush Config Bitcoind.
From S2P Require Import AdapterSpec Monitor Server Deadline Http RestTypes RestQuery RestAddress.
From S2P Require Import RestHandlers Rest RestQuerySpec LiquidTypes LiquidRest LiquidSpec Instances.
From S2P Require Import ElectrumInstances RestInstances.

Section index.
Context `{HS : !Hashes, HSL : !HashLaws, SO : !ScriptOps, VI : !VarInt, VIL : !VarIntLaws,
  SL : !Slices, SLL : !SlicesLaws, EL : !Elements, ELL : !ElementsLaws}.

(** C13: the batch of a Liquid block indexes exactly that block: the block is a
    header, a count and transactions that decode; the batch has their script
    rows, those of the spent outputs, their id rows and position rows, and the
    numbers advance by their count; the position of each transaction cuts bytes
    out of the block that decode to its id. *)
Theorem liquid_batch_exact height r hash block spent b :
  liquid_batch_build height r hash block spent = Ok b → is_u32 (range_first r) →
  Z.of_nat (length (block_data block)) < 2 ^ 32 →
  ∃ txs sss, liquid_spec height (range_first r) hash block spent txs sss b ∧
    range_next r = range_first r + Z.of_nat (length txs) ∧
    ∀ i tx, txs !! i = Some tx →
      ∃ p, rows_locate (txpos_rows b) (range_first r + Z.of_nat i) p ∧
        liquid_txid (take (Z.to_nat (size p)) (drop (Z.to_nat (offset p)) (block_data block)))
          = Ok (stx_txid tx).
Proof.
  intros Hb Ht Hsize. destruct (liquid_batch_build_ok _ _ _ _ _ _ Hb Ht Hsize) as (txs & sss & Hs & Hn).
  exists txs, sss. split_and!; [done..|]. intros i tx. by eapply liquid_located.
Qed.
End index.

Section headers.
Context {S W : Type} `{HA : !HttpAgent W, EL : !Elements, ELL : !ElementsLaws, SL : !Slices}.

(** The raw headers a Liquid server answers, which it does not store,
    are those it indexed: at most as many as asked for, and each hashes to the
    header of the chain at its height. *)
Theorem liquid_headers_exact (self : IndexedChain S) start count (w : W) raws w' :
  0 ≤ start → 0 ≤ count →
  liquid_block_headers_raw self start count w = (Ok raws, w') →
  Z.of_nat (length raws) ≤ count ∧
  ∀ i raw, raws !! i = Some raw →
    ∃ h, header_at_height (ic_headers self) (start + Z.of_nat i) = Some h ∧
      el_header_hash raw = Some (ih_hash h).
Proof. apply liquid_block_headers_raw_ok. Qed.
End headers.

Section prevouts.
Context {S W F : Type} `{HS : !Hashes, HX : !Hex, HT : !HashText, ST : !ScriptHashText,
  TT : !TxidText, TP : !TxidParse, BT : !BlockHashText, SO : !ScriptOps, VI : !VarInt,
  SL : !Slices, CS : !Consensus, RD : !RocksDB S, HA : !HttpAgent W, RA : !RpcAgent W,
  FS : !Files, JT : !JsonText, JF : !JsonFloats, SD : !Serde, MS : !Millis F,
  RS : !RpcSyncAgent W, EL : !Elements, ES : !ElementsScripts, ET : !ElementsTxs, SC : !Scripts}.
Context (adapter_error_text : adapter_error slices_error → str)
  (corerest_error_text : corerest_error → str) (rpc_error_text : rpc_error → str).
Context (interfere : nat → Adapter S → Adapter S) (mempool_at : nat → MempoolIndex)
  (clock : nat → Z) (rpc : option RpcClient).

End prevouts.

Section reads.
Context {S W F : Type} `{HS : !Hashes, HX : !Hex, HT : !HashText, ST : !ScriptHashText,
  TT : !TxidText, TP : !TxidParse, BT : !BlockHashText, SO : !ScriptOps, VI : !VarInt,
  SL : !Slices, CS : !Consensus, RD : !RocksDB S, HA : !HttpAgent W, RA : !RpcAgent W,
  FS : !Files, JT : !JsonText, JF : !JsonFloats, SD : !Serde, MS : !Millis F,
  RS : !RpcSyncAgent W, UP : !Upstream W, EL : !Elements, ELL : !ElementsLaws, ES : !ElementsScripts,
  ET : !ElementsTxs, SC : !Scripts}.
Context (adapter_error_text : adapter_error slices_error → str)
  (corerest_error_text : corerest_error → str) (rpc_error_text : rpc_error → str).
Context (interfere : nat → Adapter S → Adapter S) (mempool_at : nat → MempoolIndex)
  (clock : nat → Z) (rpc : option RpcClient) (asset_upstream : option str).
Abbreviation reads :=
  (liquid_reads (F := F) adapter_error_text corerest_error_text rpc_error_text interfere mempool_at clock
     rpc asset_upstream).

(** Whatever other threads do meanwhile, what the handlers of the Liquid build
    read is right: the time of a block is that of a header with the hash of the
    block a chain of the server had at that height; an unspent output is
    answered with the asset, value and nonce of that output of a transaction
    that the mempool, the chain or the node had under its id. *)
Theorem liquid_reads_exact (I : IndexedChain S → Prop) :
  (∀ n a, adapter_ok (W := W) I a → adapter_ok (W := W) I (interfere n a)) →
  BlockTimes S W F (FR := reads) (rest_ok I) (liquid_time_at I) ∧
  UtxoValues S W F (FR := reads) (rest_ok I)
    (liquid_utxo_shown (W := W) rpc_error_text mempool_at rpc).
Proof. intros Hother. split; [by apply liquid_block_times|by apply liquid_utxo_values]. Qed.
End reads.

Section assets.
Context {S W F : Type} `{HS : !Hashes, HX : !Hex, HT : !HashText, ST : !ScriptHashText,
  TT : !TxidText, TP : !TxidParse, BT : !BlockHashText, SO : !ScriptOps, VI : !VarInt,
  SL : !Slices, CS : !Consensus, RD : !RocksDB S, HA : !HttpAgent W, RA : !RpcAgent W,
  FS : !Files, JT : !JsonText, JF : !JsonFloats, SD : !Serde, MS : !Millis F, SC : !Scripts,
  RF : !RestFloats, RT : !Rates, RS : !RpcSyncAgent W, UP : !Upstream W, EL : !Elements,
  ES : !ElementsScripts, ET : !ElementsTxs}.
Context (params : Params) (config : RestConfig) (server_config : Config) (rpc : RpcClient)
  (tor_push : option TorTargets).
Context (adapter_error_text : adapter_error slices_error → str)
  (corerest_error_text : corerest_error → str) (rpc_error_text : rpc_error → str)
  (tor_error_text : tor_error → str) (utf8_error_text : bytes → str) (debug_str : str → str)
  (strings_to_vec : list str → bytes).
Context (interfere : nat → Adapter S → Adapter S) (mempool_at : nat → MempoolIndex)
  (push_env : nat → PushEnv) (mode : overflow_mode) (clock : nat → Z).

(** C33: a [GET] of an asset route reaches the upstream server as a URL below
    its own: segments of letters, digits, [_] and [-], and a query that is read
    back as the one of the request; any other path is refused, and nothing is
    sent without an upstream. The answer has the status of the upstream, and one
    of three content types. *)
Theorem asset_proxy_exact upstream request deadline (s : Rest S W F) r s' :
  map_Forall (λ k v, is_text_pair (k, v)) (rq_query request) →
  rq_method request = lit "GET" → asset_path (segments request) →
  liquid_route params config server_config rpc tor_push adapter_error_text corerest_error_text
    rpc_error_text tor_error_text utf8_error_text debug_str strings_to_vec interfere mempool_at push_env
    mode clock upstream {| req_http := request; req_deadline := deadline |} s = (r, s') →
  let w := wd_node (pr_world (rt_peer s)) in
  let w' := wd_node (pr_world (rt_peer s')) in
  match upstream with
  | None => r = Err (not_found (lit "Asset id not found")) ∧ w' = w
  | Some server =>
      if decide (Forall plain_segment (segments request)) then
        ∃ q, asset_fetch (trim_end_slashes server ++ 47 :: join_with 47 (segments request) ++ q) w = (r, w') ∧
          match q with
          | [] => rq_query request = ∅
          | c :: text => c = 63 ∧ parse_query text = rq_query request
          end ∧
          ∀ response, r = Ok response →
            rs_content_type response ∈ [lit "application/json"; lit "application/octet-stream"; lit "text/plain"]
      else r = Err (bad_request (lit "Invalid asset path")) ∧ w' = w
  end.
Proof.
  intros Hq Hm Hp. rewrite liquid_route_asset by done. cbn [req_http]. intros (n & H & <-)%on_upstream_ok.
  by apply asset_proxy_ok.
Qed.
End assets.

(** ** A concrete chain *)

Module LiquidToy.
Export RToy.

(** A transaction has an explicit output of one unit per script; what it spends
    is written in its scripts. *)
Definition no_issuance : elements_issuance :=
  {| is_blinding_nonce := []; is_entropy := []; is_amount := ValueNull; is_inflation_keys := ValueNull |}.
Definition asset_0 : hash32 := all_zeros.
Definition liquid_of_slice (tx : slice_tx) : elements_tx := {|
  et_version := 2; et_locktime := 0;
  et_inputs := (λ o, {| ei_prevout := o; ei_is_pegin := false; ei_script_sig := []; ei_sequence := 0;
                        ei_issuance := no_issuance; ei_script_witness := [] |}) <$> omap spent_by (stx_scripts tx);
  et_outputs := (λ s, {| eo_asset := AssetExplicit asset_0; eo_value := ValueExplicit 1; eo_nonce := NonceNull;
                         eo_script := s |}) <$> stx_scripts tx;
|}.
Definition liquid_deserialize (b : bytes) : option elements_tx :=
  '(tx, u) ← parse_tx b; if bool_decide (u = length b) then Some (liquid_of_slice tx) else None.
#[export] Instance elements : Elements := {
  el_header_partial b := if bool_decide (80 ≤ length b)%nat then Some 80%nat else None;
  el_header_hash b := if bool_decide (length b = 80%nat) then Some (checksum b) else None;
  el_tx_deserialize := liquid_deserialize;
  el_tx_deserialize_partial b :=
    '(_, u) ← parse_tx b;
    if bool_decide (0 < u ≤ length b)%nat then tx ← liquid_deserialize (take u b); Some (tx, u) else None;
  el_varint_partial := scan;
  el_txid tx := checksum (mk_tx (eo_script <$> et_outputs tx));
  el_weight tx := Z.of_nat (length (et_outputs tx));
  el_outpoint_is_null o := bool_decide (op_vout o = 2 ^ 32 - 1);
}.
#[export] Instance elements_laws : ElementsLaws.
Proof.
  split; cbn [el_header_partial el_header_hash el_tx_deserialize el_tx_deserialize_partial el_varint_partial
    el_txid elements].
  - intros b n. case_bool_decide; [|done]. intros [= <-]. split; [lia|].
    rewrite bool_decide_eq_true_2 by (rewrite length_take; lia). by eexists.
  - intros b tx n ([t u] & _ & H)%bind_Some. case_bool_decide as Hu; [|done].
    apply bind_Some in H as (tx' & Htx & [= <- <-]). done.
  - intros b x n (Hx & ? & _)%scan_ok. unfold is_u64 in Hx. lia.
  - intros tx. apply checksum_wf.
Qed.

#[export] Instance elements_scripts : ElementsScripts := {
  els_asm := encode; els_is_p2pk _ := false; els_is_p2pkh _ := false; els_is_p2sh _ := false;
  els_is_v0_p2wpkh _ := false; els_is_v0_p2wsh _ := false; els_is_v1_p2tr _ := false;
  els_is_witness_program _ := false; els_is_provably_unspendable _ := false;
  els_instructions b := [InstrPush b]; btc_instructions b := [InstrPush b];
  els_address b _ := Some (encode b); els_address_parse s _ := match decode s with Some b => inr b | None => inl s end;
}.
Definition liquid_decode_0 (b : bytes) : str + elements_tx :=
  match liquid_deserialize b with Some tx => inr tx | None => inl (lit "bad transaction") end.
Definition header_json (b : bytes) : elements_header := {| eh_time := nth 79 b 0; eh_ext := inr JNull |}.
#[export] Instance elements_txs : ElementsTxs := {
  elt_decode := liquid_decode_0;
  elt_decode_block b := match mapM (λ tx, liquid_deserialize (stx_raw tx)) (block_txs b) with
                        | Some txs => inr txs | None => inl (lit "bad block") end;
  elt_is_coinbase tx := bool_decide (et_inputs tx = []); elt_size tx := Z.of_nat (length (et_outputs tx));
  elt_fee_in _ _ := 0; eli_is_coinbase _ := false; eli_has_issuance _ := false;
  elo_is_fee o := match eo_script o, eo_value o, eo_asset o with [], ValueExplicit _, AssetExplicit _ => true | _, _, _ => false end;
  elo_pegout_data _ := None; serialize_value _ := []; serialize_asset _ := []; serialize_nonce _ := [];
  ZERO_TWEAK := []; generate_asset_entropy o _ := op_txid o; asset_from_entropy b := b;
  asset_to_string := encode; asset_from_str s := Some s; midstate_to_string := encode;
  contract_hash_to_string := encode; genesis_block_hash _ := genesis_id; elh_deserialize b := inr (header_json b);
}.
#[export] Instance rpc_sync_agent : RpcSyncAgent Z := { rpc_post_sync w _ _ := (inl (RpcFailed []), w) }.
#[export] Instance upstream : Upstream Z := {
  upstream_get w url := (Some {| up_status := 200; up_header _ := None; up_body := inr url |}, w)
}.

Definition range_1 : TxNumRange := {| range_first := 1; range_next := 3; range_len := 2 |}.
Definition block_1_bytes : BlockBytes := {| block_data := block_1; block_header_len := 80 |}.
Definition liquid_batch_1 := liquid_batch_build 1 range_1 id_1 block_1_bytes {| spent_data := spent_1 |}.
Definition headers_run := liquid_block_headers_raw synced_chain 0 5 0.
Definition asset_request : HttpRequest := get_request "/asset/0a1b/icon?size=2&lang=en+US".
Definition params_0 : Params := {|
  par_address := ELEMENTS; par_parent := NetRegtest; par_parent_genesis := genesis_id;
  par_policy_asset := asset_0; par_pegouts := false;
|}.
(** A server of the Liquid build on the synchronized chain. *)
Definition server_0 (target : string) : outcome HttpError HttpResponse * Rest MapDB.T Z Z :=
  liquid_route (CS := liquid_consensus) params_0 rest_config_default config_0 rpc_0 (Some targets_0)
    text_0 text_0 text_0 text_0 text_0 debug_0 vec_0 undisturbed no_mempool push_env_0 Wrapping now_0
    (Some (lit "http://assets/")) {| req_http := get_request target; req_deadline := never |} rest_0.
Definition asset_run := server_0 "/asset/0a1b/icon?size=2&lang=en+US".
End LiquidToy.

(** A property of a concrete value, by evaluation. *)
#[local] Ltac by_evaluation := apply (bool_decide_unpack _); vm_compute; exact I.

Section witnesses.
Import LiquidToy.

Lemma result_of {A B} (p : A * B) a : p.1 = a → p = (a, p.2).
Proof. destruct p. cbn. by intros ->. Qed.

(** The second transaction of the block is where its row says. *)
Lemma liquid_batch_exact_witness :
  ∃ b tx p, liquid_batch_1 = Ok b ∧ rows_locate (txpos_rows b) 2 p ∧
    liquid_txid (take (Z.to_nat (size p)) (drop (Z.to_nat (offset p)) block_1)) = Ok (stx_txid tx).
Proof.
  assert (is_Some (match liquid_batch_1 with Ok b => Some b | _ => None end)) as [b Hb].
  { vm_compute. by eexists. }
  destruct liquid_batch_1 as [b'|?|?] eqn:E; [|done|done]. clear b Hb.
  destruct (liquid_batch_exact 1 range_1 id_1 block_1_bytes {| spent_data := spent_1 |} b')
    as (txs & sss & _ & Hn & Hloc).
  - exact E.
  - unfold is_u32. cbn. lia.
  - apply Z.ltb_lt. vm_compute. reflexivity.
  - cbn in Hn. assert (length txs = 2%nat) as Hl by lia.
    destruct (lookup_lt_is_Some_2 txs 1) as [tx Htx]; [lia|].
    destruct (Hloc _ _ Htx) as (p & Hp & Hid). exists b', tx, p. split; [reflexivity|]. split; [exact Hp|exact Hid].
Defined.

Lemma liquid_headers_exact_witness :
  ∃ raws, headers_run.1 = Ok raws ∧ length raws = 2%nat ∧
    ∀ i raw, raws !! i = Some raw →
      ∃ h, header_at_height (ic_headers synced_chain) (0 + Z.of_nat i) = Some h ∧
        el_header_hash raw = Some (ih_hash h).
Proof.
  exists [genesis_header; header_1].
  assert (headers_run.1 = Ok [genesis_header; header_1]) as E by (vm_compute; reflexivity).
  split; [exact E|]. split; [reflexivity|].
  apply (liquid_headers_exact synced_chain 0 5 (0 : Z) [genesis_header; header_1] headers_run.2); [lia..|].
  exact (result_of headers_run _ E).
Defined.


(** The upstream server echoes the URL it is asked for. *)
Lemma asset_proxy_exact_witness :
  ∃ q, asset_fetch (trim_end_slashes (lit "http://assets/") ++ 47 :: lit "asset/0a1b/icon" ++ q) 0 =
         (asset_run.1, wd_node (pr_world (rt_peer asset_run.2))) ∧
    match q with [] => False | c :: text => c = 63 ∧ parse_query text = rq_query asset_request end ∧
    rs_body <$> match asset_run.1 with Ok response => Some response | _ => None end
      = Some (lit "http://assets/asset/0a1b/icon?lang=en%2BUS&size=2").
Proof.
  pose proof (asset_proxy_exact (CS := liquid_consensus) params_0 rest_config_default config_0 rpc_0
    (Some targets_0) text_0 text_0 text_0 text_0 text_0 debug_0 vec_0 undisturbed no_mempool push_env_0
    Wrapping now_0 (Some (lit "http://assets/")) asset_request never rest_0 asset_run.1 asset_run.2) as H.
  cbv beta zeta iota in H. rewrite decide_True in H.
  2: { by_evaluation. }
  destruct H as (q & Hf & Hq & _).
  - apply map_Forall_to_list. unfold is_text_pair, is_text, bytes_wf, is_u8. by_evaluation.
  - reflexivity.
  - exists (lit "asset"), [lit "0a1b"; lit "icon"]. split; [by_evaluation|by left].
  - symmetry. apply surjective_pairing.
  - exists q. split; [exact Hf|]. split; [|vm_compute; reflexivity].
    destruct q as [|c q]; [|exact Hq]. apply (f_equal map_to_list) in Hq. vm_compute in Hq. discriminate Hq.
Defined.

(** The time of the first block, and its first output: one unit of an asset. *)
Definition reads_0 : FormatReads MapDB.T Z Z (FO := liquid_format) :=
  liquid_reads (CS := liquid_consensus) text_0 text_0 text_0 undisturbed no_mempool now_0 (Some rpc_0) None.
Definition time_run := read_block_time (FormatReads := reads_0) 0 rest_0.
Definition utxo_run :=
  read_utxo_value (FormatReads := reads_0) {| op_txid := genesis_txid; op_vout := 0 |} status_unconfirmed 7 rest_0.
Definition time_0 : Z := Eval vm_compute in match time_run.1 with Ok t => t | _ => 0 end.
Definition value_of (r : outcome HttpError (option LiquidUtxoValue)) : option (option Z) :=
  match r with Ok v => lu_value <$> v | _ => None end.
Lemma time_run_ok : time_run = (Ok time_0, time_run.2).
Proof. refine (result_of time_run _ _). vm_compute. reflexivity. Qed.
Lemma liquid_reads_exact_witness :
  liquid_time_at chain_is_synced 0 time_0 ∧ value_of utxo_run.1 = Some (Some 1).
Proof.
  split; [|vm_compute; reflexivity].
  destruct (liquid_reads_exact (F := Z) (CS := liquid_consensus) text_0 text_0 text_0 undisturbed no_mempool
    now_0 (Some rpc_0) None chain_is_synced) as [Ht _]; [by intros n a Ha|].
  destruct (Ht 0 rest_0 time_0 time_run.2) as [_ H]; [|exact time_run_ok|exact H].
  split; [reflexivity|]. intros sh e. cbn. by rewrite lookup_empty.
Defined.
End witnesses.
