(* ===== verification/DriverTheorems.v ===== *)
(** * Correctness of the daemon and of the command-line tool

    The properties of [bindex-sync] and [bindex-cli], each with the concrete
    input that shows its hypotheses can hold. *)

From S2P Require Import Prelude External Text Utf8 Index TxPos HashIndex Fmt Headers Batch Store StoreSpec.
From S2P Require Import Client Chain ChainSpec ChainSync ChainQuery ChainSecondary Cache CacheSpec CacheSync CacheTheorems.
From S2P Require Import History HistorySpec Daemon Protocol Mempool Adapter Bitcoind RestTypes Cli CliSpec.
From S2P Require Import Instances ElectrumInstances RestInstances.

(** ** The daemon *)

Section daemon.
Context {S W : Type} `{HS : !Hashes, HSL : !HashLaws, SO : !ScriptOps, VI : !VarInt,
  VIL : !VarIntLaws, SL : !Slices, SLL : !SlicesLaws, CS : !Consensus, RD : !RocksDB S,
  RL : !RocksDBLaws S, CJ : !ConfigJson, HA : !HttpAgent W, NL : !NodeLaws W}.
Implicit Types (d : Daemon (S := S) (W := W)) (bs : list Batch).






(** An announcement ends the wait: with one queued it does not block, and a
    wait for the whole interval starts with none queued and leaves none; after
    it only those sent while the queue was drained are left, so that each is
    followed by a round. *)
Theorem wait_for_block_wakes e sent r w r' :
  wait_for_block e sent r = (w, r') →
  ((0 < rc_queued r)%nat → w = UntilWakeUp) ∧
  (w = WholePoll → rc_queued r = 0%nat ∧ rc_queued r' = 0%nat) ∧
  (rc_queued r' ≤ sum_list sent)%nat ∧ (rc_alive r = true → e ≠ ListenerEnds → rc_alive r' = true).
Proof.
  assert (∀ queued, drain sent queued ≤ sum_list sent)%nat as Hd.
  { induction sent as [|k sent IH]; intros queued; cbn; [lia|].
    destruct (queued + k)%nat as [|m]; [lia|]. specialize (IH m). lia. }
  unfold wait_for_block, recv_timeout. destruct r as [[|queued] alive]; cbn.
  - destruct alive; [destruct e|]; intros [= <- <-]; cbn; (split; [lia|]); (split; [done|]); (split; [|done]);
      apply Hd || lia.
  - intros [= <- <-]. cbn. split_and!; [done|done|apply Hd|done].
Qed.

(** While the daemon lives the listener goes on: each message it receives sends
    one wake-up, and an error makes it connect again. *)
Theorem listener_goes_on l e l' sent :
  listener_step true l e = (l', sent) →
  (l' = Ended → l = Ended) ∧ (sent = true ↔ l = Listening ∧ e = ZmqOk).
Proof. destruct l, e; intros [= <- <-]; split; try done; split; try done; by intros []. Qed.
End daemon.

(** ** The command-line tool *)

Section cli.
Context {S W : Type} `{HS : !Hashes, HSL : !HashLaws, SO : !ScriptOps, VI : !VarInt,
  VIL : !VarIntLaws, SL : !Slices, SLL : !SlicesLaws, CS : !Consensus, RD : !RocksDB S,
  RL : !RocksDBLaws S, HA : !HttpAgent W, NL : !NodeLaws W, ST : !SliceTransactions,
  STL : !SliceTransactionsLaws, TX : !Transactions, SC : !Scripts, TT : !TxidText, CT : !CliTexts}.
Implicit Types (s : CliState (S := S) (W := W)) (c : Cache W) (bs : list Batch).

(** After a synchronization the history tables have exactly the rows of the
    watched scripts. *)
Lemma synced_rows chain bs c c' :
  cache_reachable (S := S) c → chain_inv (W := W) chain bs → cache_sync chain c = (Ok tt, c') →
  exactly_rows (W := W) bs (watches (ca_tables c')) (ca_tables c').
Proof.
  intros [Ho (bs0 & Hcb & Hok)]%reachable_ok Hinv H.
  destruct (cache_sync_ok chain bs0 bs c c') as (Hok' & _ & Hw & Hc); [done..|].
  split; [apply Hok'|]. unfold watches. intros key a. split.
  - intros Hk. pose proof (to_watch _ (ro_tables _ _ (co_rows _ _ Hok')) _ _ Hk) as Hx.
    pose proof Hx as Hx'. rewrite Hw in Hx'. apply (Hc _ Hx') in Hk as (n & He); [|done].
    by exists n, (hk_script_hash key).
  - intros (n & sh & Hx & He). rewrite Hw in Hx. apply (Hc sh Hx); [by eapply expected_key|by exists n].
Qed.

(** C15: the history of the watched addresses is computed without an error, an
    overflow or a failed assertion, after any synchronization of any reachable
    cache, when less than [2^63] satoshis were paid to them, the chain obeys consensus
    and its headers decode: one row per transaction that touches them, in chain order, with
    its time, what it pays less what it spends, and the balance after it. *)
Theorem cli_history_exact chain bs c c' :
  cache_reachable (S := S) c → chain_inv (W := W) chain bs → cache_sync chain c = (Ok tt, c') →
  history_consensus (W := W) bs (watches (ca_tables c')) → headers_decode (ca_tables c') →
  pos_sum (history_amounts (ca_tables c')) < 2 ^ 63 →
  ∃ entries rows, get_history (ca_tables c') = Ok entries ∧
    history_rows (W := W) bs (watches (ca_tables c')) rows ∧ shows rows entries.
Proof.
  intros Hr Hinv Hs Hc Hh Hp. pose proof (synced_rows _ _ _ _ Hr Hinv Hs) as Her.
  destruct (get_history_total bs (ca_tables c')) as [entries He]; [apply Hinv|done..|].
  destruct (get_history_ok bs (ca_tables c') entries) as (rows & Hrows & Hsh); [apply Hinv|done..|].
  by exists entries, rows.
Qed.



(** What is printed of a history: the latest rows first, at most [limit] of
    them, and dots when there are more. *)
Theorem print_history_latest entries limit table :
  print_history entries limit = Some table →
  (0 < limit)%nat ∧ (∀ k, (k < Nat.min limit (length entries))%nat →
    table !! k = entries !! (length entries - 1 - k)%nat) ∧
  drop (Nat.min limit (length entries)) table =
    if decide (limit < length entries)%nat then [entry_dots] else [].
Proof.
  unfold print_history. case_bool_decide as Hl; [|done].
  set (body := take limit (reverse entries)). assert (length body = Nat.min limit (length entries)) as Hlen.
  { unfold body. by rewrite length_take, length_reverse. }
  intros Ht. assert (table = body ++ if decide (limit < length entries)%nat then [entry_dots] else []) as ->.
  { repeat case_bool_decide; rewrite ?decide_True, ?decide_False by done; rewrite ?app_nil_r;
      destruct body; naive_solver. }
  clear Ht. split; [done|]. split.
  - intros k Hk. rewrite lookup_app_l by lia. unfold body. rewrite lookup_take_lt by lia.
    rewrite reverse_lookup by lia. f_equal. lia.
  - rewrite drop_app_length'; [|by rewrite Hlen]. by case_decide.
Qed.
End cli.

(** ** A concrete run *)

Module DriverToy.
Export RToy CToy.

#[export] Instance cli_texts : CliTexts := {
  utc_text := show_unsigned; delta_text := show_unsigned; balance_text := show_unsigned;
  address_canonical s := s;
}.


(** The transactions of the synchronized chain obey consensus. *)
Definition synced_decoded : list bitcoin_tx := Eval vm_compute in
  omap (λ tx, tx_deserialize (stx_raw tx)) synced_slices.
Lemma synced_slices_decoded : (λ tx, tx_deserialize (stx_raw tx)) <$> synced_slices = Some <$> synced_decoded.
Proof. vm_compute. reflexivity. Qed.
Lemma synced_decoded_at bs sh n i j p :
  chain_inv (W := Z) synced_chain bs → script_tx (W := Z) bs sh n i j p →
  ∃ k, n = Z.of_nat k ∧ synced_decoded !! k = Some p.
Proof.
  intros Hi (h & d & tx & spent & Hct & _ & Hp).
  destruct (synced_slice_at _ _ _ _ _ _ _ _ Hi Hct) as (k & -> & Hk). exists k. split; [done|].
  pose proof (f_equal (lookup k) synced_slices_decoded) as Heq.
  rewrite !list_lookup_fmap, Hk in Heq. cbn [fmap option_fmap option_map] in Heq. rewrite Hp in Heq.
  destruct (synced_decoded !! k) as [p'|]; [|done]. by injection Heq as <-.
Qed.
Lemma synced_consensus bs P : chain_inv (W := Z) synced_chain bs → history_consensus (W := Z) bs P.
Proof.
  intros Hi.
  assert (∀ k p v o, synced_decoded !! k = Some p → btx_outputs p !! v = Some o → 0 ≤ btxout_value o) as Ho.
  { intros k p v o Hp Hv. assert (Forall (λ p, Forall (λ o, 0 ≤ btxout_value o) (btx_outputs p)) synced_decoded) as Ha
      by (repeat constructor; by vm_compute).
    pose proof (Forall_lookup_1 _ _ _ _ Ha Hp) as Hps. exact (Forall_lookup_1 _ _ _ _ Hps Hv). }
  assert (∀ n m p q k l op, synced_decoded !! n = Some p → synced_decoded !! m = Some q →
    btx_inputs p !! k = Some op → btx_inputs q !! l = Some op → n = m ∧ k = l) as Honce.
  { intros n m p q k l op Hn Hm Hk Hl.
    destruct n as [|[|[|n]]]; [injection Hn as <-; cbn in Hk; by destruct k..|injection Hn as <-; cbn in Hk|by destruct n].
    destruct m as [|[|[|m]]]; [injection Hm as <-; cbn in Hl; by destruct l..|injection Hm as <-; cbn in Hl|by destruct m].
    destruct k as [|k]; [|by destruct k]. destruct l as [|l]; [done|by destruct l]. }
  split.
  - intros sh n i j p v a _ (k & _ & Hk)%synced_decoded_at (o & Hv & _ & <-); [|done]. by eapply Ho.
  - intros sh n i j p k op a m i' j' q l _ (n' & -> & Hn)%synced_decoded_at Hk _
      (m' & -> & Hm)%synced_decoded_at Hl; [|done..].
    by destruct (Honce _ _ _ _ _ _ _ Hn Hm Hk Hl) as [-> ->].
Qed.
End DriverToy.

Section witnesses.
Import DriverToy.


Lemma wait_for_block_wakes_witness :
  wait_for_block NothingArrives [0; 1]%nat {| rc_queued := 2; rc_alive := true |} =
    (UntilWakeUp, {| rc_queued := 0; rc_alive := true |}) ∧ (0 ≤ 1)%nat.
Proof.
  split; [reflexivity|].
  apply (wait_for_block_wakes NothingArrives [0; 1]%nat {| rc_queued := 2; rc_alive := true |} UntilWakeUp
    {| rc_queued := 0; rc_alive := true |}). reflexivity.
Defined.

Lemma listener_goes_on_witness : listener_step true Listening ZmqError = (Pausing, false) ∧ Pausing ≠ Ended.
Proof.
  split; [reflexivity|]. intros H.
  destruct (listener_goes_on Listening ZmqError Pausing false eq_refl) as [Hl _]. discriminate (Hl H).
Defined.

(** What was paid in the genesis block was spent. *)
Lemma cli_history_exact_witness :
  ∃ entries rows bs, get_history (ca_tables cached) = Ok entries ∧
    history_rows (W := Z) bs (watches (ca_tables cached)) rows ∧ length entries = 2%nat.
Proof.
  destruct synced_inv as [bs Hi].
  destruct (cli_history_exact synced_chain bs watching cached) as (entries & rows & He & Hrows & Hlen & _).
  - exact watching_reachable.
  - exact Hi.
  - exact cached_ok.
  - exact (synced_consensus bs _ Hi).
  - unfold headers_decode. apply map_Forall_to_list. vm_compute. repeat constructor; by eexists.
  - apply Z.ltb_lt. vm_compute. reflexivity.
  - exists entries, rows, bs. split; [exact He|]. split; [exact Hrows|].
    assert (match get_history (ca_tables cached) with Ok es => length es | _ => 0%nat end = 2%nat) as Hl
      by (vm_compute; reflexivity).
    rewrite He in Hl. exact Hl.
Defined.


Lemma print_history_latest_witness :
  print_history [entry_dots; entry_dots; entry_dots] 2 = Some [entry_dots; entry_dots; entry_dots] ∧ (0 < 2)%nat.
Proof.
  split; [reflexivity|].
  apply (print_history_latest [entry_dots; entry_dots; entry_dots] 2 [entry_dots; entry_dots; entry_dots]).
  reflexivity.
Defined.
End witnesses.
